(** * lrtm_count_distinct: the sorted-array distinct set of [lrtm_count_distinct.c]

    A shallow embedding of the element set ([element_set_t]) and of the
    aggregate support functions built on it: the transition functions
    ([lrtm_count_distinct_append], [lrtm_count_distinct_elements_append]),
    the parallel-aggregation functions ([lrtm_count_distinct_serial],
    [lrtm_count_distinct_deserial], [lrtm_count_distinct_combine]), the final
    functions ([lrtm_count_distinct], [array_agg_distinct_type_by_element],
    [array_agg_distinct_type_by_array] with their [build_array]) and the
    subroutines [compact_set], [add_element], [init_set] and
    [compare_items].

    The model comes first, then the vocabulary of the statements, the
    lemmas about the single functions, their functional correctness
    (compaction as sorting and removing repetitions, a run of appends, the
    merge of combine), and the theorems about the aggregate as a whole.

    Modelling conventions.
    - A [uint32] is a [Z] with the wrap-around [u32] written at every
      arithmetic operation the C code performs on that type.
    - The [data] array is a flat list of bytes together with the identity of
      the allocated block; a [char *] into it is a byte offset.
    - [palloc] hands out indeterminate bytes: the memory state carries a
      [junk] function that supplies them, and every statement quantifies
      over it.
    - Functions run in a state-and-error monad over the memory state; the
      error outcomes are a failed [Assert], [elog(ERROR, ...)] and undefined
      behaviour (a read outside an object, a division by zero, a loop that
      would not stop).
    - The byte order is little-endian and pointers are 8 bytes wide (the
      LP64 targets PostgreSQL is normally built for).
    - The two [double] tests of the growth step are stated over the
      integers, in the exact form they are equivalent to.
    - A state passed to a function, or returned by one that can return
      SQL NULL, is an [option]: [None] stands for a datum marked null.
      Combine returns through [PG_RETURN_POINTER] on every path; its
      result is a [pointer_datum], never marked null, whose pointer may be
      the null pointer.
    - The entry points are taken as called by the executor inside an
      aggregate context: [AggCheckCallContext] succeeds, and allocation
      requests are granted. *)

From Stdlib Require Import ZArith List Bool Lia.
From Stdlib Require Import Floats Uint63.
From coqutil Require Import Byte Word.LittleEndianList.
Import ListNotations.
Local Open Scope Z_scope.

(** ** Machine integers *)

Definition u32 (z : Z) : Z := z mod 2 ^ 32.
Definition add32 (a b : Z) : Z := u32 (a + b).
Definition sub32 (a b : Z) : Z := u32 (a - b).
Definition mul32 (a b : Z) : Z := u32 (a * b).

(** ** Byte regions *)

(** [memcmp(a, b, n)] on the two [n]-byte regions already read: the sign of
    the first differing pair of bytes, compared as unsigned chars. *)
Fixpoint memcmp (a b : list byte) : Z :=
  match a, b with
  | x :: a', y :: b' =>
      if byte.unsigned x <? byte.unsigned y then -1
      else if byte.unsigned y <? byte.unsigned x then 1
      else memcmp a' b'
  | _, _ => 0
  end.

(** The [n] bytes at offset [off] of a region. *)
Definition mem_read (buf : list byte) (off n : Z) : list byte :=
  firstn (Z.to_nat n) (skipn (Z.to_nat off) buf).

(** [memcpy(dst + off, src, |src|)].  A copy that runs past the end of [dst]
    shows as a region longer than [dst] was. *)
Definition memcpy (dst : list byte) (off : Z) (src : list byte) : list byte :=
  firstn (Z.to_nat off) dst ++ src ++ skipn (Z.to_nat off + length src) dst.

(** The [n] items of [size] bytes stored from offset [base] on. *)
Definition items (buf : list byte) (base size : Z) (n : nat) : list (list byte) :=
  map (fun i => mem_read buf (base + Z.of_nat i * size) size) (seq 0 n).

(** ** Memory state, outcomes and the monad *)

Record buffer := mkbuffer { block : Z; bytes : list byte }.

Record mem := mkmem {
  next_block : Z;               (* identity of the next block handed out *)
  live : list Z;                (* blocks allocated and not yet freed *)
  junk : Z -> nat -> byte       (* indeterminate contents of fresh blocks *)
}.

Inductive outcome (A : Type) : Type :=
| Ok (a : A)
| AssertFailed
| ElogError
| Undefined.
Arguments Ok {A} a.
Arguments AssertFailed {A}.
Arguments ElogError {A}.
Arguments Undefined {A}.

Definition M (A : Type) : Type := mem -> outcome (A * mem).

Definition ret {A} (a : A) : M A := fun m => Ok (a, m).

Definition bind {A B} (c : M A) (k : A -> M B) : M B :=
  fun m => match c m with
           | Ok (a, m') => k a m'
           | AssertFailed => AssertFailed
           | ElogError => ElogError
           | Undefined => Undefined
           end.

Definition elog_ERROR {A} : M A := fun _ => ElogError.
Definition undefined {A} : M A := fun _ => Undefined.

Notation "x <- c ;; k" := (bind c (fun x => k))
  (at level 61, c at next level, right associativity).
Notation "c ;; k" := (bind c (fun _ => k))
  (at level 61, right associativity).

Definition palloc (n : Z) : M buffer := fun m =>
  let b := next_block m in
  Ok (mkbuffer b (map (junk m b) (seq 0 (Z.to_nat n))),
      mkmem (b + 1) (b :: live m) (junk m)).

(** [palloc0]: the bytes of the block are zero. *)
Definition palloc0 (n : Z) : M buffer := fun m =>
  let b := next_block m in
  Ok (mkbuffer b (repeat Byte.x00 (Z.to_nat n)),
      mkmem (b + 1) (b :: live m) (junk m)).

Definition pfree (p : buffer) : M unit := fun m =>
  Ok (tt, mkmem (next_block m) (remove Z.eq_dec (block p) (live m)) (junk m)).

(** [repalloc]: a block of the new size that keeps the old contents up to
    the smaller of the two sizes; the old block is gone. *)
Definition repalloc (p : buffer) (n : Z) : M buffer :=
  q <- palloc n ;;
  pfree p ;;
  ret (mkbuffer (block q)
         (firstn (Z.to_nat n) (bytes p) ++ skipn (length (bytes p)) (bytes q))).

(** ** The element set *)

Record element_set_t := mkeset {
  item_size : Z;          (* uint32: length of the value *)
  nsorted : Z;            (* uint32: number of items in the sorted part *)
  nall : Z;               (* uint32: number of all items *)
  nbytes : Z;             (* uint32: number of bytes in the data array *)
  typalign : byte;        (* char *)
  padding : list byte;    (* the bytes between typalign and aggctx *)
  aggctx : Z;             (* MemoryContext, a pointer *)
  data : buffer           (* char * *)
}.

Definition set_nsorted (s : element_set_t) (v : Z) : element_set_t :=
  mkeset (item_size s) v (nall s) (nbytes s) (typalign s) (padding s) (aggctx s) (data s).
Definition set_nall (s : element_set_t) (v : Z) : element_set_t :=
  mkeset (item_size s) (nsorted s) v (nbytes s) (typalign s) (padding s) (aggctx s) (data s).
Definition set_nbytes (s : element_set_t) (v : Z) : element_set_t :=
  mkeset (item_size s) (nsorted s) (nall s) v (typalign s) (padding s) (aggctx s) (data s).
Definition set_data (s : element_set_t) (v : buffer) : element_set_t :=
  mkeset (item_size s) (nsorted s) (nall s) (nbytes s) (typalign s) (padding s) (aggctx s) v.
(** A store through [eset->data]: same block, new contents. *)
Definition set_bytes (s : element_set_t) (v : list byte) : element_set_t :=
  set_data s (mkbuffer (block (data s)) v).

(** *** Layout of the struct *)

Definition SIZEOF_POINTER : Z := 8.

(** A [Datum] is as wide as a pointer. *)
Definition SIZEOF_DATUM : Z := SIZEOF_POINTER.

Definition align_up (off a : Z) : Z := (off + a - 1) / a * a.

(** Four [uint32] (16 bytes), the [char] at 16, then the two pointers at
    their natural alignment. *)
Definition offsetof_aggctx (psz : Z) : Z := align_up 17 psz.
Definition offsetof_data (psz : Z) : Z := align_up (offsetof_aggctx psz + psz) psz.
Definition sizeof_element_set_t (psz : Z) : Z := align_up (offsetof_data psz + psz) psz.

(** [offsetof(element_set_t, data)] *)
Definition hlen : Z := offsetof_data SIZEOF_POINTER.
Definition npad : Z := offsetof_aggctx SIZEOF_POINTER - 17.

(** Exactly [n] bytes of [l] (zero-filled if [l] is short). *)
Definition fit (n : nat) (l : list byte) : list byte :=
  firstn n (l ++ repeat Byte.x00 n).

(** The first [hlen] bytes of the object representation of [*eset]. *)
Definition header_bytes (s : element_set_t) : list byte :=
  le_split 4 (item_size s) ++ le_split 4 (nsorted s) ++
  le_split 4 (nall s) ++ le_split 4 (nbytes s) ++
  [typalign s] ++ fit (Z.to_nat npad) (padding s) ++
  le_split (Z.to_nat SIZEOF_POINTER) (aggctx s).

(** Overwriting the first [hlen] bytes of [*eset] with [h]
    ([memcpy(eset, h, offsetof(element_set_t, data))]). *)
Definition store_header (s : element_set_t) (h : list byte) : element_set_t :=
  mkeset (le_combine (mem_read h 0 4)) (le_combine (mem_read h 4 4))
         (le_combine (mem_read h 8 4)) (le_combine (mem_read h 12 4))
         (nth 16 h Byte.x00) (mem_read h 17 npad)
         (le_combine (mem_read h (offsetof_aggctx SIZEOF_POINTER) SIZEOF_POINTER))
         (data s).

(** [palloc(sizeof(element_set_t))]: every field indeterminate. *)
Definition palloc_element_set_t : M element_set_t :=
  p <- palloc (sizeof_element_set_t SIZEOF_POINTER) ;;
  ret (store_header
         (mkeset 0 0 0 0 Byte.x00 [] 0
            (mkbuffer (le_combine (mem_read (bytes p) hlen SIZEOF_POINTER)) []))
         (bytes p)).

(** ** Sorting the unsorted part *)

(** [compare_items(a, b, &size)] *)
Definition compare_items (a b : list byte) (size : Z) : Z :=
  memcmp (mem_read a 0 size) (mem_read b 0 size).

Fixpoint insert_item (size : Z) (x : list byte) (l : list (list byte)) : list (list byte) :=
  match l with
  | [] => [x]
  | y :: l' => if compare_items x y size <=? 0 then x :: l else y :: insert_item size x l'
  end.

Definition sort_items (size : Z) (l : list (list byte)) : list (list byte) :=
  fold_right (insert_item size) [] l.

(** [qsort_arg(buf + base, n, size, compare_items, &size)].  Items that
    compare equal are the same bytes, so every sorting algorithm leaves the
    region in the state insertion sort leaves it in. *)
Definition qsort_arg (buf : list byte) (base n size : Z) : list byte :=
  memcpy buf base (concat (sort_items size (items buf base size (Z.to_nat n)))).

(** ** Growth policy

    The C code evaluates the two tests of the growth step in [double].  Both
    operands of [free * 1.0 / nbytes] are integers below [2^32], so the
    rounded quotient is below the double nearest to 0.2 exactly when
    [free / nbytes < 1/5] over the rationals; [nbytes / 0.8] is the double
    nearest to [5 * nbytes / 4] (or just below a non-integer value of it), so
    that it is below an integer threshold exactly when
    [5 * nbytes < 4 * threshold], and converting it to [uint32] truncates to
    [5 * nbytes / 4] rounded down.  The model states the tests in that exact
    form; the [double] computations are given next to them and compared with
    them on ranges of operands in the properties part. *)

(** [free_fract < ARRAY_FREE_FRACT], with
    [free_fract = free * 1.0 / nbytes] and [ARRAY_FREE_FRACT = 0.2] *)
Definition free_fract_below (free nbytes : Z) : bool := 5 * free <? nbytes.

(** [(nbytes / 0.8) < threshold] *)
Definition grown_below (nbytes threshold : Z) : bool := 5 * nbytes <? 4 * threshold.

(** [nbytes /= 0.8] *)
Definition div_0_8 (nbytes : Z) : Z := u32 (5 * nbytes / 4).

(** *** The same in binary64 arithmetic *)

(** The conversions between [uint32] and [double]: exact one way,
    truncating the other. *)
Definition double_of_uint32 (z : Z) : float := PrimFloat.of_uint63 (Uint63.of_Z z).

Definition uint32_of_double (f : float) : Z :=
  match Prim2SF f with
  | S754_finite false m e =>
      u32 (if 0 <=? e then Zpos m * 2 ^ e else Zpos m / 2 ^ (- e))
  | _ => 0
  end.

(** The doubles nearest to 0.2 and 0.8. *)
Definition ARRAY_FREE_FRACT : float := 0x1.999999999999ap-3%float.
Definition double_0_8 : float := 0x1.999999999999ap-1%float.

Definition free_fract_below_double (free nbytes : Z) : bool :=
  PrimFloat.ltb
    (PrimFloat.div (PrimFloat.mul (double_of_uint32 free) 1%float)
       (double_of_uint32 nbytes))
    ARRAY_FREE_FRACT.

Definition grown_below_double (nbytes threshold : Z) : bool :=
  PrimFloat.ltb (PrimFloat.div (double_of_uint32 nbytes) double_0_8)
    (double_of_uint32 threshold).

Definition div_0_8_double (nbytes : Z) : Z :=
  uint32_of_double (PrimFloat.div (double_of_uint32 nbytes) double_0_8).

(** ** The loops of [compact_set] *)

(** One turn of the duplicate-removing scan over the sorted new items:
    [st] is the region, [last] and [cnt]. *)
Definition dedup_step (size base : Z) (st : list byte * Z * Z) (i : Z)
  : list byte * Z * Z :=
  let '(buf, last, cnt) := st in
  let curr := base + mul32 i size in
  if memcmp (mem_read buf last size) (mem_read buf curr size) =? 0 then st
  else
    let last := last + size in
    let cnt := cnt + 1 in
    (if last =? curr then buf else memcpy buf last (mem_read buf curr size),
     last, cnt).

(** The [for (i = 1; i < n; i++)] scan. *)
Definition dedup_loop (size base n : Z) (buf : list byte) : list byte * Z * Z :=
  fold_left (dedup_step size base) (map Z.of_nat (seq 1 (Z.to_nat n - 1)))
    (buf, base, 1).

(** The [while (true)] merge of the sorted part [a, a_max) with the
    deduplicated new items [b, b_max) of [src] into [dst] at [ptr].  [fuel]
    bounds the number of turns; [None] is a loop that has not stopped. *)
Fixpoint merge_loop (fuel : nat) (size : Z) (src : list byte)
    (a a_max b b_max : Z) (dst : list byte) (ptr : Z) : option (list byte * Z) :=
  match fuel with
  | O => None
  | S fuel =>
      let r := memcmp (mem_read src a size) (mem_read src b size) in
      let '(dst, a, b) :=
        if r =? 0 then (memcpy dst ptr (mem_read src a size), a + size, b + size)
        else if r <? 0 then (memcpy dst ptr (mem_read src a size), a + size, b)
        else (memcpy dst ptr (mem_read src b size), a, b + size) in
      let ptr := ptr + size in
      if (a =? a_max) || (b =? b_max) then
        if negb (a =? a_max) then
          Some (memcpy dst ptr (mem_read src a (a_max - a)), ptr + (a_max - a))
        else if negb (b =? b_max) then
          Some (memcpy dst ptr (mem_read src b (b_max - b)), ptr + (b_max - b))
        else Some (dst, ptr)
      else merge_loop fuel size src a a_max b b_max dst ptr
  end.

(** Integer division as C has it: dividing by zero is undefined. *)
Definition div_checked (a b : Z) : M Z :=
  if b =? 0 then undefined else ret (a / b).

(** A read that must stay inside the object it reads from. *)
Definition read_checked (buf : list byte) (off n : Z) : M (list byte) :=
  if (0 <=? off) && (0 <=? n) && (off + n <=? Z.of_nat (length buf))
  then ret (mem_read buf off n) else undefined.

(** What [PG_RETURN_POINTER] returns: a datum that is not marked null,
    whatever the pointer in it; [None] is the null pointer.  (For the
    functions that return a state or SQL NULL, and for every argument, an
    [option] is the state pointed to, or [None] for a datum marked null.) *)
Inductive pointer_datum : Type :=
| PointerGetDatum (p : option element_set_t).

Section Build.

(** Whether [Assert] is compiled in. *)
Variable USE_ASSERT_CHECKING : bool.
(** The allocator's large-chunk threshold, from PostgreSQL's [memutils.h]. *)
Variable ALLOCSET_SEPARATE_THRESHOLD : Z.

Definition Assert (cond : bool) : M unit := fun m =>
  if USE_ASSERT_CHECKING && negb cond then AssertFailed else Ok (tt, m).

(** [compact_set] is given in the order of its source, one definition per
    block: sorting and scanning the new items, merging them with the sorted
    part, and the growth step. *)

(** The new items sorted and stripped of repetitions, and the counters
    updated ([qsort_arg] up to [eset->nsorted = eset->nall]). *)
Definition compact_new_items (eset : element_set_t) : element_set_t :=
  let base := mul32 (nsorted eset) (item_size eset) in
  let n := sub32 (nall eset) (nsorted eset) in
  let sorted := qsort_arg (bytes (data eset)) base n (item_size eset) in
  let '(buf, _, cnt) := dedup_loop (item_size eset) base n sorted in
  (* duplicities removed -> update the number of items in this part *)
  let eset := set_nall (set_bytes eset buf) (add32 (nsorted eset) cnt) in
  if nsorted eset =? 0 then set_nsorted eset (nall eset) else eset.

(** The block under [if (eset->nsorted < eset->nall)] that merges the two
    sorted runs into a fresh array. *)
Definition compact_merge (eset : element_set_t) : M element_set_t :=
  new <- palloc (nbytes eset) ;;
  let a_max := mul32 (nsorted eset) (item_size eset) in
  let b_max := mul32 (nall eset) (item_size eset) in
  match merge_loop (S (Z.to_nat (nall eset))) (item_size eset)
          (bytes (data eset)) 0 a_max a_max b_max (bytes new) 0 with
  | None => undefined
  | Some (out, ptr) =>
      Assert (ptr <=? mul32 (nall eset) (item_size eset)) ;;
      n <- div_checked ptr (item_size eset) ;;
      let eset := set_nsorted eset (u32 n) in
      let eset := set_nall eset (nsorted eset) in
      pfree (data eset) ;;
      ret (set_data eset (mkbuffer (block new) out))
  end.

(** The growth step that ends [compact_set]. *)
Definition compact_grow (eset : element_set_t) (need_space : bool) : M element_set_t :=
  let free := sub32 (nbytes eset) (mul32 (nall eset) (item_size eset)) in
  if need_space && free_fract_below free (nbytes eset) then
    let eset :=
      if grown_below (nbytes eset) ALLOCSET_SEPARATE_THRESHOLD
      then set_nbytes eset (mul32 (nbytes eset) 2)
      else set_nbytes eset (div_0_8 (nbytes eset)) in
    d <- repalloc (data eset) (nbytes eset) ;;
    ret (set_data eset d)
  else ret eset.

Definition compact_set (eset : element_set_t) (need_space : bool) : M element_set_t :=
  Assert (0 <? nall eset) ;;
  (* Assert(eset->data != NULL): the array of a model state is never null *)
  Assert (nsorted eset <=? nall eset) ;;
  Assert (mul32 (nall eset) (item_size eset) <=? nbytes eset) ;;
  eset <-
    (* if there are no new (unsorted) items, we don't need to sort *)
    (if nsorted eset <? nall eset then
       let eset := compact_new_items eset in
       if nsorted eset <? nall eset then compact_merge eset else ret eset
     else ret eset) ;;
  Assert (nall eset =? nsorted eset) ;;
  compact_grow eset need_space.

(** [value] holds the bytes of the [Datum] that [value] points to. *)
Definition add_element (eset : element_set_t) (value : list byte) : M element_set_t :=
  eset <- (if nbytes eset <? mul32 (item_size eset) (add32 (nall eset) 1)
           then compact_set eset true else ret eset) ;;
  Assert (mul32 (item_size eset) (add32 (nall eset) 1) <=? nbytes eset) ;;
  let eset := set_bytes eset
                (memcpy (bytes (data eset)) (mul32 (item_size eset) (nall eset))
                   (mem_read value 0 (item_size eset))) in
  ret (set_nall eset (add32 (nall eset) 1)).

Definition ARRAY_INIT_SIZE : Z := 32.

Definition init_set (item_size : Z) (typalign : byte) (ctx : Z) : M element_set_t :=
  eset <- palloc_element_set_t ;;
  let eset := mkeset (u32 item_size) 0 0 ARRAY_INIT_SIZE typalign (padding eset) ctx
                (data eset) in
  d <- palloc (nbytes eset) ;;
  ret (set_data eset d).

(** What [get_typlenbyvalalign] reports for the element type. *)
Record typinfo := mktypinfo { typlen : Z; typbyval : bool; typalign_of : byte }.

(** [arg0] is the aggregate state and [arg1] the [Datum] of the new value,
    [None] where [PG_ARGISNULL] holds; [aggcontext] is the context
    [AggCheckCallContext] reports. *)
Definition lrtm_count_distinct_append (ty : typinfo) (aggcontext : Z)
    (arg0 : option element_set_t) (arg1 : option (list byte))
  : M (option element_set_t) :=
  match arg1, arg0 with
  | None, None => ret None
  | None, Some _ => ret arg0
  | Some element, _ =>
      eset <- match arg0 with
              | None =>
                  if (typlen ty <? 0) || negb (typbyval ty) then elog_ERROR
                  else init_set (typlen ty) (typalign_of ty) aggcontext
              | Some eset => ret eset
              end ;;
      eset <- add_element eset element ;;
      ret (Some eset)
  end.

(** *** The array-valued transition function *)

(** The parts of an [ArrayType *] the function looks at: [ArrayGetNItems],
    [ARR_NULLBITMAP] ([None] for a null pointer) and the region at
    [ARR_DATA_PTR]. *)
Record ArrayType := mkarray {
  nitems : Z;
  null_bitmap : option (list byte);
  arr_data : list byte
}.

(** [null_bitmap && !(null_bitmap[i / 8] & (1 << (i % 8)))] *)
Definition item_is_null (input : ArrayType) (i : Z) : bool :=
  match null_bitmap input with
  | None => false
  | Some bm =>
      Z.land (byte.unsigned (nth (Z.to_nat (i / 8)) bm Byte.x00))
             (Z.shiftl 1 (i mod 8)) =? 0
  end.

Section ArrayAccess.

(** The tuple-access macros of PostgreSQL's [tupmacs.h]: [fetch_att] reads a
    by-value datum of the given length at an offset of the array data and
    yields the bytes of the [Datum]; the other two advance the offset. *)
Variable fetch_att : list byte -> Z -> Z -> M (list byte).
Variable att_addlength_pointer : Z -> Z -> Z.
Variable att_align_nominal : Z -> byte -> Z.

(** The body of the [for] loop; the state is [eset] (possibly still [NULL])
    and [arr_ptr]. *)
Definition elements_append_step (ty : typinfo) (aggcontext : Z)
    (arg0 : option element_set_t) (input : ArrayType)
    (st : option element_set_t * Z) (i : Z) : M (option element_set_t * Z) :=
  let '(eset, arr_ptr) := st in
  (* ignore nulls *)
  if item_is_null input i then ret st
  else
    (* init the hash table, if needed *)
    eset <- match eset with
            | Some eset => ret eset
            | None =>
                match arg0 with
                | None =>
                    if (typlen ty <? 0) || negb (typbyval ty) then elog_ERROR
                    else init_set (typlen ty) (typalign_of ty) aggcontext
                | Some eset => ret eset
                end
            end ;;
    element <- fetch_att (arr_data input) arr_ptr (item_size eset) ;;
    eset <- add_element eset element ;;
    (* advance array pointer *)
    let arr_ptr := att_addlength_pointer arr_ptr (item_size eset) in
    let arr_ptr := att_align_nominal arr_ptr (typalign eset) in
    ret (Some eset, arr_ptr).

Fixpoint elements_append_loop (ty : typinfo) (aggcontext : Z)
    (arg0 : option element_set_t) (input : ArrayType)
    (idx : list Z) (st : option element_set_t * Z) : M (option element_set_t * Z) :=
  match idx with
  | [] => ret st
  | i :: idx =>
      st <- elements_append_step ty aggcontext arg0 input st i ;;
      elements_append_loop ty aggcontext arg0 input idx st
  end.

Definition lrtm_count_distinct_elements_append (ty : typinfo) (aggcontext : Z)
    (arg0 : option element_set_t) (arg1 : option ArrayType)
  : M (option element_set_t) :=
  match arg1, arg0 with
  | None, None => ret None
  | None, Some _ => ret arg0
  | Some input, _ =>
      st <- elements_append_loop ty aggcontext arg0 input
              (map Z.of_nat (seq 0 (Z.to_nat (nitems input)))) (None, 0) ;;
      match fst st with
      | None => ret None
      | Some eset => ret (Some eset)
      end
  end.

End ArrayAccess.

(** *** Serialization *)

(** The result is the payload of the [bytea] (the part after the varlena
    length word) and [*eset] as the call leaves it. *)
Definition lrtm_count_distinct_serial (eset : element_set_t)
  : M (list byte * element_set_t) :=
  eset <- compact_set eset false ;;
  Assert (0 <? nall eset) ;;
  Assert (nall eset =? nsorted eset) ;;
  let dlen := mul32 (nall eset) (item_size eset) in
  out <- palloc (dlen + hlen) ;;
  let out := memcpy (bytes out) 0 (header_bytes eset) in
  let out := memcpy out hlen (mem_read (bytes (data eset)) 0 dlen) in
  ret (out, eset).

(** [state] is the payload of the [bytea] argument; its length is what
    [VARSIZE_ANY_EXHDR] reports. *)
Definition lrtm_count_distinct_deserial (state : list byte) : M element_set_t :=
  eset <- palloc_element_set_t ;;
  let len := Z.of_nat (length state) in
  Assert (0 <? len) ;;
  Assert (0 <? (len - hlen) mod 2 ^ 64) ;;
  (* copy the header *)
  hdr <- read_checked state 0 hlen ;;
  let eset := store_header eset hdr in
  Assert ((0 <? nall eset) && (nall eset =? nsorted eset)) ;;
  Assert (len =? hlen + mul32 (nall eset) (item_size eset)) ;;
  (* we only allocate the necessary space *)
  d <- palloc (mul32 (nall eset) (item_size eset)) ;;
  let eset := set_data eset d in
  let eset := set_nbytes eset (mul32 (nall eset) (item_size eset)) in
  body <- read_checked state hlen (mul32 (nall eset) (item_size eset)) ;;
  ret (set_bytes eset (memcpy (bytes (data eset)) 0 body)).

(** *** Combine *)

(** The variables of the merge loop: [ptr1], [ptr2] (offsets into the two
    data arrays), [tmp] and [prev] (offsets into the new array) and the new
    array itself. *)
Record combine_state := mkcombine {
  ptr1 : Z; ptr2 : Z; tmp : Z; prev : Z; merged : list byte
}.

Definition combine_step (eset1 eset2 : element_set_t) (st : combine_state)
  : M combine_state :=
  let d1 := bytes (data eset1) in
  let d2 := bytes (data eset2) in
  Assert (ptr1 st <=? nbytes eset1) ;;
  Assert (ptr2 st <=? nbytes eset2) ;;
  (* [element], and the two input pointers after the turn *)
  sel <-
    (if (ptr1 st <? nbytes eset1) && (ptr2 st <? nbytes eset2) then
       e1 <- read_checked d1 (ptr1 st) (item_size eset1) ;;
       e2 <- read_checked d2 (ptr2 st) (item_size eset1) ;;
       if memcmp e1 e2 <=? 0
       then ret (e1, ptr1 st + item_size eset1, ptr2 st)
       else ret (e2, ptr1 st, ptr2 st + item_size eset1)
     else if ptr1 st <? nbytes eset1 then
       e1 <- read_checked d1 (ptr1 st) (item_size eset1) ;;
       ret (e1, ptr1 st + item_size eset1, ptr2 st)
     else if ptr2 st <? nbytes eset2 then
       e2 <- read_checked d2 (ptr2 st) (item_size eset1) ;;
       ret (e2, ptr1 st, ptr2 st + item_size eset2)
     else elog_ERROR) ;;
  let '(element, p1, p2) := sel in
  if tmp st =? 0 then
    (* first value, so just copy *)
    ret (mkcombine p1 p2 (tmp st + item_size eset1) (tmp st)
           (memcpy (merged st) (tmp st) element))
  else if negb (memcmp (mem_read (merged st) (prev st) (item_size eset1)) element =? 0) then
    (* not equal to the last one, so should be greater *)
    Assert (memcmp (mem_read (merged st) (prev st) (item_size eset1)) element <? 0) ;;
    ret (mkcombine p1 p2 (tmp st + item_size eset1) (tmp st)
           (memcpy (merged st) (tmp st) element))
  else ret (mkcombine p1 p2 (tmp st) (prev st) (merged st)).

Fixpoint combine_loop (n : nat) (eset1 eset2 : element_set_t) (st : combine_state)
  : M combine_state :=
  match n with
  | O => ret st
  | S n => st <- combine_step eset1 eset2 st ;; combine_loop n eset1 eset2 st
  end.

(** [eset1] and [eset2] are null pointers for arguments marked null, and
    every path returns with [PG_RETURN_POINTER]: with both arguments null
    the result is the null pointer in a datum not marked null.  The result
    is the datum returned and [*eset2] as the call leaves it. *)
Definition lrtm_count_distinct_combine (arg0 arg1 : option element_set_t)
  : M (pointer_datum * option element_set_t) :=
  match arg1 with
  | None => ret (PointerGetDatum arg0, None)
  | Some eset2 =>
      match arg0 with
      | None =>
          eset1 <- palloc_element_set_t ;;
          let eset1 := mkeset (item_size eset2) (nsorted eset2) (nall eset2)
                         (nbytes eset2) (typalign eset1) (padding eset1)
                         (aggctx eset1) (data eset1) in
          d <- palloc (nbytes eset1) ;;
          let eset1 := set_data eset1 d in
          let eset1 := set_bytes eset1
                         (memcpy (bytes (data eset1)) 0
                            (mem_read (bytes (data eset2)) 0 (nbytes eset1))) in
          ret (PointerGetDatum (Some eset1), Some eset2)
      | Some eset1 =>
          Assert ((0 <? item_size eset1) && (item_size eset1 =? item_size eset2)) ;;
          (* make sure both states are sorted *)
          eset1 <- compact_set eset1 false ;;
          eset2 <- compact_set eset2 false ;;
          new <- palloc (add32 (nbytes eset1) (nbytes eset2)) ;;
          (* merge the two arrays *)
          st <- combine_loop (Z.to_nat (add32 (nall eset1) (nall eset2))) eset1 eset2
                  (mkcombine 0 0 0 0 (bytes new)) ;;
          (* we must have processed the input arrays completely *)
          Assert (ptr1 st =? mul32 (nall eset1) (item_size eset1)) ;;
          Assert (ptr2 st =? mul32 (nall eset2) (item_size eset2)) ;;
          (* we might have eliminated some duplicate elements *)
          Assert (tmp st <=? mul32 (add32 (nall eset1) (nall eset2)) (item_size eset1)) ;;
          pfree (data eset1) ;;
          let eset1 := set_data eset1 (mkbuffer (block new) (merged st)) in
          (* and finally compute the current number of elements *)
          let eset1 := set_nbytes eset1 (u32 (tmp st)) in
          n <- div_checked (nbytes eset1) (item_size eset1) ;;
          let eset1 := set_nall eset1 n in
          let eset1 := set_nsorted eset1 (nall eset1) in
          ret (PointerGetDatum (Some eset1), Some eset2)
      end
  end.

(** *** Final functions *)

(** The result is the SQL value ([None] for NULL) and [*eset] as the call
    leaves it. *)
Definition lrtm_count_distinct (arg0 : option element_set_t)
  : M (option Z * option element_set_t) :=
  match arg0 with
  | None => ret (None, None)
  | Some eset =>
      (* do the compaction *)
      eset <- compact_set eset false ;;
      ret (Some (nall eset), Some eset)
  end.

(** The result is the items handed to [construct_array], in order, each as
    the [item_size] bytes the loop copies into its [Datum], and [*eset] as
    the call leaves it.  The array of [Datum]s is allocated zeroed, one
    [Datum] for each sorted item (the size is a product in [Size], where
    it cannot wrap), and stays allocated. *)
Definition build_array (eset : element_set_t) : M (list (list byte) * element_set_t) :=
  (* do the compaction *)
  eset <- compact_set eset false ;;
  array_of_datums <- palloc0 (nsorted eset * SIZEOF_DATUM) ;;
  ret (items (bytes (data eset)) 0 (item_size eset) (Z.to_nat (nsorted eset)), eset).

(** The two final functions that return the array differ in how they find
    the element type only; the result is the items of the array
    ([construct_empty_array] has none) and [*eset] as the call leaves it. *)
Definition array_agg_distinct_type_by_element (arg0 : option element_set_t)
  : M (list (list byte) * option element_set_t) :=
  match arg0 with
  | None => ret ([], None)
  | Some eset => r <- build_array eset ;; ret (fst r, Some (snd r))
  end.

Definition array_agg_distinct_type_by_array (arg0 : option element_set_t)
  : M (list (list byte) * option element_set_t) :=
  match arg0 with
  | None => ret ([], None)
  | Some eset => r <- build_array eset ;; ret (fst r, Some (snd r))
  end.

End Build.

(** * Specification vocabulary *)

(** ** Well-formed sets *)

(** The size relations the C code asserts on entry to [compact_set], with
    the array allocated at the size [nbytes] records. *)
Record wf (s : element_set_t) : Prop := mkwf {
  wf_item_size : 0 < item_size s;
  wf_nsorted : 0 <= nsorted s <= nall s;
  wf_fits : nall s * item_size s <= nbytes s;
  wf_nbytes : nbytes s < 2 ^ 31;
  wf_length : Z.of_nat (length (bytes (data s))) = nbytes s
}.

(** Items in strictly increasing byte order. *)
Fixpoint strictly_increasing (l : list (list byte)) : Prop :=
  match l with
  | x :: (y :: _) as l' => memcmp x y < 0 /\ strictly_increasing l'
  | _ => True
  end.

(** The sorted part of a set is strictly increasing. *)
Definition sorted_prefix (s : element_set_t) : Prop :=
  strictly_increasing (items (bytes (data s)) 0 (item_size s) (Z.to_nat (nsorted s))).

(** What the growth step of [compact_set] makes of a capacity. *)
Definition grown (threshold nbytes : Z) : Z :=
  if grown_below nbytes threshold then 2 * nbytes else 5 * nbytes / 4.

(** The capacities the functions produce: [init_set] starts at 32 bytes and
    growth only enlarges; [lrtm_count_distinct_deserial] and
    [lrtm_count_distinct_combine] leave a whole number of items. *)
Definition capacity_shape (s : element_set_t) : Prop :=
  ARRAY_INIT_SIZE <= nbytes s \/ (item_size s | nbytes s).

(** The counters a serialized payload announces. *)
Definition payload_item_size (state : list byte) : Z := le_combine (mem_read state 0 4).
Definition payload_nsorted (state : list byte) : Z := le_combine (mem_read state 4 4).
Definition payload_nall (state : list byte) : Z := le_combine (mem_read state 8 4).

(** The merge loop of combine keeps both input offsets and the output
    offset on item boundaries, inside their arrays; [i] counts the turns
    taken. *)
Record combine_inv (e1 e2 : element_set_t) (L : nat) (i : Z) (st : combine_state)
  : Prop := mkcombine_inv {
  ci_ptr1_div : (item_size e1 | ptr1 st);
  ci_ptr2_div : (item_size e1 | ptr2 st);
  ci_ptr1 : 0 <= ptr1 st <= nbytes e1;
  ci_ptr2 : 0 <= ptr2 st <= nbytes e2;
  ci_sum : ptr1 st + ptr2 st = i * item_size e1;
  ci_tmp_div : (item_size e1 | tmp st);
  ci_tmp : 0 <= tmp st <= i * item_size e1;
  ci_length : length (merged st) = L
}.

(** ** The merge of combine on lists of items *)

(** [emit racc e]: the output so far (last item first) with [e] added unless
    it repeats the last item. *)
Definition emit (racc : list (list byte)) (e : list byte) : list (list byte) :=
  match racc with
  | [] => [e]
  | p :: _ => if memcmp p e =? 0 then racc else e :: racc
  end.

(** One turn of the loop: the items not yet taken from either side and the
    output so far. *)
Definition combine_items_step (s : list (list byte) * list (list byte) * list (list byte))
  : list (list byte) * list (list byte) * list (list byte) :=
  let '(la, lb, racc) := s in
  match la, lb with
  | x :: la', y :: lb' =>
      if memcmp x y <=? 0 then (la', lb, emit racc x) else (la, lb', emit racc y)
  | x :: la', [] => (la', [], emit racc x)
  | [], y :: lb' => ([], lb', emit racc y)
  | [], [] => s
  end.

Definition uniform (size : Z) (l : list (list byte)) : Prop :=
  Forall (fun x => Z.of_nat (length x) = size) l.

Fixpoint strictly_decreasing (l : list (list byte)) : Prop :=
  match l with
  | x :: (y :: _) as l' => memcmp y x < 0 /\ strictly_decreasing l'
  | _ => True
  end.

(** What the turns of the loop keep true. *)
Record merge_inv (size : Z) (la lb racc : list (list byte)) : Prop := mkmerge_inv {
  mi_la : strictly_increasing la;
  mi_lb : strictly_increasing lb;
  mi_racc : strictly_decreasing racc;
  mi_ua : uniform size la;
  mi_ub : uniform size lb;
  mi_uacc : uniform size racc;
  mi_bound : forall p r, racc = p :: r -> Forall (fun x => memcmp p x <= 0) (la ++ lb)
}.

(** The loop, on lists: [n] turns. *)
Fixpoint combine_items (n : nat)
    (s : list (list byte) * list (list byte) * list (list byte))
  : list (list byte) * list (list byte) * list (list byte) :=
  match n with
  | O => s
  | S n => combine_items n (combine_items_step s)
  end.

(** The state of the merge loop of combine against the lists of items: what
    is left of each operand, and the output so far (last item first). *)
Record combine_rel (e1 e2 : element_set_t) (L : nat)
    (la lb racc : list (list byte)) (st : combine_state) : Prop := mkcombine_rel {
  cr_ptr1 : ptr1 st = nbytes e1 - Z.of_nat (length la) * item_size e1;
  cr_ptr1_pos : 0 <= ptr1 st;
  cr_la : items (bytes (data e1)) (ptr1 st) (item_size e1) (length la) = la;
  cr_ptr2 : ptr2 st = nbytes e2 - Z.of_nat (length lb) * item_size e1;
  cr_ptr2_pos : 0 <= ptr2 st;
  cr_lb : items (bytes (data e2)) (ptr2 st) (item_size e1) (length lb) = lb;
  cr_tmp : tmp st = Z.of_nat (length racc) * item_size e1;
  cr_out : items (merged st) 0 (item_size e1) (length racc) = rev racc;
  cr_prev : forall p r, racc = p :: r ->
            mem_read (merged st) (prev st) (item_size e1) = p;
  cr_len : length (merged st) = L
}.

(** ** Sorted runs, and what the functions keep true of a set *)

(** Items in non-decreasing byte order, as a sort leaves them. *)
Fixpoint nondecreasing (l : list (list byte)) : Prop :=
  match l with
  | x :: (y :: _) as l' => memcmp x y <= 0 /\ nondecreasing l'
  | _ => True
  end.

(** What the duplicate-removing scan of [compact_set] keeps of a sorted run:
    every item that differs from the one kept last. *)
Definition dedup_items (l : list (list byte)) : list (list byte) :=
  rev (fold_left emit l []).

(** The merge of [compact_set] on two runs: the smaller head first, one copy
    of a head the runs share; [fuel] bounds the number of turns. *)
Fixpoint merge_items (fuel : nat) (la lb : list (list byte)) : list (list byte) :=
  match fuel with
  | O => []
  | S fuel =>
      match la, lb with
      | x :: la', y :: lb' =>
          if memcmp x y =? 0 then x :: merge_items fuel la' lb'
          else if memcmp x y <? 0 then x :: merge_items fuel la' lb
          else y :: merge_items fuel la lb'
      | _, [] => la
      | [], _ => lb
      end
  end.

(** Every item of a set: the sorted part, then the items added since. *)
Definition all_items (s : element_set_t) : list (list byte) :=
  items (bytes (data s)) 0 (item_size s) (Z.to_nat (nall s)).

(** The items added since the last compaction. *)
Definition unsorted_items (s : element_set_t) : list (list byte) :=
  items (bytes (data s)) (nsorted s * item_size s) (item_size s)
    (Z.to_nat (nall s - nsorted s)).

(** What holds of every state the transition functions return. *)
Record state_inv (s : element_set_t) : Prop := mkstate_inv {
  si_wf : wf s;
  si_nall : 0 < nall s;
  si_sorted : sorted_prefix s;
  si_size : In (item_size s) [1; 2; 4; 8];
  si_shape : capacity_shape s
}.

(** The item a [Datum] stands for in a set of the given item size. *)
Definition item_of (size : Z) (value : list byte) : list byte := mem_read value 0 size.

Definition item_eq_dec : forall x y : list byte, {x = y} + {x <> y} :=
  list_eq_dec Byte.byte_eq_dec.

(** A compacted set whose capacity is exactly its items, as
    [lrtm_count_distinct_deserial] and [lrtm_count_distinct_combine] leave
    it; the array may have been allocated larger. *)
Record tight (s : element_set_t) : Prop := mktight {
  tight_item_size : 0 < item_size s;
  tight_nall : 0 < nall s;
  tight_nsorted : nsorted s = nall s;
  tight_nbytes : nbytes s = nall s * item_size s;
  tight_bound : nbytes s < 2 ^ 32;
  tight_length : nbytes s <= Z.of_nat (length (bytes (data s)));
  tight_sorted : strictly_increasing (all_items s)
}.

(** The [Datum]s the array-valued transition function adds, in order: one
    per non-null element, fetched at the offset the macros have reached. *)
Fixpoint array_datums (fetch : list byte -> Z -> Z -> list byte)
    (att_addlength_pointer : Z -> Z -> Z) (att_align_nominal : Z -> byte -> Z)
    (size : Z) (align : byte) (input : ArrayType) (idx : list Z) (arr_ptr : Z)
  : list (list byte) :=
  match idx with
  | [] => []
  | i :: idx =>
      if item_is_null input i
      then array_datums fetch att_addlength_pointer att_align_nominal size align input
             idx arr_ptr
      else fetch (arr_data input) arr_ptr size
           :: array_datums fetch att_addlength_pointer att_align_nominal size align input
                idx (att_align_nominal (att_addlength_pointer arr_ptr size) align)
  end.

(** The item size and alignment the loop works with: those of the state,
    or of the set it creates. *)
Definition array_item_size (ty : typinfo) (arg0 : option element_set_t) : Z :=
  match arg0 with Some s => item_size s | None => u32 (typlen ty) end.

Definition array_typalign (ty : typinfo) (arg0 : option element_set_t) : byte :=
  match arg0 with Some s => typalign s | None => typalign_of ty end.

(** The indices the loop runs over. *)
Definition array_indices (input : ArrayType) : list Z :=
  map Z.of_nat (seq 0 (Z.to_nat (nitems input))).

(** The allocated blocks are the data array of the set and the blocks
    [others]; every one of them was handed out before [next_block]. *)
Record owns (m : mem) (s : element_set_t) (others : list Z) : Prop := mkowns {
  owns_live : forall b, In b (live m) <-> b = block (data s) \/ In b others;
  owns_fresh : forall b, In b (live m) -> b < next_block m;
  owns_other : ~ In (block (data s)) others
}.

(** A step that leaves the array where it is, or moves it to a new block
    and frees the old one. *)
Definition moved (s : element_set_t) (m : mem) (s' : element_set_t) (m' : mem) : Prop :=
  (block (data s') = block (data s) /\ live m' = live m /\ next_block m' = next_block m) \/
  (block (data s') = next_block m /\
   live m' = remove Z.eq_dec (block (data s)) (next_block m :: live m) /\
   next_block m' = next_block m + 1).

(** The merge loop of combine after it has taken the first [k1] items of
    one array and the first [k2] of the other, whatever lies behind the
    items in use: the output so far (last item first) is strictly
    decreasing and holds the items taken. *)
Record combine_seen (e1 e2 : element_set_t) (L : nat) (k1 k2 : nat)
    (racc : list (list byte)) (st : combine_state) : Prop := mkcombine_seen {
  cs_ptr1 : ptr1 st = Z.of_nat k1 * item_size e1;
  cs_ptr2 : ptr2 st = Z.of_nat k2 * item_size e1;
  cs_in1 : ptr1 st <= nbytes e1;
  cs_in2 : ptr2 st <= nbytes e2;
  cs_tmp : tmp st = Z.of_nat (length racc) * item_size e1;
  cs_count : (length racc <= k1 + k2)%nat;
  cs_out : items (merged st) 0 (item_size e1) (length racc) = rev racc;
  cs_prev : forall p r, racc = p :: r ->
            mem_read (merged st) (prev st) (item_size e1) = p;
  cs_sorted : strictly_decreasing racc;
  cs_uniform : uniform (item_size e1) racc;
  cs_members : forall z, In z racc <->
                 In z (items (bytes (data e1)) 0 (item_size e1) k1) \/
                 In z (items (bytes (data e2)) 0 (item_size e1) k2);
  cs_len : length (merged st) = L
}.

(** The end of a turn of the merge loop of combine, as [combine_step] has
    it from the test of [tmp] on: [element] is written behind the output
    unless it repeats the item written last. *)
Definition combine_emit (A : bool) (eset1 : element_set_t) (st : combine_state)
    (element : list byte) (p1 p2 : Z) : M combine_state :=
  if tmp st =? 0 then
    ret (mkcombine p1 p2 (tmp st + item_size eset1) (tmp st)
           (memcpy (merged st) (tmp st) element))
  else if negb (memcmp (mem_read (merged st) (prev st) (item_size eset1)) element =? 0) then
    Assert A (memcmp (mem_read (merged st) (prev st) (item_size eset1)) element <? 0) ;;
    ret (mkcombine p1 p2 (tmp st + item_size eset1) (tmp st)
           (memcpy (merged st) (tmp st) element))
  else ret (mkcombine p1 p2 (tmp st) (prev st) (merged st)).

(** ** Example inputs *)

(** PostgreSQL's value of the allocator threshold. *)
Definition PG_ALLOCSET_SEPARATE_THRESHOLD : Z := 8192.

(** [int4]: four bytes, by value, aligned as [int]. *)
Definition int4 : typinfo := mktypinfo 4 true Byte.x69.

(** The [Datum] of a small integer: eight bytes, low byte first. *)
Definition Int32GetDatum (z : Z) : list byte := le_split 8 z.

(** The transition function over a list of non-null values. *)
Fixpoint append_all (A : bool) (T : Z) (ty : typinfo) (aggcontext : Z)
    (values : list (list byte)) (state : option element_set_t)
  : M (option element_set_t) :=
  match values with
  | [] => ret state
  | v :: values =>
      state <- lrtm_count_distinct_append A T ty aggcontext state (Some v) ;;
      append_all A T ty aggcontext values state
  end.

(** Nothing allocated yet; fresh blocks hold whatever [j] says. *)
Definition empty_mem (j : Z -> nat -> byte) : mem := mkmem 1 [] j.
Definition mem0 : mem := empty_mem (fun _ _ => Byte.x00).

(** The state a group is left with after the given [int4] values, in an
    assertion-checking build. *)
Definition state_after (values : list Z) : element_set_t :=
  match append_all true PG_ALLOCSET_SEPARATE_THRESHOLD int4 0
          (map Int32GetDatum values) None mem0 with
  | Ok (Some s, _) => s
  | _ => mkeset 0 0 0 0 Byte.x00 [] 0 (mkbuffer 0 [])
  end.

(** The same state once the final function has compacted it. *)
Definition compacted_after (values : list Z) : element_set_t :=
  match compact_set true PG_ALLOCSET_SEPARATE_THRESHOLD (state_after values) false mem0 with
  | Ok (s, _) => s
  | _ => state_after values
  end.

(** Eight values fill the initial 32 bytes. *)
Definition eight_ascending : element_set_t := state_after [1; 2; 3; 4; 5; 6; 7; 8].
Definition eight_descending : element_set_t := state_after [16; 15; 14; 13; 12; 11; 10; 9].

(** The values 5, 3, 5, 1, 3, 3 compacted: the items 1, 3, 5. *)
Definition one_three_five : element_set_t := compacted_after [5; 3; 5; 1; 3; 3].

(** The serialized form of [one_three_five]. *)
Definition one_three_five_payload : list byte :=
  header_bytes one_three_five ++ mem_read (bytes (data one_three_five)) 0 12.

(** A full set of 2048 two-byte items in increasing byte order, 4096 bytes. *)
Definition full_4096 : element_set_t :=
  mkeset 2 2048 2048 4096 Byte.x73 [] 0
    (mkbuffer 0
       (concat (map (fun i => [byte.of_Z (Z.of_nat i / 256); byte.of_Z (Z.of_nat i)])
                  (seq 0 2048)))).

(** The two partial states of a parallel aggregation: one group saw 2 twice,
    the other saw 3. *)
Definition workers_2_2_and_3 (A : bool)
  : M (option element_set_t * option element_set_t) :=
  a <- append_all A PG_ALLOCSET_SEPARATE_THRESHOLD int4 0
         (map Int32GetDatum [2; 2]) None ;;
  b <- append_all A PG_ALLOCSET_SEPARATE_THRESHOLD int4 0
         (map Int32GetDatum [3]) None ;;
  ret (a, b).

(** One group saw 1, 1, 1, 2 and the other 9. *)
Definition workers_1_1_1_2_and_9 (A : bool)
  : M (option element_set_t * option element_set_t) :=
  a <- append_all A PG_ALLOCSET_SEPARATE_THRESHOLD int4 0
         (map Int32GetDatum [1; 1; 1; 2]) None ;;
  b <- append_all A PG_ALLOCSET_SEPARATE_THRESHOLD int4 0
         (map Int32GetDatum [9]) None ;;
  ret (a, b).

(** A one-dimensional [int4] array without nulls. *)
Definition int4_array (values : list Z) : ArrayType :=
  mkarray (Z.of_nat (length values)) None (flat_map (le_split 4) values).

(** An array of two items, both null: the bitmap byte has no bit set. *)
Definition two_nulls : ArrayType := mkarray 2 (Some [Byte.x00]) [].

(** A plain reading of the tuple-access macros for by-value items: the item
    bytes, zero-extended to the eight bytes of a [Datum]; the offset moved
    on by the length; alignment to the length already reached. *)
Definition plain_fetch_att (region : list byte) (off len : Z) : M (list byte) :=
  item <- read_checked region off len ;; ret (fit 8 item).
Definition plain_att_addlength_pointer (off len : Z) : Z := off + len.
Definition plain_att_align_nominal (off : Z) (align : byte) : Z := off.

(** The array-valued transition function over a list of inputs ([None] for
    a null array), with the plain macros. *)
Fixpoint elements_append_all (A : bool) (T : Z) (ty : typinfo) (aggcontext : Z)
    (inputs : list (option ArrayType)) (state : option element_set_t)
  : M (option element_set_t) :=
  match inputs with
  | [] => ret state
  | input :: inputs =>
      state <- lrtm_count_distinct_elements_append A T plain_fetch_att
                 plain_att_addlength_pointer plain_att_align_nominal ty aggcontext
                 state input ;;
      elements_append_all A T ty aggcontext inputs state
  end.

(** A tight set of [int4] items in the given block; the values are to be
    given in increasing byte order. *)
Definition tight_int4 (blk : Z) (values : list Z) : element_set_t :=
  mkeset 4 (Z.of_nat (length values)) (Z.of_nat (length values))
    (4 * Z.of_nat (length values)) Byte.x69 [] 0
    (mkbuffer blk (flat_map (le_split 4) values)).

(** ** Operands for comparing the growth tests with their [double] form *)

Definition upto (n : nat) : list Z := map Z.of_nat (seq 0 n).

(** Small capacities, and capacities around the sizes the growth step goes
    through, up to the largest the allocator grants. *)
Definition sample_capacities : list Z :=
  upto 600 ++
  flat_map (fun c => [c - 2; c - 1; c; c + 1; c + 2])
    [1024; 2048; 4096; 6553; 8192; 10240; 12800; 16000; 20000; 25000; 31250;
     39062; 48827; 61033; 65536; 1000000; 16777216; 33554432; 268435456;
     536870912; 1073741821; 2147483645].

(** ** Proof automation *)

(** Discharge the leading [Assert] of a computation whose condition holds. *)
Ltac assert_ok tac :=
  match goal with
  | |- context [bind (Assert ?f ?c) ?k ?m] =>
      replace (bind (Assert f c) k m) with (k tt m)
        by (unfold bind, Assert; replace c with true by (symmetry; tac);
            rewrite Bool.andb_false_r; reflexivity);
      cbv beta
  end.

(** The same for a division by a divisor shown not to be zero. *)
Ltac div_ok tac :=
  match goal with
  | |- context [bind (div_checked ?a ?b) ?k ?m] =>
      replace (bind (div_checked a b) k m) with (k (a / b) m)
        by (unfold bind, div_checked;
            replace (b =? 0) with false by (symmetry; apply Z.eqb_neq; tac);
            reflexivity);
      cbv beta
  end.

(** * Properties *)

(** ** The growth tests against binary64 arithmetic *)

(** For every capacity up to 160 bytes and every number of free bytes in
    it, the integer form of the free-fraction test is the [double] one. *)
Lemma free_fract_below_is_double_small :
  forallb (fun n =>
             forallb (fun f => Bool.eqb (free_fract_below_double f n) (free_fract_below f n))
               (upto (S (Z.to_nat n))))
    (upto 161) = true.
Proof. vm_compute. reflexivity. Qed.

(** The same around a fifth of each sampled capacity, and at the ends. *)
Lemma free_fract_below_is_double_sampled :
  forallb (fun n =>
             forallb (fun f => Bool.eqb (free_fract_below_double f n) (free_fract_below f n))
               (filter (fun f => (0 <=? f) && (f <=? n))
                  [0; 1; n / 5 - 1; n / 5; n / 5 + 1; n / 5 + 2; n / 2; n - 1; n]))
    sample_capacities = true.
Proof. vm_compute. reflexivity. Qed.

(** The threshold test and the division by 0.8, for PostgreSQL's threshold
    and a few others. *)
Lemma growth_is_double_sampled :
  forallb (fun n =>
             (div_0_8_double n =? div_0_8 n) &&
             forallb (fun t => Bool.eqb (grown_below_double n t) (grown_below n t))
               (filter (fun t => 0 <=? t)
                  [40; 8192; 5 * n / 4 - 1; 5 * n / 4; 5 * n / 4 + 1; 5 * n / 4 + 2]))
    sample_capacities = true.
Proof. vm_compute. reflexivity. Qed.

(** ** Machine integers and byte regions *)

Lemma u32_small (z : Z) : 0 <= z < 2 ^ 32 -> u32 z = z.
Proof. intros H. unfold u32. apply Z.mod_small. exact H. Qed.

Lemma mul32_small (a b : Z) : 0 <= a * b < 2 ^ 32 -> mul32 a b = a * b.
Proof. apply u32_small. Qed.

Lemma add32_small (a b : Z) : 0 <= a + b < 2 ^ 32 -> add32 a b = a + b.
Proof. apply u32_small. Qed.

Lemma sub32_small (a b : Z) : 0 <= a - b < 2 ^ 32 -> sub32 a b = a - b.
Proof. apply u32_small. Qed.

Lemma mem_read_length (buf : list byte) (off n : Z) :
  0 <= off -> 0 <= n -> off + n <= Z.of_nat (length buf) ->
  Z.of_nat (length (mem_read buf off n)) = n.
Proof.
  intros Ho Hn Hle. unfold mem_read.
  rewrite length_firstn, length_skipn. lia.
Qed.

Lemma mem_read_length_le (buf : list byte) (off n : Z) :
  0 <= n -> Z.of_nat (length (mem_read buf off n)) <= n.
Proof. intros Hn. unfold mem_read. rewrite length_firstn. lia. Qed.

Lemma memcpy_length (dst : list byte) (off : Z) (src : list byte) :
  0 <= off -> off + Z.of_nat (length src) <= Z.of_nat (length dst) ->
  length (memcpy dst off src) = length dst.
Proof.
  intros Ho Hle. unfold memcpy.
  rewrite !length_app, length_firstn, length_skipn. lia.
Qed.

Lemma mem_read_all (buf : list byte) :
  mem_read buf 0 (Z.of_nat (length buf)) = buf.
Proof.
  unfold mem_read. cbn [Z.to_nat skipn]. rewrite Nat2Z.id. apply firstn_all.
Qed.

Lemma memcpy_whole (dst src : list byte) :
  length src = length dst -> memcpy dst 0 src = src.
Proof.
  intros H. unfold memcpy. cbn [Z.to_nat firstn app Nat.add].
  rewrite H, skipn_all. apply app_nil_r.
Qed.

(** ** Items, sorting and the two loops of [compact_set]: sizes *)

Lemma items_Forall_length (buf : list byte) (base size : Z) (n : nat) :
  0 <= base -> 0 <= size ->
  base + Z.of_nat n * size <= Z.of_nat (length buf) ->
  Forall (fun x => Z.of_nat (length x) = size) (items buf base size n).
Proof.
  intros Hb Hs Hle. apply Forall_forall. intros x Hx.
  unfold items in Hx. apply in_map_iff in Hx. destruct Hx as [i [<- Hi]].
  apply in_seq in Hi. apply mem_read_length; nia.
Qed.

Lemma items_length (buf : list byte) (base size : Z) (n : nat) :
  length (items buf base size n) = n.
Proof. unfold items. rewrite length_map. apply length_seq. Qed.

Lemma concat_length_uniform (size : Z) (l : list (list byte)) :
  Forall (fun x => Z.of_nat (length x) = size) l ->
  Z.of_nat (length (concat l)) = Z.of_nat (length l) * size.
Proof.
  induction 1 as [|x l Hx Hl IH]; cbn [concat length].
  - reflexivity.
  - rewrite length_app. lia.
Qed.

Lemma insert_item_Forall (P : list byte -> Prop) (size : Z) (x : list byte)
    (l : list (list byte)) :
  P x -> Forall P l -> Forall P (insert_item size x l).
Proof.
  intros Hx Hl. induction Hl as [|y l Hy Hl IH]; cbn [insert_item].
  - constructor; [exact Hx | constructor].
  - destruct (compare_items x y size <=? 0).
    + constructor; [exact Hx | constructor; assumption].
    + constructor; assumption.
Qed.

Lemma insert_item_length (size : Z) (x : list byte) (l : list (list byte)) :
  length (insert_item size x l) = S (length l).
Proof.
  induction l as [|y l IH]; cbn [insert_item length].
  - reflexivity.
  - destruct (compare_items x y size <=? 0); cbn [length]; congruence.
Qed.

Lemma sort_items_Forall (P : list byte -> Prop) (size : Z) (l : list (list byte)) :
  Forall P l -> Forall P (sort_items size l).
Proof.
  induction 1 as [|x l Hx Hl IH]; cbn [sort_items fold_right].
  - constructor.
  - apply insert_item_Forall; assumption.
Qed.

Lemma sort_items_length (size : Z) (l : list (list byte)) :
  length (sort_items size l) = length l.
Proof.
  induction l as [|x l IH]; cbn [sort_items fold_right length].
  - reflexivity.
  - fold (sort_items size l). rewrite insert_item_length. congruence.
Qed.

Lemma qsort_arg_length (buf : list byte) (base n size : Z) :
  0 <= base -> 0 <= size -> 0 <= n ->
  base + n * size <= Z.of_nat (length buf) ->
  length (qsort_arg buf base n size) = length buf.
Proof.
  intros Hb Hs Hn Hle. unfold qsort_arg. apply memcpy_length; [exact Hb|].
  rewrite (concat_length_uniform size).
  - rewrite sort_items_length, items_length. lia.
  - apply sort_items_Forall. apply items_Forall_length; lia.
Qed.

Lemma dedup_fold_shape (size base : Z) (L : nat) :
  0 < size -> 0 <= base ->
  forall (len start : nat) (buf : list byte) (last cnt : Z),
    (1 <= start)%nat -> length buf = L ->
    base + Z.of_nat (start + len) * size <= Z.of_nat L ->
    Z.of_nat (start + len) * size < 2 ^ 32 ->
    1 <= cnt <= Z.of_nat start -> last = base + (cnt - 1) * size ->
    exists buf' cnt',
      fold_left (dedup_step size base) (map Z.of_nat (seq start len)) (buf, last, cnt)
      = (buf', base + (cnt' - 1) * size, cnt') /\
      length buf' = L /\ 1 <= cnt' <= Z.of_nat (start + len).
Proof.
  intros Hsize Hbase. induction len as [|len IH]; intros start buf last cnt Hst HL Hfit H32 Hcnt Hlast.
  - cbn [seq map fold_left]. exists buf, cnt. subst last. repeat split; lia.
  - cbn [seq map fold_left]. unfold dedup_step at 2.
    rewrite mul32_small by nia.
    replace (start + S len)%nat with (S start + len)%nat in Hfit, H32 |- * by lia.
    destruct (memcmp (mem_read buf last size)
                (mem_read buf (base + Z.of_nat start * size) size) =? 0).
    + destruct (IH (S start) buf last cnt ltac:(lia) HL Hfit H32 ltac:(lia) Hlast)
        as [buf' [cnt' [E [HL' Hc']]]].
      exists buf', cnt'. rewrite E. repeat split; lia.
    + assert (Hlen : length (if last + size =? base + Z.of_nat start * size then buf
                             else memcpy buf (last + size)
                                    (mem_read buf (base + Z.of_nat start * size) size)) = L).
      { destruct (last + size =? base + Z.of_nat start * size); [exact HL|].
        rewrite memcpy_length; [exact HL | nia |].
        rewrite mem_read_length; nia. }
      destruct (IH (S start) _ (last + size) (cnt + 1) ltac:(lia) Hlen Hfit H32
                  ltac:(lia) ltac:(lia))
        as [buf' [cnt' [E [HL' Hc']]]].
      exists buf', cnt'. rewrite E. repeat split; lia.
Qed.

Lemma dedup_loop_shape (size base n : Z) (buf : list byte) :
  0 < size -> 0 <= base -> 1 <= n -> n * size < 2 ^ 32 ->
  base + n * size <= Z.of_nat (length buf) ->
  exists buf' cnt,
    dedup_loop size base n buf = (buf', base + (cnt - 1) * size, cnt) /\
    length buf' = length buf /\ 1 <= cnt <= n.
Proof.
  intros Hsize Hbase Hn H32 Hfit. unfold dedup_loop.
  assert (Hn' : Z.of_nat (1 + (Z.to_nat n - 1)) = n) by lia.
  destruct (dedup_fold_shape size base (length buf) Hsize Hbase
              (Z.to_nat n - 1) 1 buf base 1 ltac:(lia) eq_refl
              ltac:(rewrite Hn'; exact Hfit) ltac:(rewrite Hn'; exact H32)
              ltac:(lia) ltac:(lia)) as [buf' [cnt [E [HL Hc]]]].
  exists buf', cnt. rewrite E. repeat split; lia.
Qed.

(** The merge loop stops within [na + nb] turns, having written between
    [max na nb] and [na + nb] items, all inside [dst]. *)
Lemma merge_loop_shape (size : Z) (src : list byte) (a_max b_max : Z) :
  0 < size ->
  a_max <= Z.of_nat (length src) -> b_max <= Z.of_nat (length src) ->
  forall (fuel : nat) (na nb : Z) (dst : list byte) (ptr : Z),
    1 <= na -> 1 <= nb -> na + nb <= Z.of_nat fuel ->
    0 <= a_max - na * size -> 0 <= b_max - nb * size ->
    0 <= ptr -> ptr + (na + nb) * size <= Z.of_nat (length dst) ->
    exists out k,
      merge_loop fuel size src (a_max - na * size) a_max (b_max - nb * size) b_max dst ptr
      = Some (out, ptr + k * size) /\
      Z.max na nb <= k <= na + nb /\ length out = length dst.
Proof.
  intros Hsize Ha Hb.
  induction fuel as [|fuel IH]; intros na nb dst ptr Hna Hnb Hfuel Ha0 Hb0 Hptr Hdst.
  - lia.
  - cbn [merge_loop].
    set (a := a_max - na * size). set (b := b_max - nb * size).
    assert (Hra : Z.of_nat (length (mem_read src a size)) = size)
      by (apply mem_read_length; subst a; nia).
    assert (Hrb : Z.of_nat (length (mem_read src b size)) = size)
      by (apply mem_read_length; subst b; nia).
    assert (Hwa : length (memcpy dst ptr (mem_read src a size)) = length dst)
      by (apply memcpy_length; nia).
    assert (Hwb : length (memcpy dst ptr (mem_read src b size)) = length dst)
      by (apply memcpy_length; nia).
    assert (Ea : a + size = a_max - (na - 1) * size) by (subst a; ring).
    assert (Eb : b + size = b_max - (nb - 1) * size) by (subst b; ring).
    assert (Ea0 : a = a_max - na * size) by reflexivity.
    assert (Eb0 : b = b_max - nb * size) by reflexivity.
    (* the remainder copied when one side is exhausted *)
    assert (Hbulk : forall (d : list byte) (o r : Z) (m : Z),
               length d = length dst -> 0 <= m -> 0 <= o ->
               o + m * size <= r -> r <= Z.of_nat (length src) ->
               ptr + size + m * size <= Z.of_nat (length dst) ->
               length (memcpy d (ptr + size) (mem_read src o (m * size))) = length dst).
    { intros d o r m Hd Hm Ho Hor Hr Hp. rewrite memcpy_length; [exact Hd | lia |].
      rewrite mem_read_length; nia. }
    destruct (memcmp (mem_read src a size) (mem_read src b size) =? 0);
      [| destruct (memcmp (mem_read src a size) (mem_read src b size) <? 0)].
    + (* equal heads: one copy, both advance *)
      rewrite Ea, Eb.
      destruct (Z.eq_dec na 1) as [Hna1 | Hna1]; destruct (Z.eq_dec nb 1) as [Hnb1 | Hnb1].
      * replace (a_max - (na - 1) * size =? a_max) with true by (symmetry; apply Z.eqb_eq; nia).
        replace (b_max - (nb - 1) * size =? b_max) with true by (symmetry; apply Z.eqb_eq; nia).
        cbn [orb negb]. exists (memcpy dst ptr (mem_read src a size)), 1.
        split; [f_equal; f_equal; ring | split; [lia | exact Hwa]].
      * replace (a_max - (na - 1) * size =? a_max) with true by (symmetry; apply Z.eqb_eq; nia).
        replace (b_max - (nb - 1) * size =? b_max) with false by (symmetry; apply Z.eqb_neq; nia).
        cbn [orb negb].
        exists (memcpy (memcpy dst ptr (mem_read src a size)) (ptr + size)
                  (mem_read src (b_max - (nb - 1) * size) (b_max - (b_max - (nb - 1) * size)))), nb.
        split; [f_equal; f_equal; ring | split; [lia |]].
        replace (b_max - (b_max - (nb - 1) * size)) with ((nb - 1) * size) by ring.
        apply (Hbulk _ _ b_max); [exact Hwa | lia | nia | lia | lia | nia].
      * replace (a_max - (na - 1) * size =? a_max) with false by (symmetry; apply Z.eqb_neq; nia).
        replace (b_max - (nb - 1) * size =? b_max) with true by (symmetry; apply Z.eqb_eq; nia).
        cbn [orb negb].
        exists (memcpy (memcpy dst ptr (mem_read src a size)) (ptr + size)
                  (mem_read src (a_max - (na - 1) * size) (a_max - (a_max - (na - 1) * size)))), na.
        split; [f_equal; f_equal; ring | split; [lia |]].
        replace (a_max - (a_max - (na - 1) * size)) with ((na - 1) * size) by ring.
        apply (Hbulk _ _ a_max); [exact Hwa | lia | nia | lia | lia | nia].
      * replace (a_max - (na - 1) * size =? a_max) with false by (symmetry; apply Z.eqb_neq; nia).
        replace (b_max - (nb - 1) * size =? b_max) with false by (symmetry; apply Z.eqb_neq; nia).
        cbn [orb].
        destruct (IH (na - 1) (nb - 1) (memcpy dst ptr (mem_read src a size)) (ptr + size))
          as [out [k [E [Hk Hout]]]]; try nia.
        exists out, (k + 1). rewrite E.
        split; [f_equal; f_equal; ring | split; [lia | congruence]].
    + (* the head of the sorted part is smaller *)
      rewrite Ea, Eb0.
      replace (b_max - nb * size =? b_max) with false by (symmetry; apply Z.eqb_neq; nia).
      destruct (Z.eq_dec na 1) as [Hna1 | Hna1].
      * replace (a_max - (na - 1) * size =? a_max) with true by (symmetry; apply Z.eqb_eq; nia).
        cbn [orb negb].
        exists (memcpy (memcpy dst ptr (mem_read src a size)) (ptr + size)
                  (mem_read src (b_max - nb * size) (b_max - (b_max - nb * size)))), (nb + 1).
        split; [f_equal; f_equal; ring | split; [lia |]].
        replace (b_max - (b_max - nb * size)) with (nb * size) by ring.
        apply (Hbulk _ _ b_max); [exact Hwa | lia | nia | lia | lia | nia].
      * replace (a_max - (na - 1) * size =? a_max) with false by (symmetry; apply Z.eqb_neq; nia).
        cbn [orb].
        destruct (IH (na - 1) nb (memcpy dst ptr (mem_read src a size)) (ptr + size))
          as [out [k [E [Hk Hout]]]]; try nia.
        exists out, (k + 1). rewrite E.
        split; [f_equal; f_equal; ring | split; [lia | congruence]].
    + (* the head of the new items is smaller *)
      rewrite Ea0, Eb.
      replace (a_max - na * size =? a_max) with false by (symmetry; apply Z.eqb_neq; nia).
      destruct (Z.eq_dec nb 1) as [Hnb1 | Hnb1].
      * replace (b_max - (nb - 1) * size =? b_max) with true by (symmetry; apply Z.eqb_eq; nia).
        cbn [orb negb].
        exists (memcpy (memcpy dst ptr (mem_read src b size)) (ptr + size)
                  (mem_read src (a_max - na * size) (a_max - (a_max - na * size)))), (na + 1).
        split; [f_equal; f_equal; ring | split; [lia |]].
        replace (a_max - (a_max - na * size)) with (na * size) by ring.
        apply (Hbulk _ _ a_max); [exact Hwb | lia | nia | lia | lia | nia].
      * replace (b_max - (nb - 1) * size =? b_max) with false by (symmetry; apply Z.eqb_neq; nia).
        cbn [orb].
        destruct (IH na (nb - 1) (memcpy dst ptr (mem_read src b size)) (ptr + size))
          as [out [k [E [Hk Hout]]]]; try nia.
        exists out, (k + 1). rewrite E.
        split; [f_equal; f_equal; ring | split; [lia | congruence]].
Qed.

(** ** The monad *)

Lemma bind_Ok {A B} (c : M A) (k : A -> M B) (m m' : mem) (a : A) :
  c m = Ok (a, m') -> bind c k m = k a m'.
Proof. intros H. unfold bind. rewrite H. reflexivity. Qed.

Lemma bind_Ok_inv {A B} (c : M A) (k : A -> M B) (m m'' : mem) (b : B) :
  bind c k m = Ok (b, m'') ->
  exists a m', c m = Ok (a, m') /\ k a m' = Ok (b, m'').
Proof.
  unfold bind. destruct (c m) as [[a m']| | |]; try discriminate.
  intros H. exists a, m'. split; [reflexivity | exact H].
Qed.

Lemma Assert_ok (flag : bool) (cond : bool) (m : mem) :
  cond = true -> Assert flag cond m = Ok (tt, m).
Proof. intros ->. unfold Assert. rewrite andb_false_r. reflexivity. Qed.

Lemma div_checked_Ok_inv (a b n : Z) (m m' : mem) :
  div_checked a b m = Ok (n, m') -> n = a / b /\ m' = m /\ b <> 0.
Proof.
  unfold div_checked. destruct (b =? 0) eqn:E; [discriminate |].
  intros H. inversion H. apply Z.eqb_neq in E. auto.
Qed.

Lemma Assert_off (cond : bool) (m : mem) : Assert false cond m = Ok (tt, m).
Proof. reflexivity. Qed.

Lemma Assert_Ok_inv (flag : bool) (cond : bool) (m m' : mem) (u : unit) :
  Assert flag cond m = Ok (u, m') -> m' = m /\ (flag = true -> cond = true).
Proof.
  unfold Assert. destruct flag, cond; cbn; intros H; inversion H; auto; discriminate.
Qed.

(** [build_array] after its compaction: one more block is allocated, and
    the items are those of the sorted part. *)
Lemma build_array_Ok (A : bool) (T : Z) (s s' : element_set_t) (m m' : mem) :
  compact_set A T s false m = Ok (s', m') ->
  build_array A T s m
  = Ok ((items (bytes (data s')) 0 (item_size s') (Z.to_nat (nsorted s')), s'),
        mkmem (next_block m' + 1) (next_block m' :: live m') (junk m')).
Proof. intros E. unfold build_array. rewrite (bind_Ok _ _ _ _ _ E). reflexivity. Qed.

Lemma palloc_Ok (n : Z) (m : mem) :
  palloc n m = Ok (mkbuffer (next_block m) (map (junk m (next_block m)) (seq 0 (Z.to_nat n))),
                   mkmem (next_block m + 1) (next_block m :: live m) (junk m)).
Proof. reflexivity. Qed.

Lemma repalloc_Ok (p : buffer) (n : Z) (m : mem) :
  repalloc p n m =
  Ok (mkbuffer (next_block m)
        (firstn (Z.to_nat n) (bytes p) ++
         skipn (length (bytes p)) (map (junk m (next_block m)) (seq 0 (Z.to_nat n)))),
      mkmem (next_block m + 1)
        (remove Z.eq_dec (block p) (next_block m :: live m)) (junk m)).
Proof. reflexivity. Qed.

Lemma repalloc_length (old fresh : list byte) (n : nat) :
  length fresh = n -> (length old <= n)%nat ->
  length (firstn n old ++ skipn (length old) fresh) = n.
Proof.
  intros Hf Ho. rewrite length_app, length_firstn, length_skipn. lia.
Qed.

(** Growing keeps the old contents in place. *)
Lemma repalloc_keeps (old fresh : list byte) (n : nat) (off len : Z) :
  (length old <= n)%nat -> 0 <= off -> 0 <= len ->
  off + len <= Z.of_nat (length old) ->
  mem_read (firstn n old ++ skipn (length old) fresh) off len = mem_read old off len.
Proof.
  intros Ho Hoff Hlen Hle. rewrite firstn_all2 by exact Ho.
  unfold mem_read. rewrite skipn_app, firstn_app, length_skipn.
  replace (Z.to_nat len - (length old - Z.to_nat off))%nat with 0%nat by lia.
  cbn [firstn]. apply app_nil_r.
Qed.

(** ** [compact_set]: sizes and counters *)

Lemma compact_new_items_shape (s : element_set_t) :
  wf s -> nsorted s < nall s ->
  exists buf cnt,
    compact_new_items s =
      mkeset (item_size s) (if nsorted s =? 0 then cnt else nsorted s)
        (nsorted s + cnt) (nbytes s) (typalign s) (padding s) (aggctx s)
        (mkbuffer (block (data s)) buf) /\
    length buf = length (bytes (data s)) /\
    1 <= cnt <= nall s - nsorted s.
Proof.
  intros [His Hns Hfit Hnb Hlen] Hlt.
  assert (Hna : nall s <= nbytes s) by nia.
  unfold compact_new_items.
  rewrite (mul32_small (nsorted s)) by nia.
  rewrite sub32_small by lia.
  destruct (dedup_loop_shape (item_size s) (nsorted s * item_size s) (nall s - nsorted s)
              (qsort_arg (bytes (data s)) (nsorted s * item_size s)
                 (nall s - nsorted s) (item_size s)))
    as [buf [cnt [E [HL Hc]]]]; try nia.
  { rewrite qsort_arg_length; nia. }
  rewrite E. exists buf, cnt.
  rewrite qsort_arg_length in HL by nia.
  split; [| split; [exact HL | exact Hc]].
  cbn [set_nall set_bytes set_data set_nsorted nsorted nall item_size nbytes typalign
       padding aggctx data block].
  rewrite add32_small by lia.
  destruct (nsorted s =? 0) eqn:E0; cbn; [| reflexivity].
  apply Z.eqb_eq in E0. rewrite E0. reflexivity.
Qed.

Lemma compact_merge_shape (A : bool) (s : element_set_t) (m : mem) :
  wf s -> 0 < nsorted s < nall s ->
  exists out k,
    compact_merge A s m =
      Ok (mkeset (item_size s) k k (nbytes s) (typalign s) (padding s) (aggctx s)
            (mkbuffer (next_block m) out),
          mkmem (next_block m + 1)
            (remove Z.eq_dec (block (data s)) (next_block m :: live m)) (junk m)) /\
    Z.of_nat (length out) = nbytes s /\
    Z.max (nsorted s) (nall s - nsorted s) <= k <= nall s.
Proof.
  intros [His Hns Hfit Hnb Hlen] Hlt.
  assert (Hna : nall s <= nbytes s) by nia.
  unfold compact_merge.
  rewrite (bind_Ok _ _ _ _ _ (palloc_Ok _ _)).
  cbn [bytes block].
  rewrite !mul32_small by nia.
  destruct (merge_loop_shape (item_size s) (bytes (data s))
              (nsorted s * item_size s) (nall s * item_size s) His
              ltac:(nia) ltac:(nia) (S (Z.to_nat (nall s)))
              (nsorted s) (nall s - nsorted s)
              (map (junk m (next_block m)) (seq 0 (Z.to_nat (nbytes s)))) 0)
    as [out [k [E [Hk Hout]]]]; try nia.
  { rewrite length_map, length_seq. nia. }
  replace (nsorted s * item_size s - nsorted s * item_size s) with 0 in E by ring.
  replace (nall s * item_size s - (nall s - nsorted s) * item_size s)
    with (nsorted s * item_size s) in E by ring.
  rewrite E. cbn [Z.add].
  assert_ok ltac:(apply Z.leb_le; nia).
  div_ok ltac:(cbn [item_size]; lia).
  exists out, k. split; [| split; [| lia]].
  - unfold bind, pfree, ret.
    cbn [set_nall set_bytes set_data set_nsorted nsorted nall item_size nbytes typalign
         padding aggctx data block next_block live junk].
    rewrite Z.div_mul by lia. rewrite u32_small by nia. reflexivity.
  - rewrite Hout, length_map, length_seq. lia.
Qed.

Lemma grown_ge (T n : Z) : 0 <= n -> n <= grown T n.
Proof.
  intros Hn. unfold grown. destruct (grown_below n T); [lia|].
  apply Z.div_le_lower_bound; lia.
Qed.

Lemma grown_lt (T n : Z) : 0 <= n < 2 ^ 31 -> grown T n < 2 ^ 32.
Proof.
  intros Hn. unfold grown. destruct (grown_below n T); [lia|].
  apply Z.div_lt_upper_bound; lia.
Qed.

Lemma compact_grow_shape (T : Z) (s : element_set_t) (need : bool) (m : mem) :
  wf s ->
  exists s' m',
    compact_grow T s need m = Ok (s', m') /\
    item_size s' = item_size s /\ typalign s' = typalign s /\
    padding s' = padding s /\ aggctx s' = aggctx s /\
    nsorted s' = nsorted s /\ nall s' = nall s /\
    nbytes s' = (if need && free_fract_below (nbytes s - nall s * item_size s) (nbytes s)
                 then grown T (nbytes s) else nbytes s) /\
    Z.of_nat (length (bytes (data s'))) = nbytes s' /\
    junk m' = junk m /\
    (forall off len, 0 <= off -> 0 <= len -> off + len <= nbytes s ->
       mem_read (bytes (data s')) off len = mem_read (bytes (data s)) off len).
Proof.
  intros [His Hns Hfit Hnb Hlen].
  assert (Hna : nall s <= nbytes s) by nia.
  unfold compact_grow.
  rewrite mul32_small by nia. rewrite sub32_small by nia.
  destruct (need && free_fract_below (nbytes s - nall s * item_size s) (nbytes s)).
  - assert (Hg : (if grown_below (nbytes s) T
                  then set_nbytes s (mul32 (nbytes s) 2)
                  else set_nbytes s (div_0_8 (nbytes s)))
                 = set_nbytes s (grown T (nbytes s))).
    { pose proof (grown_lt T (nbytes s) ltac:(lia)) as Hlt.
      pose proof (grown_ge T (nbytes s) ltac:(lia)) as Hge.
      unfold grown in *. destruct (grown_below (nbytes s) T).
      - rewrite mul32_small by lia. f_equal. ring.
      - unfold div_0_8. rewrite u32_small by lia. reflexivity. }
    rewrite Hg. clear Hg.
    pose proof (grown_ge T (nbytes s) ltac:(lia)) as Hge.
    rewrite (bind_Ok _ _ _ _ _ (repalloc_Ok _ _ _)).
    eexists. eexists. split; [reflexivity |].
    cbn [set_nbytes set_data item_size typalign padding aggctx nsorted nall nbytes data
         bytes junk].
    repeat split.
    + rewrite repalloc_length; [lia | rewrite length_map, length_seq; reflexivity | lia].
    + intros off len Ho Hl Hle. apply repalloc_keeps; lia.
  - eexists. eexists. split; [reflexivity |]. repeat split. exact Hlen.
Qed.

Lemma compact_set_shape (A : bool) (T : Z) (s : element_set_t) (need : bool) (m : mem) :
  wf s -> 0 < nall s ->
  exists s' m',
    compact_set A T s need m = Ok (s', m') /\
    item_size s' = item_size s /\ typalign s' = typalign s /\
    padding s' = padding s /\ aggctx s' = aggctx s /\
    nsorted s' = nall s' /\ 0 < nall s' <= nall s /\
    nall s' * item_size s <= nbytes s /\
    nbytes s' = (if need && free_fract_below (nbytes s - nall s' * item_size s) (nbytes s)
                 then grown T (nbytes s) else nbytes s) /\
    Z.of_nat (length (bytes (data s'))) = nbytes s' /\
    junk m' = junk m.
Proof.
  intros Hwf Hnall. pose proof Hwf as [His Hns Hfit Hnb Hlen].
  assert (Hna : nall s <= nbytes s) by nia.
  assert (Hm : mul32 (nall s) (item_size s) = nall s * item_size s)
    by (apply mul32_small; nia).
  (* the compaction proper *)
  assert (Hc : exists s1 m1,
             (if nsorted s <? nall s
              then let eset := compact_new_items s in
                   if nsorted eset <? nall eset then compact_merge A eset else ret eset
              else ret s) m = Ok (s1, m1) /\
             wf s1 /\ item_size s1 = item_size s /\ typalign s1 = typalign s /\
             padding s1 = padding s /\ aggctx s1 = aggctx s /\
             nsorted s1 = nall s1 /\ 0 < nall s1 <= nall s /\
             nbytes s1 = nbytes s /\ junk m1 = junk m).
  { destruct (nsorted s <? nall s) eqn:Elt.
    - apply Z.ltb_lt in Elt.
      destruct (compact_new_items_shape s Hwf Elt) as [buf [cnt [E [HL Hcnt]]]].
      cbv zeta. rewrite E.
      cbn [nsorted nall].
      destruct (nsorted s =? 0) eqn:E0.
      + apply Z.eqb_eq in E0.
        replace (cnt <? nsorted s + cnt) with false by (symmetry; apply Z.ltb_ge; lia).
        eexists. eexists. split; [reflexivity |].
        cbn [item_size typalign padding aggctx nsorted nall nbytes].
        repeat split; cbn [item_size nsorted nall nbytes data bytes]; try lia; nia.
      + apply Z.eqb_neq in E0.
        replace (nsorted s <? nsorted s + cnt) with true by (symmetry; apply Z.ltb_lt; lia).
        match goal with |- context [compact_merge A ?x m] => set (s0 := x) end.
        assert (Hwf0 : wf s0).
        { subst s0. split; cbn [item_size nsorted nall nbytes data bytes]; try lia; nia. }
        destruct (compact_merge_shape A s0 m Hwf0) as [out [k [Em [Hout Hk]]]].
        { subst s0. cbn [nsorted nall]. lia. }
        rewrite Em. subst s0. cbn [item_size nsorted nall nbytes typalign padding aggctx data block] in *.
        eexists. eexists. split; [reflexivity |].
        cbn [item_size typalign padding aggctx nsorted nall nbytes junk].
        repeat split; cbn [item_size nsorted nall nbytes data bytes]; try lia; nia.
    - apply Z.ltb_ge in Elt.
      exists s, m. split; [reflexivity |].
      repeat split; try assumption; lia. }
  destruct Hc as [s1 [m1 [E1 [Hwf1 [Hi1 [Ht1 [Hp1 [Ha1 [Hs1 [Hn1 [Hb1 Hj1]]]]]]]]]]].
  destruct (compact_grow_shape T s1 need m1 Hwf1)
    as [s2 [m2 [E2 [Hi2 [Ht2 [Hp2 [Ha2 [Hs2 [Hn2 [Hb2 [Hl2 [Hj2 _]]]]]]]]]]]].
  unfold compact_set.
  assert_ok ltac:(apply Z.ltb_lt; lia).
  assert_ok ltac:(apply Z.leb_le; lia).
  assert_ok ltac:(apply Z.leb_le; rewrite Hm; lia).
  rewrite (bind_Ok _ _ _ _ _ E1).
  assert_ok ltac:(apply Z.eqb_eq; lia).
  rewrite E2. exists s2, m2. split; [reflexivity |].
  pose proof Hwf1 as [_ _ Hfit1 _ _].
  rewrite Hi1, Hb1 in *. rewrite Hn2.
  split; [congruence | split; [congruence | split; [congruence | split; [congruence |]]]].
  split; [congruence | split; [lia | split; [exact Hfit1 | split; [exact Hb2 |]]]].
  split; [exact Hl2 | congruence].
Qed.

(** ** Serialization *)

Lemma mem_read_app_l (a b : list byte) :
  mem_read (a ++ b) 0 (Z.of_nat (length a)) = a.
Proof.
  unfold mem_read. cbn [Z.to_nat skipn]. rewrite Nat2Z.id, firstn_app, firstn_all.
  rewrite Nat.sub_diag. cbn [firstn]. apply app_nil_r.
Qed.

Lemma mem_read_app_r (a b : list byte) (off n : Z) :
  0 <= off ->
  mem_read (a ++ b) (Z.of_nat (length a) + off) n = mem_read b off n.
Proof.
  intros Ho. unfold mem_read. rewrite skipn_app.
  rewrite skipn_all2 by lia. cbn [app]. f_equal. f_equal. lia.
Qed.

Lemma mem_read_prefix (a b : list byte) (off n : Z) :
  0 <= off -> 0 <= n -> off + n <= Z.of_nat (length a) ->
  mem_read (a ++ b) off n = mem_read a off n.
Proof.
  intros Ho Hn Hle. unfold mem_read. rewrite skipn_app, firstn_app, length_skipn.
  replace (Z.to_nat n - (length a - Z.to_nat off))%nat with 0%nat by lia.
  cbn [firstn]. apply app_nil_r.
Qed.

Lemma fit_length (n : nat) (l : list byte) : length (fit n l) = n.
Proof. unfold fit. rewrite length_firstn, length_app, repeat_length. lia. Qed.

Lemma header_bytes_length (s : element_set_t) :
  Z.of_nat (length (header_bytes s)) = hlen.
Proof.
  unfold header_bytes. rewrite !length_app, !length_le_split, fit_length.
  reflexivity.
Qed.

(** Whatever the width of a pointer, [data] lies beyond the four counters,
    [typalign] and [aggctx]. *)
Lemma offsetof_data_lower_bound (psz : Z) :
  0 < psz -> 17 + psz <= offsetof_data psz.
Proof.
  intros Hp. unfold offsetof_data, offsetof_aggctx, align_up.
  assert (H1 : 17 <= (17 + psz - 1) / psz * psz).
  { pose proof (Z.mod_pos_bound (17 + psz - 1) psz Hp).
    pose proof (Z.div_mod (17 + psz - 1) psz ltac:(lia)). nia. }
  set (a := (17 + psz - 1) / psz * psz) in *.
  pose proof (Z.mod_pos_bound (a + psz + psz - 1) psz Hp).
  pose proof (Z.div_mod (a + psz + psz - 1) psz ltac:(lia)). nia.
Qed.

(** A set with nothing to compact and no space requested is left alone. *)
Lemma compact_set_noop (A : bool) (T : Z) (s : element_set_t) (m : mem) :
  0 < nall s -> nsorted s = nall s ->
  mul32 (nall s) (item_size s) <= nbytes s ->
  compact_set A T s false m = Ok (s, m).
Proof.
  intros Hn Hs Hfit. unfold compact_set.
  assert_ok ltac:(apply Z.ltb_lt; lia).
  assert_ok ltac:(apply Z.leb_le; lia).
  assert_ok ltac:(apply Z.leb_le; lia).
  rewrite (proj2 (Z.ltb_ge (nsorted s) (nall s))) by lia.
  rewrite (bind_Ok (ret s) _ m m s eq_refl).
  assert_ok ltac:(apply Z.eqb_eq; lia).
  reflexivity.
Qed.

(** The payload written for a set that is already compacted. *)
Lemma serial_compacted (A : bool) (T : Z) (s : element_set_t) (m : mem) :
  wf s -> 0 < nall s -> nsorted s = nall s ->
  exists m',
    lrtm_count_distinct_serial A T s m =
      Ok ((header_bytes s ++ mem_read (bytes (data s)) 0 (nall s * item_size s), s), m') /\
    junk m' = junk m.
Proof.
  intros [His Hns Hfit Hnb Hlen] Hn Hs.
  assert (Hm : mul32 (nall s) (item_size s) = nall s * item_size s)
    by (apply mul32_small; nia).
  unfold lrtm_count_distinct_serial.
  assert (Hc : compact_set A T s false m = Ok (s, m))
    by (apply compact_set_noop; lia).
  rewrite (bind_Ok _ _ _ _ _ Hc).
  assert_ok ltac:(apply Z.ltb_lt; lia).
  assert_ok ltac:(apply Z.eqb_eq; lia).
  rewrite (bind_Ok _ _ _ _ _ (palloc_Ok _ _)).
  exists (mkmem (next_block m + 1) (next_block m :: live m) (junk m)).
  split; [| reflexivity].
  unfold ret. apply f_equal, (f_equal2 pair); [| reflexivity].
  apply (f_equal2 pair); [| reflexivity].
  symmetry. cbn [bytes]. rewrite Hm.
  set (body := mem_read (bytes (data s)) 0 (nall s * item_size s)).
  assert (Hbody : Z.of_nat (length body) = nall s * item_size s)
    by (apply mem_read_length; nia).
  pose proof (header_bytes_length s) as Hh.
  set (fresh := map _ _).
  assert (Hfresh : Z.of_nat (length fresh) = nall s * item_size s + hlen).
  { subst fresh. rewrite length_map, length_seq. unfold hlen in *. nia. }
  unfold memcpy at 2. cbn [Z.to_nat firstn app Nat.add].
  unfold memcpy.
  replace (Z.to_nat hlen) with (length (header_bytes s)) by lia.
  rewrite firstn_app, firstn_all, Nat.sub_diag. cbn [firstn]. rewrite app_nil_r.
  rewrite skipn_all2; [rewrite app_nil_r; reflexivity |].
  rewrite length_app, length_skipn. lia.
Qed.

Lemma mem_read_mid (a b c : list byte) (off n : Z) :
  off = Z.of_nat (length a) -> n = Z.of_nat (length b) ->
  mem_read (a ++ b ++ c) off n = b.
Proof.
  intros -> ->. replace (Z.of_nat (length a)) with (Z.of_nat (length a) + 0) by lia.
  rewrite mem_read_app_r by lia. apply mem_read_app_l.
Qed.

Lemma store_header_header_bytes (s0 s : element_set_t) :
  store_header s0 (header_bytes s) =
    mkeset (u32 (item_size s)) (u32 (nsorted s)) (u32 (nall s)) (u32 (nbytes s))
      (typalign s) (fit (Z.to_nat npad) (padding s)) (aggctx s mod 2 ^ 64) (data s0).
Proof.
  unfold store_header, header_bytes.
  set (f1 := le_split 4 (item_size s)). set (f2 := le_split 4 (nsorted s)).
  set (f3 := le_split 4 (nall s)). set (f4 := le_split 4 (nbytes s)).
  set (pad := fit (Z.to_nat npad) (padding s)).
  set (f7 := le_split (Z.to_nat SIZEOF_POINTER) (aggctx s)).
  assert (L1 : length f1 = 4%nat) by apply length_le_split.
  assert (L2 : length f2 = 4%nat) by apply length_le_split.
  assert (L3 : length f3 = 4%nat) by apply length_le_split.
  assert (L4 : length f4 = 4%nat) by apply length_le_split.
  assert (L6 : length pad = 7%nat) by apply fit_length.
  assert (L7 : length f7 = 8%nat) by apply length_le_split.
  assert (E1 : mem_read (f1 ++ f2 ++ f3 ++ f4 ++ [typalign s] ++ pad ++ f7) 0 4 = f1).
  { apply (mem_read_mid [] f1); cbn [length]; lia. }
  assert (E2 : mem_read (f1 ++ f2 ++ f3 ++ f4 ++ [typalign s] ++ pad ++ f7) 4 4 = f2).
  { apply (mem_read_mid f1 f2); lia. }
  assert (E3 : mem_read (f1 ++ f2 ++ f3 ++ f4 ++ [typalign s] ++ pad ++ f7) 8 4 = f3).
  { rewrite (app_assoc f1 f2). apply mem_read_mid; rewrite ?length_app; lia. }
  assert (E4 : mem_read (f1 ++ f2 ++ f3 ++ f4 ++ [typalign s] ++ pad ++ f7) 12 4 = f4).
  { rewrite (app_assoc f1 f2), (app_assoc (f1 ++ f2) f3).
    apply mem_read_mid; rewrite ?length_app; lia. }
  assert (E5 : nth 16 (f1 ++ f2 ++ f3 ++ f4 ++ [typalign s] ++ pad ++ f7) Byte.x00
               = typalign s).
  { rewrite (app_assoc f1 f2), (app_assoc (f1 ++ f2) f3), (app_assoc ((f1 ++ f2) ++ f3) f4).
    rewrite app_nth2 by (rewrite !length_app; lia).
    rewrite !length_app, L1, L2, L3, L4. reflexivity. }
  assert (E6 : mem_read (f1 ++ f2 ++ f3 ++ f4 ++ [typalign s] ++ pad ++ f7) 17 npad = pad).
  { rewrite (app_assoc f1 f2), (app_assoc (f1 ++ f2) f3), (app_assoc ((f1 ++ f2) ++ f3) f4).
    rewrite (app_assoc (((f1 ++ f2) ++ f3) ++ f4) [typalign s]).
    apply mem_read_mid; rewrite ?length_app; cbn [length]; try lia.
    rewrite L6. reflexivity. }
  assert (E7 : mem_read (f1 ++ f2 ++ f3 ++ f4 ++ [typalign s] ++ pad ++ f7)
                 (offsetof_aggctx SIZEOF_POINTER) SIZEOF_POINTER = f7).
  { rewrite (app_assoc f1 f2), (app_assoc (f1 ++ f2) f3), (app_assoc ((f1 ++ f2) ++ f3) f4).
    rewrite (app_assoc (((f1 ++ f2) ++ f3) ++ f4) [typalign s]).
    rewrite (app_assoc ((((f1 ++ f2) ++ f3) ++ f4) ++ [typalign s]) pad).
    rewrite <- (app_nil_r f7) at 1.
    apply mem_read_mid; rewrite ?length_app; cbn [length].
    - rewrite L1, L2, L3, L4, L6. reflexivity.
    - rewrite L7. reflexivity. }
  rewrite E1, E2, E3, E4, E5, E6, E7.
  subst f1 f2 f3 f4 f7. rewrite !le_combine_split. reflexivity.
Qed.

Lemma read_checked_Ok (buf : list byte) (off n : Z) (m : mem) :
  0 <= off -> 0 <= n -> off + n <= Z.of_nat (length buf) ->
  read_checked buf off n m = Ok (mem_read buf off n, m).
Proof.
  intros Ho Hn Hle. unfold read_checked.
  rewrite (proj2 (Z.leb_le 0 off) Ho), (proj2 (Z.leb_le 0 n) Hn),
    (proj2 (Z.leb_le _ _) Hle).
  reflexivity.
Qed.

(** Deserializing a well-formed payload: a header followed by exactly the
    element bytes it announces. *)
Lemma deserial_payload (A : bool) (s : element_set_t) (body : list byte) (m : mem) :
  wf s -> 0 < nall s -> nsorted s = nall s ->
  Z.of_nat (length body) = nall s * item_size s ->
  exists s0 m',
    lrtm_count_distinct_deserial A (header_bytes s ++ body) m =
      Ok (mkeset (item_size s) (nsorted s) (nall s) (nall s * item_size s)
            (typalign s) (fit (Z.to_nat npad) (padding s)) (aggctx s mod 2 ^ 64)
            (mkbuffer s0 body), m') /\
    junk m' = junk m.
Proof.
  intros [His Hns Hfit Hnb Hlen] Hn Hs Hbody.
  assert (Hna : nall s <= nbytes s) by nia.
  assert (His' : item_size s <= nbytes s) by nia.
  pose proof (header_bytes_length s) as Hh.
  assert (Hh32 : hlen = 32) by reflexivity.
  unfold lrtm_count_distinct_deserial.
  unfold palloc_element_set_t at 1.
  rewrite (bind_Ok _ _ _ _ _ (bind_Ok _ _ _ _ _ (palloc_Ok _ _))).
  unfold ret at 1.
  rewrite length_app.
  assert_ok ltac:(apply Z.ltb_lt; lia).
  assert_ok ltac:(apply Z.ltb_lt;
                  replace (Z.of_nat (length (header_bytes s) + length body) - hlen)
                    with (nall s * item_size s) by lia;
                  rewrite Z.mod_small by nia; nia).
  erewrite bind_Ok; [| apply read_checked_Ok; rewrite ?length_app; lia].
  replace (mem_read (header_bytes s ++ body) 0 hlen) with (header_bytes s)
    by (rewrite <- Hh; symmetry; apply mem_read_app_l).
  rewrite store_header_header_bytes.
  cbn [nall nsorted item_size].
  rewrite !(u32_small (nall s)), !(u32_small (nsorted s)), !(u32_small (item_size s)) by lia.
  assert (Hm : mul32 (nall s) (item_size s) = nall s * item_size s)
    by (apply mul32_small; nia).
  rewrite Hm.
  assert_ok ltac:(apply andb_true_intro; split; [apply Z.ltb_lt | apply Z.eqb_eq]; lia).
  assert_ok ltac:(apply Z.eqb_eq; lia).
  rewrite (bind_Ok _ _ _ _ _ (palloc_Ok _ _)).
  cbn [set_data set_nbytes set_bytes nall item_size nsorted nbytes typalign padding
       aggctx data block bytes next_block live junk].
  rewrite ?Hm.
  erewrite bind_Ok; [| apply read_checked_Ok; rewrite ?length_app; try lia; nia].
  replace (mem_read (header_bytes s ++ body) hlen (nall s * item_size s)) with body.
  2:{ replace hlen with (Z.of_nat (length (header_bytes s)) + 0) by lia.
      rewrite mem_read_app_r by lia. rewrite <- Hbody. symmetry. apply mem_read_all. }
  rewrite memcpy_whole by (rewrite length_map, length_seq; lia).
  eexists. eexists. split; [reflexivity | reflexivity].
Qed.

Lemma mem_read_mem_read (buf : list byte) (L off n : Z) :
  0 <= off -> 0 <= n -> off + n <= L ->
  mem_read (mem_read buf 0 L) off n = mem_read buf off n.
Proof.
  intros Ho Hn Hle. unfold mem_read at 2. cbn [Z.to_nat skipn].
  destruct (Z_le_gt_dec L (Z.of_nat (length buf))) as [HL | HL].
  - rewrite <- (firstn_skipn (Z.to_nat L) buf) at 2.
    symmetry. apply mem_read_prefix; try lia.
    rewrite length_firstn. lia.
  - rewrite firstn_all2 by lia. reflexivity.
Qed.

Lemma items_ext (buf buf' : list byte) (base base' size : Z) (n : nat) :
  (forall i, (i < n)%nat ->
     mem_read buf (base + Z.of_nat i * size) size
     = mem_read buf' (base' + Z.of_nat i * size) size) ->
  items buf base size n = items buf' base' size n.
Proof.
  intros H. unfold items. apply map_ext_in. intros i Hi.
  apply in_seq in Hi. apply H. lia.
Qed.

Lemma items_payload (hdr buf : list byte) (size : Z) (n : nat) :
  0 <= size ->
  items (hdr ++ mem_read buf 0 (Z.of_nat n * size)) (Z.of_nat (length hdr)) size n
  = items buf 0 size n.
Proof.
  intros Hs. apply items_ext. intros i Hi.
  rewrite mem_read_app_r by nia.
  apply mem_read_mem_read; nia.
Qed.




(** ** What [compact_set] without a space request leaves alone *)

Lemma compact_new_items_fields (s : element_set_t) :
  item_size (compact_new_items s) = item_size s /\
  nbytes (compact_new_items s) = nbytes s /\
  typalign (compact_new_items s) = typalign s /\
  padding (compact_new_items s) = padding s /\
  aggctx (compact_new_items s) = aggctx s.
Proof.
  unfold compact_new_items.
  destruct (dedup_loop _ _ _ _) as [[buf last] cnt].
  destruct (nsorted _ =? 0); cbn; repeat split; reflexivity.
Qed.

Lemma compact_merge_fields (A : bool) (s s' : element_set_t) (m m' : mem) :
  compact_merge A s m = Ok (s', m') ->
  item_size s' = item_size s /\ nbytes s' = nbytes s /\ typalign s' = typalign s /\
  padding s' = padding s /\ aggctx s' = aggctx s.
Proof.
  unfold compact_merge. intros H.
  apply bind_Ok_inv in H. destruct H as [new [m1 [_ H]]].
  destruct (merge_loop _ _ _ _ _ _ _ _ _) as [[out ptr]|]; [| discriminate].
  apply bind_Ok_inv in H. destruct H as [u [m2 [_ H]]].
  apply bind_Ok_inv in H. destruct H as [n [m3 [_ H]]].
  apply bind_Ok_inv in H. destruct H as [u' [m4 [_ H]]].
  inversion H; subst. cbn. repeat split; reflexivity.
Qed.

Lemma compact_set_false_frame (A : bool) (T : Z) (s s' : element_set_t) (m m' : mem) :
  compact_set A T s false m = Ok (s', m') ->
  item_size s' = item_size s /\ nbytes s' = nbytes s /\ typalign s' = typalign s /\
  padding s' = padding s /\ aggctx s' = aggctx s /\
  (nsorted s = nall s -> s' = s /\ m' = m).
Proof.
  unfold compact_set. intros H.
  apply bind_Ok_inv in H. destruct H as [u1 [m1 [H1 H]]].
  apply Assert_Ok_inv in H1. destruct H1 as [-> _].
  apply bind_Ok_inv in H. destruct H as [u2 [m2 [H2 H]]].
  apply Assert_Ok_inv in H2. destruct H2 as [-> _].
  apply bind_Ok_inv in H. destruct H as [u3 [m3 [H3 H]]].
  apply Assert_Ok_inv in H3. destruct H3 as [-> _].
  apply bind_Ok_inv in H. destruct H as [s1 [m4 [Hc H]]].
  apply bind_Ok_inv in H. destruct H as [u4 [m5 [H4 H]]].
  apply Assert_Ok_inv in H4. destruct H4 as [-> _].
  unfold compact_grow in H. cbn [andb] in H. inversion H; subst s' m'. clear H.
  destruct (nsorted s <? nall s) eqn:Elt.
  - cbv zeta in Hc. pose proof (compact_new_items_fields s) as [F1 [F2 [F3 [F4 F5]]]].
    assert (Hf : item_size s1 = item_size s /\ nbytes s1 = nbytes s /\
                 typalign s1 = typalign s /\ padding s1 = padding s /\
                 aggctx s1 = aggctx s).
    { destruct (nsorted (compact_new_items s) <? nall (compact_new_items s)).
      - apply compact_merge_fields in Hc. intuition congruence.
      - inversion Hc; subst. intuition congruence. }
    destruct Hf as [G1 [G2 [G3 [G4 G5]]]].
    split; [exact G1 | split; [exact G2 | split; [exact G3 | split; [exact G4 |
      split; [exact G5 |]]]]].
    intros Heq. apply Z.ltb_lt in Elt. lia.
  - inversion Hc; subst. repeat split; intros; reflexivity.
Qed.

(** ** Combine *)

(** With [Assert] compiled out, a turn of the loop succeeds when both arrays
    hold a whole number of items: the reads are inside the arrays and the
    new array is not overrun. *)
Lemma combine_step_runs (e1 e2 : element_set_t) (L : nat) (i : Z)
    (st : combine_state) (m : mem) :
  0 < item_size e1 -> item_size e2 = item_size e1 ->
  (item_size e1 | nbytes e1) -> (item_size e1 | nbytes e2) ->
  Z.of_nat (length (bytes (data e1))) = nbytes e1 ->
  Z.of_nat (length (bytes (data e2))) = nbytes e2 ->
  combine_inv e1 e2 L i st ->
  (i + 1) * item_size e1 <= nbytes e1 + nbytes e2 ->
  (i + 1) * item_size e1 <= Z.of_nat L ->
  exists st',
    combine_step false e1 e2 st m = Ok (st', m) /\
    combine_inv e1 e2 L (i + 1) st' /\
    tmp st <= tmp st' /\ 0 < tmp st'.
Proof.
  intros His Hi2 [q1 Hq1] [q2 Hq2] Hl1 Hl2 [[k1 Hk1] [k2 Hk2] Hp1 Hp2 Hsum [kt Hkt] Htmp HL]
    Hfit HLfit.
  unfold combine_step.
  rewrite (bind_Ok _ _ _ _ _ (Assert_off _ _)).
  rewrite (bind_Ok _ _ _ _ _ (Assert_off _ _)).
  (* the selection of [element] *)
  assert (Hsel : exists e p1 p2,
             (if (ptr1 st <? nbytes e1) && (ptr2 st <? nbytes e2)
              then e1' <- read_checked (bytes (data e1)) (ptr1 st) (item_size e1) ;;
                   e2' <- read_checked (bytes (data e2)) (ptr2 st) (item_size e1) ;;
                   (if memcmp e1' e2' <=? 0
                    then ret (e1', ptr1 st + item_size e1, ptr2 st)
                    else ret (e2', ptr1 st, ptr2 st + item_size e1))
              else if ptr1 st <? nbytes e1
              then e1' <- read_checked (bytes (data e1)) (ptr1 st) (item_size e1) ;;
                   ret (e1', ptr1 st + item_size e1, ptr2 st)
              else if ptr2 st <? nbytes e2
              then e2' <- read_checked (bytes (data e2)) (ptr2 st) (item_size e1) ;;
                   ret (e2', ptr1 st, ptr2 st + item_size e2)
              else elog_ERROR) m = Ok ((e, p1, p2), m) /\
             Z.of_nat (length e) = item_size e1 /\
             (item_size e1 | p1) /\ (item_size e1 | p2) /\
             0 <= p1 <= nbytes e1 /\ 0 <= p2 <= nbytes e2 /\
             p1 + p2 = (i + 1) * item_size e1).
  { assert (R1 : ptr1 st < nbytes e1 ->
                 read_checked (bytes (data e1)) (ptr1 st) (item_size e1) m
                 = Ok (mem_read (bytes (data e1)) (ptr1 st) (item_size e1), m) /\
                 ptr1 st + item_size e1 <= nbytes e1).
    { intros Hlt. assert (ptr1 st + item_size e1 <= nbytes e1).
      { rewrite Hk1, Hq1 in *. assert (k1 < q1) by nia. nia. }
      split; [apply read_checked_Ok; lia | lia]. }
    assert (R2 : ptr2 st < nbytes e2 ->
                 read_checked (bytes (data e2)) (ptr2 st) (item_size e1) m
                 = Ok (mem_read (bytes (data e2)) (ptr2 st) (item_size e1), m) /\
                 ptr2 st + item_size e1 <= nbytes e2).
    { intros Hlt. assert (ptr2 st + item_size e1 <= nbytes e2).
      { rewrite Hk2, Hq2 in *. assert (k2 < q2) by nia. nia. }
      split; [apply read_checked_Ok; lia | lia]. }
    assert (D1 : (item_size e1 | ptr1 st + item_size e1))
      by (exists (k1 + 1); lia).
    assert (D2 : (item_size e1 | ptr2 st + item_size e1))
      by (exists (k2 + 1); lia).
    assert (D1' : (item_size e1 | ptr1 st)) by (exists k1; lia).
    assert (D2' : (item_size e1 | ptr2 st)) by (exists k2; lia).
    destruct (ptr1 st <? nbytes e1) eqn:E1; destruct (ptr2 st <? nbytes e2) eqn:E2;
      cbn [andb].
    - apply Z.ltb_lt in E1, E2. destruct (R1 E1) as [R1' B1]. destruct (R2 E2) as [R2' B2].
      rewrite (bind_Ok _ _ _ _ _ R1'), (bind_Ok _ _ _ _ _ R2').
      destruct (memcmp _ _ <=? 0).
      + eexists. eexists. eexists. split; [reflexivity |].
        rewrite mem_read_length by lia.
        repeat split; try lia; assumption.
      + eexists. eexists. eexists. split; [reflexivity |].
        rewrite mem_read_length by lia.
        repeat split; try lia; assumption.
    - apply Z.ltb_lt in E1. destruct (R1 E1) as [R1' B1].
      rewrite (bind_Ok _ _ _ _ _ R1').
      eexists. eexists. eexists. split; [reflexivity |].
      rewrite mem_read_length by lia.
      repeat split; try lia; assumption.
    - apply Z.ltb_lt in E2. destruct (R2 E2) as [R2' B2].
      rewrite (bind_Ok _ _ _ _ _ R2').
      eexists. eexists. eexists. split; [reflexivity |].
      rewrite mem_read_length by lia. rewrite Hi2.
      repeat split; try lia; assumption.
    - apply Z.ltb_ge in E1, E2. exfalso. nia. }
  destruct Hsel as [e [p1 [p2 [Esel [Hle [Hd1 [Hd2 [Hb1 [Hb2 Hs']]]]]]]]].
  rewrite (bind_Ok _ _ _ _ _ Esel). cbv iota beta.
  assert (Hw : length (memcpy (merged st) (tmp st) e) = L).
  { rewrite memcpy_length; [exact HL | lia | nia]. }
  assert (Hdt : (item_size e1 | tmp st + item_size e1)) by (exists (kt + 1); lia).
  assert (Hdt' : (item_size e1 | tmp st)) by (exists kt; lia).
  destruct (tmp st =? 0) eqn:E0;
    [| destruct (negb (memcmp (mem_read (merged st) (prev st) (item_size e1)) e =? 0))].
  - eexists. split; [reflexivity |]. cbn [tmp].
    split; [split; cbn [ptr1 ptr2 tmp merged]; try assumption; lia | lia].
  - rewrite (bind_Ok _ _ _ _ _ (Assert_off _ _)).
    eexists. split; [reflexivity |]. cbn [tmp].
    split; [split; cbn [ptr1 ptr2 tmp merged]; try assumption; lia | lia].
  - apply Z.eqb_neq in E0.
    eexists. split; [reflexivity |]. cbn [tmp].
    split; [split; cbn [ptr1 ptr2 tmp merged]; try assumption; lia | lia].
Qed.

Lemma combine_loop_runs (e1 e2 : element_set_t) (L : nat) :
  0 < item_size e1 -> item_size e2 = item_size e1 ->
  (item_size e1 | nbytes e1) -> (item_size e1 | nbytes e2) ->
  Z.of_nat (length (bytes (data e1))) = nbytes e1 ->
  Z.of_nat (length (bytes (data e2))) = nbytes e2 ->
  forall (n : nat) (st : combine_state) (i : Z) (m : mem),
    combine_inv e1 e2 L i st ->
    (i + Z.of_nat n) * item_size e1 <= nbytes e1 + nbytes e2 ->
    (i + Z.of_nat n) * item_size e1 <= Z.of_nat L ->
    exists st',
      combine_loop false n e1 e2 st m = Ok (st', m) /\
      combine_inv e1 e2 L (i + Z.of_nat n) st' /\
      tmp st <= tmp st' /\ ((0 < n)%nat -> 0 < tmp st').
Proof.
  intros His Hi2 Hd1 Hd2 Hl1 Hl2.
  induction n as [|n IH]; intros st i m Hinv Hfit HLfit.
  - exists st. cbn [combine_loop]. split; [reflexivity |].
    replace (i + Z.of_nat 0) with i by lia.
    split; [exact Hinv |]. split; lia.
  - cbn [combine_loop].
    destruct (combine_step_runs e1 e2 L i st m His Hi2 Hd1 Hd2 Hl1 Hl2 Hinv
                ltac:(nia) ltac:(nia)) as [st1 [E1 [Hinv1 [Hmono Hpos]]]].
    rewrite (bind_Ok _ _ _ _ _ E1).
    destruct (IH st1 (i + 1) m Hinv1 ltac:(nia) ltac:(nia))
      as [st' [E' [Hinv' [Hmono' _]]]].
    exists st'. split; [exact E' |].
    replace (i + Z.of_nat (S n)) with (i + 1 + Z.of_nat n) by lia.
    split; [exact Hinv' |]. split; lia.
Qed.

(** ** [memcmp] as an order on items of one length *)

Lemma memcmp_range (a b : list byte) : memcmp a b = -1 \/ memcmp a b = 0 \/ memcmp a b = 1.
Proof.
  revert b. induction a as [|x a IH]; intros [|y b]; cbn [memcmp]; auto.
  destruct (byte.unsigned x <? byte.unsigned y); auto.
  destruct (byte.unsigned y <? byte.unsigned x); auto.
Qed.

Lemma memcmp_refl (a : list byte) : memcmp a a = 0.
Proof.
  induction a as [|x a IH]; cbn [memcmp]; [reflexivity |].
  rewrite Z.ltb_irrefl. exact IH.
Qed.

Lemma memcmp_eq (a b : list byte) :
  length a = length b -> memcmp a b = 0 -> a = b.
Proof.
  revert b. induction a as [|x a IH]; intros [|y b] Hlen H; try discriminate; [reflexivity |].
  cbn [memcmp] in H.
  destruct (byte.unsigned x <? byte.unsigned y) eqn:E1; [discriminate |].
  destruct (byte.unsigned y <? byte.unsigned x) eqn:E2; [discriminate |].
  apply Z.ltb_ge in E1, E2.
  f_equal.
  - apply byte.unsigned_inj. lia.
  - apply IH; [cbn in Hlen; lia | exact H].
Qed.

Lemma memcmp_sym (a b : list byte) : memcmp b a = - memcmp a b.
Proof.
  revert b. induction a as [|x a IH]; intros [|y b]; cbn [memcmp]; try reflexivity.
  destruct (byte.unsigned x <? byte.unsigned y) eqn:E1;
    destruct (byte.unsigned y <? byte.unsigned x) eqn:E2;
    try reflexivity.
  - apply Z.ltb_lt in E1, E2. lia.
  - apply IH.
Qed.

Lemma memcmp_trans (a b c : list byte) :
  length a = length b -> length b = length c ->
  memcmp a b < 0 -> memcmp b c <= 0 -> memcmp a c < 0.
Proof.
  revert b c. induction a as [|x a IH]; intros [|y b] [|z c] Hab Hbc H1 H2;
    try discriminate; cbn [memcmp] in *; try lia.
  destruct (byte.unsigned x <? byte.unsigned y) eqn:E1.
  - apply Z.ltb_lt in E1.
    destruct (byte.unsigned y <? byte.unsigned z) eqn:E2.
    + apply Z.ltb_lt in E2.
      replace (byte.unsigned x <? byte.unsigned z) with true
        by (symmetry; apply Z.ltb_lt; lia). lia.
    + destruct (byte.unsigned z <? byte.unsigned y) eqn:E3; [lia |].
      apply Z.ltb_ge in E2, E3.
      replace (byte.unsigned x <? byte.unsigned z) with true
        by (symmetry; apply Z.ltb_lt; lia). lia.
  - destruct (byte.unsigned y <? byte.unsigned x) eqn:E1'; [lia |].
    apply Z.ltb_ge in E1, E1'.
    destruct (byte.unsigned y <? byte.unsigned z) eqn:E2.
    + apply Z.ltb_lt in E2.
      replace (byte.unsigned x <? byte.unsigned z) with true
        by (symmetry; apply Z.ltb_lt; lia). lia.
    + destruct (byte.unsigned z <? byte.unsigned y) eqn:E3; [lia |].
      apply Z.ltb_ge in E2, E3.
      replace (byte.unsigned x <? byte.unsigned z) with false
        by (symmetry; apply Z.ltb_ge; lia).
      replace (byte.unsigned z <? byte.unsigned x) with false
        by (symmetry; apply Z.ltb_ge; lia).
      apply (IH b c); cbn in Hab, Hbc; lia.
Qed.

Lemma memcmp_le_trans (a b c : list byte) :
  length a = length b -> length b = length c ->
  memcmp a b <= 0 -> memcmp b c <= 0 -> memcmp a c <= 0.
Proof.
  intros Hab Hbc H1 H2.
  destruct (Z.eq_dec (memcmp a b) 0) as [E | E].
  - apply memcmp_eq in E; [subst b; exact H2 | exact Hab].
  - pose proof (memcmp_trans a b c Hab Hbc ltac:(lia) H2). lia.
Qed.

Lemma strictly_increasing_tail (x : list byte) (l : list (list byte)) :
  strictly_increasing (x :: l) -> strictly_increasing l.
Proof. destruct l as [|y l]; cbn; [trivial | intros [_ H]; exact H]. Qed.

Lemma strictly_increasing_head_lt (size : Z) (x : list byte) (l : list (list byte)) :
  uniform size (x :: l) -> strictly_increasing (x :: l) ->
  Forall (fun y => memcmp x y < 0) l.
Proof.
  revert x. induction l as [|y l IH]; intros x Hu Hs; [constructor |].
  destruct Hs as [Hxy Hs]. inversion Hu as [|? ? Hx Hu']; subst.
  inversion Hu' as [|? ? Hy Hu'']; subst.
  constructor; [exact Hxy |].
  specialize (IH y Hu' Hs). rewrite Forall_forall in IH |- *.
  intros z Hz. specialize (IH z Hz).
  assert (Hzl : Z.of_nat (length z) = Z.of_nat (length y)).
  { rewrite Forall_forall in Hu''. rewrite (Hu'' z Hz). lia. }
  apply (memcmp_trans x y z); lia.
Qed.

Lemma emit_cases (racc : list (list byte)) (e : list byte) :
  (emit racc e = e :: racc /\ forall p r, racc = p :: r -> memcmp p e <> 0) \/
  (exists r, racc = e :: r /\ emit racc e = racc) \/
  (exists p r, racc = p :: r /\ memcmp p e = 0 /\ emit racc e = racc).
Proof.
  destruct racc as [|p r]; cbn [emit].
  - left. split; [reflexivity | intros; discriminate].
  - destruct (memcmp p e =? 0) eqn:E.
    + right. right. exists p, r. apply Z.eqb_eq in E. auto.
    + left. apply Z.eqb_neq in E. split; [reflexivity |].
      intros p' r' H. inversion H; subst. exact E.
Qed.

(** Emitting an item that bounds everything left from below keeps the
    invariant. *)
Lemma merge_inv_emit (size : Z) (la lb racc : list (list byte)) (e : list byte)
    (la' lb' : list (list byte)) :
  merge_inv size la lb racc ->
  Z.of_nat (length e) = size ->
  In e (la ++ lb) ->
  strictly_increasing la' -> strictly_increasing lb' ->
  uniform size la' -> uniform size lb' ->
  Forall (fun x => memcmp e x <= 0) (la' ++ lb') ->
  merge_inv size la' lb' (emit racc e).
Proof.
  intros [Hla Hlb Hracc Hua Hub Huacc Hbound] He Hin Hla' Hlb' Hua' Hub' Hle.
  destruct racc as [|p r]; cbn [emit].
  - split; try assumption.
    + constructor; [exact He | constructor].
    + intros p r H. inversion H; subst. exact Hle.
  - assert (Hpe : memcmp p e <= 0).
    { specialize (Hbound p r eq_refl). rewrite Forall_forall in Hbound.
      apply Hbound. exact Hin. }
    assert (Hp : Z.of_nat (length p) = size) by (inversion Huacc; assumption).
    destruct (memcmp p e =? 0) eqn:E.
    + apply Z.eqb_eq in E. apply memcmp_eq in E; [| lia]. subst e.
      split; try assumption.
      intros p' r' H. inversion H; subst. exact Hle.
    + apply Z.eqb_neq in E.
      split; try assumption.
      * cbn [strictly_decreasing]. split; [lia | exact Hracc].
      * constructor; [exact He | exact Huacc].
      * intros p' r' H. inversion H; subst. exact Hle.
Qed.

Lemma merge_inv_step (size : Z) (la lb racc : list (list byte)) :
  merge_inv size la lb racc ->
  let '(la', lb', racc') := combine_items_step (la, lb, racc) in
  merge_inv size la' lb' racc'.
Proof.
  intros Hinv. pose proof Hinv as [Hla Hlb Hracc Hua Hub Huacc Hbound].
  unfold combine_items_step.
  destruct la as [|x la']; destruct lb as [|y lb'].
  - exact Hinv.
  - apply (merge_inv_emit size [] (y :: lb') racc y [] lb'); try assumption.
    + inversion Hub; assumption.
    + left. reflexivity.
    + exact (strictly_increasing_tail _ _ Hlb).
    + inversion Hub; assumption.
    + cbn [app]. eapply Forall_impl; [| exact (strictly_increasing_head_lt size y lb' Hub Hlb)].
      cbn. intros; lia.
  - apply (merge_inv_emit size (x :: la') [] racc x la' []); try assumption.
    + inversion Hua; assumption.
    + left. reflexivity.
    + exact (strictly_increasing_tail _ _ Hla).
    + inversion Hua; assumption.
    + rewrite app_nil_r.
      eapply Forall_impl; [| exact (strictly_increasing_head_lt size x la' Hua Hla)].
      cbn. intros; lia.
  - assert (Hx : Z.of_nat (length x) = size) by (inversion Hua; assumption).
    assert (Hy : Z.of_nat (length y) = size) by (inversion Hub; assumption).
    pose proof (strictly_increasing_head_lt size x la' Hua Hla) as Hxa.
    pose proof (strictly_increasing_head_lt size y lb' Hub Hlb) as Hyb.
    destruct (memcmp x y <=? 0) eqn:E.
    + apply Z.leb_le in E.
      apply (merge_inv_emit size (x :: la') (y :: lb') racc x la' (y :: lb'));
        try assumption.
      * left. reflexivity.
      * exact (strictly_increasing_tail _ _ Hla).
      * inversion Hua; assumption.
      * apply Forall_app. split.
        -- eapply Forall_impl; [| exact Hxa]. cbn. intros; lia.
        -- constructor; [exact E |].
           rewrite Forall_forall in Hyb |- *. intros z Hz. specialize (Hyb z Hz).
           assert (Hzl : Z.of_nat (length z) = size).
           { inversion Hub as [|? ? _ Hub']; subst. rewrite Forall_forall in Hub'.
             apply Hub'. exact Hz. }
           apply (memcmp_le_trans x y z); lia.
    + apply Z.leb_gt in E.
      assert (Eyx : memcmp y x < 0) by (rewrite memcmp_sym; lia).
      apply (merge_inv_emit size (x :: la') (y :: lb') racc y (x :: la') lb');
        try assumption.
      * apply in_or_app. right. left. reflexivity.
      * exact (strictly_increasing_tail _ _ Hlb).
      * inversion Hub; assumption.
      * apply Forall_app. split.
        -- constructor; [lia |].
           rewrite Forall_forall in Hxa |- *. intros z Hz. specialize (Hxa z Hz).
           assert (Hzl : Z.of_nat (length z) = size).
           { inversion Hua as [|? ? _ Hua']; subst. rewrite Forall_forall in Hua'.
             apply Hua'. exact Hz. }
           apply (memcmp_le_trans y x z); lia.
        -- eapply Forall_impl; [| exact Hyb]. cbn. intros; lia.
Qed.

(** ** Combine on exactly full operands *)

(** Writing [src] at [off] and reading the same place back. *)
Lemma mem_read_memcpy_same (dst : list byte) (off : Z) (src : list byte) :
  0 <= off -> off <= Z.of_nat (length dst) ->
  mem_read (memcpy dst off src) off (Z.of_nat (length src)) = src.
Proof.
  intros Ho Hle. unfold mem_read, memcpy.
  rewrite skipn_app, length_firstn.
  replace (Z.to_nat off - Nat.min (Z.to_nat off) (length dst))%nat with 0%nat by lia.
  rewrite skipn_all2 by (rewrite length_firstn; lia).
  cbn [skipn app]. rewrite Nat2Z.id, firstn_app, firstn_all.
  rewrite Nat.sub_diag. cbn [firstn]. apply app_nil_r.
Qed.

(** The part of the region before a write is not touched by it. *)
Lemma mem_read_memcpy_before (dst : list byte) (off : Z) (src : list byte) (o n : Z) :
  0 <= o -> 0 <= n -> o + n <= off -> off <= Z.of_nat (length dst) ->
  mem_read (memcpy dst off src) o n = mem_read dst o n.
Proof.
  intros Ho Hn Hle Hlen. unfold mem_read, memcpy.
  rewrite skipn_app, firstn_app.
  rewrite length_skipn, length_firstn.
  replace (Z.to_nat n - (Nat.min (Z.to_nat off) (length dst) - Z.to_nat o))%nat
    with 0%nat by lia.
  cbn [firstn]. rewrite app_nil_r.
  rewrite <- (firstn_skipn (Z.to_nat off) dst) at 2.
  rewrite skipn_app, firstn_app.
  rewrite length_skipn, length_firstn.
  replace (Z.to_nat n - (Nat.min (Z.to_nat off) (length dst) - Z.to_nat o))%nat
    with 0%nat by lia.
  cbn [firstn]. rewrite app_nil_r. reflexivity.
Qed.

Lemma items_cons (buf : list byte) (base size : Z) (n : nat) :
  items buf base size (S n)
  = mem_read buf base size :: items buf (base + size) size n.
Proof.
  unfold items. cbn [seq map]. f_equal.
  - f_equal. lia.
  - rewrite <- seq_shift, map_map. apply map_ext. intros i. f_equal. lia.
Qed.

Lemma items_snoc (buf : list byte) (base size : Z) (n : nat) :
  items buf base size (S n)
  = items buf base size n ++ [mem_read buf (base + Z.of_nat n * size) size].
Proof.
  unfold items. rewrite seq_S, map_app. reflexivity.
Qed.

(** Storing an item right behind [k] items. *)
Lemma items_snoc_memcpy (buf : list byte) (size : Z) (k : nat) (e : list byte) :
  0 <= size -> Z.of_nat (length e) = size ->
  Z.of_nat k * size <= Z.of_nat (length buf) ->
  items (memcpy buf (Z.of_nat k * size) e) 0 size (S k) = items buf 0 size k ++ [e].
Proof.
  intros Hs He Hfit. rewrite items_snoc. f_equal.
  - apply items_ext. intros i Hi.
    apply mem_read_memcpy_before; nia.
  - f_equal. cbn [Z.add].
    pose proof (mem_read_memcpy_same buf (Z.of_nat k * size) e ltac:(nia) Hfit) as H.
    rewrite He in H. exact H.
Qed.

(** Taking [e] into the output, as the end of a turn does. *)
Lemma combine_emit_rel (A : bool) (e1 e2 : element_set_t) (L : nat)
    (la lb racc la' lb' : list (list byte)) (st : combine_state) (e : list byte)
    (p1 p2 : Z) (m : mem) :
  0 < item_size e1 ->
  combine_rel e1 e2 L la lb racc st ->
  merge_inv (item_size e1) la lb racc ->
  Z.of_nat (length e) = item_size e1 -> In e (la ++ lb) ->
  (Z.of_nat (length racc) + 1) * item_size e1 <= Z.of_nat L ->
  p1 = nbytes e1 - Z.of_nat (length la') * item_size e1 -> 0 <= p1 ->
  items (bytes (data e1)) p1 (item_size e1) (length la') = la' ->
  p2 = nbytes e2 - Z.of_nat (length lb') * item_size e1 -> 0 <= p2 ->
  items (bytes (data e2)) p2 (item_size e1) (length lb') = lb' ->
  exists st',
    (if tmp st =? 0 then
       ret (mkcombine p1 p2 (tmp st + item_size e1) (tmp st)
              (memcpy (merged st) (tmp st) e))
     else if negb (memcmp (mem_read (merged st) (prev st) (item_size e1)) e =? 0) then
       Assert A (memcmp (mem_read (merged st) (prev st) (item_size e1)) e <? 0) ;;
       ret (mkcombine p1 p2 (tmp st + item_size e1) (tmp st)
              (memcpy (merged st) (tmp st) e))
     else ret (mkcombine p1 p2 (tmp st) (prev st) (merged st))) m = Ok (st', m) /\
    combine_rel e1 e2 L la' lb' (emit racc e) st'.
Proof.
  intros His [Hp1 Hp1' Hla Hp2 Hp2' Hlb Htmp Hout Hprev HL] Hinv He Hin Hroom
    Ep1 Ep1' Ela' Ep2 Ep2' Elb'.
  assert (Hw : items (memcpy (merged st) (tmp st) e) 0 (item_size e1) (S (length racc))
               = rev racc ++ [e]).
  { rewrite Htmp, items_snoc_memcpy; [rewrite Hout; reflexivity | lia | exact He | nia]. }
  assert (Hwl : length (memcpy (merged st) (tmp st) e) = L).
  { rewrite memcpy_length; [exact HL | nia | nia]. }
  assert (Hrd : mem_read (memcpy (merged st) (tmp st) e) (tmp st) (item_size e1) = e).
  { pose proof (mem_read_memcpy_same (merged st) (tmp st) e ltac:(nia) ltac:(nia)) as H.
    rewrite He in H. exact H. }
  destruct racc as [|p r].
  - cbn [length Z.of_nat Z.mul] in Htmp. rewrite Htmp in *. cbn [Z.eqb].
    eexists. split; [reflexivity |]. cbn [emit].
    split; cbn [ptr1 ptr2 tmp prev merged];
      [exact Ep1 | exact Ep1' | exact Ela' | exact Ep2 | exact Ep2' | exact Elb'
      | cbn [length]; lia | exact Hw | | exact Hwl].
    intros p r H. inversion H; subst. exact Hrd.
  - assert (Htpos : (tmp st =? 0) = false).
    { apply Z.eqb_neq. cbn [length] in Htmp. nia. }
    rewrite Htpos, (Hprev p r eq_refl). cbn [emit].
    destruct (memcmp p e =? 0) eqn:E; cbn [negb].
    + eexists. split; [reflexivity |].
      split; cbn [ptr1 ptr2 tmp prev merged];
        [exact Ep1 | exact Ep1' | exact Ela' | exact Ep2 | exact Ep2' | exact Elb'
        | exact Htmp | exact Hout | exact Hprev | exact HL].
    + assert (Hlt : memcmp p e < 0).
      { apply Z.eqb_neq in E. destruct Hinv as [_ _ _ _ _ _ Hbound].
        specialize (Hbound p r eq_refl). rewrite Forall_forall in Hbound.
        specialize (Hbound e Hin). lia. }
      assert_ok ltac:(apply Z.ltb_lt; exact Hlt).
      eexists. split; [reflexivity |].
      split; cbn [ptr1 ptr2 tmp prev merged];
        [exact Ep1 | exact Ep1' | exact Ela' | exact Ep2 | exact Ep2' | exact Elb'
        | | exact Hw | | exact Hwl].
      * rewrite Htmp. cbn [length]. rewrite !Nat2Z.inj_succ. ring.
      * intros p' r' H. inversion H; subst. exact Hrd.
Qed.

(** A turn of the loop on operands whose arrays hold exactly their items,
    in either build: it succeeds and does to the state what
    [combine_items_step] does to the lists. *)
Lemma combine_step_exact (A : bool) (e1 e2 : element_set_t) (L : nat)
    (la lb racc : list (list byte)) (st : combine_state) (m : mem) :
  0 < item_size e1 -> item_size e2 = item_size e1 ->
  nbytes e1 <= Z.of_nat (length (bytes (data e1))) ->
  nbytes e2 <= Z.of_nat (length (bytes (data e2))) ->
  combine_rel e1 e2 L la lb racc st ->
  merge_inv (item_size e1) la lb racc ->
  (0 < length la + length lb)%nat ->
  (Z.of_nat (length racc) + 1) * item_size e1 <= Z.of_nat L ->
  exists st',
    combine_step A e1 e2 st m = Ok (st', m) /\
    combine_rel e1 e2 L (fst (fst (combine_items_step (la, lb, racc))))
      (snd (fst (combine_items_step (la, lb, racc))))
      (snd (combine_items_step (la, lb, racc))) st'.
Proof.
  intros His Hi2 Hl1 Hl2 Hrel Hinv Hne Hroom.
  pose proof Hrel as [Hp1 Hp1' Hla Hp2 Hp2' Hlb Htmp Hout Hprev HL].
  pose proof Hinv as [_ _ _ Hua Hub _ _].
  unfold combine_step.
  assert_ok ltac:(apply Z.leb_le; nia).
  assert_ok ltac:(apply Z.leb_le; nia).
  destruct la as [|x la']; destruct lb as [|y lb']; cbn [length] in *.
  - lia.
  - (* only the second operand has items left *)
    rewrite items_cons in Hlb. injection Hlb as Hy Hlb'.
    assert (Hylen : Z.of_nat (length y) = item_size e1) by (inversion Hub; assumption).
    replace (ptr1 st <? nbytes e1) with false by (symmetry; apply Z.ltb_ge; nia).
    replace (ptr2 st <? nbytes e2) with true by (symmetry; apply Z.ltb_lt; nia).
    cbn [andb].
    erewrite bind_Ok;
      [| erewrite bind_Ok; [reflexivity | apply read_checked_Ok; nia]].
    cbv iota beta. rewrite Hy, Hi2. cbn [combine_items_step fst snd].
    apply (combine_emit_rel A e1 e2 L [] (y :: lb') racc [] lb');
      [exact His | exact Hrel | exact Hinv | exact Hylen | left; reflexivity | exact Hroom
      | cbn [length]; nia | nia | reflexivity | nia | nia | exact Hlb'].
  - (* only the first operand has items left *)
    rewrite items_cons in Hla. injection Hla as Hx Hla'.
    assert (Hxlen : Z.of_nat (length x) = item_size e1) by (inversion Hua; assumption).
    replace (ptr1 st <? nbytes e1) with true by (symmetry; apply Z.ltb_lt; nia).
    replace (ptr2 st <? nbytes e2) with false by (symmetry; apply Z.ltb_ge; nia).
    cbn [andb].
    erewrite bind_Ok;
      [| erewrite bind_Ok; [reflexivity | apply read_checked_Ok; nia]].
    cbv iota beta. rewrite Hx. cbn [combine_items_step fst snd].
    apply (combine_emit_rel A e1 e2 L (x :: la') [] racc la' []);
      [exact His | exact Hrel | exact Hinv | exact Hxlen | left; reflexivity | exact Hroom
      | nia | nia | exact Hla' | cbn [length]; nia | nia | reflexivity].
  - (* both have: the smaller head, the first on a tie *)
    rewrite items_cons in Hla. injection Hla as Hx Hla'.
    rewrite items_cons in Hlb. injection Hlb as Hy Hlb'.
    assert (Hxlen : Z.of_nat (length x) = item_size e1) by (inversion Hua; assumption).
    assert (Hylen : Z.of_nat (length y) = item_size e1) by (inversion Hub; assumption).
    replace (ptr1 st <? nbytes e1) with true by (symmetry; apply Z.ltb_lt; nia).
    replace (ptr2 st <? nbytes e2) with true by (symmetry; apply Z.ltb_lt; nia).
    cbn [andb combine_items_step].
    assert (R1 : read_checked (bytes (data e1)) (ptr1 st) (item_size e1) m = Ok (x, m))
      by (rewrite <- Hx; apply read_checked_Ok; nia).
    assert (R2 : read_checked (bytes (data e2)) (ptr2 st) (item_size e1) m = Ok (y, m))
      by (rewrite <- Hy; apply read_checked_Ok; nia).
    destruct (memcmp x y <=? 0) eqn:E;
      (erewrite bind_Ok;
         [| erewrite bind_Ok; [| exact R1]; erewrite bind_Ok; [| exact R2];
            cbv beta; rewrite E; reflexivity]);
      cbv iota beta; cbn [fst snd].
    + apply (combine_emit_rel A e1 e2 L (x :: la') (y :: lb') racc la' (y :: lb'));
        [exact His | exact Hrel | exact Hinv | exact Hxlen | left; reflexivity | exact Hroom
        | nia | nia | exact Hla' | cbn [length]; nia | nia
        | cbn [length]; rewrite items_cons, Hy, Hlb'; reflexivity].
    + apply (combine_emit_rel A e1 e2 L (x :: la') (y :: lb') racc (x :: la') lb');
        [exact His | exact Hrel | exact Hinv | exact Hylen
        | apply in_or_app; right; left; reflexivity | exact Hroom
        | cbn [length]; nia | nia
        | cbn [length]; rewrite items_cons, Hx, Hla'; reflexivity
        | nia | nia | exact Hlb'].
Qed.

Lemma emit_In (size : Z) (racc : list (list byte)) (e z : list byte) :
  uniform size racc -> Z.of_nat (length e) = size ->
  In z (emit racc e) <-> z = e \/ In z racc.
Proof.
  intros Hu He. destruct racc as [|p r]; cbn [emit].
  - cbn. intuition congruence.
  - destruct (memcmp p e =? 0) eqn:E.
    + apply Z.eqb_eq in E. apply memcmp_eq in E.
      * subst e. cbn. intuition congruence.
      * inversion Hu; subst. lia.
    + cbn. intuition congruence.
Qed.

Lemma emit_length (racc : list (list byte)) (e : list byte) :
  (length (emit racc e) <= S (length racc))%nat.
Proof.
  destruct racc as [|p r]; cbn [emit length]; [lia |].
  destruct (memcmp p e =? 0); cbn [length]; lia.
Qed.

(** After as many turns as there are items, both operands are used up and
    the output holds exactly the items of either, in strictly increasing
    order (its reverse, strictly decreasing). *)
Lemma combine_items_all (size : Z) :
  forall (n : nat) (la lb racc : list (list byte)),
    merge_inv size la lb racc -> n = (length la + length lb)%nat ->
    exists racc',
      combine_items n (la, lb, racc) = ([], [], racc') /\
      merge_inv size [] [] racc' /\
      (forall z, In z racc' <-> In z racc \/ In z la \/ In z lb) /\
      (length racc' <= length racc + n)%nat.
Proof.
  induction n as [|n IH]; intros la lb racc Hinv Hn.
  - destruct la; destruct lb; try discriminate.
    exists racc. cbn [combine_items]. split; [reflexivity |]. split; [exact Hinv |].
    split; [cbn; intuition | lia].
  - cbn [combine_items].
    pose proof (merge_inv_step size la lb racc Hinv) as Hstep.
    pose proof Hinv as [_ _ _ Hua Hub Huacc _].
    destruct la as [|x la']; destruct lb as [|y lb']; cbn [length] in Hn; try lia;
      unfold combine_items_step in *.
    + destruct (IH [] lb' (emit racc y) Hstep ltac:(cbn [length]; lia))
        as [racc' [E [Hinv' [Hin' Hlen']]]].
      exists racc'. split; [exact E |]. split; [exact Hinv' |].
      pose proof (emit_length racc y).
      split; [| lia].
      intros z. rewrite Hin'. rewrite (emit_In size) by (try assumption; inversion Hub; assumption).
      cbn [In]. intuition.
    + destruct (IH la' [] (emit racc x) Hstep ltac:(cbn [length]; lia))
        as [racc' [E [Hinv' [Hin' Hlen']]]].
      exists racc'. split; [exact E |]. split; [exact Hinv' |].
      pose proof (emit_length racc x).
      split; [| lia].
      intros z. rewrite Hin'. rewrite (emit_In size) by (try assumption; inversion Hua; assumption).
      cbn [In]. intuition.
    + destruct (memcmp x y <=? 0).
      * destruct (IH la' (y :: lb') (emit racc x) Hstep ltac:(cbn [length]; lia))
          as [racc' [E [Hinv' [Hin' Hlen']]]].
        exists racc'. split; [exact E |]. split; [exact Hinv' |].
        pose proof (emit_length racc x).
        split; [| lia].
        intros z. rewrite Hin'.
        rewrite (emit_In size) by (try assumption; inversion Hua; assumption).
        cbn [In]. intuition.
      * destruct (IH (x :: la') lb' (emit racc y) Hstep ltac:(cbn [length]; lia))
          as [racc' [E [Hinv' [Hin' Hlen']]]].
        exists racc'. split; [exact E |]. split; [exact Hinv' |].
        pose proof (emit_length racc y).
        split; [| lia].
        intros z. rewrite Hin'.
        rewrite (emit_In size) by (try assumption; inversion Hub; assumption).
        cbn [In]. intuition.
Qed.

(** The loop of combine against [combine_items], in either build. *)
Lemma combine_loop_exact (A : bool) (e1 e2 : element_set_t) (L : nat) :
  0 < item_size e1 -> item_size e2 = item_size e1 ->
  nbytes e1 <= Z.of_nat (length (bytes (data e1))) ->
  nbytes e2 <= Z.of_nat (length (bytes (data e2))) ->
  forall (n : nat) (la lb racc : list (list byte)) (st : combine_state) (m : mem),
    combine_rel e1 e2 L la lb racc st ->
    merge_inv (item_size e1) la lb racc ->
    n = (length la + length lb)%nat ->
    (Z.of_nat (length racc) + Z.of_nat n) * item_size e1 <= Z.of_nat L ->
    exists st',
      combine_loop A n e1 e2 st m = Ok (st', m) /\
      combine_rel e1 e2 L (fst (fst (combine_items n (la, lb, racc))))
        (snd (fst (combine_items n (la, lb, racc))))
        (snd (combine_items n (la, lb, racc))) st'.
Proof.
  intros His Hi2 Hl1 Hl2.
  induction n as [|n IH]; intros la lb racc st m Hrel Hinv Hn Hroom.
  - exists st. split; [reflexivity | exact Hrel].
  - cbn [combine_loop combine_items].
    destruct (combine_step_exact A e1 e2 L la lb racc st m His Hi2 Hl1 Hl2 Hrel Hinv
                ltac:(lia) ltac:(nia)) as [st1 [E1 Hrel1]].
    rewrite (bind_Ok _ _ _ _ _ E1).
    pose proof (merge_inv_step (item_size e1) la lb racc Hinv) as Hinv1.
    assert (Hsz : (length (fst (fst (combine_items_step (la, lb, racc)))) +
                   length (snd (fst (combine_items_step (la, lb, racc)))) = n)%nat /\
                  (length (snd (combine_items_step (la, lb, racc))) <= S (length racc))%nat).
    { unfold combine_items_step.
      destruct la as [|x la']; destruct lb as [|y lb']; cbn [length] in Hn; try lia.
      - cbn [fst snd length]. pose proof (emit_length racc y). lia.
      - cbn [fst snd length]. pose proof (emit_length racc x). lia.
      - destruct (memcmp x y <=? 0); cbn [fst snd length].
        + pose proof (emit_length racc x). lia.
        + pose proof (emit_length racc y). lia. }
    destruct (combine_items_step (la, lb, racc)) as [[la1 lb1] racc1].
    cbn [fst snd] in *. destruct Hsz as [Hsz1 Hsz2].
    apply (IH la1 lb1 racc1 st1 m Hrel1 Hinv1); [lia | nia].
Qed.

Lemma strictly_increasing_snoc (l : list (list byte)) (x y : list byte) :
  strictly_increasing (l ++ [x]) -> memcmp x y < 0 ->
  strictly_increasing ((l ++ [x]) ++ [y]).
Proof.
  induction l as [|a l IH]; intros H Hxy.
  - cbn. auto.
  - destruct l as [|b l].
    + cbn in *. intuition.
    + cbn [app] in *. cbn [strictly_increasing] in *.
      destruct H as [Hab H]. split; [exact Hab | apply IH; assumption].
Qed.

Lemma strictly_decreasing_rev (l : list (list byte)) :
  strictly_decreasing l -> strictly_increasing (rev l).
Proof.
  induction l as [|x l IH]; intros H; [exact I |].
  destruct l as [|y l]; [exact I |].
  cbn [strictly_decreasing] in H. destruct H as [Hyx H].
  specialize (IH H). cbn [rev] in *.
  apply strictly_increasing_snoc; assumption.
Qed.

(** Combine on two compacted operands whose arrays are exactly full, as
    [lrtm_count_distinct_deserial] builds them: in either build it returns,
    leaves the second operand and the memory's contents alone, and its
    result is compacted, exactly full, strictly increasing, and holds the
    items of the two operands and no others. *)
Lemma combine_exact_operands (A : bool) (T : Z) (a b : element_set_t) (m : mem) :
  wf a -> wf b -> 0 < nall a -> 0 < nall b -> item_size b = item_size a ->
  nsorted a = nall a -> nsorted b = nall b ->
  nbytes a = nall a * item_size a -> nbytes b = nall b * item_size b ->
  sorted_prefix a -> sorted_prefix b ->
  exists r m',
    lrtm_count_distinct_combine A T (Some a) (Some b) m
    = Ok ((PointerGetDatum (Some r), Some b), m') /\
    item_size r = item_size a /\ nsorted r = nall r /\
    nbytes r = nall r * item_size r /\
    Z.of_nat (length (bytes (data r))) = nbytes a + nbytes b /\
    0 < nall r <= nall a + nall b /\
    sorted_prefix r /\
    (forall z, In z (items (bytes (data r)) 0 (item_size r) (Z.to_nat (nall r))) <->
               In z (items (bytes (data a)) 0 (item_size a) (Z.to_nat (nall a))) \/
               In z (items (bytes (data b)) 0 (item_size b) (Z.to_nat (nall b)))).
Proof.
  intros Hwfa Hwfb Hna Hnb Heq Hsa Hsb Hta Htb Hsorta Hsortb.
  pose proof Hwfa as [Hisa _ _ Hnba Hla]. pose proof Hwfb as [_ _ _ Hnbb Hlb].
  assert (Hma : mul32 (nall a) (item_size a) = nall a * item_size a)
    by (apply mul32_small; nia).
  assert (Hmb : mul32 (nall b) (item_size b) = nall b * item_size b)
    by (apply mul32_small; nia).
  assert (Hadd : add32 (nbytes a) (nbytes b) = nbytes a + nbytes b)
    by (apply add32_small; nia).
  assert (Hcnt : add32 (nall a) (nall b) = nall a + nall b)
    by (apply add32_small; nia).
  assert (Hmab : mul32 (add32 (nall a) (nall b)) (item_size a) =
                 (nall a + nall b) * item_size a)
    by (rewrite Hcnt; apply mul32_small; nia).
  unfold lrtm_count_distinct_combine.
  assert_ok ltac:(rewrite Heq, Z.eqb_refl, Bool.andb_true_r; apply Z.ltb_lt; lia).
  rewrite (bind_Ok _ _ _ _ _ (compact_set_noop A T a m Hna Hsa ltac:(lia))).
  rewrite (bind_Ok _ _ _ _ _ (compact_set_noop A T b m Hnb Hsb ltac:(lia))).
  rewrite (bind_Ok _ _ _ _ _ (palloc_Ok _ _)).
  cbn [bytes block].
  set (fresh := map _ _). set (m3 := mkmem _ _ _).
  assert (Hfresh : Z.of_nat (length fresh) = nbytes a + nbytes b).
  { subst fresh. rewrite length_map, length_seq, Hadd. nia. }
  set (la := items (bytes (data a)) 0 (item_size a) (Z.to_nat (nall a))).
  set (lb := items (bytes (data b)) 0 (item_size b) (Z.to_nat (nall b))).
  assert (Hlena : length la = Z.to_nat (nall a)) by apply items_length.
  assert (Hlenb : length lb = Z.to_nat (nall b)) by apply items_length.
  assert (Hinv : merge_inv (item_size a) la lb []).
  { split.
    - unfold sorted_prefix in Hsorta. rewrite Hsa in Hsorta. exact Hsorta.
    - unfold sorted_prefix in Hsortb. rewrite Hsb in Hsortb. exact Hsortb.
    - exact I.
    - apply items_Forall_length; [lia | lia |]. rewrite Z2Nat.id by lia. lia.
    - subst lb. rewrite Heq. apply items_Forall_length; [lia | lia |].
      rewrite Z2Nat.id by lia. rewrite Hlb, Htb, Heq. lia.
    - constructor.
    - intros p r Hpr. discriminate. }
  assert (Hrel : combine_rel a b (length fresh) la lb [] (mkcombine 0 0 0 0 fresh)).
  { split; cbn [ptr1 ptr2 tmp prev merged length].
    - rewrite Hlena, Z2Nat.id by lia. lia.
    - lia.
    - rewrite Hlena. reflexivity.
    - rewrite Hlenb, Z2Nat.id by lia. rewrite Htb, Heq. lia.
    - lia.
    - rewrite Hlenb. subst lb. rewrite Heq. reflexivity.
    - reflexivity.
    - reflexivity.
    - intros p r Hpr. discriminate.
    - reflexivity. }
  set (n := Z.to_nat (add32 (nall a) (nall b))).
  assert (Hn : n = (length la + length lb)%nat)
    by (subst n; rewrite Hcnt, Hlena, Hlenb; lia).
  destruct (combine_loop_exact A a b (length fresh) Hisa Heq ltac:(lia) ltac:(lia)
              n la lb [] (mkcombine 0 0 0 0 fresh) m3 Hrel Hinv Hn)
    as [st [Est Hrel']].
  { cbn [length]. rewrite Hfresh. subst n. rewrite Hcnt, Z2Nat.id by lia. nia. }
  destruct (combine_items_all (item_size a) n la lb [] Hinv Hn)
    as [racc [Eitems [Hinv' [Hin Hlen]]]].
  rewrite Eitems in Hrel'. cbn [fst snd] in Hrel'.
  destruct Hrel' as [Hp1 _ _ Hp2 _ _ Htmp Hout _ Hlenm].
  cbn [length] in Hp1, Hp2, Hlen.
  assert (Hracc : Z.of_nat (length racc) <= nall a + nall b)
    by (subst n; rewrite Hcnt in Hlen; lia).
  assert (Hpos : (0 < length racc)%nat).
  { destruct racc as [|p r]; [| cbn; lia]. exfalso.
    destruct la as [|x la']; [cbn in Hlena; lia |].
    apply (proj2 (Hin x)). right. left. left. reflexivity. }
  rewrite (bind_Ok _ _ _ _ _ Est).
  assert_ok ltac:(apply Z.eqb_eq; lia).
  assert_ok ltac:(apply Z.eqb_eq; lia).
  assert_ok ltac:(apply Z.leb_le; nia).
  rewrite (bind_Ok (pfree (data a)) _ m3 _ tt eq_refl).
  div_ok ltac:(cbn [set_nbytes set_data item_size]; lia).
  assert (Hu : u32 (tmp st) = Z.of_nat (length racc) * item_size a)
    by (rewrite Htmp; apply u32_small; nia).
  assert (Hdiv : Z.of_nat (length racc) * item_size a / item_size a =
                 Z.of_nat (length racc)) by (apply Z.div_mul; lia).
  eexists. eexists. split; [reflexivity |].
  cbn [set_nsorted set_nall set_nbytes set_data item_size nsorted nall nbytes data
       bytes block].
  rewrite Hu, Hdiv.
  split; [reflexivity |]. split; [reflexivity |]. split; [reflexivity |].
  split; [rewrite Hlenm; exact Hfresh |].
  split; [lia |].
  split.
  - unfold sorted_prefix.
    cbn [set_nsorted set_nall set_nbytes set_data item_size nsorted nall nbytes data
         bytes block].
    rewrite ?Hu, ?Hdiv, Nat2Z.id, Hout.
    apply strictly_decreasing_rev. destruct Hinv'. assumption.
  - intros z. rewrite Nat2Z.id, Hout, <- in_rev, Hin. cbn [In]. tauto.
Qed.

(** ** Growth and room *)


Lemma room_after_compaction (T n k size : Z) :
  In size [1; 2; 4; 8] -> 40 <= T -> 1 <= k -> k * size <= n ->
  (32 <= n \/ (size | n)) ->
  size * (k + 1) <=
    (if free_fract_below (n - k * size) n then grown T n else n).
Proof.
  intros Hsize HT Hk Hfit Hshape.
  assert (Hs : 0 < size <= 8) by (cbn in Hsize; intuition lia).
  unfold free_fract_below, grown, grown_below.
  destruct (5 * (n - k * size) <? n) eqn:Efree.
  - destruct (5 * n <? 4 * T) eqn:Ethr.
    + nia.
    + apply Z.ltb_ge in Ethr.
      assert (n + 8 <= 5 * n / 4) by (apply Z.div_le_lower_bound; lia).
      nia.
  - apply Z.ltb_ge in Efree. destruct Hshape as [H32 | [q Hq]].
    + cbn in Hsize. destruct Hsize as [<- | [<- | [<- | [<- | []]]]]; lia.
    + subst n. assert (k < q) by nia. nia.
Qed.




Lemma elements_append_loop_all_null
    (fetch_att : list byte -> Z -> Z -> M (list byte))
    (att_addlength_pointer : Z -> Z -> Z) (att_align_nominal : Z -> byte -> Z)
    (A : bool) (T : Z) (ty : typinfo) (aggcontext : Z)
    (arg0 : option element_set_t) (input : ArrayType) (idx : list Z) (m : mem) :
  (forall i, In i idx -> item_is_null input i = true) ->
  elements_append_loop A T fetch_att att_addlength_pointer att_align_nominal ty
    aggcontext arg0 input idx (None, 0) m = Ok ((None, 0), m).
Proof.
  induction idx as [|i idx IH]; intros Hnull; cbn [elements_append_loop].
  - reflexivity.
  - unfold elements_append_step at 1. rewrite (Hnull i (or_introl eq_refl)).
    rewrite (bind_Ok _ _ m m (None, 0) eq_refl).
    apply IH. intros k Hk. apply Hnull. right. exact Hk.
Qed.


(** ** The capacities that occur *)

Lemma init_set_capacity_shape (item_size0 : Z) (typalign0 : byte) (ctx : Z)
    (s : element_set_t) (m m' : mem) :
  init_set item_size0 typalign0 ctx m = Ok (s, m') ->
  capacity_shape s /\ nall s = 0 /\ nsorted s = 0 /\
  Z.of_nat (length (bytes (data s))) = nbytes s.
Proof.
  unfold init_set. intros H.
  apply bind_Ok_inv in H. destruct H as [e [m1 [_ H]]].
  cbn [nbytes] in H. rewrite (bind_Ok _ _ _ _ _ (palloc_Ok _ _)) in H.
  inversion H; subst s m'. unfold capacity_shape.
  cbn [set_data nbytes nall nsorted data bytes item_size].
  split; [left; lia |]. split; [reflexivity |]. split; [reflexivity |].
  reflexivity.
Qed.

Lemma compact_set_capacity_shape (A : bool) (T : Z) (s s' : element_set_t)
    (need : bool) (m m' : mem) :
  wf s -> 0 < nall s -> capacity_shape s -> 40 <= T ->
  compact_set A T s need m = Ok (s', m') -> capacity_shape s'.
Proof.
  intros Hwf Hn Hshape HT H. pose proof Hwf as [His _ Hfit Hnb _].
  destruct (compact_set_shape A T s need m Hwf Hn)
    as [s1 [m1 [E [Hi [_ [_ [_ [_ [_ [_ [Hb _]]]]]]]]]]].
  rewrite E in H. inversion H; subst s1 m1.
  unfold capacity_shape, ARRAY_INIT_SIZE in *. rewrite Hi, Hb.
  destruct (need && _); [| exact Hshape].
  unfold grown, grown_below. destruct (5 * nbytes s <? 4 * T) eqn:Ethr.
  - destruct Hshape as [H32 | [q Hq]]; [left; lia | right; exists (2 * q); lia].
  - apply Z.ltb_ge in Ethr. left. apply Z.div_le_lower_bound; lia.
Qed.

(** ** The scenarios of the specification that the code meets *)

(** Appending 5, 3, 5, 1, 3, 3 gives the count 3 and the sequence 1, 3, 5,
    whatever the fresh memory held. *)
Lemma scenario_append_then_count (A : bool) (j : Z -> nat -> byte) :
  exists s s' m1 m2 m3,
    append_all A PG_ALLOCSET_SEPARATE_THRESHOLD int4 0
      (map Int32GetDatum [5; 3; 5; 1; 3; 3]) None (empty_mem j) = Ok (Some s, m1) /\
    lrtm_count_distinct A PG_ALLOCSET_SEPARATE_THRESHOLD (Some s) m1
    = Ok ((Some 3, Some s'), m2) /\
    build_array A PG_ALLOCSET_SEPARATE_THRESHOLD s m1
    = Ok (([le_split 4 1; le_split 4 3; le_split 4 5], s'), m3).
Proof.
  destruct A; do 5 eexists; (split; [vm_compute; reflexivity |]);
    split; vm_compute; reflexivity.
Qed.

(** The arrays {1,2}, {2,3}, NULL, {1} give the count 3. *)
Lemma scenario_arrays_then_count (A : bool) (j : Z -> nat -> byte) :
  exists s s' m1 m2,
    elements_append_all A PG_ALLOCSET_SEPARATE_THRESHOLD int4 0
      [Some (int4_array [1; 2]); Some (int4_array [2; 3]); None; Some (int4_array [1])]
      None (empty_mem j) = Ok (Some s, m1) /\
    lrtm_count_distinct A PG_ALLOCSET_SEPARATE_THRESHOLD (Some s) m1
    = Ok ((Some 3, Some s'), m2).
Proof.
  destruct A; do 4 eexists; (split; [vm_compute; reflexivity |]);
    vm_compute; reflexivity.
Qed.

(** * Functional correctness *)

(** ** Byte regions: reads after writes *)

Lemma mem_read_memcpy_after (dst : list byte) (off : Z) (src : list byte) (o n : Z) :
  0 <= off -> off + Z.of_nat (length src) <= o ->
  off + Z.of_nat (length src) <= Z.of_nat (length dst) ->
  mem_read (memcpy dst off src) o n = mem_read dst o n.
Proof.
  intros Ho Hle Hlen. unfold mem_read, memcpy. f_equal.
  rewrite app_assoc, skipn_app.
  rewrite skipn_all2 by (rewrite length_app, length_firstn; lia).
  cbn [app]. rewrite length_app, length_firstn, skipn_skipn. f_equal. lia.
Qed.

Lemma mem_read_memcpy_inside (dst : list byte) (off : Z) (src : list byte) (o n : Z) :
  0 <= off -> off <= Z.of_nat (length dst) -> 0 <= o -> 0 <= n ->
  o + n <= Z.of_nat (length src) ->
  mem_read (memcpy dst off src) (off + o) n = mem_read src o n.
Proof.
  intros Hoff Hlen Ho Hn Hle. unfold mem_read, memcpy.
  rewrite skipn_app, length_firstn.
  rewrite skipn_all2 by (rewrite length_firstn; lia).
  cbn [app].
  replace (Z.to_nat (off + o) - Nat.min (Z.to_nat off) (length dst))%nat
    with (Z.to_nat o) by lia.
  rewrite skipn_app, firstn_app, length_skipn.
  replace (Z.to_nat n - (length src - Z.to_nat o))%nat with 0%nat by lia.
  cbn [firstn]. apply app_nil_r.
Qed.

Lemma mem_read_nil (buf : list byte) (off : Z) : mem_read buf off 0 = [].
Proof. reflexivity. Qed.

Lemma mem_read_split (buf : list byte) (off n k : Z) :
  0 <= off -> 0 <= n -> 0 <= k ->
  mem_read buf off (n + k) = mem_read buf off n ++ mem_read buf (off + n) k.
Proof.
  intros Ho Hn Hk. unfold mem_read.
  rewrite Z2Nat.inj_add by lia.
  rewrite (Z2Nat.inj_add off n) by lia.
  rewrite <- (firstn_skipn (Z.to_nat n) (skipn (Z.to_nat off) buf)) at 1.
  rewrite firstn_app, length_firstn.
  rewrite firstn_firstn.
  replace (Nat.min (Z.to_nat n + Z.to_nat k) (Z.to_nat n)) with (Z.to_nat n) by lia.
  rewrite skipn_skipn. f_equal.
  replace (Z.to_nat n + Z.to_nat off)%nat with (Z.to_nat off + Z.to_nat n)%nat by lia.
  destruct (Nat.le_gt_cases (Z.to_nat n) (length (skipn (Z.to_nat off) buf))) as [H | H].
  - f_equal. lia.
  - rewrite (skipn_all2 (n := (Z.to_nat off + Z.to_nat n)%nat))
      by (rewrite length_skipn in H; lia).
    rewrite !firstn_nil. reflexivity.
Qed.

(** ** Items of a region *)

Lemma items_app (buf : list byte) (base size : Z) (n k : nat) :
  items buf base size (n + k)
  = items buf base size n ++ items buf (base + Z.of_nat n * size) size k.
Proof.
  unfold items. rewrite seq_app, map_app. f_equal.
  cbn [Nat.add]. rewrite <- (map_id (seq n k)) at 1.
  replace (seq n k) with (map (fun i => (n + i)%nat) (seq 0 k)).
  - rewrite map_id, map_map. apply map_ext. intros i. f_equal. lia.
  - clear. revert n. induction k as [|k IH]; intros n; [reflexivity |].
    cbn [seq map]. f_equal; [lia |].
    rewrite <- seq_shift, map_map. rewrite <- (IH (S n)).
    apply map_ext. intros i. lia.
Qed.

Lemma items_concat (buf : list byte) (base size : Z) (n : nat) :
  0 <= base -> 0 <= size ->
  concat (items buf base size n) = mem_read buf base (Z.of_nat n * size).
Proof.
  intros Hb Hs. revert base Hb. induction n as [|n IH]; intros base Hb.
  - reflexivity.
  - rewrite items_cons. cbn [concat]. rewrite IH by lia.
    replace (Z.of_nat (S n) * size) with (size + Z.of_nat n * size) by lia.
    rewrite mem_read_split by nia. reflexivity.
Qed.

(** A run of whole items written at [base] reads back as those items. *)
Lemma items_memcpy_concat (buf : list byte) (base size : Z) (l : list (list byte)) :
  0 <= base -> 0 <= size -> base <= Z.of_nat (length buf) ->
  uniform size l ->
  items (memcpy buf base (concat l)) base size (length l) = l.
Proof.
  intros Hb Hs Hlen Hu.
  assert (Hgen : forall (pre l : list (list byte)),
             uniform size pre -> uniform size l ->
             items (memcpy buf base (concat (pre ++ l)))
               (base + Z.of_nat (length pre) * size) size (length l) = l).
  { clear l Hu. intros pre l. revert pre. induction l as [|x l IH]; intros pre Hpre Hl.
    - reflexivity.
    - pose proof (Forall_inv Hl) as Hx. pose proof (Forall_inv_tail Hl) as Hl'.
      cbn beta in Hx.
      assert (Hcp : Z.of_nat (length (concat pre)) = Z.of_nat (length pre) * size)
        by (apply concat_length_uniform; exact Hpre).
      cbn [length]. rewrite items_cons. f_equal.
      + rewrite mem_read_memcpy_inside; try lia.
        * rewrite concat_app. cbn [concat].
          rewrite <- Hcp.
          pose proof (mem_read_app_r (concat pre) (x ++ concat l) 0 size
                        ltac:(lia)) as H.
          rewrite Z.add_0_r in H. rewrite H.
          rewrite <- Hx. apply mem_read_app_l.
        * rewrite (concat_length_uniform size).
          -- rewrite length_app. cbn [length]. nia.
          -- apply Forall_app. split; [exact Hpre | exact Hl].
      + specialize (IH (pre ++ [x])).
        rewrite <- app_assoc in IH. cbn [app] in IH.
        rewrite length_app in IH. cbn [length] in IH.
        replace (base + Z.of_nat (length pre) * size + size)
          with (base + Z.of_nat (length pre + 1) * size) by lia.
        apply IH; [| exact Hl'].
        apply Forall_app. split; [exact Hpre | constructor; [exact Hx | constructor]]. }
  specialize (Hgen [] l ltac:(constructor) Hu).
  cbn [app length] in Hgen. rewrite Z.add_0_r in Hgen. exact Hgen.
Qed.

(** ** Sorted runs of items *)

Lemma compare_items_memcmp (size : Z) (x y : list byte) :
  Z.of_nat (length x) = size -> Z.of_nat (length y) = size ->
  compare_items x y size = memcmp x y.
Proof.
  intros Hx Hy. unfold compare_items.
  rewrite <- Hx at 1. rewrite <- Hy. rewrite !mem_read_all. reflexivity.
Qed.

Lemma nondecreasing_tail (x : list byte) (l : list (list byte)) :
  nondecreasing (x :: l) -> nondecreasing l.
Proof. destruct l as [|y l]; cbn; [trivial | intros [_ H]; exact H]. Qed.

Lemma nondecreasing_head_le (size : Z) (x : list byte) (l : list (list byte)) :
  uniform size (x :: l) -> nondecreasing (x :: l) ->
  Forall (fun y => memcmp x y <= 0) l.
Proof.
  revert x. induction l as [|y l IH]; intros x Hu Hs; [constructor |].
  cbn [nondecreasing] in Hs. destruct Hs as [Hxy Hs].
  pose proof (Forall_inv Hu) as Hx. pose proof (Forall_inv_tail Hu) as Hu'.
  pose proof (Forall_inv Hu') as Hy. cbn beta in Hx, Hy.
  constructor; [exact Hxy |].
  specialize (IH y Hu' Hs).
  apply Forall_forall. intros z Hz.
  pose proof (proj1 (Forall_forall _ _) IH z Hz) as Hyz.
  pose proof (proj1 (Forall_forall _ _) (Forall_inv_tail Hu') z Hz) as Hzl.
  cbn beta in Hyz, Hzl.
  apply (memcmp_le_trans x y z); [lia | lia | exact Hxy | exact Hyz].
Qed.

Lemma nondecreasing_cons (x : list byte) (l : list (list byte)) :
  Forall (fun y => memcmp x y <= 0) l -> nondecreasing l -> nondecreasing (x :: l).
Proof.
  intros Hf Hs. destruct l as [|y l]; [exact I |].
  cbn [nondecreasing]. split; [exact (Forall_inv Hf) | exact Hs].
Qed.

Lemma strictly_increasing_cons (x : list byte) (l : list (list byte)) :
  Forall (fun y => memcmp x y < 0) l -> strictly_increasing l ->
  strictly_increasing (x :: l).
Proof.
  intros Hf Hs. destruct l as [|y l]; [exact I |].
  cbn [strictly_increasing]. split; [exact (Forall_inv Hf) | exact Hs].
Qed.

Lemma strictly_increasing_nondecreasing (l : list (list byte)) :
  strictly_increasing l -> nondecreasing l.
Proof.
  induction l as [|x l IH]; [trivial |].
  destruct l as [|y l]; [trivial |].
  cbn [strictly_increasing nondecreasing]. intros [H1 H2]. split; [lia | exact (IH H2)].
Qed.

Lemma strictly_increasing_NoDup (size : Z) (l : list (list byte)) :
  uniform size l -> strictly_increasing l -> NoDup l.
Proof.
  induction l as [|x l IH]; intros Hu Hs; [constructor |].
  constructor.
  - intros Hin.
    pose proof (strictly_increasing_head_lt size x l Hu Hs) as Hlt.
    pose proof (proj1 (Forall_forall _ _) Hlt x Hin) as H. cbn beta in H.
    rewrite memcmp_refl in H. lia.
  - apply IH; [exact (Forall_inv_tail Hu) | exact (strictly_increasing_tail x l Hs)].
Qed.

(** Two strictly increasing runs with the same items are the same run. *)
Lemma strictly_increasing_unique (size : Z) (l1 l2 : list (list byte)) :
  uniform size l1 -> uniform size l2 ->
  strictly_increasing l1 -> strictly_increasing l2 ->
  (forall z, In z l1 <-> In z l2) -> l1 = l2.
Proof.
  revert l2. induction l1 as [|x1 t1 IH]; intros l2 Hu1 Hu2 Hs1 Hs2 Hin.
  - destruct l2 as [|x2 t2]; [reflexivity |].
    exfalso. apply (proj2 (Hin x2)). left. reflexivity.
  - destruct l2 as [|x2 t2].
    { exfalso. apply (proj1 (Hin x1)). left. reflexivity. }
    pose proof (strictly_increasing_head_lt size x1 t1 Hu1 Hs1) as H1.
    pose proof (strictly_increasing_head_lt size x2 t2 Hu2 Hs2) as H2.
    rewrite Forall_forall in H1, H2.
    assert (Hx : x1 = x2).
    { destruct (proj1 (Hin x1) ltac:(left; reflexivity)) as [E | Hin1]; [congruence |].
      destruct (proj2 (Hin x2) ltac:(left; reflexivity)) as [E | Hin2]; [congruence |].
      pose proof (H2 x1 Hin1) as Ha. pose proof (H1 x2 Hin2) as Hb.
      cbn beta in Ha, Hb. rewrite (memcmp_sym x2 x1) in Hb. lia. }
    subst x2. f_equal.
    apply IH.
    + exact (Forall_inv_tail Hu1).
    + exact (Forall_inv_tail Hu2).
    + exact (strictly_increasing_tail x1 t1 Hs1).
    + exact (strictly_increasing_tail x1 t2 Hs2).
    + intros z. split; intros Hz.
      * destruct (proj1 (Hin z) ltac:(right; exact Hz)) as [E | Hz2]; [| exact Hz2].
        subst z. pose proof (H1 x1 Hz) as Hc. cbn beta in Hc.
        rewrite memcmp_refl in Hc. lia.
      * destruct (proj2 (Hin z) ltac:(right; exact Hz)) as [E | Hz1]; [| exact Hz1].
        subst z. pose proof (H2 x1 Hz) as Hc. cbn beta in Hc.
        rewrite memcmp_refl in Hc. lia.
Qed.

(** ** The sort *)

Lemma insert_item_In (size : Z) (x z : list byte) (l : list (list byte)) :
  In z (insert_item size x l) <-> z = x \/ In z l.
Proof.
  induction l as [|y l IH]; cbn [insert_item].
  - cbn. intuition congruence.
  - destruct (compare_items x y size <=? 0); cbn [In].
    + intuition congruence.
    + rewrite IH. intuition congruence.
Qed.

Lemma insert_item_nondecreasing (size : Z) (x : list byte) (l : list (list byte)) :
  Z.of_nat (length x) = size -> uniform size l -> nondecreasing l ->
  nondecreasing (insert_item size x l).
Proof.
  intros Hx. induction l as [|y l IH]; intros Hu Hs; [exact I |].
  pose proof (Forall_inv Hu) as Hy. cbn beta in Hy.
  cbn [insert_item]. rewrite (compare_items_memcmp size x y Hx Hy).
  destruct (memcmp x y <=? 0) eqn:E.
  - apply Z.leb_le in E. cbn [nondecreasing]. split; [exact E | exact Hs].
  - apply Z.leb_gt in E.
    apply nondecreasing_cons.
    + apply insert_item_Forall.
      * rewrite memcmp_sym. lia.
      * exact (nondecreasing_head_le size y l Hu Hs).
    + apply IH; [exact (Forall_inv_tail Hu) | exact (nondecreasing_tail y l Hs)].
Qed.

Lemma sort_items_In (size : Z) (z : list byte) (l : list (list byte)) :
  In z (sort_items size l) <-> In z l.
Proof.
  induction l as [|x l IH]; [reflexivity |].
  unfold sort_items in *. cbn [fold_right]. rewrite insert_item_In, IH.
  cbn [In]. intuition congruence.
Qed.

Lemma sort_items_nondecreasing (size : Z) (l : list (list byte)) :
  uniform size l -> nondecreasing (sort_items size l).
Proof.
  induction l as [|x l IH]; intros Hu; [exact I |].
  unfold sort_items in *. cbn [fold_right].
  apply insert_item_nondecreasing.
  - exact (Forall_inv Hu).
  - apply (sort_items_Forall _ size). exact (Forall_inv_tail Hu).
  - apply IH. exact (Forall_inv_tail Hu).
Qed.

(** ** Removing repetitions from a sorted run *)

Lemma fold_emit_spec (size : Z) :
  forall (l racc : list (list byte)),
    uniform size l -> uniform size racc ->
    nondecreasing l -> strictly_decreasing racc ->
    (forall p r, racc = p :: r -> Forall (fun x => memcmp p x <= 0) l) ->
    strictly_decreasing (fold_left emit l racc) /\
    uniform size (fold_left emit l racc) /\
    (forall z, In z (fold_left emit l racc) <-> In z racc \/ In z l) /\
    (length racc <= length (fold_left emit l racc) <= length racc + length l)%nat /\
    (l <> [] -> fold_left emit l racc <> []).
Proof.
  induction l as [|e l IH]; intros racc Hul Hur Hs Hd Hb.
  - cbn [fold_left]. repeat split; try assumption; try tauto; try lia.
    cbn. tauto.
  - cbn [fold_left].
    pose proof (Forall_inv Hul) as He. cbn beta in He.
    pose proof (Forall_inv_tail Hul) as Hul'.
    pose proof (nondecreasing_tail e l Hs) as Hs'.
    pose proof (nondecreasing_head_le size e l Hul Hs) as Hel.
    assert (Hne : emit racc e <> []).
    { destruct racc as [|p r]; cbn [emit]; [discriminate |].
      destruct (memcmp p e =? 0); discriminate. }
    assert (Hstep : strictly_decreasing (emit racc e) /\ uniform size (emit racc e) /\
                    (forall p r, emit racc e = p :: r ->
                                 Forall (fun x => memcmp p x <= 0) l)).
    { destruct racc as [|p r]; cbn [emit].
      - split; [exact I |]. split; [constructor; [exact He | constructor] |].
        intros p' r' E. inversion E; subst. exact Hel.
      - pose proof (Hb p r eq_refl) as Hpl.
        pose proof (Forall_inv Hpl) as Hpe. cbn beta in Hpe.
        destruct (memcmp p e =? 0) eqn:E0.
        + split; [exact Hd |]. split; [exact Hur |].
          intros p' r' E. inversion E; subst. exact (Forall_inv_tail Hpl).
        + apply Z.eqb_neq in E0.
          split; [cbn [strictly_decreasing]; split; [lia | exact Hd] |].
          split; [constructor; [exact He | exact Hur] |].
          intros p' r' E. inversion E; subst. exact Hel. }
    destruct Hstep as [Hd' [Hur' Hb']].
    destruct (IH (emit racc e) Hul' Hur' Hs' Hd' Hb') as [R1 [R2 [R3 [R4 R5]]]].
    split; [exact R1 |]. split; [exact R2 |].
    split.
    + intros z. rewrite R3. rewrite (emit_In size) by assumption. cbn [In].
      intuition congruence.
    + pose proof (emit_length racc e) as Hlen.
      assert (Hge : (length racc <= length (emit racc e))%nat).
      { destruct racc as [|p r]; cbn [emit length]; [lia |].
        destruct (memcmp p e =? 0); cbn [length]; lia. }
      split; [cbn [length]; lia |].
      intros _ Hnil.
      assert (length (fold_left emit l (emit racc e)) = 0%nat) by (rewrite Hnil; reflexivity).
      destruct (emit racc e); [congruence | cbn [length] in *; lia].
Qed.

Lemma dedup_items_spec (size : Z) (l : list (list byte)) :
  uniform size l -> nondecreasing l ->
  strictly_increasing (dedup_items l) /\ uniform size (dedup_items l) /\
  (forall z, In z (dedup_items l) <-> In z l) /\
  (length (dedup_items l) <= length l)%nat /\
  (l <> [] -> (1 <= length (dedup_items l))%nat).
Proof.
  intros Hu Hs.
  destruct (fold_emit_spec size l [] Hu ltac:(constructor) Hs I
              ltac:(intros p r E; discriminate)) as [R1 [R2 [R3 [R4 R5]]]].
  unfold dedup_items.
  split; [apply strictly_decreasing_rev; exact R1 |].
  split; [apply Forall_rev; exact R2 |].
  split; [intros z; rewrite <- in_rev, R3; cbn [In]; tauto |].
  rewrite length_rev. split; [cbn [length] in R4; lia |].
  intros Hne. specialize (R5 Hne).
  destruct (fold_left emit l []); [congruence | cbn [length]; lia].
Qed.

(** ** The merge of two strictly increasing runs *)

Lemma merge_items_spec (size : Z) :
  forall (fuel : nat) (la lb : list (list byte)),
    (length la + length lb <= fuel)%nat ->
    uniform size la -> uniform size lb ->
    strictly_increasing la -> strictly_increasing lb ->
    uniform size (merge_items fuel la lb) /\
    (forall z, In z (merge_items fuel la lb) <-> In z la \/ In z lb) /\
    strictly_increasing (merge_items fuel la lb) /\
    (Nat.max (length la) (length lb) <= length (merge_items fuel la lb)
     <= length la + length lb)%nat.
Proof.
  induction fuel as [|fuel IH]; intros la lb Hf Hua Hub Hsa Hsb.
  - destruct la; destruct lb; cbn [length] in Hf; try lia.
    cbn. repeat split; try constructor; try tauto; lia.
  - cbn [merge_items].
    destruct la as [|x la']; [| destruct lb as [|y lb']].
    + assert (E : match lb with [] => [] | _ :: _ => lb end = lb) by (destruct lb; reflexivity).
      rewrite E. repeat split; try assumption; cbn [In length]; try tauto; lia.
    + repeat split; try assumption; cbn [In length]; try tauto; lia.
    + pose proof (Forall_inv Hua) as Hx. pose proof (Forall_inv Hub) as Hy.
      cbn beta in Hx, Hy.
      pose proof (Forall_inv_tail Hua) as Hua'. pose proof (Forall_inv_tail Hub) as Hub'.
      pose proof (strictly_increasing_tail x la' Hsa) as Hsa'.
      pose proof (strictly_increasing_tail y lb' Hsb) as Hsb'.
      pose proof (strictly_increasing_head_lt size x la' Hua Hsa) as Hxa.
      pose proof (strictly_increasing_head_lt size y lb' Hub Hsb) as Hyb.
      rewrite Forall_forall in Hxa, Hyb.
      cbn [length] in Hf.
      destruct (memcmp x y =? 0) eqn:E0; [| destruct (memcmp x y <? 0) eqn:E1].
      * apply Z.eqb_eq in E0. apply memcmp_eq in E0; [| lia]. subst y.
        destruct (IH la' lb' ltac:(lia) Hua' Hub' Hsa' Hsb') as [R1 [R2 [R3 R4]]].
        split; [constructor; assumption |].
        split; [intros z; cbn [In]; rewrite R2; tauto |].
        split; [| cbn [length]; lia].
        apply strictly_increasing_cons; [| exact R3].
        apply Forall_forall. intros z Hz. apply R2 in Hz.
        destruct Hz as [Hz | Hz]; [exact (Hxa z Hz) | exact (Hyb z Hz)].
      * apply Z.ltb_lt in E1.
        destruct (IH la' (y :: lb') ltac:(cbn [length]; lia) Hua' Hub Hsa' Hsb)
          as [R1 [R2 [R3 R4]]].
        split; [constructor; assumption |].
        split; [intros z; cbn [In]; rewrite R2; cbn [In]; tauto |].
        split; [| cbn [length] in *; lia].
        apply strictly_increasing_cons; [| exact R3].
        apply Forall_forall. intros z Hz. apply R2 in Hz.
        destruct Hz as [Hz | [Hz | Hz]].
        -- exact (Hxa z Hz).
        -- subst z. exact E1.
        -- pose proof (Hyb z Hz) as Hyz. cbn beta in Hyz.
           pose proof (proj1 (Forall_forall _ _) Hub' z Hz) as Hzl. cbn beta in Hzl.
           apply (memcmp_trans x y z); [lia | lia | exact E1 | lia].
      * apply Z.eqb_neq in E0. apply Z.ltb_ge in E1.
        assert (Hyx : memcmp y x < 0) by (rewrite memcmp_sym; lia).
        destruct (IH (x :: la') lb' ltac:(cbn [length]; lia) Hua Hub' Hsa Hsb')
          as [R1 [R2 [R3 R4]]].
        split; [constructor; assumption |].
        split; [intros z; cbn [In]; rewrite R2; cbn [In]; tauto |].
        split; [| cbn [length] in *; lia].
        apply strictly_increasing_cons; [| exact R3].
        apply Forall_forall. intros z Hz. apply R2 in Hz.
        destruct Hz as [[Hz | Hz] | Hz].
        -- subst z. exact Hyx.
        -- pose proof (Hxa z Hz) as Hxz. cbn beta in Hxz.
           pose proof (proj1 (Forall_forall _ _) Hua' z Hz) as Hzl. cbn beta in Hzl.
           apply (memcmp_trans y x z); [lia | lia | exact Hyx | lia].
        -- exact (Hyb z Hz).
Qed.

(** ** The loops of [compact_set] on the items they handle *)

Lemma qsort_arg_items (buf : list byte) (base n size : Z) :
  0 <= base -> 0 < size -> 0 <= n ->
  base + n * size <= Z.of_nat (length buf) ->
  items (qsort_arg buf base n size) base size (Z.to_nat n)
  = sort_items size (items buf base size (Z.to_nat n)).
Proof.
  intros Hb Hs Hn Hfit. unfold qsort_arg.
  set (l := sort_items size (items buf base size (Z.to_nat n))).
  assert (Hl : length l = Z.to_nat n)
    by (subst l; rewrite sort_items_length, items_length; reflexivity).
  rewrite <- Hl. apply items_memcpy_concat; try lia.
  subst l. apply sort_items_Forall. apply items_Forall_length; lia.
Qed.

Lemma qsort_arg_before (buf : list byte) (base n size o len : Z) :
  0 <= o -> 0 <= len -> o + len <= base -> base <= Z.of_nat (length buf) ->
  mem_read (qsort_arg buf base n size) o len = mem_read buf o len.
Proof.
  intros Ho Hlen Hle Hb. unfold qsort_arg. apply mem_read_memcpy_before; lia.
Qed.

Lemma items_last (buf : list byte) (base size : Z) (p : list byte) (r : list (list byte)) :
  items buf base size (length (p :: r)) = rev (p :: r) ->
  mem_read buf (base + Z.of_nat (length r) * size) size = p /\
  items buf base size (length r) = rev r.
Proof.
  cbn [length rev]. rewrite items_snoc. intros H.
  apply app_inj_tail in H. destruct H as [H1 H2]. split; assumption.
Qed.

(** The scan over the sorted new items [l]: it keeps what [emit] keeps. *)
Lemma dedup_fold_items (size base : Z) (L : nat) (l : list (list byte)) :
  0 < size -> 0 <= base ->
  base + Z.of_nat (length l) * size <= Z.of_nat L ->
  Z.of_nat (length l) * size < 2 ^ 32 ->
  forall (len start : nat) (buf : list byte) (racc : list (list byte)),
    (start + len = length l)%nat -> length buf = L ->
    (1 <= length racc <= start)%nat ->
    items buf base size (length racc) = rev racc ->
    items buf (base + Z.of_nat start * size) size len = skipn start l ->
    exists buf',
      fold_left (dedup_step size base) (map Z.of_nat (seq start len))
        (buf, base + (Z.of_nat (length racc) - 1) * size, Z.of_nat (length racc))
      = (buf',
         base + (Z.of_nat (length (fold_left emit (skipn start l) racc)) - 1) * size,
         Z.of_nat (length (fold_left emit (skipn start l) racc))) /\
      length buf' = L /\
      items buf' base size (length (fold_left emit (skipn start l) racc))
      = rev (fold_left emit (skipn start l) racc) /\
      (forall o n, 0 <= o -> 0 <= n -> o + n <= base ->
                   mem_read buf' o n = mem_read buf o n).
Proof.
  intros Hsize Hbase Hfit H32.
  induction len as [|len IH]; intros start buf racc Hsl HL Hracc Hkept Hrest.
  - cbn [seq map fold_left]. rewrite skipn_all2 by lia. cbn [fold_left].
    exists buf. repeat split; try assumption; reflexivity.
  - cbn [seq map fold_left]. unfold dedup_step at 2.
    rewrite mul32_small by nia.
    destruct (skipn start l) as [|e rest] eqn:Esk.
    { exfalso. assert (H : length (skipn start l) = 0%nat) by (rewrite Esk; reflexivity).
      rewrite length_skipn in H. lia. }
    assert (Esk' : skipn (S start) l = rest).
    { replace (S start) with (1 + start)%nat by lia.
      rewrite <- skipn_skipn, Esk. reflexivity. }
    rewrite items_cons in Hrest. injection Hrest as He Hrest'.
    destruct racc as [|p r]; [cbn [length] in Hracc; lia |].
    destruct (items_last buf base size p r Hkept) as [Hp Hr].
    cbn [length] in *.
    replace (Z.of_nat (S (length r)) - 1) with (Z.of_nat (length r)) by lia.
    rewrite Hp, He. cbn [fold_left emit].
    destruct (memcmp p e =? 0) eqn:E0.
    + (* a repetition: nothing changes *)
      destruct (IH (S start) buf (p :: r) ltac:(lia) HL ltac:(cbn [length]; lia) Hkept)
        as [buf' [E [HL' [Hk' Hpre]]]].
      { rewrite Esk'.
        replace (base + Z.of_nat (S start) * size)
          with (base + Z.of_nat start * size + size) by lia.
        exact Hrest'. }
      rewrite Esk' in E, Hk'. cbn [length] in E.
      replace (Z.of_nat (S (length r)) - 1) with (Z.of_nat (length r)) in E by lia.
      exists buf'. rewrite E. repeat split; assumption.
    + (* a new item: kept right behind the last one kept *)
      set (buf1 := if base + Z.of_nat (length r) * size + size =? base + Z.of_nat start * size
                   then buf
                   else memcpy buf (base + Z.of_nat (length r) * size + size) e).
      assert (Helen : Z.of_nat (length e) = size).
      { rewrite <- He. apply mem_read_length; nia. }
      assert (HL1 : length buf1 = L).
      { subst buf1.
        destruct (base + Z.of_nat (length r) * size + size =? base + Z.of_nat start * size);
          [exact HL |].
        rewrite memcpy_length; [exact HL | nia | nia]. }
      assert (Hpre1 : forall o n, 0 <= o -> 0 <= n ->
                        o + n <= base + Z.of_nat (S (length r)) * size ->
                        mem_read buf1 o n = mem_read buf o n).
      { intros o n Ho Hn Hle. subst buf1.
        destruct (base + Z.of_nat (length r) * size + size =? base + Z.of_nat start * size);
          [reflexivity |].
        apply mem_read_memcpy_before; nia. }
      assert (Hnew : mem_read buf1 (base + Z.of_nat (S (length r)) * size) size = e).
      { subst buf1.
        destruct (base + Z.of_nat (length r) * size + size =? base + Z.of_nat start * size)
          eqn:Eq.
        - apply Z.eqb_eq in Eq.
          replace (base + Z.of_nat (S (length r)) * size)
            with (base + Z.of_nat start * size) by lia.
          exact He.
        - replace (base + Z.of_nat (S (length r)) * size)
            with (base + Z.of_nat (length r) * size + size) by lia.
          pose proof (mem_read_memcpy_same buf (base + Z.of_nat (length r) * size + size) e
                        ltac:(nia) ltac:(nia)) as H.
          rewrite Helen in H. exact H. }
      assert (Hrest1 : items buf1 (base + Z.of_nat (S start) * size) size len = rest).
      { rewrite <- Hrest'.
        replace (base + Z.of_nat start * size + size)
          with (base + Z.of_nat (S start) * size) by lia.
        apply items_ext. intros i Hi. subst buf1.
        destruct (base + Z.of_nat (length r) * size + size =? base + Z.of_nat start * size);
          [reflexivity |].
        apply mem_read_memcpy_after; nia. }
      assert (Hkept1 : items buf1 base size (length (e :: p :: r)) = rev (e :: p :: r)).
      { cbn [length]. rewrite items_snoc, Hnew.
        change (rev (e :: p :: r)) with (rev (p :: r) ++ [e]). f_equal.
        rewrite <- Hkept. apply items_ext. intros i Hi.
        apply Hpre1; nia. }
      destruct (IH (S start) buf1 (e :: p :: r) ltac:(lia) HL1 ltac:(cbn [length]; lia)
                  Hkept1 ltac:(rewrite Esk'; exact Hrest1))
        as [buf' [E [HL' [Hk' Hpre]]]].
      rewrite Esk' in E, Hk'. cbn [length] in E.
      replace (Z.of_nat (S (S (length r))) - 1) with (Z.of_nat (length r) + 1) in E by lia.
      replace (base + Z.of_nat (length r) * size + size)
        with (base + (Z.of_nat (length r) + 1) * size) in * by lia.
      replace (Z.of_nat (S (length r)) + 1) with (Z.of_nat (S (S (length r)))) by lia.
      exists buf'. subst buf1.
      replace (mem_read buf (base + Z.of_nat start * size) size) with e.
      rewrite E.
      split; [reflexivity |]. split; [exact HL' |]. split; [exact Hk' |].
      intros o n Ho Hn Hle. rewrite Hpre by assumption. apply Hpre1; nia.
Qed.

Lemma dedup_loop_items (size base n : Z) (buf : list byte) :
  0 < size -> 0 <= base -> 1 <= n -> n * size < 2 ^ 32 ->
  base + n * size <= Z.of_nat (length buf) ->
  exists buf',
    dedup_loop size base n buf
    = (buf',
       base + (Z.of_nat (length (dedup_items (items buf base size (Z.to_nat n)))) - 1) * size,
       Z.of_nat (length (dedup_items (items buf base size (Z.to_nat n))))) /\
    length buf' = length buf /\
    items buf' base size (length (dedup_items (items buf base size (Z.to_nat n))))
    = dedup_items (items buf base size (Z.to_nat n)) /\
    (forall o k, 0 <= o -> 0 <= k -> o + k <= base ->
                 mem_read buf' o k = mem_read buf o k).
Proof.
  intros Hsize Hbase Hn H32 Hfit. unfold dedup_loop, dedup_items.
  set (l := items buf base size (Z.to_nat n)).
  assert (Hl : length l = Z.to_nat n) by (subst l; apply items_length).
  destruct l as [|x rest] eqn:El; [cbn [length] in Hl; lia |].
  assert (Hx : mem_read buf base size = x /\
               items buf (base + size) size (Z.to_nat n - 1) = rest).
  { subst l. replace (Z.to_nat n) with (S (Z.to_nat n - 1)) in El by lia.
    rewrite items_cons in El. injection El as E1 E2. split; assumption. }
  destruct Hx as [Hx Hrest].
  destruct (dedup_fold_items size base (length buf) (x :: rest) Hsize Hbase
              ltac:(rewrite Hl; lia) ltac:(rewrite Hl; lia)
              (Z.to_nat n - 1) 1 buf [x]) as [buf' [E [HL [Hk Hpre]]]].
  - rewrite Hl. lia.
  - reflexivity.
  - cbn [length]. lia.
  - cbn [length rev app]. unfold items. cbn [seq map]. f_equal.
    rewrite <- Hx. f_equal. lia.
  - cbn [skipn]. rewrite <- Hrest. f_equal. lia.
  - cbn [length skipn] in E, Hk. cbn [fold_left emit].
    change (Z.of_nat 1) with 1 in E.
    replace (base + (1 - 1) * size) with base in E by lia.
    rewrite !length_rev.
    exists buf'. rewrite E. repeat split; assumption.
Qed.

Lemma mem_read_mem_read_at (buf : list byte) (a L off n : Z) :
  0 <= a -> 0 <= off -> 0 <= n -> off + n <= L ->
  mem_read (mem_read buf a L) off n = mem_read buf (a + off) n.
Proof.
  intros Ha Ho Hn Hle. unfold mem_read.
  rewrite skipn_firstn_comm, firstn_firstn, skipn_skipn.
  replace (Nat.min (Z.to_nat n) (Z.to_nat L - Z.to_nat off)) with (Z.to_nat n) by lia.
  f_equal. f_equal. lia.
Qed.

(** A block of [n] items copied behind [k] items. *)
Lemma items_memcpy_block (dst src : list byte) (a size : Z) (k n : nat) :
  0 < size -> 0 <= a ->
  a + Z.of_nat n * size <= Z.of_nat (length src) ->
  Z.of_nat k * size <= Z.of_nat (length dst) ->
  items (memcpy dst (Z.of_nat k * size) (mem_read src a (Z.of_nat n * size))) 0 size (k + n)
  = items dst 0 size k ++ items src a size n.
Proof.
  intros Hs Ha Hsrc Hdst. rewrite items_app. f_equal.
  - apply items_ext. intros i Hi. apply mem_read_memcpy_before; nia.
  - apply items_ext. intros i Hi. cbn [Z.add].
    rewrite mem_read_memcpy_inside; try nia.
    + apply mem_read_mem_read_at; nia.
    + rewrite mem_read_length; nia.
Qed.

Lemma merge_items_nil_r (fuel : nat) (la : list (list byte)) :
  (length la <= fuel)%nat -> merge_items fuel la [] = la.
Proof.
  destruct fuel as [|fuel]; intros H.
  - destruct la; [reflexivity | cbn [length] in H; lia].
  - cbn [merge_items]. destruct la; reflexivity.
Qed.

Lemma merge_items_nil_l (fuel : nat) (lb : list (list byte)) :
  (length lb <= fuel)%nat -> merge_items fuel [] lb = lb.
Proof.
  destruct fuel as [|fuel]; intros H.
  - destruct lb; [reflexivity | cbn [length] in H; lia].
  - cbn [merge_items]. destruct lb; reflexivity.
Qed.

Lemma cons_eq_inv {A : Type} (x y : A) (l l' : list A) :
  x :: l = y :: l' -> x = y /\ l = l'.
Proof. intros H. injection H as H1 H2. split; assumption. Qed.

(** The merge loop of [compact_set] writes what [merge_items] lists. *)
Lemma merge_loop_items (size : Z) (src : list byte) (a_max b_max : Z) :
  0 < size ->
  a_max <= Z.of_nat (length src) -> b_max <= Z.of_nat (length src) ->
  forall (fuel : nat) (la lb : list (list byte)) (dst : list byte)
         (acc : list (list byte)),
    la <> [] -> lb <> [] -> (length la + length lb <= fuel)%nat ->
    0 <= a_max - Z.of_nat (length la) * size ->
    0 <= b_max - Z.of_nat (length lb) * size ->
    items src (a_max - Z.of_nat (length la) * size) size (length la) = la ->
    items src (b_max - Z.of_nat (length lb) * size) size (length lb) = lb ->
    items dst 0 size (length acc) = acc ->
    (Z.of_nat (length acc) + Z.of_nat (length la) + Z.of_nat (length lb)) * size
      <= Z.of_nat (length dst) ->
    exists out,
      merge_loop fuel size src (a_max - Z.of_nat (length la) * size) a_max
        (b_max - Z.of_nat (length lb) * size) b_max dst (Z.of_nat (length acc) * size)
      = Some (out,
              (Z.of_nat (length acc) + Z.of_nat (length (merge_items fuel la lb))) * size) /\
      items out 0 size (length acc + length (merge_items fuel la lb))
      = acc ++ merge_items fuel la lb /\
      length out = length dst.
Proof.
  intros Hsize Ha Hb.
  induction fuel as [|fuel IH]; intros la lb dst acc Hla Hlb Hfuel Ha0 Hb0 Ela0 Elb Eacc Hroom.
  - destruct la; [congruence | cbn [length] in Hfuel; lia].
  - destruct la as [|x la']; [congruence |]. destruct lb as [|y lb']; [congruence |].
    clear Hla Hlb. cbn [length] in *.
    rewrite items_cons in Ela0. apply cons_eq_inv in Ela0. destruct Ela0 as [Ex Ela'].
    rewrite items_cons in Elb. apply cons_eq_inv in Elb. destruct Elb as [Ey Elb'].
    assert (Hxlen : Z.of_nat (length x) = size)
      by (rewrite <- Ex; apply mem_read_length; nia).
    assert (Hylen : Z.of_nat (length y) = size)
      by (rewrite <- Ey; apply mem_read_length; nia).
    (* what follows the copy of the chosen item [e] *)
    assert (Hafter : forall (e : list byte) (la1 lb1 : list (list byte)),
               Z.of_nat (length e) = size ->
               (length la1 + length lb1 <= fuel)%nat ->
               (length la1 <= S (length la'))%nat -> (length lb1 <= S (length lb'))%nat ->
               (length la1 + length lb1 <= length la' + length lb' + 1)%nat ->
               items src (a_max - Z.of_nat (length la1) * size) size (length la1) = la1 ->
               items src (b_max - Z.of_nat (length lb1) * size) size (length lb1) = lb1 ->
               exists out,
                 (let a := a_max - Z.of_nat (length la1) * size in
                  let b := b_max - Z.of_nat (length lb1) * size in
                  let dst := memcpy dst (Z.of_nat (length acc) * size) e in
                  let ptr := Z.of_nat (length acc) * size + size in
                  if (a =? a_max) || (b =? b_max) then
                    if negb (a =? a_max) then
                      Some (memcpy dst ptr (mem_read src a (a_max - a)), ptr + (a_max - a))
                    else if negb (b =? b_max) then
                      Some (memcpy dst ptr (mem_read src b (b_max - b)), ptr + (b_max - b))
                    else Some (dst, ptr)
                  else merge_loop fuel size src a a_max b b_max dst ptr)
                 = Some (out,
                         (Z.of_nat (length acc) +
                          Z.of_nat (length (e :: merge_items fuel la1 lb1))) * size) /\
                 items out 0 size (length acc + length (e :: merge_items fuel la1 lb1))
                 = acc ++ e :: merge_items fuel la1 lb1 /\
                 length out = length dst).
    { intros e la1 lb1 He Hf1 Hla1 Hlb1 Hsum E1 E2. cbv zeta.
      set (dst1 := memcpy dst (Z.of_nat (length acc) * size) e).
      assert (Hd1 : length dst1 = length dst) by (apply memcpy_length; nia).
      assert (Eacc1 : items dst1 0 size (length (acc ++ [e])) = acc ++ [e]).
      { rewrite length_app. cbn [length]. rewrite Nat.add_1_r.
        subst dst1. rewrite items_snoc_memcpy; [rewrite Eacc; reflexivity | lia | exact He | nia]. }
      assert (Hlen1 : length (acc ++ [e]) = S (length acc))
        by (rewrite length_app; cbn [length]; lia).
      destruct la1 as [|x1 la1']; [| destruct lb1 as [|y1 lb1']].
      - (* the sorted part is used up *)
        cbn [length]. rewrite Z.mul_0_l, Z.sub_0_r, Z.eqb_refl. cbn [orb negb].
        rewrite merge_items_nil_l by (cbn [length] in Hf1; lia).
        destruct lb1 as [|y1 lb1'].
        + cbn [length]. rewrite Z.mul_0_l, Z.sub_0_r, Z.eqb_refl. cbn [negb].
          exists dst1. split; [f_equal; f_equal; cbn [length]; lia |].
          split; [| exact Hd1].
          cbn [length]. rewrite Nat.add_1_r. rewrite <- Hlen1. exact Eacc1.
        + replace (b_max - Z.of_nat (length (y1 :: lb1')) * size =? b_max) with false
            by (symmetry; apply Z.eqb_neq; cbn [length]; nia).
          cbn [negb].
          replace (b_max - (b_max - Z.of_nat (length (y1 :: lb1')) * size))
            with (Z.of_nat (length (y1 :: lb1')) * size) by ring.
          replace (Z.of_nat (length acc) * size + size)
            with (Z.of_nat (length (acc ++ [e])) * size) by (rewrite Hlen1; lia).
          eexists. split; [f_equal; f_equal; rewrite Hlen1; cbn [length]; lia |].
          split.
          * match goal with
            | |- items _ _ _ ?n = _ =>
                replace n with (length (acc ++ [e]) + length (y1 :: lb1'))%nat
                  by (rewrite Hlen1; cbn [length]; lia)
            end.
            rewrite items_memcpy_block;
              [rewrite Eacc1, E2, <- app_assoc; reflexivity | ..];
              rewrite ?Hd1, ?Hlen1; cbn [length] in *; nia.
          * rewrite memcpy_length; [exact Hd1 | nia |].
            rewrite mem_read_length; [| cbn [length] in *; nia | nia | cbn [length] in *; nia].
            rewrite Hd1, Hlen1. cbn [length] in *. nia.
      - (* the new items are used up *)
        replace (a_max - Z.of_nat (length (x1 :: la1')) * size =? a_max) with false
          by (symmetry; apply Z.eqb_neq; cbn [length]; nia).
        change (Z.of_nat (length (@nil (list byte)))) with 0.
        rewrite Z.mul_0_l, Z.sub_0_r, Z.eqb_refl. cbn [orb negb].
        rewrite merge_items_nil_r by (cbn [length] in Hf1; lia).
        replace (a_max - (a_max - Z.of_nat (length (x1 :: la1')) * size))
          with (Z.of_nat (length (x1 :: la1')) * size) by ring.
        replace (Z.of_nat (length acc) * size + size)
          with (Z.of_nat (length (acc ++ [e])) * size) by (rewrite Hlen1; lia).
        eexists. split; [f_equal; f_equal; rewrite Hlen1; cbn [length]; lia |].
        split.
        * match goal with
          | |- items _ _ _ ?n = _ =>
              replace n with (length (acc ++ [e]) + length (x1 :: la1'))%nat
                by (rewrite Hlen1; cbn [length]; lia)
          end.
          rewrite items_memcpy_block;
            [rewrite Eacc1, E1, <- app_assoc; reflexivity | ..];
            rewrite ?Hd1, ?Hlen1; cbn [length] in *; nia.
        * rewrite memcpy_length; [exact Hd1 | nia |].
          rewrite mem_read_length; [| cbn [length] in *; nia | nia | cbn [length] in *; nia].
          rewrite Hd1, Hlen1. cbn [length] in *. nia.
      - (* both runs go on *)
        replace (a_max - Z.of_nat (length (x1 :: la1')) * size =? a_max) with false
          by (symmetry; apply Z.eqb_neq; cbn [length]; nia).
        replace (b_max - Z.of_nat (length (y1 :: lb1')) * size =? b_max) with false
          by (symmetry; apply Z.eqb_neq; cbn [length]; nia).
        cbn [orb].
        destruct (IH (x1 :: la1') (y1 :: lb1') dst1 (acc ++ [e])
                    ltac:(discriminate) ltac:(discriminate) Hf1
                    ltac:(cbn [length] in *; nia) ltac:(cbn [length] in *; nia)
                    E1 E2 Eacc1
                    ltac:(rewrite Hd1, Hlen1; cbn [length] in *; nia))
          as [out [E [Hit Hout]]].
        rewrite Hlen1 in E.
        replace (Z.of_nat (S (length acc)) * size)
          with (Z.of_nat (length acc) * size + size) in E by lia.
        exists out. rewrite E.
        split; [f_equal; f_equal; cbn [length]; lia |].
        split; [| congruence].
        rewrite Hlen1 in Hit. rewrite <- app_assoc in Hit. cbn [app] in Hit.
        rewrite <- Hit. f_equal. cbn [length]. lia. }
    cbn [merge_loop merge_items].
    rewrite Ex, Ey.
    replace (a_max - Z.of_nat (S (length la')) * size + size)
      with (a_max - Z.of_nat (length la') * size) in * by lia.
    replace (b_max - Z.of_nat (S (length lb')) * size + size)
      with (b_max - Z.of_nat (length lb') * size) in * by lia.
    destruct (memcmp x y =? 0); [| destruct (memcmp x y <? 0)].
    + apply (Hafter x la' lb'); try assumption; lia.
    + replace (b_max - Z.of_nat (S (length lb')) * size)
        with (b_max - Z.of_nat (length (y :: lb')) * size) by reflexivity.
      apply (Hafter x la' (y :: lb')); try assumption; cbn [length]; try lia.
      rewrite items_cons. rewrite Ey. f_equal.
      replace (b_max - Z.of_nat (S (length lb')) * size + size)
        with (b_max - Z.of_nat (length lb') * size) by lia.
      exact Elb'.
    + replace (a_max - Z.of_nat (S (length la')) * size)
        with (a_max - Z.of_nat (length (x :: la')) * size) by reflexivity.
      apply (Hafter y (x :: la') lb'); try assumption; cbn [length]; try lia.
      rewrite items_cons. rewrite Ex. f_equal.
      replace (a_max - Z.of_nat (S (length la')) * size + size)
        with (a_max - Z.of_nat (length la') * size) by lia.
      exact Ela'.
Qed.

(** ** [compact_set]: the items *)

Lemma all_items_split (s : element_set_t) :
  0 <= nsorted s <= nall s ->
  all_items s
  = items (bytes (data s)) 0 (item_size s) (Z.to_nat (nsorted s)) ++ unsorted_items s.
Proof.
  intros H. unfold all_items, unsorted_items.
  replace (Z.to_nat (nall s)) with (Z.to_nat (nsorted s) + Z.to_nat (nall s - nsorted s))%nat
    by lia.
  rewrite items_app. rewrite Z2Nat.id by lia. reflexivity.
Qed.

Lemma compact_new_items_items (s : element_set_t) :
  wf s -> nsorted s < nall s ->
  exists buf,
    compact_new_items s =
      mkeset (item_size s)
        (if nsorted s =? 0
         then Z.of_nat (length (dedup_items (sort_items (item_size s) (unsorted_items s))))
         else nsorted s)
        (nsorted s +
         Z.of_nat (length (dedup_items (sort_items (item_size s) (unsorted_items s)))))
        (nbytes s) (typalign s) (padding s) (aggctx s)
        (mkbuffer (block (data s)) buf) /\
    length buf = length (bytes (data s)) /\
    items buf 0 (item_size s) (Z.to_nat (nsorted s))
    = items (bytes (data s)) 0 (item_size s) (Z.to_nat (nsorted s)) /\
    items buf (nsorted s * item_size s) (item_size s)
      (length (dedup_items (sort_items (item_size s) (unsorted_items s))))
    = dedup_items (sort_items (item_size s) (unsorted_items s)).
Proof.
  intros [His Hns Hfit Hnb Hlen] Hlt.
  assert (Hna : nall s <= nbytes s) by nia.
  unfold compact_new_items.
  rewrite (mul32_small (nsorted s)) by nia.
  rewrite sub32_small by lia.
  set (base := nsorted s * item_size s).
  set (n := nall s - nsorted s).
  set (sorted := qsort_arg (bytes (data s)) base n (item_size s)).
  assert (Hsl : length sorted = length (bytes (data s)))
    by (subst sorted; apply qsort_arg_length; subst base n; nia).
  destruct (dedup_loop_items (item_size s) base n sorted His
              ltac:(subst base; nia) ltac:(subst n; lia) ltac:(subst n; nia)
              ltac:(rewrite Hsl; subst base n; nia))
    as [buf [E [HL [Hk Hpre]]]].
  assert (Hsorted : items sorted base (item_size s) (Z.to_nat n)
                    = sort_items (item_size s) (unsorted_items s)).
  { subst sorted. rewrite qsort_arg_items; [reflexivity | subst base; nia | lia | subst n; lia
                                            | subst base n; nia]. }
  rewrite Hsorted in E, Hk.
  rewrite E. exists buf.
  split; [| split; [congruence | split; [| exact Hk]]].
  - cbn [set_nall set_bytes set_data set_nsorted nsorted nall item_size nbytes typalign
         padding aggctx data block].
    assert (Hc : (length (dedup_items (sort_items (item_size s) (unsorted_items s)))
                  <= Z.to_nat n)%nat).
    { pose proof (dedup_items_spec (item_size s)
                    (sort_items (item_size s) (unsorted_items s))) as Hd.
      destruct Hd as [_ [_ [_ [Hd _]]]].
      - apply sort_items_Forall. apply items_Forall_length; subst n; nia.
      - apply sort_items_nondecreasing. apply items_Forall_length; subst n; nia.
      - rewrite sort_items_length in Hd. unfold unsorted_items in Hd.
        rewrite items_length in Hd. exact Hd. }
    rewrite add32_small by (subst n; lia).
    destruct (nsorted s =? 0) eqn:E0; cbn; [| reflexivity].
    apply Z.eqb_eq in E0. rewrite E0. reflexivity.
  - apply items_ext. intros i Hi.
    rewrite Hpre by (subst base; nia).
    subst sorted. apply qsort_arg_before; subst base; nia.
Qed.

Lemma merge_items_length (fuel : nat) (la lb : list (list byte)) :
  (length (merge_items fuel la lb) <= length la + length lb)%nat.
Proof.
  revert la lb. induction fuel as [|fuel IH]; intros la lb; [cbn; lia |].
  cbn [merge_items].
  destruct la as [|x la']; [destruct lb; cbn [length]; lia |].
  destruct lb as [|y lb']; [cbn [length]; lia |].
  destruct (memcmp x y =? 0); [| destruct (memcmp x y <? 0)]; cbn [length].
  - specialize (IH la' lb'). lia.
  - specialize (IH la' (y :: lb')). cbn [length] in IH. lia.
  - specialize (IH (x :: la') lb'). cbn [length] in IH. lia.
Qed.

Lemma compact_merge_items (A : bool) (s : element_set_t) (m : mem) :
  wf s -> 0 < nsorted s < nall s ->
  exists out,
    compact_merge A s m =
      Ok (mkeset (item_size s)
            (Z.of_nat (length (merge_items (S (Z.to_nat (nall s)))
                                 (items (bytes (data s)) 0 (item_size s)
                                    (Z.to_nat (nsorted s)))
                                 (unsorted_items s))))
            (Z.of_nat (length (merge_items (S (Z.to_nat (nall s)))
                                 (items (bytes (data s)) 0 (item_size s)
                                    (Z.to_nat (nsorted s)))
                                 (unsorted_items s))))
            (nbytes s) (typalign s) (padding s) (aggctx s)
            (mkbuffer (next_block m) out),
          mkmem (next_block m + 1)
            (remove Z.eq_dec (block (data s)) (next_block m :: live m)) (junk m)) /\
    Z.of_nat (length out) = nbytes s /\
    items out 0 (item_size s)
      (length (merge_items (S (Z.to_nat (nall s)))
                 (items (bytes (data s)) 0 (item_size s) (Z.to_nat (nsorted s)))
                 (unsorted_items s)))
    = merge_items (S (Z.to_nat (nall s)))
        (items (bytes (data s)) 0 (item_size s) (Z.to_nat (nsorted s)))
        (unsorted_items s).
Proof.
  intros [His Hns Hfit Hnb Hlen] Hlt.
  assert (Hna : nall s <= nbytes s) by nia.
  unfold compact_merge.
  rewrite (bind_Ok _ _ _ _ _ (palloc_Ok _ _)).
  cbn [bytes block].
  rewrite !mul32_small by nia.
  set (la := items (bytes (data s)) 0 (item_size s) (Z.to_nat (nsorted s))).
  set (lb := unsorted_items s).
  assert (Hla : length la = Z.to_nat (nsorted s)) by (subst la; apply items_length).
  assert (Hlb : length lb = Z.to_nat (nall s - nsorted s))
    by (subst lb; apply items_length).
  set (fresh := map (junk m (next_block m)) (seq 0 (Z.to_nat (nbytes s)))).
  destruct (merge_loop_items (item_size s) (bytes (data s))
              (nsorted s * item_size s) (nall s * item_size s) His
              ltac:(nia) ltac:(nia) (S (Z.to_nat (nall s))) la lb fresh [])
    as [out [E [Hit Hout]]].
  - intros H. rewrite H in Hla. cbn [length] in Hla. lia.
  - intros H. rewrite H in Hlb. cbn [length] in Hlb. lia.
  - rewrite Hla, Hlb. lia.
  - rewrite Hla, Z2Nat.id by lia. lia.
  - rewrite Hlb, Z2Nat.id by lia. nia.
  - rewrite Hla, Z2Nat.id by lia.
    replace (nsorted s * item_size s - nsorted s * item_size s) with 0 by ring.
    reflexivity.
  - rewrite Hlb, Z2Nat.id by lia.
    replace (nall s * item_size s - (nall s - nsorted s) * item_size s)
      with (nsorted s * item_size s) by ring.
    reflexivity.
  - reflexivity.
  - subst fresh. rewrite length_map, length_seq, Hla, Hlb. cbn [length]. nia.
  - rewrite Hla, Hlb in E. rewrite !Z2Nat.id in E by lia.
    replace (nsorted s * item_size s - nsorted s * item_size s) with 0 in E by ring.
    replace (nall s * item_size s - (nall s - nsorted s) * item_size s)
      with (nsorted s * item_size s) in E by ring.
    cbn [length] in E, Hit. rewrite Z.mul_0_l in E. cbn [Z.add] in E.
    rewrite E. cbn [Nat.add app] in Hit.
    set (r := merge_items (S (Z.to_nat (nall s))) la lb) in *.
    assert (Hr : (length r <= length la + length lb)%nat).
    { subst r. apply merge_items_length. }
    assert_ok ltac:(apply Z.leb_le; nia).
    div_ok ltac:(cbn [item_size]; lia).
    exists out. split; [| split; [| exact Hit]].
    + unfold bind, pfree, ret.
      cbn [set_nall set_bytes set_data set_nsorted nsorted nall item_size nbytes typalign
           padding aggctx data block next_block live junk].
      rewrite Z.div_mul by lia. rewrite u32_small by nia. reflexivity.
    + rewrite Hout. subst fresh. rewrite length_map, length_seq. lia.
Qed.

(** Compaction makes the whole array one strictly increasing run of the
    items it held. *)
Lemma compact_set_spec (A : bool) (T : Z) (s : element_set_t) (need : bool) (m : mem) :
  wf s -> 0 < nall s -> sorted_prefix s ->
  exists s' m',
    compact_set A T s need m = Ok (s', m') /\
    item_size s' = item_size s /\ typalign s' = typalign s /\
    padding s' = padding s /\ aggctx s' = aggctx s /\
    nsorted s' = nall s' /\ 0 < nall s' <= nall s /\
    nall s' * item_size s <= nbytes s /\
    nbytes s' = (if need && free_fract_below (nbytes s - nall s' * item_size s) (nbytes s)
                 then grown T (nbytes s) else nbytes s) /\
    Z.of_nat (length (bytes (data s'))) = nbytes s' /\
    junk m' = junk m /\
    strictly_increasing (all_items s') /\
    (forall z, In z (all_items s') <-> In z (all_items s)).
Proof.
  intros Hwf Hnall Hsorted. pose proof Hwf as [His Hns Hfit Hnb Hlen].
  assert (Hna : nall s <= nbytes s) by nia.
  assert (Hm : mul32 (nall s) (item_size s) = nall s * item_size s)
    by (apply mul32_small; nia).
  assert (Huns : uniform (item_size s) (unsorted_items s))
    by (apply items_Forall_length; nia).
  assert (Hold : uniform (item_size s)
                   (items (bytes (data s)) 0 (item_size s) (Z.to_nat (nsorted s))))
    by (apply items_Forall_length; nia).
  (* the compaction proper *)
  assert (Hc : exists s1 m1,
             (if nsorted s <? nall s
              then let eset := compact_new_items s in
                   if nsorted eset <? nall eset then compact_merge A eset else ret eset
              else ret s) m = Ok (s1, m1) /\
             wf s1 /\ item_size s1 = item_size s /\ typalign s1 = typalign s /\
             padding s1 = padding s /\ aggctx s1 = aggctx s /\
             nsorted s1 = nall s1 /\ 0 < nall s1 <= nall s /\
             nbytes s1 = nbytes s /\ junk m1 = junk m /\
             strictly_increasing (all_items s1) /\
             (forall z, In z (all_items s1) <-> In z (all_items s))).
  { destruct (nsorted s <? nall s) eqn:Elt.
    - apply Z.ltb_lt in Elt.
      destruct (compact_new_items_items s Hwf Elt) as [buf [E [HL [Hkeep Hnew]]]].
      set (new := dedup_items (sort_items (item_size s) (unsorted_items s))) in *.
      destruct (dedup_items_spec (item_size s)
                  (sort_items (item_size s) (unsorted_items s)))
        as [Dinc [Duni [Din [Dlen Dpos]]]].
      { apply sort_items_Forall. exact Huns. }
      { apply sort_items_nondecreasing. exact Huns. }
      fold new in Dinc, Duni, Din, Dlen, Dpos.
      rewrite sort_items_length in Dlen. unfold unsorted_items in Dlen.
      rewrite items_length in Dlen.
      assert (Dpos' : (1 <= length new)%nat).
      { apply Dpos. intros Hnil.
        assert (H0 : length (sort_items (item_size s) (unsorted_items s)) = 0%nat)
          by (rewrite Hnil; reflexivity).
        rewrite sort_items_length in H0. unfold unsorted_items in H0.
        rewrite items_length in H0. lia. }
      cbv zeta. rewrite E.
      cbn [nsorted nall].
      destruct (nsorted s =? 0) eqn:E0.
      + apply Z.eqb_eq in E0.
        replace (Z.of_nat (length new) <? nsorted s + Z.of_nat (length new)) with false
          by (symmetry; apply Z.ltb_ge; lia).
        eexists. eexists. split; [reflexivity |].
        cbn [item_size typalign padding aggctx nsorted nall nbytes].
        split; [split; cbn [item_size nsorted nall nbytes data bytes]; try lia; nia |].
        split; [reflexivity |]. split; [reflexivity |]. split; [reflexivity |].
        split; [reflexivity |]. split; [lia |]. split; [lia |]. split; [reflexivity |].
        split; [reflexivity |].
        assert (Hall1 : all_items
                          (mkeset (item_size s) (Z.of_nat (length new))
                             (nsorted s + Z.of_nat (length new)) (nbytes s) (typalign s)
                             (padding s) (aggctx s) (mkbuffer (block (data s)) buf)) = new).
        { unfold all_items. cbn [item_size nall data bytes].
          rewrite E0 in *. cbn [Z.add]. rewrite Nat2Z.id.
          rewrite Z.mul_0_l in Hnew. exact Hnew. }
        rewrite Hall1. split; [exact Dinc |].
        intros z. rewrite Din, sort_items_In.
        rewrite (all_items_split s) by lia. rewrite E0. cbn [Z.to_nat items seq map app].
        reflexivity.
      + apply Z.eqb_neq in E0.
        replace (nsorted s <? nsorted s + Z.of_nat (length new)) with true
          by (symmetry; apply Z.ltb_lt; lia).
        match goal with |- context [compact_merge A ?x m] => set (s0 := x) end.
        assert (Hwf0 : wf s0).
        { subst s0. split; cbn [item_size nsorted nall nbytes data bytes]; try lia; nia. }
        destruct (compact_merge_items A s0 m Hwf0) as [out [Em [Hout Hit]]].
        { subst s0. cbn [nsorted nall]. lia. }
        assert (Hla0 : items (bytes (data s0)) 0 (item_size s0) (Z.to_nat (nsorted s0))
                       = items (bytes (data s)) 0 (item_size s) (Z.to_nat (nsorted s)))
          by (subst s0; cbn [data bytes item_size nsorted]; exact Hkeep).
        assert (Hlb0 : unsorted_items s0 = new).
        { subst s0. unfold unsorted_items. cbn [data bytes item_size nsorted nall].
          replace (nsorted s + Z.of_nat (length new) - nsorted s)
            with (Z.of_nat (length new)) by lia.
          rewrite Nat2Z.id. exact Hnew. }
        rewrite Hla0, Hlb0 in Em, Hit.
        set (fuel := S (Z.to_nat (nall s0))) in *.
        set (old := items (bytes (data s)) 0 (item_size s) (Z.to_nat (nsorted s))) in *.
        destruct (merge_items_spec (item_size s) fuel old new)
          as [Muni [Min [Minc Mlen]]].
        { subst fuel s0 old. cbn [nall]. rewrite items_length. lia. }
        { exact Hold. }
        { exact Duni. }
        { exact Hsorted. }
        { exact Dinc. }
        assert (Hlo : length old = Z.to_nat (nsorted s)) by (subst old; apply items_length).
        rewrite Em. subst s0.
        cbn [item_size nsorted nall nbytes typalign padding aggctx data block] in *.
        eexists. eexists. split; [reflexivity |].
        cbn [item_size typalign padding aggctx nsorted nall nbytes junk].
        split; [split; cbn [item_size nsorted nall nbytes data bytes]; try lia; nia |].
        split; [reflexivity |]. split; [reflexivity |]. split; [reflexivity |].
        split; [reflexivity |]. split; [reflexivity |]. split; [lia |].
        split; [reflexivity |]. split; [reflexivity |].
        unfold all_items at 1 2. cbn [item_size nall data bytes].
        rewrite Nat2Z.id, Hit.
        split; [exact Minc |].
        intros z. rewrite Min, Din, sort_items_In.
        rewrite (all_items_split s) by lia. fold old. rewrite in_app_iff. reflexivity.
    - apply Z.ltb_ge in Elt.
      exists s, m. split; [reflexivity |].
      split; [exact Hwf |].
      split; [reflexivity |]. split; [reflexivity |]. split; [reflexivity |].
      split; [reflexivity |]. split; [lia |]. split; [lia |]. split; [reflexivity |].
      split; [reflexivity |].
      split; [| tauto].
      unfold sorted_prefix in Hsorted. unfold all_items.
      replace (nall s) with (nsorted s) by lia. exact Hsorted. }
  destruct Hc as [s1 [m1 [E1 [Hwf1 [Hi1 [Ht1 [Hp1 [Ha1 [Hs1 [Hn1 [Hb1 [Hj1 [Hinc1 Hin1]]]]]]]]]]]]].
  destruct (compact_grow_shape T s1 need m1 Hwf1)
    as [s2 [m2 [E2 [Hi2 [Ht2 [Hp2 [Ha2 [Hs2 [Hn2 [Hb2 [Hl2 [Hj2 Hkeep2]]]]]]]]]]]].
  unfold compact_set.
  assert_ok ltac:(apply Z.ltb_lt; lia).
  assert_ok ltac:(apply Z.leb_le; lia).
  assert_ok ltac:(apply Z.leb_le; rewrite Hm; lia).
  rewrite (bind_Ok _ _ _ _ _ E1).
  assert_ok ltac:(apply Z.eqb_eq; lia).
  rewrite E2. exists s2, m2. split; [reflexivity |].
  pose proof Hwf1 as [_ _ Hfit1 _ _].
  assert (Hall2 : all_items s2 = all_items s1).
  { unfold all_items. rewrite Hi2, Hn2. apply items_ext. intros i Hi.
    apply Hkeep2; nia. }
  rewrite Hall2.
  rewrite Hi1, Hb1 in *. rewrite Hn2.
  split; [congruence | split; [congruence | split; [congruence | split; [congruence |]]]].
  split; [congruence | split; [lia | split; [exact Hfit1 | split; [exact Hb2 |]]]].
  split; [exact Hl2 | split; [congruence | split; [exact Hinc1 | exact Hin1]]].
Qed.

(** ** [add_element] *)

(** With room for one more item, the value is stored behind the items and
    nothing else changes. *)
Lemma add_element_room (A : bool) (T : Z) (s : element_set_t) (value : list byte) (m : mem) :
  wf s -> (nall s + 1) * item_size s <= nbytes s ->
  item_size s <= Z.of_nat (length value) ->
  add_element A T s value m =
    Ok (mkeset (item_size s) (nsorted s) (nall s + 1) (nbytes s) (typalign s) (padding s)
          (aggctx s)
          (mkbuffer (block (data s))
             (memcpy (bytes (data s)) (nall s * item_size s)
                (mem_read value 0 (item_size s)))), m) /\
  length (memcpy (bytes (data s)) (nall s * item_size s) (mem_read value 0 (item_size s)))
  = length (bytes (data s)) /\
  items (memcpy (bytes (data s)) (nall s * item_size s) (mem_read value 0 (item_size s)))
        0 (item_size s) (Z.to_nat (nall s + 1))
  = all_items s ++ [mem_read value 0 (item_size s)] /\
  items (memcpy (bytes (data s)) (nall s * item_size s) (mem_read value 0 (item_size s)))
        0 (item_size s) (Z.to_nat (nsorted s))
  = items (bytes (data s)) 0 (item_size s) (Z.to_nat (nsorted s)).
Proof.
  intros [His Hns Hfit Hnb Hlen] Hroom Hval.
  assert (Hv : Z.of_nat (length (mem_read value 0 (item_size s))) = item_size s)
    by (apply mem_read_length; lia).
  assert (Hm1 : mul32 (item_size s) (add32 (nall s) 1) = item_size s * (nall s + 1)).
  { rewrite add32_small by nia. apply mul32_small. nia. }
  assert (Hm2 : mul32 (item_size s) (nall s) = nall s * item_size s).
  { rewrite mul32_small by nia. ring. }
  split; [| split; [| split]].
  - unfold add_element.
    replace (nbytes s <? mul32 (item_size s) (add32 (nall s) 1)) with false
      by (symmetry; apply Z.ltb_ge; rewrite Hm1; lia).
    rewrite (bind_Ok (ret s) _ m m s eq_refl).
    assert_ok ltac:(apply Z.leb_le; rewrite Hm1; lia).
    unfold ret.
    cbn [set_nall set_bytes set_data item_size nsorted nall nbytes typalign padding aggctx
         data bytes block].
    rewrite Hm2. rewrite add32_small by nia. reflexivity.
  - apply memcpy_length; nia.
  - replace (Z.to_nat (nall s + 1)) with (S (Z.to_nat (nall s))) by lia.
    pose proof (items_snoc_memcpy (bytes (data s)) (item_size s) (Z.to_nat (nall s))
                  (mem_read value 0 (item_size s)) ltac:(lia) Hv) as H.
    rewrite Z2Nat.id in H by lia. apply H. nia.
  - apply items_ext. intros i Hi. apply mem_read_memcpy_before; nia.
Qed.

(** Without room, [add_element] compacts with a request for space and goes
    on with the compacted set. *)
Lemma add_element_compacts (A : bool) (T : Z) (s s1 : element_set_t) (value : list byte)
    (m m1 : mem) :
  nbytes s < mul32 (item_size s) (add32 (nall s) 1) ->
  compact_set A T s true m = Ok (s1, m1) ->
  mul32 (item_size s1) (add32 (nall s1) 1) <= nbytes s1 ->
  add_element A T s value m = add_element A T s1 value m1.
Proof.
  intros Hfull E Hroom. unfold add_element.
  rewrite (proj2 (Z.ltb_lt _ _) Hfull).
  rewrite (bind_Ok _ _ _ _ _ E).
  replace (nbytes s1 <? mul32 (item_size s1) (add32 (nall s1) 1)) with false
    by (symmetry; apply Z.ltb_ge; lia).
  rewrite (bind_Ok (ret s1) _ m1 m1 s1 eq_refl). reflexivity.
Qed.

Lemma grown_le_double (T n : Z) : 0 <= n -> grown T n <= 2 * n.
Proof.
  intros Hn. unfold grown. destruct (grown_below n T); [lia |].
  apply Z.div_le_upper_bound; lia.
Qed.

(** [add_element] on a set whose sorted part is strictly increasing: the
    value joins the items, and the relations between the counters, the
    capacity and the array are kept. *)
Lemma add_element_spec (A : bool) (T : Z) (s : element_set_t) (value : list byte) (m : mem) :
  wf s -> sorted_prefix s -> In (item_size s) [1; 2; 4; 8] -> capacity_shape s ->
  40 <= T -> 0 < nall s \/ item_size s <= nbytes s ->
  grown T (nbytes s) < 2 ^ 31 ->
  item_size s <= Z.of_nat (length value) ->
  exists s' m',
    add_element A T s value m = Ok (s', m') /\
    wf s' /\ sorted_prefix s' /\ capacity_shape s' /\
    item_size s' = item_size s /\ typalign s' = typalign s /\ aggctx s' = aggctx s /\
    0 < nall s' <= nall s + 1 /\
    nbytes s <= nbytes s' /\
    (nbytes s' = nbytes s \/
     nbytes s' = grown T (nbytes s) /\ 4 * nbytes s < 5 * nall s * item_size s) /\
    junk m' = junk m /\
    (forall z, In z (all_items s') <->
               In z (all_items s) \/ z = mem_read value 0 (item_size s)).
Proof.
  intros Hwf Hsorted Hsize Hshape HT Hfirst Hgrow Hval.
  pose proof Hwf as [His Hns Hfit Hnb Hlen].
  assert (Hm1 : mul32 (item_size s) (add32 (nall s) 1) = item_size s * (nall s + 1)).
  { rewrite add32_small by nia. apply mul32_small. nia. }
  destruct (nbytes s <? item_size s * (nall s + 1)) eqn:Efull.
  - (* no room: compaction, with a request for space *)
    apply Z.ltb_lt in Efull.
    assert (Hnall : 0 < nall s) by (destruct Hfirst; [assumption | nia]).
    destruct (compact_set_spec A T s true m Hwf Hnall Hsorted)
      as [s1 [m1 [E [Hi [Hta [_ [Hag [Hs1 [Hn1 [Hfit1 [Hb1 [Hl1 [Hj1 [Hinc1 Hin1]]]]]]]]]]]]]].
    cbn [andb] in Hb1.
    assert (Hroom : item_size s1 * (nall s1 + 1) <= nbytes s1).
    { rewrite Hi, Hb1. apply (room_after_compaction T (nbytes s) (nall s1) (item_size s));
        try assumption; lia. }
    assert (Hge : nbytes s <= nbytes s1).
    { rewrite Hb1. destruct (free_fract_below _ _); [apply grown_ge |]; lia. }
    assert (Hb31 : nbytes s1 < 2 ^ 31).
    { rewrite Hb1. destruct (free_fract_below _ _); lia. }
    assert (Hwf1 : wf s1) by (split; try lia; nia).
    assert (Hm11 : mul32 (item_size s1) (add32 (nall s1) 1) = item_size s1 * (nall s1 + 1)).
    { rewrite add32_small by nia. apply mul32_small. nia. }
    rewrite (add_element_compacts A T s s1 value m m1
               ltac:(rewrite Hm1; exact Efull) E ltac:(rewrite Hm11; exact Hroom)).
    destruct (add_element_room A T s1 value m1 Hwf1 ltac:(nia) ltac:(lia))
      as [E2 [HL2 [Hall2 Hsort2]]].
    rewrite E2. eexists. eexists. split; [reflexivity |].
    split; [split; cbn [item_size nsorted nall nbytes data bytes]; try lia; try nia;
            rewrite HL2; exact Hl1 |].
    split.
    { unfold sorted_prefix. cbn [item_size nsorted nall nbytes data bytes].
      rewrite Hsort2, Hs1. exact Hinc1. }
    split.
    { unfold capacity_shape. cbn [item_size nbytes].
      apply (compact_set_capacity_shape A T s s1 true m m1 Hwf Hnall Hshape HT E). }
    cbn [item_size typalign aggctx nall nbytes junk].
    split; [exact Hi |]. split; [exact Hta |]. split; [exact Hag |].
    split; [lia |]. split; [exact Hge |].
    split.
    { rewrite Hb1. unfold free_fract_below. rewrite Hb1 in Hroom.
      unfold free_fract_below in Hroom.
      destruct (5 * (nbytes s - nall s1 * item_size s) <? nbytes s) eqn:Ef.
      - right. split; [reflexivity |]. apply Z.ltb_lt in Ef. nia.
      - left. reflexivity. }
    split; [exact Hj1 |].
    intros z. unfold all_items at 1. cbn [item_size nall data bytes].
    rewrite Hall2, in_app_iff, Hin1, Hi. cbn [In]. intuition congruence.
  - (* room *)
    apply Z.ltb_ge in Efull.
    destruct (add_element_room A T s value m Hwf ltac:(nia) Hval)
      as [E2 [HL2 [Hall2 Hsort2]]].
    rewrite E2. eexists. eexists. split; [reflexivity |].
    split; [split; cbn [item_size nsorted nall nbytes data bytes]; try lia; try nia;
            rewrite HL2; exact Hlen |].
    split.
    { unfold sorted_prefix. cbn [item_size nsorted nall nbytes data bytes].
      rewrite Hsort2. exact Hsorted. }
    split; [exact Hshape |].
    cbn [item_size typalign aggctx nall nbytes junk].
    split; [reflexivity |]. split; [reflexivity |]. split; [reflexivity |].
    split; [lia |]. split; [lia |]. split; [left; reflexivity |].
    split; [reflexivity |].
    intros z. unfold all_items at 1. cbn [item_size nall data bytes].
    rewrite Hall2, in_app_iff. cbn [In]. intuition congruence.
Qed.

(** ** The transition function *)

Lemma init_set_spec (size : Z) (align : byte) (ctx : Z) (m : mem) :
  In size [1; 2; 4; 8] ->
  exists s m',
    init_set size align ctx m = Ok (s, m') /\
    wf s /\ sorted_prefix s /\ capacity_shape s /\
    item_size s = size /\ typalign s = align /\ aggctx s = ctx /\
    nsorted s = 0 /\ nall s = 0 /\ nbytes s = 32 /\ junk m' = junk m.
Proof.
  intros Hsize.
  assert (Hs : 0 < size <= 8) by (cbn in Hsize; intuition lia).
  unfold init_set, palloc_element_set_t.
  rewrite (bind_Ok _ _ m _ _
             (bind_Ok _ _ m _ _ (palloc_Ok (sizeof_element_set_t SIZEOF_POINTER) m))).
  unfold ret at 1.
  cbn [nbytes].
  rewrite (bind_Ok _ _ _ _ _ (palloc_Ok _ _)).
  unfold ret.
  eexists. eexists. split; [reflexivity |].
  cbn [set_data item_size nsorted nall nbytes typalign aggctx data bytes junk].
  rewrite u32_small by lia.
  split; [split; cbn [set_data item_size nsorted nall nbytes data bytes];
          unfold ARRAY_INIT_SIZE; try lia;
          rewrite length_map, length_seq; reflexivity |].
  split; [exact I |].
  split; [left; unfold ARRAY_INIT_SIZE; cbn [set_data nbytes]; lia |].
  cbn [set_data item_size nsorted nall nbytes typalign aggctx data bytes junk].
  repeat split.
Qed.

(** A first value: a new set holding it. *)
Lemma append_first (A : bool) (T : Z) (ty : typinfo) (ctx : Z) (v : list byte) (m : mem) :
  In (typlen ty) [1; 2; 4; 8] -> typbyval ty = true ->
  typlen ty <= Z.of_nat (length v) ->
  exists s m',
    lrtm_count_distinct_append A T ty ctx None (Some v) m = Ok (Some s, m') /\
    state_inv s /\ item_size s = typlen ty /\ typalign s = typalign_of ty /\
    aggctx s = ctx /\ nsorted s = 0 /\ nall s = 1 /\ nbytes s = 32 /\
    all_items s = [item_of (typlen ty) v] /\ junk m' = junk m.
Proof.
  intros Hsize Hbyval Hv.
  assert (Hs : 0 < typlen ty <= 8) by (cbn in Hsize; intuition lia).
  destruct (init_set_spec (typlen ty) (typalign_of ty) ctx m Hsize)
    as [s0 [m0 [E0 [Hwf0 [Hsort0 [Hshape0 [Hi0 [Ht0 [Ha0 [Hns0 [Hn0 [Hb0 Hj0]]]]]]]]]]]].
  unfold lrtm_count_distinct_append.
  replace ((typlen ty <? 0) || negb (typbyval ty)) with false
    by (symmetry; rewrite Hbyval; cbn [negb]; rewrite orb_false_r; apply Z.ltb_ge; lia).
  rewrite (bind_Ok _ _ _ _ _ E0).
  destruct (add_element_room A T s0 v m0 Hwf0 ltac:(rewrite Hn0, Hi0, Hb0; lia)
              ltac:(rewrite Hi0; exact Hv)) as [E1 [HL1 [Hall1 Hsort1]]].
  rewrite (bind_Ok _ _ _ _ _ E1).
  pose proof Hwf0 as [His0 Hns0' Hfit0 Hnb0 Hlen0].
  eexists. eexists. split; [reflexivity |].
  split.
  { split.
    - split; cbn [item_size nsorted nall nbytes data bytes]; lia.
    - cbn [nall]. lia.
    - unfold sorted_prefix. cbn [item_size nsorted data bytes]. rewrite Hsort1. exact Hsort0.
    - cbn [item_size]. rewrite Hi0. exact Hsize.
    - exact Hshape0. }
  cbn [item_size typalign aggctx nsorted nall nbytes].
  split; [exact Hi0 |]. split; [exact Ht0 |]. split; [exact Ha0 |].
  split; [exact Hns0 |]. split; [lia |]. split; [exact Hb0 |].
  split; [| exact Hj0].
  unfold all_items at 1. cbn [item_size nall data bytes].
  rewrite Hall1. unfold all_items. rewrite Hn0, Hi0. reflexivity.
Qed.

(** A further value joins the set, whatever type information comes with
    the call. *)
Lemma append_next (A : bool) (T : Z) (ty : typinfo) (ctx : Z) (s : element_set_t)
    (v : list byte) (m : mem) :
  state_inv s -> 40 <= T -> grown T (nbytes s) < 2 ^ 31 ->
  item_size s <= Z.of_nat (length v) ->
  exists s' m',
    lrtm_count_distinct_append A T ty ctx (Some s) (Some v) m = Ok (Some s', m') /\
    state_inv s' /\
    item_size s' = item_size s /\ typalign s' = typalign s /\ aggctx s' = aggctx s /\
    nall s' <= nall s + 1 /\ nbytes s <= nbytes s' /\
    (nbytes s' = nbytes s \/
     nbytes s' = grown T (nbytes s) /\ 4 * nbytes s < 5 * nall s * item_size s) /\
    junk m' = junk m /\
    (forall z, In z (all_items s') <-> In z (all_items s) \/ z = item_of (item_size s) v).
Proof.
  intros [Hwf Hnall Hsorted Hsize Hshape] HT Hgrow Hv.
  destruct (add_element_spec A T s v m Hwf Hsorted Hsize Hshape HT ltac:(left; exact Hnall)
              Hgrow Hv)
    as [s' [m' [E [Hwf' [Hsort' [Hshape' [Hi [Hta [Hag [Hn [Hge [Hb [Hj Hin]]]]]]]]]]]]].
  unfold lrtm_count_distinct_append.
  rewrite (bind_Ok (ret s) _ m m s eq_refl).
  rewrite (bind_Ok _ _ _ _ _ E).
  exists s', m'. split; [reflexivity |].
  split; [split; try assumption; try lia; rewrite Hi; exact Hsize |].
  split; [exact Hi |]. split; [exact Hta |]. split; [exact Hag |].
  split; [lia |]. split; [exact Hge |]. split; [exact Hb |]. split; [exact Hj |].
  exact Hin.
Qed.

(** The capacity stays within three times what the values seen need. *)
Lemma append_all_spec (A : bool) (T : Z) (ty : typinfo) (ctx : Z) :
  40 <= T ->
  forall (values : list (list byte)) (s : element_set_t) (n : Z) (m : mem),
    state_inv s -> nall s <= n ->
    nbytes s <= Z.max 32 (3 * item_size s * n) ->
    6 * item_size s * (n + Z.of_nat (length values)) < 2 ^ 31 ->
    Forall (fun v => item_size s <= Z.of_nat (length v)) values ->
    exists s' m',
      append_all A T ty ctx values (Some s) m = Ok (Some s', m') /\
      state_inv s' /\
      item_size s' = item_size s /\ typalign s' = typalign s /\ aggctx s' = aggctx s /\
      nall s' <= n + Z.of_nat (length values) /\
      nbytes s' <= Z.max 32 (3 * item_size s * (n + Z.of_nat (length values))) /\
      junk m' = junk m /\
      (forall z, In z (all_items s') <->
                 In z (all_items s) \/ In z (map (item_of (item_size s)) values)).
Proof.
  intros HT. induction values as [|v values IH]; intros s n m Hinv Hn Hcap Hbound Hvals.
  - cbn [append_all length map In]. exists s, m. split; [reflexivity |].
    rewrite Z.add_0_r.
    split; [exact Hinv |]. split; [reflexivity |]. split; [reflexivity |].
    split; [reflexivity |]. split; [exact Hn |]. split; [exact Hcap |].
    split; [reflexivity |]. intros z. tauto.
  - cbn [append_all].
    pose proof Hinv as [Hwf Hnall Hsorted Hsize Hshape].
    pose proof Hwf as [His _ Hfit Hnb _].
    assert (Hs : 0 < item_size s <= 8) by (cbn in Hsize; intuition lia).
    cbn [length] in Hbound.
    assert (Hgrow : grown T (nbytes s) < 2 ^ 31).
    { pose proof (grown_le_double T (nbytes s) ltac:(nia)). nia. }
    destruct (append_next A T ty ctx s v m Hinv HT Hgrow (Forall_inv Hvals))
      as [s1 [m1 [E1 [Hinv1 [Hi1 [Hta1 [Hag1 [Hn1 [Hge1 [Hb1 [Hj1 Hin1]]]]]]]]]]].
    rewrite (bind_Ok _ _ _ _ _ E1).
    destruct (IH s1 (n + 1) m1 Hinv1 ltac:(lia)) as
        [s' [m' [E [Hinv' [Hi' [Hta' [Hag' [Hn' [Hcap' [Hj' Hin']]]]]]]]]].
    + rewrite Hi1. destruct Hb1 as [Hb1 | [Hb1 Hfull]].
      * rewrite Hb1. nia.
      * pose proof (grown_le_double T (nbytes s) ltac:(nia)). nia.
    + rewrite Hi1. nia.
    + rewrite Hi1. exact (Forall_inv_tail Hvals).
    + exists s', m'. split; [exact E |].
      split; [exact Hinv' |].
      split; [congruence |]. split; [congruence |]. split; [congruence |].
      split; [cbn [length]; lia |].
      split; [rewrite Hi1 in Hcap'; cbn [length];
              replace (n + Z.of_nat (S (length values)))
                with (n + 1 + Z.of_nat (length values)) by lia; exact Hcap' |].
      split; [congruence |].
      intros z. rewrite Hin', Hin1, Hi1. cbn [map In]. intuition congruence.
Qed.

(** ** The final functions on the states the transition function builds *)

Lemma length_distinct (l1 l2 : list (list byte)) :
  NoDup l1 -> (forall z, In z l1 <-> In z l2) ->
  length l1 = length (nodup item_eq_dec l2).
Proof.
  intros Hnd Hin. apply Nat.le_antisymm.
  - apply NoDup_incl_length; [exact Hnd |].
    intros z Hz. apply nodup_In. apply Hin. exact Hz.
  - apply NoDup_incl_length; [apply NoDup_nodup |].
    intros z Hz. apply Hin. apply nodup_In in Hz. exact Hz.
Qed.

Lemma all_items_uniform (s : element_set_t) :
  0 < item_size s -> 0 <= nall s ->
  nall s * item_size s <= Z.of_nat (length (bytes (data s))) ->
  uniform (item_size s) (all_items s).
Proof.
  intros His Hn Hfit. apply items_Forall_length; lia.
Qed.

Lemma all_items_length (s : element_set_t) :
  0 <= nall s -> Z.of_nat (length (all_items s)) = nall s.
Proof. intros H. unfold all_items. rewrite items_length. lia. Qed.

(** The final function on a set whose sorted part is strictly increasing. *)
Lemma count_spec (A : bool) (T : Z) (s : element_set_t) (m : mem) :
  wf s -> 0 < nall s -> sorted_prefix s ->
  exists s' m',
    lrtm_count_distinct A T (Some s) m = Ok ((Some (nall s'), Some s'), m') /\
    (exists m'', build_array A T s m = Ok ((all_items s', s'), m'')) /\
    item_size s' = item_size s /\ nsorted s' = nall s' /\ 0 < nall s' /\
    nbytes s' = nbytes s /\
    Z.of_nat (length (bytes (data s'))) = nbytes s' /\
    nall s' * item_size s' <= nbytes s' /\
    strictly_increasing (all_items s') /\
    uniform (item_size s) (all_items s') /\
    (forall z, In z (all_items s') <-> In z (all_items s)).
Proof.
  intros Hwf Hnall Hsorted. pose proof Hwf as [His Hns Hfit Hnb Hlen].
  destruct (compact_set_spec A T s false m Hwf Hnall Hsorted)
    as [s1 [m1 [E [Hi [Hta [_ [Hag [Hs1 [Hn1 [Hfit1 [Hb1 [Hl1 [Hj1 [Hinc1 Hin1]]]]]]]]]]]]]].
  cbn [andb] in Hb1.
  exists s1, m1.
  split; [unfold lrtm_count_distinct; rewrite (bind_Ok _ _ _ _ _ E); reflexivity |].
  split.
  { eexists. rewrite (build_array_Ok A T s s1 m m1 E). unfold all_items.
    rewrite Hs1. reflexivity. }
  split; [exact Hi |]. split; [exact Hs1 |]. split; [lia |]. split; [exact Hb1 |].
  split; [exact Hl1 |]. split; [rewrite Hi, Hb1; exact Hfit1 |].
  split; [exact Hinc1 |]. split; [| exact Hin1].
  rewrite <- Hi. apply all_items_uniform; rewrite ?Hi; lia.
Qed.

(** The states the transition function builds from values alone. *)
Lemma append_all_from_absent (A : bool) (T : Z) (ty : typinfo) (ctx : Z)
    (values : list (list byte)) (m : mem) :
  In (typlen ty) [1; 2; 4; 8] -> typbyval ty = true -> 40 <= T -> values <> [] ->
  Forall (fun v => length v = 8%nat) values ->
  48 * Z.of_nat (length values) < 2 ^ 31 ->
  exists s m',
    append_all A T ty ctx values None m = Ok (Some s, m') /\
    state_inv s /\ item_size s = typlen ty /\ typalign s = typalign_of ty /\
    aggctx s = ctx /\ junk m' = junk m /\
    nall s <= Z.of_nat (length values) /\
    nbytes s <= Z.max 32 (3 * typlen ty * Z.of_nat (length values)) /\
    (forall z, In z (all_items s) <-> In z (map (item_of (typlen ty)) values)).
Proof.
  intros Hsize Hbyval HT Hne Hvals Hbound.
  assert (Hs : 0 < typlen ty <= 8) by (cbn in Hsize; intuition lia).
  destruct values as [|v values]; [congruence |].
  cbn [append_all length] in *.
  pose proof (Forall_inv Hvals) as Hv. cbn beta in Hv.
  destruct (append_first A T ty ctx v m Hsize Hbyval ltac:(lia))
    as [s1 [m1 [E1 [Hinv1 [Hi1 [Hta1 [Hag1 [Hns1 [Hn1 [Hb1 [Hall1 Hj1]]]]]]]]]]].
  rewrite (bind_Ok _ _ _ _ _ E1).
  destruct (append_all_spec A T ty ctx HT values s1 1 m1 Hinv1 ltac:(lia))
    as [s' [m' [E [Hinv' [Hi' [Hta' [Hag' [Hn' [Hcap' [Hj' Hin']]]]]]]]]].
  - rewrite Hb1. lia.
  - rewrite Hi1. nia.
  - rewrite Hi1. apply Forall_forall. intros x Hx.
    pose proof (proj1 (Forall_forall _ _) (Forall_inv_tail Hvals) x Hx) as H.
    cbn beta in H. lia.
  - exists s', m'. split; [exact E |]. split; [exact Hinv' |].
    split; [congruence |]. split; [congruence |]. split; [congruence |].
    split; [congruence |]. split; [lia |].
    split; [rewrite Hi1 in Hcap';
            replace (Z.of_nat (S (length values))) with (1 + Z.of_nat (length values))
              by lia; exact Hcap' |].
    intros z. rewrite Hin', Hall1, Hi1. cbn [map In]. intuition congruence.
Qed.

(** ** Combine on tight operands *)

Lemma tight_uniform (s : element_set_t) : tight s -> uniform (item_size s) (all_items s).
Proof.
  intros [His Hn Hs Hb Hbd Hl Hinc]. apply all_items_uniform; lia.
Qed.

Lemma combine_tight (A : bool) (T : Z) (a b : element_set_t) (m : mem) :
  tight a -> tight b -> item_size b = item_size a ->
  nbytes a + nbytes b < 2 ^ 32 ->
  exists r m',
    lrtm_count_distinct_combine A T (Some a) (Some b) m
    = Ok ((PointerGetDatum (Some r), Some b), m') /\
    tight r /\
    item_size r = item_size a /\ typalign r = typalign a /\ aggctx r = aggctx a /\
    nall r <= nall a + nall b /\ nbytes r <= nbytes a + nbytes b /\
    junk m' = junk m /\
    (forall z, In z (all_items r) <-> In z (all_items a) \/ In z (all_items b)).
Proof.
  intros Ha Hb Heq Hsum.
  pose proof (tight_uniform a Ha) as Hua. pose proof (tight_uniform b Hb) as Hub.
  destruct Ha as [Hisa Hna Hsa Hta Hbda Hla Hsorta].
  destruct Hb as [Hisb Hnb Hsb Htb Hbdb Hlb Hsortb].
  assert (Hma : mul32 (nall a) (item_size a) = nall a * item_size a)
    by (apply mul32_small; nia).
  assert (Hmb : mul32 (nall b) (item_size b) = nall b * item_size b)
    by (apply mul32_small; nia).
  assert (Hadd : add32 (nbytes a) (nbytes b) = nbytes a + nbytes b)
    by (apply add32_small; nia).
  assert (Hcnt : add32 (nall a) (nall b) = nall a + nall b)
    by (apply add32_small; nia).
  assert (Hmab : mul32 (add32 (nall a) (nall b)) (item_size a) =
                 (nall a + nall b) * item_size a)
    by (rewrite Hcnt; apply mul32_small; nia).
  unfold lrtm_count_distinct_combine.
  assert_ok ltac:(rewrite Heq, Z.eqb_refl, Bool.andb_true_r; apply Z.ltb_lt; lia).
  rewrite (bind_Ok _ _ _ _ _ (compact_set_noop A T a m Hna Hsa ltac:(lia))).
  rewrite (bind_Ok _ _ _ _ _ (compact_set_noop A T b m Hnb Hsb ltac:(lia))).
  rewrite (bind_Ok _ _ _ _ _ (palloc_Ok _ _)).
  cbn [bytes block].
  set (fresh := map _ _). set (m3 := mkmem _ _ _).
  assert (Hfresh : Z.of_nat (length fresh) = nbytes a + nbytes b).
  { subst fresh. rewrite length_map, length_seq, Hadd. nia. }
  set (la := all_items a) in *. set (lb := all_items b) in *.
  assert (Hlena : length la = Z.to_nat (nall a)) by apply items_length.
  assert (Hlenb : length lb = Z.to_nat (nall b)) by apply items_length.
  assert (Hinv : merge_inv (item_size a) la lb []).
  { split.
    - exact Hsorta.
    - exact Hsortb.
    - exact I.
    - exact Hua.
    - rewrite <- Heq. exact Hub.
    - constructor.
    - intros p r Hpr. discriminate. }
  assert (Hrel : combine_rel a b (length fresh) la lb [] (mkcombine 0 0 0 0 fresh)).
  { split; cbn [ptr1 ptr2 tmp prev merged length].
    - rewrite Hlena, Z2Nat.id by lia. lia.
    - lia.
    - rewrite Hlena. reflexivity.
    - rewrite Hlenb, Z2Nat.id by lia. rewrite Htb, Heq. lia.
    - lia.
    - rewrite Hlenb. subst lb. unfold all_items. rewrite Heq. reflexivity.
    - reflexivity.
    - reflexivity.
    - intros p r Hpr. discriminate.
    - reflexivity. }
  set (n := Z.to_nat (add32 (nall a) (nall b))).
  assert (Hn : n = (length la + length lb)%nat)
    by (subst n; rewrite Hcnt, Hlena, Hlenb; lia).
  destruct (combine_loop_exact A a b (length fresh) Hisa Heq Hla Hlb
              n la lb [] (mkcombine 0 0 0 0 fresh) m3 Hrel Hinv Hn)
    as [st [Est Hrel']].
  { cbn [length]. rewrite Hfresh. subst n. rewrite Hcnt, Z2Nat.id by lia. nia. }
  destruct (combine_items_all (item_size a) n la lb [] Hinv Hn)
    as [racc [Eitems [Hinv' [Hin Hlen]]]].
  rewrite Eitems in Hrel'. cbn [fst snd] in Hrel'.
  destruct Hrel' as [Hp1 _ _ Hp2 _ _ Htmp Hout _ Hlenm].
  cbn [length] in Hp1, Hp2, Hlen.
  assert (Hracc : Z.of_nat (length racc) <= nall a + nall b)
    by (subst n; rewrite Hcnt in Hlen; lia).
  assert (Hpos : (0 < length racc)%nat).
  { destruct racc as [|p r]; [| cbn; lia]. exfalso.
    destruct la as [|x la']; [cbn in Hlena; lia |].
    apply (proj2 (Hin x)). right. left. left. reflexivity. }
  rewrite (bind_Ok _ _ _ _ _ Est).
  assert_ok ltac:(apply Z.eqb_eq; lia).
  assert_ok ltac:(apply Z.eqb_eq; lia).
  assert_ok ltac:(apply Z.leb_le; nia).
  rewrite (bind_Ok (pfree (data a)) _ m3 _ tt eq_refl).
  div_ok ltac:(cbn [set_nbytes set_data item_size]; lia).
  assert (Hu : u32 (tmp st) = Z.of_nat (length racc) * item_size a)
    by (rewrite Htmp; apply u32_small; nia).
  assert (Hdiv : Z.of_nat (length racc) * item_size a / item_size a =
                 Z.of_nat (length racc)) by (apply Z.div_mul; lia).
  eexists. eexists. split; [reflexivity |].
  assert (Hall : all_items
                   (set_nsorted
                      (set_nall
                         (set_nbytes (set_data a (mkbuffer (next_block m) (merged st)))
                            (u32 (tmp st)))
                         (nbytes
                            (set_nbytes (set_data a (mkbuffer (next_block m) (merged st)))
                               (u32 (tmp st))) /
                          item_size
                            (set_nbytes (set_data a (mkbuffer (next_block m) (merged st)))
                               (u32 (tmp st)))))
                      (nall
                         (set_nall
                            (set_nbytes (set_data a (mkbuffer (next_block m) (merged st)))
                               (u32 (tmp st)))
                            (nbytes
                               (set_nbytes (set_data a (mkbuffer (next_block m) (merged st)))
                                  (u32 (tmp st))) /
                             item_size
                               (set_nbytes
                                  (set_data a (mkbuffer (next_block m) (merged st)))
                                  (u32 (tmp st)))))))
                 = rev racc).
  { unfold all_items.
    cbn [set_nsorted set_nall set_nbytes set_data item_size nsorted nall nbytes data
         bytes block].
    rewrite Hu, Hdiv, Nat2Z.id. exact Hout. }
  split.
  { split; rewrite ?Hall;
      cbn [set_nsorted set_nall set_nbytes set_data item_size nsorted nall nbytes data
           bytes block]; rewrite ?Hu, ?Hdiv; try lia; try nia.
    apply strictly_decreasing_rev. destruct Hinv'. assumption. }
  rewrite Hall.
  cbn [set_nsorted set_nall set_nbytes set_data item_size nsorted nall nbytes data
       bytes block typalign aggctx junk].
  rewrite ?Hu, ?Hdiv.
  split; [reflexivity |]. split; [reflexivity |]. split; [reflexivity |].
  split; [lia |]. split; [nia |]. split; [reflexivity |].
  intros z. rewrite <- in_rev, Hin. cbn [In]. tauto.
Qed.

(** The copy combine makes of its second operand when the first is absent. *)
Lemma combine_absent_first (A : bool) (T : Z) (b : element_set_t) (m : mem) :
  0 <= nbytes b <= Z.of_nat (length (bytes (data b))) ->
  exists c m',
    lrtm_count_distinct_combine A T None (Some b) m
    = Ok ((PointerGetDatum (Some c), Some b), m') /\
    item_size c = item_size b /\ nsorted c = nsorted b /\ nall c = nall b /\
    nbytes c = nbytes b /\
    bytes (data c) = mem_read (bytes (data b)) 0 (nbytes b) /\
    block (data c) = next_block m + 1 /\
    typalign c = junk m (next_block m) 16%nat /\
    live m' = (next_block m + 1) :: next_block m :: live m /\
    junk m' = junk m.
Proof.
  intros Hb. unfold lrtm_count_distinct_combine, palloc_element_set_t.
  rewrite (bind_Ok _ _ m _ _
             (bind_Ok _ _ m _ _ (palloc_Ok (sizeof_element_set_t SIZEOF_POINTER) m))).
  unfold ret at 1. cbn [nbytes].
  rewrite (bind_Ok _ _ _ _ _ (palloc_Ok _ _)).
  unfold ret.
  eexists. eexists. split; [reflexivity |].
  cbn [set_bytes set_data item_size nsorted nall nbytes typalign data bytes block
       next_block live junk].
  split; [reflexivity |]. split; [reflexivity |]. split; [reflexivity |].
  split; [reflexivity |].
  split.
  { apply memcpy_whole. rewrite length_map, length_seq.
    apply Nat2Z.inj. rewrite mem_read_length; lia. }
  split; [reflexivity |]. split; [reflexivity |]. split; reflexivity.
Qed.

Lemma combine_absent_first_tight (A : bool) (T : Z) (b : element_set_t) (m : mem) :
  tight b ->
  exists c m',
    lrtm_count_distinct_combine A T None (Some b) m
    = Ok ((PointerGetDatum (Some c), Some b), m') /\
    tight c /\ item_size c = item_size b /\ nall c = nall b /\ nbytes c = nbytes b /\
    all_items c = all_items b /\ junk m' = junk m.
Proof.
  intros [His Hn Hs Hb Hbd Hl Hinc].
  destruct (combine_absent_first A T b m ltac:(nia))
    as [c [m' [E [Hi [Hns [Hna [Hnb [Hby [_ [_ [_ Hj]]]]]]]]]]].
  exists c, m'. split; [exact E |].
  assert (Hall : all_items c = all_items b).
  { unfold all_items. rewrite Hi, Hna, Hby. apply items_ext. intros i Hi'.
    apply mem_read_mem_read; nia. }
  split.
  { split; rewrite ?Hall, ?Hi, ?Hns, ?Hna, ?Hnb; try assumption; try lia.
    rewrite Hby, mem_read_length; lia. }
  split; [exact Hi |]. split; [exact Hna |]. split; [exact Hnb |].
  split; [exact Hall | exact Hj].
Qed.

(** ** Serialization of the states the transition function builds *)

(** Serializing compacts first and then writes the compacted set. *)
Lemma serial_spec (A : bool) (T : Z) (s : element_set_t) (m : mem) :
  wf s -> 0 < nall s -> sorted_prefix s ->
  exists s1 m',
    lrtm_count_distinct_serial A T s m =
      Ok ((header_bytes s1 ++ mem_read (bytes (data s1)) 0 (nall s1 * item_size s1), s1),
          m') /\
    wf s1 /\ item_size s1 = item_size s /\ nsorted s1 = nall s1 /\ 0 < nall s1 <= nall s /\
    nbytes s1 = nbytes s /\
    strictly_increasing (all_items s1) /\
    (forall z, In z (all_items s1) <-> In z (all_items s)) /\
    junk m' = junk m.
Proof.
  intros Hwf Hnall Hsorted. pose proof Hwf as [His Hns Hfit Hnb Hlen].
  destruct (compact_set_spec A T s false m Hwf Hnall Hsorted)
    as [s1 [m1 [E [Hi [Hta [_ [Hag [Hs1 [Hn1 [Hfit1 [Hb1 [Hl1 [Hj1 [Hinc1 Hin1]]]]]]]]]]]]]].
  cbn [andb] in Hb1.
  assert (Hwf1 : wf s1) by (split; try lia; nia).
  destruct (serial_compacted A T s1 m1 Hwf1 ltac:(lia) Hs1) as [m' [E' Hj']].
  exists s1, m'. split.
  - rewrite <- E'. unfold lrtm_count_distinct_serial.
    rewrite (bind_Ok _ _ _ _ _ E).
    rewrite (bind_Ok _ _ _ _ _
               (compact_set_noop A T s1 m1 ltac:(lia) Hs1
                  ltac:(rewrite mul32_small by nia; nia))).
    reflexivity.
  - split; [exact Hwf1 |]. split; [exact Hi |]. split; [exact Hs1 |]. split; [lia |].
    split; [exact Hb1 |]. split; [exact Hinc1 |]. split; [exact Hin1 |]. congruence.
Qed.

(** Deserializing the payload of a compacted set gives a tight set with
    the same items. *)
Lemma deserial_spec (A : bool) (s : element_set_t) (m : mem) :
  wf s -> 0 < nall s -> nsorted s = nall s -> strictly_increasing (all_items s) ->
  exists d m',
    lrtm_count_distinct_deserial A
      (header_bytes s ++ mem_read (bytes (data s)) 0 (nall s * item_size s)) m
    = Ok (d, m') /\
    tight d /\ item_size d = item_size s /\ nall d = nall s /\
    typalign d = typalign s /\
    all_items d = all_items s /\ junk m' = junk m.
Proof.
  intros Hwf Hnall Hs Hinc. pose proof Hwf as [His Hns Hfit Hnb Hlen].
  assert (Hbody : Z.of_nat (length (mem_read (bytes (data s)) 0 (nall s * item_size s)))
                  = nall s * item_size s) by (apply mem_read_length; nia).
  destruct (deserial_payload A s _ m Hwf Hnall Hs Hbody) as [s0 [m' [E Hj]]].
  eexists. exists m'. split; [exact E |].
  assert (Hall : all_items
                   (mkeset (item_size s) (nsorted s) (nall s) (nall s * item_size s)
                      (typalign s) (fit (Z.to_nat npad) (padding s)) (aggctx s mod 2 ^ 64)
                      (mkbuffer s0 (mem_read (bytes (data s)) 0 (nall s * item_size s))))
                 = all_items s).
  { unfold all_items. cbn [item_size nall data bytes].
    apply items_ext. intros i Hi. apply mem_read_mem_read; nia. }
  split.
  { split; rewrite ?Hall; cbn [item_size nsorted nall nbytes data bytes];
      try assumption; try lia; nia. }
  cbn [item_size nall typalign].
  split; [reflexivity |]. split; [reflexivity |]. split; [reflexivity |].
  split; [exact Hall | exact Hj].
Qed.

(** What a worker hands over: the payload deserializes to a tight set
    holding the distinct items of the worker's state. *)
Lemma serial_deserial_spec (A : bool) (T : Z) (s : element_set_t) (m m0 : mem) :
  wf s -> 0 < nall s -> sorted_prefix s ->
  exists payload s1 m1 d m2,
    lrtm_count_distinct_serial A T s m = Ok ((payload, s1), m1) /\
    Z.of_nat (length payload) = hlen + nall s1 * item_size s /\
    lrtm_count_distinct_deserial A payload m0 = Ok (d, m2) /\
    tight d /\ item_size d = item_size s /\ nall d = nall s1 /\ nall d <= nall s /\
    (forall z, In z (all_items d) <-> In z (all_items s)) /\
    junk m2 = junk m0.
Proof.
  intros Hwf Hnall Hsorted.
  destruct (serial_spec A T s m Hwf Hnall Hsorted)
    as [s1 [m1 [E1 [Hwf1 [Hi1 [Hs1 [Hn1 [Hb1 [Hinc1 [Hin1 Hj1]]]]]]]]]].
  destruct (deserial_spec A s1 m0 Hwf1 ltac:(lia) Hs1 Hinc1)
    as [d [m2 [E2 [Htight [Hi2 [Hn2 [_ [Hall2 Hj2]]]]]]]].
  pose proof Hwf1 as [His1 Hns1 Hfit1 Hnb1 Hlen1].
  eexists. exists s1, m1, d, m2. split; [exact E1 |].
  split.
  { rewrite length_app, Nat2Z.inj_add, header_bytes_length, mem_read_length by nia.
    rewrite Hi1. reflexivity. }
  split; [exact E2 |]. split; [exact Htight |].
  split; [congruence |]. split; [exact Hn2 |]. split; [lia |].
  split; [intros z; rewrite Hall2; apply Hin1 | exact Hj2].
Qed.

(** ** What the functions leave alone *)

Lemma bind_assoc {X Y W} (c : M X) (f : X -> M Y) (g : Y -> M W) (m : mem) :
  bind (bind c f) g m = bind c (fun x => bind (f x) g) m.
Proof. unfold bind. destruct (c m) as [[x m']| | |]; reflexivity. Qed.

Lemma compact_set_frame (A : bool) (T : Z) (s s' : element_set_t) (need : bool)
    (m m' : mem) :
  compact_set A T s need m = Ok (s', m') ->
  item_size s' = item_size s /\ typalign s' = typalign s /\
  padding s' = padding s /\ aggctx s' = aggctx s.
Proof.
  unfold compact_set. intros H.
  apply bind_Ok_inv in H. destruct H as [u1 [m1 [H1 H]]].
  apply Assert_Ok_inv in H1. destruct H1 as [-> _].
  apply bind_Ok_inv in H. destruct H as [u2 [m2 [H2 H]]].
  apply Assert_Ok_inv in H2. destruct H2 as [-> _].
  apply bind_Ok_inv in H. destruct H as [u3 [m3 [H3 H]]].
  apply Assert_Ok_inv in H3. destruct H3 as [-> _].
  apply bind_Ok_inv in H. destruct H as [s1 [m4 [Hc H]]].
  apply bind_Ok_inv in H. destruct H as [u4 [m5 [H4 H]]].
  apply Assert_Ok_inv in H4. destruct H4 as [-> _].
  assert (Hf : item_size s1 = item_size s /\ typalign s1 = typalign s /\
               padding s1 = padding s /\ aggctx s1 = aggctx s).
  { destruct (nsorted s <? nall s).
    - cbv zeta in Hc. pose proof (compact_new_items_fields s) as [F1 [F2 [F3 [F4 F5]]]].
      destruct (nsorted (compact_new_items s) <? nall (compact_new_items s)).
      + apply compact_merge_fields in Hc. intuition congruence.
      + inversion Hc; subst. intuition congruence.
    - inversion Hc; subst. repeat split. }
  destruct Hf as [G1 [G2 [G3 G4]]].
  unfold compact_grow in H.
  destruct (need && free_fract_below _ _).
  - rewrite (bind_Ok _ _ _ _ _ (repalloc_Ok _ _ _)) in H.
    inversion H; subst s' m'. clear H.
    destruct (grown_below (nbytes s1) T);
      cbn [set_data set_nbytes item_size typalign padding aggctx];
      repeat split; assumption.
  - inversion H; subst s' m'. repeat split; assumption.
Qed.

Lemma add_element_frame (A : bool) (T : Z) (s s' : element_set_t) (v : list byte)
    (m m' : mem) :
  add_element A T s v m = Ok (s', m') ->
  item_size s' = item_size s /\ typalign s' = typalign s /\ aggctx s' = aggctx s.
Proof.
  unfold add_element. intros H.
  apply bind_Ok_inv in H. destruct H as [s1 [m1 [Hc H]]].
  apply bind_Ok_inv in H. destruct H as [u [m2 [Ha H]]].
  inversion H; subst s' m'. clear H.
  cbn [set_nall set_bytes set_data item_size typalign aggctx].
  destruct (nbytes s <? mul32 (item_size s) (add32 (nall s) 1)).
  - apply compact_set_frame in Hc. intuition congruence.
  - inversion Hc; subst. repeat split.
Qed.

Lemma init_set_Ok (size : Z) (align : byte) (ctx : Z) (m : mem) :
  exists s m',
    init_set size align ctx m = Ok (s, m') /\
    item_size s = u32 size /\ typalign s = align.
Proof.
  unfold init_set, palloc_element_set_t.
  rewrite (bind_Ok _ _ m _ _
             (bind_Ok _ _ m _ _ (palloc_Ok (sizeof_element_set_t SIZEOF_POINTER) m))).
  unfold ret at 1. cbn [nbytes].
  rewrite (bind_Ok _ _ _ _ _ (palloc_Ok _ _)).
  unfold ret. eexists. eexists. split; [reflexivity |].
  split; reflexivity.
Qed.

(** ** The array-valued transition function against the scalar one *)

(** Once the loop holds a set, each further non-null element is one call
    of the scalar function. *)
Lemma elements_append_loop_some
    (fetch_att : list byte -> Z -> Z -> M (list byte))
    (fetch : list byte -> Z -> Z -> list byte)
    (att_addlength_pointer : Z -> Z -> Z) (att_align_nominal : Z -> byte -> Z)
    (A : bool) (T : Z) (ty : typinfo) (ctx : Z)
    (arg0 : option element_set_t) (input : ArrayType) :
  (forall region off len m, fetch_att region off len m = Ok (fetch region off len, m)) ->
  forall (idx : list Z) (e : element_set_t) (p : Z) (m : mem),
    bind (elements_append_loop A T fetch_att att_addlength_pointer att_align_nominal
            ty ctx arg0 input idx (Some e, p)) (fun st => match fst st with
                    | None => ret None
                    | Some eset => ret (Some eset)
                    end) m
    = append_all A T ty ctx
        (array_datums fetch att_addlength_pointer att_align_nominal
           (item_size e) (typalign e) input idx p) (Some e) m.
Proof.
  intros fetch_att_pure.
  induction idx as [|i idx IH]; intros e p m.
  - reflexivity.
  - cbn [elements_append_loop array_datums]. rewrite bind_assoc.
    unfold elements_append_step at 1.
    destruct (item_is_null input i).
    + rewrite (bind_Ok (ret (Some e, p)) _ m m _ eq_refl). apply IH.
    + cbn [append_all]. unfold lrtm_count_distinct_append.
      rewrite !bind_assoc.
      rewrite (bind_Ok (ret e) _ m m e eq_refl).
      rewrite (bind_Ok (ret e) _ m m e eq_refl).
      rewrite bind_assoc.
      rewrite (bind_Ok _ _ _ _ _ (fetch_att_pure _ _ _ m)).
      rewrite !bind_assoc.
      set (v := fetch (arr_data input) p (item_size e)).
      destruct (add_element A T e v m) as [[e' m']| | |] eqn:Eadd.
      * rewrite (bind_Ok _ _ _ _ _ Eadd).
        rewrite (bind_Ok _ _ _ _ _ Eadd).
        destruct (add_element_frame A T e e' v m m' Eadd) as [Hi [Hta _]].
        rewrite (bind_Ok (ret (Some e', _)) _ m' m' _ eq_refl).
        rewrite (bind_Ok (ret (Some e')) _ m' m' _ eq_refl).
        rewrite IH. rewrite Hi, Hta. reflexivity.
      * unfold bind at 1. rewrite Eadd. unfold bind at 1. rewrite Eadd. reflexivity.
      * unfold bind at 1. rewrite Eadd. unfold bind at 1. rewrite Eadd. reflexivity.
      * unfold bind at 1. rewrite Eadd. unfold bind at 1. rewrite Eadd. reflexivity.
Qed.

(** Before the first non-null element the loop holds no set. *)
Lemma elements_append_loop_none
    (fetch_att : list byte -> Z -> Z -> M (list byte))
    (fetch : list byte -> Z -> Z -> list byte)
    (att_addlength_pointer : Z -> Z -> Z) (att_align_nominal : Z -> byte -> Z)
    (A : bool) (T : Z) (ty : typinfo) (ctx : Z)
    (arg0 : option element_set_t) (input : ArrayType) :
  (forall region off len m, fetch_att region off len m = Ok (fetch region off len, m)) ->
  forall (idx : list Z) (p : Z) (m : mem),
    arg0 = None \/
    array_datums fetch att_addlength_pointer att_align_nominal
      (array_item_size ty arg0) (array_typalign ty arg0) input idx p <> [] ->
    bind (elements_append_loop A T fetch_att att_addlength_pointer att_align_nominal
            ty ctx arg0 input idx (None, p)) (fun st => match fst st with
                    | None => ret None
                    | Some eset => ret (Some eset)
                    end) m
    = append_all A T ty ctx
        (array_datums fetch att_addlength_pointer att_align_nominal
           (array_item_size ty arg0) (array_typalign ty arg0) input idx p) arg0 m.
Proof.
  intros fetch_att_pure.
  induction idx as [|i idx IH]; intros p m Hne.
  - cbn [array_datums] in *. destruct Hne as [-> | Hne]; [reflexivity | congruence].
  - cbn [elements_append_loop array_datums] in *. rewrite bind_assoc.
    unfold elements_append_step at 1.
    destruct (item_is_null input i).
    + rewrite (bind_Ok (ret (None, p)) _ m m _ eq_refl). apply IH. exact Hne.
    + clear Hne IH. cbn [append_all]. unfold lrtm_count_distinct_append.
      destruct arg0 as [s |]; cbn [array_item_size array_typalign].
      * rewrite !bind_assoc.
        rewrite (bind_Ok (ret s) _ m m s eq_refl).
        rewrite (bind_Ok (ret s) _ m m s eq_refl).
        rewrite bind_assoc.
        rewrite (bind_Ok _ _ _ _ _ (fetch_att_pure _ _ _ m)).
        rewrite !bind_assoc.
        set (v := fetch (arr_data input) p (item_size s)).
        destruct (add_element A T s v m) as [[e' m']| | |] eqn:Eadd.
        -- rewrite (bind_Ok _ _ _ _ _ Eadd).
           rewrite (bind_Ok _ _ _ _ _ Eadd).
           destruct (add_element_frame A T s e' v m m' Eadd) as [Hi [Hta _]].
           rewrite (bind_Ok (ret (Some e', _)) _ m' m' _ eq_refl).
           rewrite (bind_Ok (ret (Some e')) _ m' m' _ eq_refl).
           rewrite (elements_append_loop_some fetch_att fetch) by exact fetch_att_pure. rewrite Hi, Hta. reflexivity.
        -- unfold bind at 1. rewrite Eadd. unfold bind at 1. rewrite Eadd. reflexivity.
        -- unfold bind at 1. rewrite Eadd. unfold bind at 1. rewrite Eadd. reflexivity.
        -- unfold bind at 1. rewrite Eadd. unfold bind at 1. rewrite Eadd. reflexivity.
      * destruct ((typlen ty <? 0) || negb (typbyval ty)).
        { reflexivity. }
        destruct (init_set_Ok (typlen ty) (typalign_of ty) ctx m)
          as [e0 [m0 [E0 [Hi0 Hta0]]]].
        rewrite !bind_assoc.
        rewrite (bind_Ok _ _ _ _ _ E0).
        rewrite (bind_Ok _ _ _ _ _ E0).
        rewrite bind_assoc.
        rewrite (bind_Ok _ _ _ _ _ (fetch_att_pure _ _ _ m0)).
        rewrite !bind_assoc. rewrite Hi0.
        set (v := fetch (arr_data input) p (u32 (typlen ty))).
        destruct (add_element A T e0 v m0) as [[e' m']| | |] eqn:Eadd.
        -- rewrite (bind_Ok _ _ _ _ _ Eadd).
           rewrite (bind_Ok _ _ _ _ _ Eadd).
           destruct (add_element_frame A T e0 e' v m0 m' Eadd) as [Hi [Hta _]].
           rewrite (bind_Ok (ret (Some e', _)) _ m' m' _ eq_refl).
           rewrite (bind_Ok (ret (Some e')) _ m' m' _ eq_refl).
           rewrite (elements_append_loop_some fetch_att fetch) by exact fetch_att_pure. rewrite Hi, Hta, Hi0, Hta0. reflexivity.
        -- unfold bind at 1. rewrite Eadd. unfold bind at 1. rewrite Eadd. reflexivity.
        -- unfold bind at 1. rewrite Eadd. unfold bind at 1. rewrite Eadd. reflexivity.
        -- unfold bind at 1. rewrite Eadd. unfold bind at 1. rewrite Eadd. reflexivity.
Qed.

(** ** Allocated blocks *)

Lemma owns_moved (m m' : mem) (s s' : element_set_t) (others : list Z) :
  owns m s others -> moved s m s' m' -> owns m' s' others.
Proof.
  intros [Hlive Hfresh Hother] [[Hb [Hl Hn]] | [Hb [Hl Hn]]].
  - split.
    + intros b. rewrite Hl, Hb. apply Hlive.
    + intros b. rewrite Hl, Hn. apply Hfresh.
    + rewrite Hb. exact Hother.
  - assert (Hold : block (data s) < next_block m).
    { apply Hfresh. apply Hlive. left. reflexivity. }
    assert (Hoth : forall b, In b others -> b < next_block m).
    { intros b Hbo. apply Hfresh. apply Hlive. right. exact Hbo. }
    split.
    + intros b. rewrite Hl, Hb. split.
      * intros Hin. apply in_remove in Hin. destruct Hin as [Hin Hne].
        destruct Hin as [<- | Hin]; [left; reflexivity |].
        apply Hlive in Hin. destruct Hin as [-> | Hin]; [congruence | right; exact Hin].
      * intros [-> | Hin].
        -- apply in_in_remove; [lia | left; reflexivity].
        -- apply in_in_remove.
           ++ intros ->. contradiction.
           ++ right. apply Hlive. right. exact Hin.
    + intros b. rewrite Hl, Hn. intros Hin. apply in_remove in Hin.
      destruct Hin as [[<- | Hin] _]; [lia |]. specialize (Hfresh b Hin). lia.
    + rewrite Hb. intros Hin. specialize (Hoth _ Hin). lia.
Qed.

Lemma moved_refl (s : element_set_t) (m : mem) : moved s m s m.
Proof. left. repeat split. Qed.

Lemma compact_new_items_block (s : element_set_t) :
  block (data (compact_new_items s)) = block (data s).
Proof.
  unfold compact_new_items.
  destruct (dedup_loop _ _ _ _) as [[buf last] cnt].
  cbn [set_nall set_bytes set_data nsorted nall].
  destruct (nsorted s =? 0); reflexivity.
Qed.

Lemma compact_merge_moved (A : bool) (s s' : element_set_t) (m m' : mem) :
  compact_merge A s m = Ok (s', m') -> moved s m s' m'.
Proof.
  unfold compact_merge. intros H.
  rewrite (bind_Ok _ _ _ _ _ (palloc_Ok _ _)) in H. cbn [bytes block] in H.
  destruct (merge_loop _ _ _ _ _ _ _ _ _) as [[out ptr] |]; [| discriminate].
  apply bind_Ok_inv in H. destruct H as [u [m1 [Ha H]]].
  apply Assert_Ok_inv in Ha. destruct Ha as [-> _].
  apply bind_Ok_inv in H. destruct H as [n [m2 [Hd H]]].
  apply div_checked_Ok_inv in Hd. destruct Hd as [_ [-> _]].
  unfold bind, pfree, ret in H. inversion H; subst s' m'. clear H.
  right. cbn [set_data set_nall set_nsorted data block live next_block].
  repeat split.
Qed.

Lemma compact_grow_moved (T : Z) (s s' : element_set_t) (need : bool) (m m' : mem) :
  compact_grow T s need m = Ok (s', m') -> moved s m s' m'.
Proof.
  unfold compact_grow. intros H.
  destruct (need && free_fract_below _ _).
  - rewrite (bind_Ok _ _ _ _ _ (repalloc_Ok _ _ _)) in H.
    inversion H; subst s' m'. clear H.
    right. destruct (grown_below (nbytes s) T);
      cbn [set_data set_nbytes data block live next_block]; repeat split.
  - inversion H; subst s' m'. apply moved_refl.
Qed.

(** The array of the set stays allocated through compaction, the array it
    replaces is freed, and no other block is allocated or freed. *)
Lemma compact_set_owns (A : bool) (T : Z) (s s' : element_set_t) (need : bool)
    (m m' : mem) (others : list Z) :
  compact_set A T s need m = Ok (s', m') -> owns m s others -> owns m' s' others.
Proof.
  unfold compact_set. intros H Hown.
  apply bind_Ok_inv in H. destruct H as [u1 [m1 [H1 H]]].
  apply Assert_Ok_inv in H1. destruct H1 as [-> _].
  apply bind_Ok_inv in H. destruct H as [u2 [m2 [H2 H]]].
  apply Assert_Ok_inv in H2. destruct H2 as [-> _].
  apply bind_Ok_inv in H. destruct H as [u3 [m3 [H3 H]]].
  apply Assert_Ok_inv in H3. destruct H3 as [-> _].
  apply bind_Ok_inv in H. destruct H as [s1 [m4 [Hc H]]].
  apply bind_Ok_inv in H. destruct H as [u4 [m5 [H4 H]]].
  apply Assert_Ok_inv in H4. destruct H4 as [-> _].
  apply compact_grow_moved in H.
  apply (owns_moved m4 m' s1 s' others); [| exact H].
  destruct (nsorted s <? nall s).
  - cbv zeta in Hc.
    assert (Hown0 : owns m (compact_new_items s) others).
    { destruct Hown as [Hl Hf Ho]. split; rewrite ?compact_new_items_block; assumption. }
    destruct (nsorted (compact_new_items s) <? nall (compact_new_items s)).
    + apply compact_merge_moved in Hc.
      exact (owns_moved m m4 _ s1 others Hown0 Hc).
    + inversion Hc; subst. exact Hown0.
  - inversion Hc; subst. exact Hown.
Qed.

Lemma add_element_owns (A : bool) (T : Z) (s s' : element_set_t) (v : list byte)
    (m m' : mem) (others : list Z) :
  add_element A T s v m = Ok (s', m') -> owns m s others -> owns m' s' others.
Proof.
  unfold add_element. intros H Hown.
  apply bind_Ok_inv in H. destruct H as [s1 [m1 [Hc H]]].
  apply bind_Ok_inv in H. destruct H as [u [m2 [Ha H]]].
  apply Assert_Ok_inv in Ha. destruct Ha as [-> _].
  inversion H; subst s' m'. clear H.
  assert (Hown1 : owns m1 s1 others).
  { destruct (nbytes s <? mul32 (item_size s) (add32 (nall s) 1)).
    - exact (compact_set_owns A T s s1 true m m1 others Hc Hown).
    - inversion Hc; subst. exact Hown. }
  destruct Hown1 as [Hl Hf Ho].
  split; cbn [set_nall set_bytes set_data data block]; assumption.
Qed.

(** ** Combine with assertions, on any operands *)

Lemma bind_AssertFailed {X Y} (c : M X) (k : X -> M Y) (m : mem) :
  c m = AssertFailed -> bind c k m = AssertFailed.
Proof. intros H. unfold bind. rewrite H. reflexivity. Qed.

(** The end of a turn, with the item [e] taken from one of the arrays. *)
Lemma combine_emit_checked (e1 e2 : element_set_t) (L : nat) (k1 k2 k1' k2' : nat)
    (racc : list (list byte)) (st : combine_state) (e : list byte) (p1 p2 : Z) (m : mem) :
  0 < item_size e1 ->
  combine_seen e1 e2 L k1 k2 racc st ->
  Z.of_nat (length e) = item_size e1 ->
  (k1' + k2' = S (k1 + k2))%nat ->
  Z.of_nat (S (k1 + k2)) * item_size e1 <= Z.of_nat L ->
  p1 = Z.of_nat k1' * item_size e1 -> p1 <= nbytes e1 ->
  p2 = Z.of_nat k2' * item_size e1 -> p2 <= nbytes e2 ->
  (forall z, In z (items (bytes (data e1)) 0 (item_size e1) k1') \/
             In z (items (bytes (data e2)) 0 (item_size e1) k2') <->
             (In z (items (bytes (data e1)) 0 (item_size e1) k1) \/
              In z (items (bytes (data e2)) 0 (item_size e1) k2)) \/ z = e) ->
  combine_emit true e1 st e p1 p2 m = AssertFailed \/
  exists st' racc',
    combine_emit true e1 st e p1 p2 m = Ok (st', m) /\
    combine_seen e1 e2 L k1' k2' racc' st'.
Proof.
  intros His Hseen He Hk Hroom Hp1 Hp1' Hp2 Hp2' Hmem. unfold combine_emit.
  destruct Hseen as [P1 P2 I1 I2 Htmp Hcnt Hout Hprev Hsort Huni Hmembers HL].
  assert (Hw : length (memcpy (merged st) (tmp st) e) = L).
  { rewrite memcpy_length; [exact HL | nia | nia]. }
  assert (Hitems : items (memcpy (merged st) (tmp st) e) 0 (item_size e1)
                     (length (e :: racc)) = rev (e :: racc)).
  { cbn [length rev]. rewrite Htmp.
    rewrite items_snoc_memcpy; [rewrite Hout; reflexivity | lia | exact He | nia]. }
  assert (Hread : mem_read (memcpy (merged st) (tmp st) e) (tmp st) (item_size e1) = e).
  { pose proof (mem_read_memcpy_same (merged st) (tmp st) e ltac:(nia) ltac:(nia)) as H.
    rewrite He in H. exact H. }
  destruct racc as [|p r].
  - (* the first item *)
    cbn [length] in Htmp. rewrite Z.mul_0_l in Htmp. rewrite Htmp. cbn [Z.eqb Z.add].
    right. eexists. exists [e]. split; [reflexivity |].
    rewrite Htmp in Hitems, Hread, Hw.
    split; cbn [ptr1 ptr2 tmp prev merged length];
      [exact Hp1 | exact Hp2 | exact Hp1' | exact Hp2' | lia | lia | exact Hitems
      | | exact I | | | exact Hw].
    + intros p' r' H. inversion H; subst. exact Hread.
    + constructor; [exact He | constructor].
    + intros z. rewrite Hmem. rewrite <- Hmembers. cbn [In]. intuition congruence.
  - pose proof (Hprev p r eq_refl) as Hp.
    assert (Hplen : Z.of_nat (length p) = item_size e1) by (inversion Huni; assumption).
    replace (tmp st =? 0) with false
      by (symmetry; apply Z.eqb_neq; rewrite Htmp; cbn [length]; nia).
    rewrite Hp.
    destruct (memcmp p e =? 0) eqn:E0; cbn [negb].
    + (* a repetition of the last item written *)
      apply Z.eqb_eq in E0. apply memcmp_eq in E0; [| lia]. subst e.
      right. eexists. exists (p :: r). split; [reflexivity |].
      split; cbn [ptr1 ptr2 tmp prev merged];
        [exact Hp1 | exact Hp2 | exact Hp1' | exact Hp2' | exact Htmp
        | cbn [length] in *; lia | exact Hout | exact Hprev | exact Hsort | exact Huni
        | | exact HL].
      intros z. rewrite Hmem. rewrite <- Hmembers. cbn [In]. intuition congruence.
    + destruct (memcmp p e <? 0) eqn:E1.
      * (* a greater item *)
        apply Z.ltb_lt in E1.
        right. eexists. exists (e :: p :: r).
        split; [unfold bind, Assert; cbn [negb andb]; reflexivity |].
        split; cbn [ptr1 ptr2 tmp prev merged];
          [exact Hp1 | exact Hp2 | exact Hp1' | exact Hp2'
          | rewrite Htmp; cbn [length]; rewrite !Nat2Z.inj_succ; ring
          | cbn [length] in *; lia | exact Hitems | | | | | exact Hw].
        -- intros p' r' H. inversion H; subst. exact Hread.
        -- cbn [strictly_decreasing]. split; [exact E1 | exact Hsort].
        -- constructor; [exact He | exact Huni].
        -- intros z. rewrite Hmem. rewrite <- Hmembers. cbn [In]. intuition congruence.
      * (* a smaller item: the assertion fails *)
        left. unfold bind, Assert. cbn [negb andb]. reflexivity.
Qed.

Lemma divide_next (size n k : Z) :
  0 < size -> (size | n) -> k * size < n -> (k + 1) * size <= n.
Proof.
  intros Hs [q Hq] Hlt. subst n. assert (k < q) by nia. nia.
Qed.

(** A turn of the loop in a build with assertions: it fails an assertion
    or takes the next item of one of the arrays. *)
Lemma combine_step_checked (e1 e2 : element_set_t) (L : nat) (k1 k2 : nat)
    (racc : list (list byte)) (st : combine_state) (m : mem) :
  0 < item_size e1 -> item_size e2 = item_size e1 ->
  (item_size e1 | nbytes e1) -> (item_size e1 | nbytes e2) ->
  Z.of_nat (length (bytes (data e1))) = nbytes e1 ->
  Z.of_nat (length (bytes (data e2))) = nbytes e2 ->
  combine_seen e1 e2 L k1 k2 racc st ->
  Z.of_nat (S (k1 + k2)) * item_size e1 <= nbytes e1 + nbytes e2 ->
  Z.of_nat (S (k1 + k2)) * item_size e1 <= Z.of_nat L ->
  combine_step true e1 e2 st m = AssertFailed \/
  exists st' k1' k2' racc',
    combine_step true e1 e2 st m = Ok (st', m) /\
    combine_seen e1 e2 L k1' k2' racc' st' /\
    (k1' + k2' = S (k1 + k2))%nat.
Proof.
  intros His Hi2 Hd1 Hd2 Hl1 Hl2 Hseen Hroom HroomL.
  pose proof Hseen as [P1 P2 I1 I2 Htmp Hcnt Hout Hprev Hsort Huni Hmembers HL].
  (* the item taken, and the offsets after the turn *)
  assert (Hsel : exists (e : list byte) (k1' k2' : nat),
             combine_step true e1 e2 st m
             = combine_emit true e1 st e (Z.of_nat k1' * item_size e1)
                 (Z.of_nat k2' * item_size e1) m /\
             Z.of_nat (length e) = item_size e1 /\
             (k1' + k2' = S (k1 + k2))%nat /\
             Z.of_nat k1' * item_size e1 <= nbytes e1 /\
             Z.of_nat k2' * item_size e1 <= nbytes e2 /\
             (forall z, In z (items (bytes (data e1)) 0 (item_size e1) k1') \/
                        In z (items (bytes (data e2)) 0 (item_size e1) k2') <->
                        (In z (items (bytes (data e1)) 0 (item_size e1) k1) \/
                         In z (items (bytes (data e2)) 0 (item_size e1) k2)) \/ z = e)).
  { unfold combine_step.
    assert_ok ltac:(apply Z.leb_le; lia).
    assert_ok ltac:(apply Z.leb_le; lia).
    set (x := mem_read (bytes (data e1)) (ptr1 st) (item_size e1)).
    set (y := mem_read (bytes (data e2)) (ptr2 st) (item_size e1)).
    assert (Htake1 : ptr1 st < nbytes e1 ->
              read_checked (bytes (data e1)) (ptr1 st) (item_size e1) m = Ok (x, m) /\
              Z.of_nat (length x) = item_size e1 /\
              Z.of_nat (S k1) * item_size e1 <= nbytes e1 /\
              ptr1 st + item_size e1 = Z.of_nat (S k1) * item_size e1 /\
              (forall z, In z (items (bytes (data e1)) 0 (item_size e1) (S k1)) \/
                         In z (items (bytes (data e2)) 0 (item_size e1) k2) <->
                         (In z (items (bytes (data e1)) 0 (item_size e1) k1) \/
                          In z (items (bytes (data e2)) 0 (item_size e1) k2)) \/ z = x)).
    { intros Hlt.
      pose proof (divide_next (item_size e1) (nbytes e1) (Z.of_nat k1) His Hd1
                    ltac:(lia)) as Hn.
      split; [apply read_checked_Ok; lia |].
      split; [subst x; apply mem_read_length; lia |].
      split; [lia |]. split; [lia |].
      intros z. rewrite items_snoc, in_app_iff. cbn [In Z.add]. subst x. rewrite P1.
      intuition congruence. }
    assert (Htake2 : ptr2 st < nbytes e2 ->
              read_checked (bytes (data e2)) (ptr2 st) (item_size e1) m = Ok (y, m) /\
              Z.of_nat (length y) = item_size e1 /\
              Z.of_nat (S k2) * item_size e1 <= nbytes e2 /\
              ptr2 st + item_size e1 = Z.of_nat (S k2) * item_size e1 /\
              (forall z, In z (items (bytes (data e1)) 0 (item_size e1) k1) \/
                         In z (items (bytes (data e2)) 0 (item_size e1) (S k2)) <->
                         (In z (items (bytes (data e1)) 0 (item_size e1) k1) \/
                          In z (items (bytes (data e2)) 0 (item_size e1) k2)) \/ z = y)).
    { intros Hlt.
      pose proof (divide_next (item_size e1) (nbytes e2) (Z.of_nat k2) His Hd2
                    ltac:(lia)) as Hn.
      split; [apply read_checked_Ok; lia |].
      split; [subst y; apply mem_read_length; lia |].
      split; [lia |]. split; [lia |].
      intros z. rewrite items_snoc, in_app_iff. cbn [In Z.add]. subst y. rewrite P2.
      intuition congruence. }
    destruct (ptr1 st <? nbytes e1) eqn:B1; destruct (ptr2 st <? nbytes e2) eqn:B2;
      cbn [andb].
    - apply Z.ltb_lt in B1. apply Z.ltb_lt in B2.
      destruct (Htake1 B1) as [R1 [Lx [N1 [Q1 M1]]]].
      destruct (Htake2 B2) as [R2 [Ly [N2 [Q2 M2]]]].
      destruct (memcmp x y <=? 0) eqn:E.
      + exists x, (S k1), k2.
        split.
        { erewrite bind_Ok;
            [| erewrite bind_Ok; [| exact R1]; erewrite bind_Ok; [| exact R2];
               cbv beta; rewrite E; reflexivity].
          cbv iota beta. unfold combine_emit. rewrite Q1, P2. reflexivity. }
        split; [exact Lx |]. split; [lia |]. split; [exact N1 |].
        split; [lia | exact M1].
      + exists y, k1, (S k2).
        split.
        { erewrite bind_Ok;
            [| erewrite bind_Ok; [| exact R1]; erewrite bind_Ok; [| exact R2];
               cbv beta; rewrite E; reflexivity].
          cbv iota beta. unfold combine_emit. rewrite Q2, P1. reflexivity. }
        split; [exact Ly |]. split; [lia |]. split; [lia |].
        split; [exact N2 | exact M2].
    - apply Z.ltb_lt in B1.
      destruct (Htake1 B1) as [R1 [Lx [N1 [Q1 M1]]]].
      exists x, (S k1), k2.
      split.
      { erewrite bind_Ok; [| erewrite bind_Ok; [reflexivity | exact R1]].
        cbv iota beta. unfold combine_emit. rewrite Q1, P2. reflexivity. }
      split; [exact Lx |]. split; [lia |]. split; [exact N1 |].
      split; [lia | exact M1].
    - apply Z.ltb_lt in B2.
      destruct (Htake2 B2) as [R2 [Ly [N2 [Q2 M2]]]].
      exists y, k1, (S k2).
      split.
      { erewrite bind_Ok; [| erewrite bind_Ok; [reflexivity | exact R2]].
        cbv iota beta. unfold combine_emit. rewrite Hi2, Q2, P1. reflexivity. }
      split; [exact Ly |]. split; [lia |]. split; [lia |].
      split; [exact N2 | exact M2].
    - apply Z.ltb_ge in B1. apply Z.ltb_ge in B2. exfalso. nia. }
  destruct Hsel as [e [k1' [k2' [Estep [He [Hk [Hn1 [Hn2 Hmem]]]]]]]].
  rewrite Estep.
  destruct (combine_emit_checked e1 e2 L k1 k2 k1' k2' racc st e _ _ m His Hseen He Hk
              HroomL eq_refl Hn1 eq_refl Hn2 Hmem) as [Hfail | [st' [racc' [E Hseen']]]].
  - left. exact Hfail.
  - right. exists st', k1', k2', racc'. split; [exact E |]. split; [exact Hseen' | exact Hk].
Qed.

Lemma combine_loop_checked (e1 e2 : element_set_t) (L : nat) :
  0 < item_size e1 -> item_size e2 = item_size e1 ->
  (item_size e1 | nbytes e1) -> (item_size e1 | nbytes e2) ->
  Z.of_nat (length (bytes (data e1))) = nbytes e1 ->
  Z.of_nat (length (bytes (data e2))) = nbytes e2 ->
  forall (n k1 k2 : nat) (racc : list (list byte)) (st : combine_state) (m : mem),
    combine_seen e1 e2 L k1 k2 racc st ->
    Z.of_nat (k1 + k2 + n) * item_size e1 <= nbytes e1 + nbytes e2 ->
    Z.of_nat (k1 + k2 + n) * item_size e1 <= Z.of_nat L ->
    combine_loop true n e1 e2 st m = AssertFailed \/
    exists st' k1' k2' racc',
      combine_loop true n e1 e2 st m = Ok (st', m) /\
      combine_seen e1 e2 L k1' k2' racc' st' /\
      (k1' + k2' = k1 + k2 + n)%nat.
Proof.
  intros His Hi2 Hd1 Hd2 Hl1 Hl2.
  induction n as [|n IH]; intros k1 k2 racc st m Hseen Hroom HroomL.
  - right. exists st, k1, k2, racc. split; [reflexivity |]. split; [exact Hseen | lia].
  - cbn [combine_loop].
    destruct (combine_step_checked e1 e2 L k1 k2 racc st m His Hi2 Hd1 Hd2 Hl1 Hl2 Hseen
                ltac:(nia) ltac:(nia)) as [Hfail | [st1 [k1' [k2' [racc1 [E1 [Hseen1 Hk]]]]]]].
    + left. apply bind_AssertFailed. exact Hfail.
    + rewrite (bind_Ok _ _ _ _ _ E1).
      destruct (IH k1' k2' racc1 st1 m Hseen1) as [Hfail | [st' [k1'' [k2'' [racc' [E [Hs' Hk']]]]]]].
      * replace (k1' + k2' + n)%nat with (k1 + k2 + S n)%nat by lia. exact Hroom.
      * replace (k1' + k2' + n)%nat with (k1 + k2 + S n)%nat by lia. exact HroomL.
      * left. exact Hfail.
      * right. exists st', k1'', k2'', racc'. split; [exact E |]. split; [exact Hs' | lia].
Qed.

(** * The claims *)

(** Decide a closed comparison of integers, or a conjunction of them. *)
Ltac closed_Z := vm_compute; repeat split; solve [reflexivity | discriminate].

(** ** C1 *)

(** C1 (code defect).  The claim: combine yields the distinct union of
    everything appended to either operand, whatever the order.  Evaluated on
    the partial states of two groups, one that saw 2 twice and one that saw
    3: compacting the first leaves the second copy of 2 behind its single
    item, the merge loop bounds its reads by [nbytes] rather than by the
    items in use, takes that stale copy for an item and never reaches the 3.
    Without assertions the result holds the single item 2 and counts 1; with
    assertions the check that both arrays were consumed fails.  On operands
    whose arrays are exactly full the merge is right in either build
    ([combine_exact_operands]). *)
Theorem combine_loses_an_element (j : Z -> nat -> byte) :
  (exists a b r rb m1 m2 m3 m4,
     workers_2_2_and_3 false (empty_mem j) = Ok ((Some a, Some b), m1) /\
     lrtm_count_distinct_combine false PG_ALLOCSET_SEPARATE_THRESHOLD (Some a) (Some b) m1
       = Ok ((PointerGetDatum (Some r), rb), m2) /\
     lrtm_count_distinct false PG_ALLOCSET_SEPARATE_THRESHOLD (Some r) m2
       = Ok ((Some 1, Some r), m3) /\
     build_array false PG_ALLOCSET_SEPARATE_THRESHOLD r m2
       = Ok (([le_split 4 2], r), m4)) /\
  (exists a b m1,
     workers_2_2_and_3 true (empty_mem j) = Ok ((Some a, Some b), m1) /\
     lrtm_count_distinct_combine true PG_ALLOCSET_SEPARATE_THRESHOLD (Some a) (Some b) m1
       = AssertFailed).
Proof.
  split.
  - do 8 eexists. split; [vm_compute; reflexivity |].
    split; [vm_compute; reflexivity |].
    split; vm_compute; reflexivity.
  - do 3 eexists. split; [vm_compute; reflexivity |]. vm_compute. reflexivity.
Qed.

(** ** C2 *)

(** C2, as stated, fails: for an absent state the final function returns SQL
    NULL, not the integer 0. *)
Lemma count_of_absent_is_not_zero :
  ~ exists st m',
      lrtm_count_distinct false PG_ALLOCSET_SEPARATE_THRESHOLD None mem0
      = Ok ((Some 0, st), m').
Proof. intros [st [m' H]]. vm_compute in H. discriminate H. Qed.

(** C2 (amended).  For an absent state [lrtm_count_distinct] returns NULL and
    touches nothing; for a present, non-empty state it runs [compact_set]
    without a space request and returns the [nall] the compaction leaves, a
    positive number. *)
Theorem count_finalize (A : bool) (T : Z) (s : element_set_t) (m : mem) :
  wf s -> 0 < nall s ->
  lrtm_count_distinct A T None m = Ok ((None, None), m) /\
  exists s' m',
    compact_set A T s false m = Ok (s', m') /\
    lrtm_count_distinct A T (Some s) m = Ok ((Some (nall s'), Some s'), m') /\
    0 < nall s' <= nall s.
Proof.
  intros Hwf Hn. split; [reflexivity |].
  destruct (compact_set_shape A T s false m Hwf Hn)
    as [s' [m' [E [_ [_ [_ [_ [_ [Hn' _]]]]]]]]].
  exists s', m'. split; [exact E |]. split; [| exact Hn'].
  unfold lrtm_count_distinct. rewrite (bind_Ok _ _ _ _ _ E). reflexivity.
Qed.

Lemma count_finalize_witness :
  wf eight_descending /\ 0 < nall eight_descending /\
  (lrtm_count_distinct true PG_ALLOCSET_SEPARATE_THRESHOLD None mem0
   = Ok ((None, None), mem0) /\
   exists s' m',
     compact_set true PG_ALLOCSET_SEPARATE_THRESHOLD eight_descending false mem0
     = Ok (s', m') /\
     lrtm_count_distinct true PG_ALLOCSET_SEPARATE_THRESHOLD (Some eight_descending) mem0
     = Ok ((Some (nall s'), Some s'), m') /\
     0 < nall s' <= nall eight_descending).
Proof.
  assert (Hwf : wf eight_descending) by (split; closed_Z).
  assert (Hn : 0 < nall eight_descending) by closed_Z.
  split; [exact Hwf |]. split; [exact Hn |].
  exact (count_finalize true PG_ALLOCSET_SEPARATE_THRESHOLD eight_descending mem0 Hwf Hn).
Defined.

(** ** C3 *)

(** C3, as stated, fails: the header is not the four counters alone.  The
    payload of the set 1, 3, 5 differs from the four counters followed by
    the items, and is longer than 16 bytes plus the items. *)
Lemma serial_header_is_more_than_four_counters :
  exists payload m',
    lrtm_count_distinct_serial true PG_ALLOCSET_SEPARATE_THRESHOLD one_three_five mem0
    = Ok ((payload, one_three_five), m') /\
    payload <>
      (le_split 4 (item_size one_three_five) ++ le_split 4 (nsorted one_three_five) ++
       le_split 4 (nall one_three_five) ++ le_split 4 (nbytes one_three_five)) ++
      mem_read (bytes (data one_three_five)) 0
        (nall one_three_five * item_size one_three_five) /\
    Z.of_nat (length payload) <> 16 + nall one_three_five * item_size one_three_five.
Proof.
  eexists. eexists. split; [vm_compute; reflexivity |].
  split; vm_compute; discriminate.
Qed.

(** C3 (amended).  For a compacted, non-empty set with a strictly increasing
    sorted part, [lrtm_count_distinct_serial] leaves the set as it is and
    emits the first [offsetof(element_set_t, data)] bytes of the struct (32
    on the platform modelled): the four counters [item_size], [nsorted],
    [nall], [nbytes], then [typalign], the padding after it and the [aggctx]
    pointer; followed by exactly [nall * item_size] bytes, the items in
    strictly increasing byte order. *)
Theorem serial_layout (A : bool) (T : Z) (s : element_set_t) (m : mem) :
  wf s -> 0 < nall s -> nsorted s = nall s -> sorted_prefix s ->
  exists payload m',
    lrtm_count_distinct_serial A T s m = Ok ((payload, s), m') /\
    payload =
      (le_split 4 (item_size s) ++ le_split 4 (nsorted s) ++
       le_split 4 (nall s) ++ le_split 4 (nbytes s) ++
       [typalign s] ++ fit 7 (padding s) ++ le_split 8 (aggctx s)) ++
      mem_read (bytes (data s)) 0 (nall s * item_size s) /\
    Z.of_nat (length payload) = 32 + nall s * item_size s /\
    strictly_increasing (items payload 32 (item_size s) (Z.to_nat (nall s))).
Proof.
  intros Hwf Hn Hs Hsorted. pose proof Hwf as [His Hns Hfit Hnb Hlen].
  destruct (serial_compacted A T s m Hwf Hn Hs) as [m' [E _]].
  exists (header_bytes s ++ mem_read (bytes (data s)) 0 (nall s * item_size s)), m'.
  split; [exact E |]. split; [reflexivity |].
  pose proof (header_bytes_length s) as Hh. change hlen with 32 in Hh.
  split.
  - rewrite length_app, Nat2Z.inj_add, Hh. rewrite mem_read_length; nia.
  - rewrite <- Hh.
    replace (nall s * item_size s) with (Z.of_nat (Z.to_nat (nall s)) * item_size s) by nia.
    rewrite items_payload by lia. unfold sorted_prefix in Hsorted.
    rewrite Hs in Hsorted. exact Hsorted.
Qed.

Lemma serial_layout_witness :
  wf one_three_five /\ 0 < nall one_three_five /\
  nsorted one_three_five = nall one_three_five /\ sorted_prefix one_three_five /\
  exists payload m',
    lrtm_count_distinct_serial true PG_ALLOCSET_SEPARATE_THRESHOLD one_three_five mem0
    = Ok ((payload, one_three_five), m') /\
    payload =
      (le_split 4 (item_size one_three_five) ++ le_split 4 (nsorted one_three_five) ++
       le_split 4 (nall one_three_five) ++ le_split 4 (nbytes one_three_five) ++
       [typalign one_three_five] ++ fit 7 (padding one_three_five) ++
       le_split 8 (aggctx one_three_five)) ++
      mem_read (bytes (data one_three_five)) 0
        (nall one_three_five * item_size one_three_five) /\
    Z.of_nat (length payload) = 32 + nall one_three_five * item_size one_three_five /\
    strictly_increasing
      (items payload 32 (item_size one_three_five) (Z.to_nat (nall one_three_five))).
Proof.
  assert (Hwf : wf one_three_five) by (split; closed_Z).
  assert (Hn : 0 < nall one_three_five) by closed_Z.
  assert (Hs : nsorted one_three_five = nall one_three_five) by closed_Z.
  assert (Hp : sorted_prefix one_three_five) by closed_Z.
  split; [exact Hwf |]. split; [exact Hn |]. split; [exact Hs |]. split; [exact Hp |].
  exact (serial_layout true PG_ALLOCSET_SEPARATE_THRESHOLD one_three_five mem0 Hwf Hn Hs Hp).
Defined.

(** ** C4 *)

(** C4, as stated, fails: with assertions compiled out nothing is checked.  A
    payload with a byte too many yields a set, the extra byte dropped; so
    does a payload whose header has [nsorted] different from [nall]. *)
Lemma deserial_accepts_without_assertions :
  (exists s m',
     lrtm_count_distinct_deserial false (one_three_five_payload ++ [Byte.xff]) mem0
     = Ok (s, m') /\
     Z.of_nat (length (one_three_five_payload ++ [Byte.xff]))
     <> hlen + nall s * item_size s) /\
  (exists s m',
     lrtm_count_distinct_deserial false
       (header_bytes (set_nsorted one_three_five 1) ++
        mem_read (bytes (data one_three_five)) 0 12) mem0
     = Ok (s, m') /\
     nsorted s <> nall s).
Proof.
  split; eexists; eexists; (split; [vm_compute; reflexivity | vm_compute; discriminate]).
Qed.

(** C4 (amended).  In a build with assertions, a payload whose length is not
    the header size plus [nall * item_size] (the product as the code takes
    it, in 32 bits), or whose header has [nsorted] different from [nall],
    never yields a set: an assertion fails, or the payload is too short to
    hold a header at all and the header copy reads outside it. *)
Theorem deserial_checks_with_assertions (state : list byte) (m : mem) :
  Z.of_nat (length state) <> hlen + mul32 (payload_nall state) (payload_item_size state) \/
  payload_nsorted state <> payload_nall state ->
  lrtm_count_distinct_deserial true state m = AssertFailed \/
  lrtm_count_distinct_deserial true state m = Undefined.
Proof.
  intros Hbad.
  unfold lrtm_count_distinct_deserial.
  unfold palloc_element_set_t at 1.
  rewrite (bind_Ok _ _ _ _ _ (bind_Ok _ _ _ _ _ (palloc_Ok _ _))).
  unfold ret at 1.
  match goal with |- context [store_header (store_header ?a ?b)] => generalize (store_header a b) end.
  intros e0.
  set (m1 := mkmem _ _ _).
  unfold bind at 1. unfold Assert at 1. cbn [andb].
  destruct (0 <? Z.of_nat (length state)) eqn:E1; cbn [negb]; [| left; reflexivity].
  unfold bind at 1. unfold Assert at 1. cbn [andb].
  destruct (0 <? (Z.of_nat (length state) - hlen) mod 2 ^ 64) eqn:E2; cbn [negb];
    [| left; reflexivity].
  unfold bind at 1. unfold read_checked.
  destruct ((0 <=? 0) && (0 <=? hlen) && (0 + hlen <=? Z.of_nat (length state))) eqn:E3;
    [| right; reflexivity].
  unfold ret at 1.
  assert (Hn : nall (store_header e0 (mem_read state 0 hlen)) = payload_nall state).
  { unfold store_header, payload_nall. cbn [nall]. f_equal.
    apply mem_read_mem_read; change hlen with 32; lia. }
  assert (Hs : nsorted (store_header e0 (mem_read state 0 hlen)) = payload_nsorted state).
  { unfold store_header, payload_nsorted. cbn [nsorted]. f_equal.
    apply mem_read_mem_read; change hlen with 32; lia. }
  assert (Hi : item_size (store_header e0 (mem_read state 0 hlen)) = payload_item_size state).
  { unfold store_header, payload_item_size. cbn [item_size]. f_equal.
    apply mem_read_mem_read; change hlen with 32; lia. }
  rewrite !Hn, !Hs, !Hi.
  unfold bind at 1. unfold Assert at 1. cbn [andb].
  destruct ((0 <? payload_nall state) && (payload_nall state =? payload_nsorted state)) eqn:E4;
    cbn [negb]; [| left; reflexivity].
  unfold bind at 1. unfold Assert at 1. cbn [andb].
  destruct (Z.of_nat (length state) =? hlen + mul32 (payload_nall state) (payload_item_size state))
    eqn:E5; cbn [negb]; [| left; reflexivity].
  exfalso. apply andb_prop in E4. destruct E4 as [_ E4].
  apply Z.eqb_eq in E4, E5. destruct Hbad as [Hbad | Hbad]; [apply Hbad; exact E5 | lia].
Qed.

Lemma deserial_checks_with_assertions_witness :
  (Z.of_nat (length (one_three_five_payload ++ [Byte.xff]))
   <> hlen + mul32 (payload_nall (one_three_five_payload ++ [Byte.xff]))
               (payload_item_size (one_three_five_payload ++ [Byte.xff])) \/
   payload_nsorted (one_three_five_payload ++ [Byte.xff])
   <> payload_nall (one_three_five_payload ++ [Byte.xff])) /\
  (lrtm_count_distinct_deserial true (one_three_five_payload ++ [Byte.xff]) mem0
   = AssertFailed \/
   lrtm_count_distinct_deserial true (one_three_five_payload ++ [Byte.xff]) mem0
   = Undefined).
Proof.
  assert (H : Z.of_nat (length (one_three_five_payload ++ [Byte.xff]))
              <> hlen + mul32 (payload_nall (one_three_five_payload ++ [Byte.xff]))
                          (payload_item_size (one_three_five_payload ++ [Byte.xff])) \/
              payload_nsorted (one_three_five_payload ++ [Byte.xff])
              <> payload_nall (one_three_five_payload ++ [Byte.xff]))
    by (left; vm_compute; discriminate).
  split; [exact H |].
  exact (deserial_checks_with_assertions (one_three_five_payload ++ [Byte.xff]) mem0 H).
Defined.

(** ** C5 *)

(** C5 (code defect).  The claim: an array whose elements are all null leaves
    an existing state unchanged.  The function starts from [eset = NULL] and
    looks at its state argument only when it meets a non-null element, so for
    such an array it returns NULL whatever state it was given: the state is
    dropped.  (The path for a null array, a few lines above, returns the
    state.) *)
Theorem elements_append_all_null_drops_state
    (fetch_att : list byte -> Z -> Z -> M (list byte))
    (att_addlength_pointer : Z -> Z -> Z) (att_align_nominal : Z -> byte -> Z)
    (A : bool) (T : Z) (ty : typinfo) (aggcontext : Z)
    (eset : element_set_t) (input : ArrayType) (m : mem) :
  (forall i, 0 <= i < nitems input -> item_is_null input i = true) ->
  lrtm_count_distinct_elements_append A T fetch_att att_addlength_pointer
    att_align_nominal ty aggcontext (Some eset) (Some input) m = Ok (None, m).
Proof.
  intros Hnull. unfold lrtm_count_distinct_elements_append.
  erewrite bind_Ok; [| apply elements_append_loop_all_null ]; [reflexivity |].
  intros i Hi. apply in_map_iff in Hi. destruct Hi as [k [<- Hk]].
  apply in_seq in Hk. apply Hnull. lia.
Qed.

Lemma elements_append_all_null_drops_state_witness :
  (forall i, 0 <= i < nitems two_nulls -> item_is_null two_nulls i = true) /\
  lrtm_count_distinct_elements_append true PG_ALLOCSET_SEPARATE_THRESHOLD
    plain_fetch_att plain_att_addlength_pointer plain_att_align_nominal int4 0
    (Some one_three_five) (Some two_nulls) mem0 = Ok (None, mem0).
Proof.
  assert (H : forall i, 0 <= i < nitems two_nulls -> item_is_null two_nulls i = true).
  { intros i Hi. cbn [nitems two_nulls] in Hi.
    assert (Hc : i = 0 \/ i = 1) by lia. destruct Hc as [-> | ->]; reflexivity. }
  split; [exact H |].
  exact (elements_append_all_null_drops_state plain_fetch_att plain_att_addlength_pointer
           plain_att_align_nominal true PG_ALLOCSET_SEPARATE_THRESHOLD int4 0
           one_three_five two_nulls mem0 H).
Defined.

(** ** C6 *)

(** C6.  For a compacted, non-empty set, deserializing what
    [lrtm_count_distinct_serial] wrote yields a set with the same count and
    the same sorted sequence, whose data array is allocated at exactly
    [nall * item_size] bytes. *)
Theorem deserial_serial_roundtrip (A : bool) (T : Z) (s : element_set_t) (m : mem) :
  wf s -> 0 < nall s -> nsorted s = nall s ->
  exists payload m1 s' m2,
    lrtm_count_distinct_serial A T s m = Ok ((payload, s), m1) /\
    lrtm_count_distinct_deserial A payload m1 = Ok (s', m2) /\
    (* the same count *)
    (exists m3 m4,
       lrtm_count_distinct A T (Some s) m2 = Ok ((Some (nall s), Some s), m3) /\
       lrtm_count_distinct A T (Some s') m2 = Ok ((Some (nall s), Some s'), m4)) /\
    (* the same sorted sequence *)
    (exists l m3 m4,
       build_array A T s m2 = Ok ((l, s), m3) /\
       build_array A T s' m2 = Ok ((l, s'), m4)) /\
    (* a data array of exactly the bytes of the items *)
    nbytes s' = nall s' * item_size s' /\
    Z.of_nat (length (bytes (data s'))) = nall s' * item_size s'.
Proof.
  intros Hwf Hn Hs. pose proof Hwf as [His Hns Hfit Hnb Hlen].
  assert (Hm : mul32 (nall s) (item_size s) = nall s * item_size s)
    by (apply mul32_small; nia).
  destruct (serial_compacted A T s m Hwf Hn Hs) as [m1 [E1 _]].
  set (body := mem_read (bytes (data s)) 0 (nall s * item_size s)) in *.
  assert (Hbody : Z.of_nat (length body) = nall s * item_size s)
    by (apply mem_read_length; nia).
  destruct (deserial_payload A s body m1 Hwf Hn Hs Hbody) as [b [m2 [E2 _]]].
  eexists. exists m1. eexists. exists m2.
  split; [exact E1 |]. split; [exact E2 |].
  cbn [nall item_size nbytes data bytes].
  split; [| split; [| split; [reflexivity | exact Hbody]]].
  - unfold lrtm_count_distinct.
    rewrite (bind_Ok _ _ _ _ _ (compact_set_noop A T s m2 Hn Hs ltac:(lia))).
    erewrite bind_Ok; [| apply compact_set_noop; cbn [nall nsorted item_size nbytes]; lia].
    eexists. eexists. split; reflexivity.
  - rewrite (build_array_Ok A T s s m2 m2 (compact_set_noop A T s m2 Hn Hs ltac:(lia))).
    erewrite build_array_Ok;
      [| apply compact_set_noop; cbn [nall nsorted item_size nbytes]; lia].
    cbn [nall nsorted item_size nbytes data bytes].
    eexists. eexists. eexists. split; [reflexivity |].
    do 3 f_equal.
    apply items_ext. intros i Hi. subst body. apply mem_read_mem_read; nia.
Qed.

Lemma deserial_serial_roundtrip_witness :
  wf one_three_five /\ 0 < nall one_three_five /\
  nsorted one_three_five = nall one_three_five /\
  exists payload m1 s' m2,
    lrtm_count_distinct_serial true PG_ALLOCSET_SEPARATE_THRESHOLD one_three_five mem0
    = Ok ((payload, one_three_five), m1) /\
    lrtm_count_distinct_deserial true payload m1 = Ok (s', m2) /\
    (exists m3 m4,
       lrtm_count_distinct true PG_ALLOCSET_SEPARATE_THRESHOLD (Some one_three_five) m2
       = Ok ((Some (nall one_three_five), Some one_three_five), m3) /\
       lrtm_count_distinct true PG_ALLOCSET_SEPARATE_THRESHOLD (Some s') m2
       = Ok ((Some (nall one_three_five), Some s'), m4)) /\
    (exists l m3 m4,
       build_array true PG_ALLOCSET_SEPARATE_THRESHOLD one_three_five m2
       = Ok ((l, one_three_five), m3) /\
       build_array true PG_ALLOCSET_SEPARATE_THRESHOLD s' m2 = Ok ((l, s'), m4)) /\
    nbytes s' = nall s' * item_size s' /\
    Z.of_nat (length (bytes (data s'))) = nall s' * item_size s'.
Proof.
  assert (Hwf : wf one_three_five) by (split; closed_Z).
  assert (Hn : 0 < nall one_three_five) by closed_Z.
  assert (Hs : nsorted one_three_five = nall one_three_five) by closed_Z.
  split; [exact Hwf |]. split; [exact Hn |]. split; [exact Hs |].
  exact (deserial_serial_roundtrip true PG_ALLOCSET_SEPARATE_THRESHOLD one_three_five mem0
           Hwf Hn Hs).
Defined.

(** ** C7 *)

(** C7 (code defect, the one of C1).  The claim: after every public operation
    the sorted part of every set is strictly increasing.  Evaluated on the
    partial states of two groups, one that saw 1, 1, 1, 2 and one that saw 9,
    both with a strictly increasing sorted part: without assertions combine
    returns a set whose sorted part is the three items 1, 2, 1. *)
Theorem combine_breaks_sorted_prefix (j : Z -> nat -> byte) :
  exists a b r rb m1 m2,
    workers_1_1_1_2_and_9 false (empty_mem j) = Ok ((Some a, Some b), m1) /\
    sorted_prefix a /\ sorted_prefix b /\
    lrtm_count_distinct_combine false PG_ALLOCSET_SEPARATE_THRESHOLD (Some a) (Some b) m1
      = Ok ((PointerGetDatum (Some r), rb), m2) /\
    nsorted r = 3 /\
    items (bytes (data r)) 0 (item_size r) (Z.to_nat (nsorted r))
      = [le_split 4 1; le_split 4 2; le_split 4 1] /\
    ~ sorted_prefix r.
Proof.
  do 6 eexists. split; [vm_compute; reflexivity |].
  split; [vm_compute; exact I |]. split; [vm_compute; exact I |].
  split; [vm_compute; reflexivity |].
  split; [reflexivity |]. split; [vm_compute; reflexivity |].
  vm_compute. intros [_ [H _]]. discriminate H.
Qed.

(** ** C8 *)

(** C8, as stated, fails: the capacity is doubled although the doubled size
    is not below the threshold.  A full set of 4096 bytes, with PostgreSQL's
    threshold of 8192, is grown to 8192 bytes. *)
Lemma growth_doubles_up_to_threshold :
  exists s' m',
    compact_set false PG_ALLOCSET_SEPARATE_THRESHOLD full_4096 true mem0 = Ok (s', m') /\
    5 * (nbytes full_4096 - nall s' * item_size full_4096) < nbytes full_4096 /\
    nbytes s' = 2 * nbytes full_4096 /\
    ~ 2 * nbytes full_4096 < PG_ALLOCSET_SEPARATE_THRESHOLD.
Proof.
  eexists. eexists. split; [vm_compute; reflexivity |].
  vm_compute. repeat split; congruence.
Qed.

(** C8 (amended).  [compact_set] on a non-empty set succeeds, and with a
    space request and less than a fifth of the capacity free after the
    compaction it doubles the capacity when the capacity divided by 0.8 is
    below the threshold ([5 * nbytes < 4 * threshold]; the doubled size
    itself may reach or pass the threshold) and otherwise sets it to the
    capacity divided by 0.8, rounded down.  With at least a fifth free, or
    without a space request, the capacity stays. *)
Theorem compact_set_growth (A : bool) (T : Z) (s : element_set_t) (need : bool) (m : mem) :
  wf s -> 0 < nall s ->
  exists s' m',
    compact_set A T s need m = Ok (s', m') /\
    nbytes s' =
      if need && (5 * (nbytes s - nall s' * item_size s) <? nbytes s)
      then (if 5 * nbytes s <? 4 * T then 2 * nbytes s else 5 * nbytes s / 4)
      else nbytes s.
Proof.
  intros Hwf Hn.
  destruct (compact_set_shape A T s need m Hwf Hn)
    as [s' [m' [E [_ [_ [_ [_ [_ [_ [_ [Hb _]]]]]]]]]]].
  exists s', m'. split; [exact E | exact Hb].
Qed.

Lemma compact_set_growth_witness :
  wf full_4096 /\ 0 < nall full_4096 /\
  exists s' m',
    compact_set true PG_ALLOCSET_SEPARATE_THRESHOLD full_4096 true mem0 = Ok (s', m') /\
    nbytes s' =
      if true && (5 * (nbytes full_4096 - nall s' * item_size full_4096) <? nbytes full_4096)
      then (if 5 * nbytes full_4096 <? 4 * PG_ALLOCSET_SEPARATE_THRESHOLD
            then 2 * nbytes full_4096 else 5 * nbytes full_4096 / 4)
      else nbytes full_4096.
Proof.
  assert (Hwf : wf full_4096) by (split; closed_Z).
  assert (Hn : 0 < nall full_4096) by closed_Z.
  split; [exact Hwf |]. split; [exact Hn |].
  exact (compact_set_growth true PG_ALLOCSET_SEPARATE_THRESHOLD full_4096 true mem0 Hwf Hn).
Defined.

(** ** C9 *)

(** C9, as stated, fails: combine compacts its second operand in place.  With
    the states of two groups that saw 1..8 and 16..9, combine succeeds (also
    with assertions) and leaves the second state with a different [nsorted]
    and different array contents. *)
Lemma combine_changes_second_operand :
  exists r b' m',
    lrtm_count_distinct_combine true PG_ALLOCSET_SEPARATE_THRESHOLD
      (Some eight_ascending) (Some eight_descending) mem0 = Ok ((r, Some b'), m') /\
    nsorted b' <> nsorted eight_descending /\
    bytes (data b') <> bytes (data eight_descending).
Proof.
  eexists. eexists. eexists. split; [vm_compute; reflexivity |].
  split; vm_compute; discriminate.
Qed.

(** C9 (amended).  Whenever combine returns on two present operands, in
    either build: the second operand is what [compact_set] without a space
    request makes of it, with [item_size] and [nbytes] as before and, if it
    was already compacted, wholly unchanged; the merge itself does not
    touch it.  The result stands in for the first operand, with its
    [item_size], [typalign] and [aggctx], on a freshly allocated array, and
    the array the first operand held when the merge began is freed.  And
    combine does return: shown for builds without assertions, on two
    non-empty well-formed operands of one item size whose arrays hold a
    whole number of items. *)
Theorem combine_second_operand (T : Z) (A : bool) (a b : element_set_t) (m : mem) :
  (forall r rb m',
     lrtm_count_distinct_combine A T (Some a) (Some b) m = Ok ((r, rb), m') ->
     exists a1 m1 b1 m2 a',
       compact_set A T a false m = Ok (a1, m1) /\
       compact_set A T b false m1 = Ok (b1, m2) /\
       (* the second operand is compacted and otherwise left alone *)
       rb = Some b1 /\
       item_size b1 = item_size b /\ nbytes b1 = nbytes b /\
       (nsorted b = nall b -> b1 = b) /\
       (* the result stands in for the first operand, on a fresh array *)
       r = PointerGetDatum (Some a') /\
       item_size a' = item_size a /\ typalign a' = typalign a /\ aggctx a' = aggctx a /\
       block (data a') = next_block m2 /\
       (* the array the first operand held is freed *)
       ~ In (block (data a1)) (live m')) /\
  (A = false ->
   wf a -> wf b -> 0 < nall a -> 0 < nall b -> item_size b = item_size a ->
   (item_size a | nbytes a) -> (item_size a | nbytes b) ->
   exists r, lrtm_count_distinct_combine A T (Some a) (Some b) m = Ok r).
Proof.
  split.
  - intros r rb m' H.
    unfold lrtm_count_distinct_combine in H.
    apply bind_Ok_inv in H. destruct H as [u0 [m0 [H0 H]]].
    apply Assert_Ok_inv in H0. destruct H0 as [-> _].
    apply bind_Ok_inv in H. destruct H as [a1 [m1 [Ea H]]].
    apply bind_Ok_inv in H. destruct H as [b1 [m2 [Eb H]]].
    apply bind_Ok_inv in H. destruct H as [new [m3 [Enew H]]].
    apply bind_Ok_inv in H. destruct H as [st [m4 [Est H]]].
    apply bind_Ok_inv in H. destruct H as [u1 [m5 [_ H]]].
    apply bind_Ok_inv in H. destruct H as [u2 [m6 [_ H]]].
    apply bind_Ok_inv in H. destruct H as [u3 [m7 [_ H]]].
    apply bind_Ok_inv in H. destruct H as [u4 [m8 [Hfree H]]].
    apply bind_Ok_inv in H. destruct H as [n [m9 [Hdiv H]]].
    apply div_checked_Ok_inv in Hdiv. destruct Hdiv as [_ [-> _]].
    unfold ret in H. inversion H; subst r rb m'. clear H.
    rewrite palloc_Ok in Enew. inversion Enew; subst new m3. clear Enew.
    unfold pfree in Hfree. inversion Hfree; subst m8. clear Hfree.
    destruct (compact_set_false_frame A T a a1 m m1 Ea) as [Fa1 [_ [Fa3 [_ [Fa5 _]]]]].
    destruct (compact_set_false_frame A T b b1 m1 m2 Eb) as [Fb1 [Fb2 [_ [_ [_ Fb6]]]]].
    exists a1, m1, b1, m2. eexists.
    split; [exact Ea |]. split; [exact Eb |]. split; [reflexivity |].
    split; [exact Fb1 |]. split; [exact Fb2 |]. split; [intros Hc; apply Fb6, Hc |].
    split; [reflexivity |].
    cbn [set_nsorted set_nall set_nbytes set_data item_size typalign aggctx data block live].
    split; [exact Fa1 |]. split; [exact Fa3 |]. split; [exact Fa5 |].
    split; [reflexivity |].
    apply remove_In.
  - intros -> Hwfa Hwfb Hna Hnb Heq Hda Hdb.
    destruct (compact_set_shape false T a false m Hwfa Hna)
      as [a1 [m1 [Ea [Hia [_ [_ [_ [Hsa [Hna1 [Hfita [Hba [Hla _]]]]]]]]]]]].
    destruct (compact_set_shape false T b false m1 Hwfb Hnb)
      as [b1 [m2 [Eb [Hib [_ [_ [_ [Hsb [Hnb1 [Hfitb [Hbb [Hlb _]]]]]]]]]]]].
    cbn [andb] in Hba, Hbb.
    pose proof Hwfa as [Hisa _ _ Hnba _]. pose proof Hwfb as [_ _ _ Hnbb _].
    unfold lrtm_count_distinct_combine.
    rewrite (bind_Ok _ _ _ _ _ (Assert_off _ _)).
    rewrite (bind_Ok _ _ _ _ _ Ea), (bind_Ok _ _ _ _ _ Eb).
    rewrite (bind_Ok _ _ _ _ _ (palloc_Ok _ _)).
    cbn [bytes block].
    set (fresh := map _ _). set (m3 := mkmem _ _ _).
    assert (Hadd : add32 (nbytes a1) (nbytes b1) = nbytes a + nbytes b)
      by (rewrite Hba, Hbb; apply add32_small; nia).
    assert (Hcnt : add32 (nall a1) (nall b1) = nall a1 + nall b1)
      by (apply add32_small; nia).
    assert (Hfresh : Z.of_nat (length fresh) = nbytes a + nbytes b).
    { subst fresh. rewrite length_map, length_seq, Hadd. nia. }
    destruct (combine_loop_runs a1 b1 (length fresh)
                ltac:(lia) ltac:(congruence)
                ltac:(rewrite Hia, Hba; exact Hda) ltac:(rewrite Hia, Hbb; exact Hdb)
                Hla Hlb
                (Z.to_nat (add32 (nall a1) (nall b1))) (mkcombine 0 0 0 0 fresh) 0 m3)
      as [st [Est _]].
    + split; cbn [ptr1 ptr2 tmp merged]; try lia; try apply Z.divide_0_r; reflexivity.
    + rewrite Hcnt, Hba, Hbb, Hia. nia.
    + rewrite Hcnt, Hfresh, Hia. nia.
    + rewrite (bind_Ok _ _ _ _ _ Est).
      rewrite (bind_Ok _ _ _ _ _ (Assert_off _ _)).
      rewrite (bind_Ok _ _ _ _ _ (Assert_off _ _)).
      rewrite (bind_Ok _ _ _ _ _ (Assert_off _ _)).
      rewrite (bind_Ok (pfree (data a1)) _ _ _ tt eq_refl).
      div_ok ltac:(cbn [set_nbytes set_data item_size]; lia).
      eexists. reflexivity.
Qed.

Lemma combine_second_operand_witness :
  wf eight_ascending /\ wf eight_descending /\
  0 < nall eight_ascending /\ 0 < nall eight_descending /\
  item_size eight_descending = item_size eight_ascending /\
  (item_size eight_ascending | nbytes eight_ascending) /\
  (item_size eight_ascending | nbytes eight_descending) /\
  exists r rb m',
    lrtm_count_distinct_combine false PG_ALLOCSET_SEPARATE_THRESHOLD
      (Some eight_ascending) (Some eight_descending) mem0 = Ok ((r, rb), m') /\
    exists b1 a',
      rb = Some b1 /\
      item_size b1 = item_size eight_descending /\
      nbytes b1 = nbytes eight_descending /\
      r = PointerGetDatum (Some a') /\
      item_size a' = item_size eight_ascending.
Proof.
  assert (Hwfa : wf eight_ascending) by (split; closed_Z).
  assert (Hwfb : wf eight_descending) by (split; closed_Z).
  assert (Hna : 0 < nall eight_ascending) by closed_Z.
  assert (Hnb : 0 < nall eight_descending) by closed_Z.
  assert (Heq : item_size eight_descending = item_size eight_ascending) by closed_Z.
  assert (Hda : (item_size eight_ascending | nbytes eight_ascending))
    by (exists 8; closed_Z).
  assert (Hdb : (item_size eight_ascending | nbytes eight_descending))
    by (exists 8; closed_Z).
  repeat (split; [assumption |]).
  destruct (combine_second_operand PG_ALLOCSET_SEPARATE_THRESHOLD false
              eight_ascending eight_descending mem0) as [Hframe Hreturns].
  destruct (Hreturns eq_refl Hwfa Hwfb Hna Hnb Heq Hda Hdb) as [[[r rb] m'] E].
  exists r, rb, m'. split; [exact E |].
  destruct (Hframe r rb m' E)
    as [a1 [m1 [b1 [m2 [a' [_ [_ [Hrb [Hib [Hnbb [_ [Hr [Hia _]]]]]]]]]]]]].
  exists b1, a'. repeat (split; [assumption |]). exact Hia.
Defined.

(** ** C10 *)

(** C10.  For a well-formed, non-empty set with an item size of 1, 2, 4 or 8
    bytes, a capacity the functions produce and an allocator threshold of at
    least 40 bytes: when [add_element] finds that one more item does not fit,
    the [compact_set] call it makes succeeds and leaves
    [item_size * (nall + 1) <= nbytes] with the array allocated at [nbytes]
    bytes, and [add_element] then stores the item inside that array. *)
Theorem add_element_has_room (A : bool) (T : Z) (s : element_set_t)
    (value : list byte) (m : mem) :
  wf s -> 0 < nall s -> In (item_size s) [1; 2; 4; 8] ->
  capacity_shape s -> 40 <= T ->
  nbytes s < mul32 (item_size s) (add32 (nall s) 1) ->
  exists s1 m1 s2 m2,
    compact_set A T s true m = Ok (s1, m1) /\
    item_size s1 * (nall s1 + 1) <= nbytes s1 /\
    Z.of_nat (length (bytes (data s1))) = nbytes s1 /\
    add_element A T s value m = Ok (s2, m2) /\
    nall s2 = nall s1 + 1 /\ nbytes s2 = nbytes s1 /\
    Z.of_nat (length (bytes (data s2))) = nbytes s2.
Proof.
  intros Hwf Hnall Hsize Hshape HT Hfull.
  pose proof Hwf as [His Hns Hfit Hnb Hlen].
  destruct (compact_set_shape A T s true m Hwf Hnall)
    as [s1 [m1 [E [Hi [_ [_ [_ [Hs1 [Hn1 [Hfit1 [Hb1 [Hl1 _]]]]]]]]]]]].
  cbn [andb] in Hb1.
  assert (Hroom : item_size s1 * (nall s1 + 1) <= nbytes s1).
  { rewrite Hi, Hb1. apply (room_after_compaction T (nbytes s) (nall s1) (item_size s));
      try assumption; lia. }
  assert (Hb32 : nbytes s1 < 2 ^ 32).
  { rewrite Hb1. destruct (free_fract_below _ _); [apply grown_lt |]; nia. }
  exists s1, m1.
  unfold add_element.
  assert (E' : (if nbytes s <? mul32 (item_size s) (add32 (nall s) 1)
                then compact_set A T s true else ret s) m = Ok (s1, m1)).
  { rewrite (proj2 (Z.ltb_lt _ _) Hfull). exact E. }
  rewrite (bind_Ok _ _ _ _ _ E').
  assert (Hm : mul32 (item_size s1) (add32 (nall s1) 1) = item_size s1 * (nall s1 + 1)).
  { rewrite add32_small by nia. apply mul32_small. nia. }
  assert_ok ltac:(apply Z.leb_le; rewrite Hm; lia).
  eexists. eexists. split; [exact E |]. split; [exact Hroom |]. split; [exact Hl1 |].
  split; [reflexivity |].
  cbn [set_nall set_bytes set_data nall nbytes data bytes].
  rewrite add32_small by nia.
  split; [reflexivity |]. split; [reflexivity |].
  rewrite memcpy_length; [exact Hl1 | | ].
  - rewrite mul32_small by nia. nia.
  - rewrite mul32_small by nia.
    pose proof (mem_read_length_le value 0 (item_size s1) ltac:(lia)). nia.
Qed.

Lemma add_element_has_room_witness :
  wf eight_ascending /\ 0 < nall eight_ascending /\
  In (item_size eight_ascending) [1; 2; 4; 8] /\
  capacity_shape eight_ascending /\ 40 <= PG_ALLOCSET_SEPARATE_THRESHOLD /\
  nbytes eight_ascending < mul32 (item_size eight_ascending) (add32 (nall eight_ascending) 1) /\
  exists s1 m1 s2 m2,
    compact_set true PG_ALLOCSET_SEPARATE_THRESHOLD eight_ascending true mem0 = Ok (s1, m1) /\
    item_size s1 * (nall s1 + 1) <= nbytes s1 /\
    Z.of_nat (length (bytes (data s1))) = nbytes s1 /\
    add_element true PG_ALLOCSET_SEPARATE_THRESHOLD eight_ascending (Int32GetDatum 9) mem0
    = Ok (s2, m2) /\
    nall s2 = nall s1 + 1 /\ nbytes s2 = nbytes s1 /\
    Z.of_nat (length (bytes (data s2))) = nbytes s2.
Proof.
  assert (Hwf : wf eight_ascending) by (split; closed_Z).
  assert (Hn : 0 < nall eight_ascending) by closed_Z.
  assert (Hi : In (item_size eight_ascending) [1; 2; 4; 8])
    by (right; right; left; reflexivity).
  assert (Hc : capacity_shape eight_ascending) by (left; closed_Z).
  assert (HT : 40 <= PG_ALLOCSET_SEPARATE_THRESHOLD) by closed_Z.
  assert (Hf : nbytes eight_ascending
               < mul32 (item_size eight_ascending) (add32 (nall eight_ascending) 1))
    by closed_Z.
  repeat (split; [assumption |]).
  exact (add_element_has_room true PG_ALLOCSET_SEPARATE_THRESHOLD eight_ascending
           (Int32GetDatum 9) mem0 Hwf Hn Hi Hc HT Hf).
Defined.

(** * Further properties *)

(** Close a goal made of closed terms. *)
Ltac closed_prop :=
  vm_compute; repeat split; solve [reflexivity | discriminate | exact I].

Lemma elements_append_loop_rejects
    (fetch_att : list byte -> Z -> Z -> M (list byte))
    (att_addlength_pointer : Z -> Z -> Z) (att_align_nominal : Z -> byte -> Z)
    (A : bool) (T : Z) (ty : typinfo) (ctx : Z) (input : ArrayType) :
  (typlen ty <? 0) || negb (typbyval ty) = true ->
  forall (idx : list Z) (p : Z) (m : mem),
    (exists i, In i idx /\ item_is_null input i = false) ->
    elements_append_loop A T fetch_att att_addlength_pointer att_align_nominal ty ctx
      None input idx (None, p) m = ElogError.
Proof.
  intros Hbad. induction idx as [|i idx IH]; intros p m [k [Hk Hnn]].
  - destruct Hk.
  - cbn [elements_append_loop]. unfold elements_append_step at 1.
    destruct (item_is_null input i) eqn:Ei.
    + rewrite (bind_Ok (ret (None, p)) _ m m _ eq_refl).
      apply IH. exists k. split; [| exact Hnn].
      destruct Hk as [-> | Hk]; [congruence | exact Hk].
    + rewrite Hbad. reflexivity.
Qed.

(** X1.  [compare_items] orders the items of one size: equal results only
    for equal bytes, the opposite sign for swapped arguments, and
    transitive; this is what [qsort_arg] needs of it. *)
Theorem compare_items_orders_items (size : Z) (a b c : list byte) :
  Z.of_nat (length a) = size -> Z.of_nat (length b) = size ->
  Z.of_nat (length c) = size ->
  compare_items a a size = 0 /\
  (compare_items a b size = 0 -> a = b) /\
  compare_items b a size = - compare_items a b size /\
  (compare_items a b size <= 0 -> compare_items b c size <= 0 ->
   compare_items a c size <= 0).
Proof.
  intros Ha Hb Hc.
  rewrite !(compare_items_memcmp size) by assumption.
  split; [apply memcmp_refl |].
  split; [apply memcmp_eq; lia |].
  split; [apply memcmp_sym |].
  apply memcmp_le_trans; lia.
Qed.

Lemma compare_items_orders_items_witness :
  Z.of_nat (length (le_split 4 1)) = 4 /\ Z.of_nat (length (le_split 4 258)) = 4 /\
  Z.of_nat (length (le_split 4 3)) = 4 /\
  compare_items (le_split 4 1) (le_split 4 1) 4 = 0 /\
  (compare_items (le_split 4 1) (le_split 4 258) 4 = 0 -> le_split 4 1 = le_split 4 258) /\
  compare_items (le_split 4 258) (le_split 4 1) 4
  = - compare_items (le_split 4 1) (le_split 4 258) 4 /\
  (compare_items (le_split 4 1) (le_split 4 258) 4 <= 0 ->
   compare_items (le_split 4 258) (le_split 4 3) 4 <= 0 ->
   compare_items (le_split 4 1) (le_split 4 3) 4 <= 0).
Proof.
  split; [reflexivity |]. split; [reflexivity |]. split; [reflexivity |].
  exact (compare_items_orders_items 4 (le_split 4 1) (le_split 4 258) (le_split 4 3)
           eq_refl eq_refl eq_refl).
Defined.

(** X2.  [compact_set] on a set whose sorted part is strictly increasing
    returns, in either build and with or without a request for space, a set
    all of whose items are sorted ([nsorted = nall]), strictly increasing in
    byte order, and exactly the items the set held, each once. *)
Theorem compact_set_sorts_and_dedups (A : bool) (T : Z) (s : element_set_t) (need : bool)
    (m : mem) :
  wf s -> 0 < nall s -> sorted_prefix s ->
  exists s' m',
    compact_set A T s need m = Ok (s', m') /\
    item_size s' = item_size s /\ nsorted s' = nall s' /\ 0 < nall s' <= nall s /\
    strictly_increasing (all_items s') /\
    (forall z, In z (all_items s') <-> In z (all_items s)).
Proof.
  intros Hwf Hnall Hsorted.
  destruct (compact_set_spec A T s need m Hwf Hnall Hsorted)
    as [s1 [m1 [E [Hi [_ [_ [_ [Hs1 [Hn1 [_ [_ [_ [_ [Hinc1 Hin1]]]]]]]]]]]]]].
  exists s1, m1. repeat split; try assumption; try lia; apply Hin1.
Qed.

Lemma compact_set_sorts_and_dedups_witness :
  wf (state_after [5; 3; 5; 1; 3; 3]) /\ 0 < nall (state_after [5; 3; 5; 1; 3; 3]) /\
  sorted_prefix (state_after [5; 3; 5; 1; 3; 3]) /\
  exists s' m',
    compact_set true PG_ALLOCSET_SEPARATE_THRESHOLD (state_after [5; 3; 5; 1; 3; 3]) false
      mem0 = Ok (s', m') /\
    item_size s' = item_size (state_after [5; 3; 5; 1; 3; 3]) /\
    nsorted s' = nall s' /\ 0 < nall s' <= nall (state_after [5; 3; 5; 1; 3; 3]) /\
    strictly_increasing (all_items s') /\
    (forall z, In z (all_items s') <-> In z (all_items (state_after [5; 3; 5; 1; 3; 3]))).
Proof.
  assert (Hwf : wf (state_after [5; 3; 5; 1; 3; 3])) by (split; closed_prop).
  assert (Hn : 0 < nall (state_after [5; 3; 5; 1; 3; 3])) by closed_prop.
  assert (Hs : sorted_prefix (state_after [5; 3; 5; 1; 3; 3])) by closed_prop.
  split; [exact Hwf |]. split; [exact Hn |]. split; [exact Hs |].
  exact (compact_set_sorts_and_dedups true PG_ALLOCSET_SEPARATE_THRESHOLD
           (state_after [5; 3; 5; 1; 3; 3]) false mem0 Hwf Hn Hs).
Defined.

(** X3.  The final function can be called again on the state it leaves:
    the second call returns the same count and changes neither the state
    nor the memory. *)
Theorem count_can_be_repeated (A : bool) (T : Z) (s : element_set_t) (m : mem) :
  wf s -> 0 < nall s ->
  exists n s1 m1,
    lrtm_count_distinct A T (Some s) m = Ok ((Some n, Some s1), m1) /\
    lrtm_count_distinct A T (Some s1) m1 = Ok ((Some n, Some s1), m1) /\
    0 < n <= nall s.
Proof.
  intros Hwf Hnall. pose proof Hwf as [His Hns Hfit Hnb Hlen].
  destruct (compact_set_shape A T s false m Hwf Hnall)
    as [s1 [m1 [E [Hi [_ [_ [_ [Hs1 [Hn1 [Hfit1 [Hb1 _]]]]]]]]]]].
  cbn [andb] in Hb1.
  exists (nall s1), s1, m1. unfold lrtm_count_distinct.
  rewrite (bind_Ok _ _ _ _ _ E).
  rewrite (bind_Ok _ _ _ _ _
             (compact_set_noop A T s1 m1 ltac:(lia) Hs1
                ltac:(rewrite mul32_small by nia; nia))).
  split; [reflexivity |]. split; [reflexivity | lia].
Qed.

Lemma count_can_be_repeated_witness :
  wf (state_after [5; 3; 5; 1; 3; 3]) /\ 0 < nall (state_after [5; 3; 5; 1; 3; 3]) /\
  exists n s1 m1,
    lrtm_count_distinct true PG_ALLOCSET_SEPARATE_THRESHOLD
      (Some (state_after [5; 3; 5; 1; 3; 3])) mem0 = Ok ((Some n, Some s1), m1) /\
    lrtm_count_distinct true PG_ALLOCSET_SEPARATE_THRESHOLD (Some s1) m1
    = Ok ((Some n, Some s1), m1) /\
    0 < n <= nall (state_after [5; 3; 5; 1; 3; 3]).
Proof.
  assert (Hwf : wf (state_after [5; 3; 5; 1; 3; 3])) by (split; closed_prop).
  assert (Hn : 0 < nall (state_after [5; 3; 5; 1; 3; 3])) by closed_prop.
  split; [exact Hwf |]. split; [exact Hn |].
  exact (count_can_be_repeated true PG_ALLOCSET_SEPARATE_THRESHOLD
           (state_after [5; 3; 5; 1; 3; 3]) mem0 Hwf Hn).
Defined.

(** X4.  With room for one more item, [add_element] stores the first
    [item_size] bytes of the value right behind the items the set holds and
    counts it; it does not compact, does not allocate, and leaves the
    sorted part, the capacity and every other item as they were. *)
Theorem add_element_with_room (A : bool) (T : Z) (s : element_set_t) (value : list byte)
    (m : mem) :
  wf s -> (nall s + 1) * item_size s <= nbytes s ->
  item_size s <= Z.of_nat (length value) ->
  exists s',
    add_element A T s value m = Ok (s', m) /\
    all_items s' = all_items s ++ [item_of (item_size s) value] /\
    item_size s' = item_size s /\ nsorted s' = nsorted s /\ nall s' = nall s + 1 /\
    nbytes s' = nbytes s /\ block (data s') = block (data s) /\
    length (bytes (data s')) = length (bytes (data s)).
Proof.
  intros Hwf Hroom Hval.
  destruct (add_element_room A T s value m Hwf Hroom Hval) as [E [HL [Hall _]]].
  eexists. split; [exact E |].
  unfold all_items at 1. cbn [item_size nsorted nall nbytes data bytes block].
  split; [exact Hall |]. repeat split. exact HL.
Qed.

Lemma add_element_with_room_witness :
  wf (state_after [1; 2]) /\
  (nall (state_after [1; 2]) + 1) * item_size (state_after [1; 2])
  <= nbytes (state_after [1; 2]) /\
  item_size (state_after [1; 2]) <= Z.of_nat (length (Int32GetDatum 9)) /\
  exists s',
    add_element true PG_ALLOCSET_SEPARATE_THRESHOLD (state_after [1; 2]) (Int32GetDatum 9)
      mem0 = Ok (s', mem0) /\
    all_items s'
    = all_items (state_after [1; 2])
      ++ [item_of (item_size (state_after [1; 2])) (Int32GetDatum 9)] /\
    item_size s' = item_size (state_after [1; 2]) /\
    nsorted s' = nsorted (state_after [1; 2]) /\
    nall s' = nall (state_after [1; 2]) + 1 /\
    nbytes s' = nbytes (state_after [1; 2]) /\
    block (data s') = block (data (state_after [1; 2])) /\
    length (bytes (data s')) = length (bytes (data (state_after [1; 2]))).
Proof.
  assert (Hwf : wf (state_after [1; 2])) by (split; closed_prop).
  assert (Hr : (nall (state_after [1; 2]) + 1) * item_size (state_after [1; 2])
               <= nbytes (state_after [1; 2])) by closed_prop.
  assert (Hv : item_size (state_after [1; 2]) <= Z.of_nat (length (Int32GetDatum 9)))
    by closed_prop.
  split; [exact Hwf |]. split; [exact Hr |]. split; [exact Hv |].
  exact (add_element_with_room true PG_ALLOCSET_SEPARATE_THRESHOLD (state_after [1; 2])
           (Int32GetDatum 9) mem0 Hwf Hr Hv).
Defined.

(** X5.  The transition function on an absent state and a non-null value
    of a by-value type of 1, 2, 4 or 8 bytes creates a set of 32 bytes
    capacity that records the type's length and alignment and the aggregate
    context, and holds the value as its one, not yet sorted, item. *)
Theorem append_to_absent_state (A : bool) (T : Z) (ty : typinfo) (ctx : Z) (v : list byte)
    (m : mem) :
  In (typlen ty) [1; 2; 4; 8] -> typbyval ty = true ->
  typlen ty <= Z.of_nat (length v) ->
  exists s m',
    lrtm_count_distinct_append A T ty ctx None (Some v) m = Ok (Some s, m') /\
    item_size s = typlen ty /\ typalign s = typalign_of ty /\ aggctx s = ctx /\
    nsorted s = 0 /\ nall s = 1 /\ nbytes s = ARRAY_INIT_SIZE /\
    all_items s = [item_of (typlen ty) v] /\
    state_inv s.
Proof.
  intros Hsize Hbyval Hv.
  destruct (append_first A T ty ctx v m Hsize Hbyval Hv)
    as [s [m' [E [Hinv [Hi [Hta [Hag [Hns [Hn [Hb [Hall _]]]]]]]]]]].
  exists s, m'. split; [exact E |]. split; [exact Hi |]. split; [exact Hta |].
  split; [exact Hag |]. split; [exact Hns |]. split; [exact Hn |].
  split; [exact Hb |]. split; [exact Hall | exact Hinv].
Qed.

Lemma append_to_absent_state_witness :
  In (typlen int4) [1; 2; 4; 8] /\ typbyval int4 = true /\
  typlen int4 <= Z.of_nat (length (Int32GetDatum 7)) /\
  exists s m',
    lrtm_count_distinct_append true PG_ALLOCSET_SEPARATE_THRESHOLD int4 0 None
      (Some (Int32GetDatum 7)) mem0 = Ok (Some s, m') /\
    item_size s = typlen int4 /\ typalign s = typalign_of int4 /\ aggctx s = 0 /\
    nsorted s = 0 /\ nall s = 1 /\ nbytes s = ARRAY_INIT_SIZE /\
    all_items s = [item_of (typlen int4) (Int32GetDatum 7)] /\
    state_inv s.
Proof.
  assert (H1 : In (typlen int4) [1; 2; 4; 8]) by (right; right; left; reflexivity).
  assert (H2 : typbyval int4 = true) by reflexivity.
  assert (H3 : typlen int4 <= Z.of_nat (length (Int32GetDatum 7))) by closed_prop.
  split; [exact H1 |]. split; [exact H2 |]. split; [exact H3 |].
  exact (append_to_absent_state true PG_ALLOCSET_SEPARATE_THRESHOLD int4 0
           (Int32GetDatum 7) mem0 H1 H2 H3).
Defined.

(** X6.  The transition function on a state it has built and a non-null
    value: the value's item joins the items of the set, and the result is
    again such a state (the counters and the capacity fit the array, at
    least one item, a strictly increasing sorted part), with the item size,
    the alignment and the context it had.  The capacity does not shrink,
    and grows only when less than a fifth of it was free.  The type
    information of the call is not looked at. *)
Theorem append_keeps_invariant (A : bool) (T : Z) (ty : typinfo) (ctx : Z)
    (s : element_set_t) (v : list byte) (m : mem) :
  state_inv s -> 40 <= T -> grown T (nbytes s) < 2 ^ 31 ->
  item_size s <= Z.of_nat (length v) ->
  exists s' m',
    lrtm_count_distinct_append A T ty ctx (Some s) (Some v) m = Ok (Some s', m') /\
    state_inv s' /\
    item_size s' = item_size s /\ typalign s' = typalign s /\ aggctx s' = aggctx s /\
    nall s' <= nall s + 1 /\ nbytes s <= nbytes s' /\
    (nbytes s' = nbytes s \/
     nbytes s' = grown T (nbytes s) /\ 4 * nbytes s < 5 * nall s * item_size s) /\
    (forall z, In z (all_items s') <-> In z (all_items s) \/ z = item_of (item_size s) v).
Proof.
  intros Hinv HT Hgrow Hv.
  destruct (append_next A T ty ctx s v m Hinv HT Hgrow Hv)
    as [s' [m' [E [Hinv' [Hi [Hta [Hag [Hn [Hge [Hb [_ Hin]]]]]]]]]]].
  exists s', m'. split; [exact E |]. split; [exact Hinv' |]. split; [exact Hi |].
  split; [exact Hta |]. split; [exact Hag |]. split; [exact Hn |]. split; [exact Hge |].
  split; [exact Hb | exact Hin].
Qed.

Lemma append_keeps_invariant_witness :
  state_inv eight_ascending /\ 40 <= PG_ALLOCSET_SEPARATE_THRESHOLD /\
  grown PG_ALLOCSET_SEPARATE_THRESHOLD (nbytes eight_ascending) < 2 ^ 31 /\
  item_size eight_ascending <= Z.of_nat (length (Int32GetDatum 9)) /\
  exists s' m',
    lrtm_count_distinct_append true PG_ALLOCSET_SEPARATE_THRESHOLD int4 0
      (Some eight_ascending) (Some (Int32GetDatum 9)) mem0 = Ok (Some s', m') /\
    state_inv s' /\
    item_size s' = item_size eight_ascending /\ typalign s' = typalign eight_ascending /\
    aggctx s' = aggctx eight_ascending /\
    nall s' <= nall eight_ascending + 1 /\ nbytes eight_ascending <= nbytes s' /\
    (nbytes s' = nbytes eight_ascending \/
     nbytes s' = grown PG_ALLOCSET_SEPARATE_THRESHOLD (nbytes eight_ascending) /\
     4 * nbytes eight_ascending < 5 * nall eight_ascending * item_size eight_ascending) /\
    (forall z, In z (all_items s') <->
               In z (all_items eight_ascending) \/
               z = item_of (item_size eight_ascending) (Int32GetDatum 9)).
Proof.
  assert (H1 : state_inv eight_ascending).
  { split; [split; closed_prop | closed_prop | closed_prop
           | right; right; left; reflexivity | left; closed_prop]. }
  assert (H2 : 40 <= PG_ALLOCSET_SEPARATE_THRESHOLD) by closed_prop.
  assert (H3 : grown PG_ALLOCSET_SEPARATE_THRESHOLD (nbytes eight_ascending) < 2 ^ 31)
    by closed_prop.
  assert (H4 : item_size eight_ascending <= Z.of_nat (length (Int32GetDatum 9)))
    by closed_prop.
  split; [exact H1 |]. split; [exact H2 |]. split; [exact H3 |]. split; [exact H4 |].
  exact (append_keeps_invariant true PG_ALLOCSET_SEPARATE_THRESHOLD int4 0 eight_ascending
           (Int32GetDatum 9) mem0 H1 H2 H3 H4).
Defined.

(** X7.  A type of variable length or passed by reference is rejected with
    [elog(ERROR)] when a set would have to be created for it: by the scalar
    transition function on an absent state and a non-null value, and by the
    array-valued one on an absent state as soon as the array has a non-null
    element, before anything is fetched from the array. *)
Theorem append_rejects_type
    (fetch_att : list byte -> Z -> Z -> M (list byte))
    (att_addlength_pointer : Z -> Z -> Z) (att_align_nominal : Z -> byte -> Z)
    (A : bool) (T : Z) (ty : typinfo) (ctx : Z) (v : list byte)
    (input : ArrayType) (m : mem) :
  typlen ty < 0 \/ typbyval ty = false ->
  lrtm_count_distinct_append A T ty ctx None (Some v) m = ElogError /\
  ((exists i, 0 <= i < nitems input /\ item_is_null input i = false) ->
   lrtm_count_distinct_elements_append A T fetch_att att_addlength_pointer
     att_align_nominal ty ctx None (Some input) m = ElogError).
Proof.
  intros Hbad.
  assert (Hb : (typlen ty <? 0) || negb (typbyval ty) = true).
  { destruct Hbad as [H | H].
    - rewrite (proj2 (Z.ltb_lt _ _) H). reflexivity.
    - rewrite H. apply orb_true_r. }
  split.
  - unfold lrtm_count_distinct_append. rewrite Hb. reflexivity.
  - intros [i [Hi Hnn]]. unfold lrtm_count_distinct_elements_append.
    unfold bind.
    rewrite (elements_append_loop_rejects fetch_att att_addlength_pointer
               att_align_nominal A T ty ctx input Hb); [reflexivity |].
    exists i. split; [| exact Hnn].
    apply in_map_iff. exists (Z.to_nat i). split; [lia |]. apply in_seq. lia.
Qed.

Lemma append_rejects_type_witness :
  (typlen (mktypinfo (-1) false Byte.x69) < 0 \/
   typbyval (mktypinfo (-1) false Byte.x69) = false) /\
  (exists i, 0 <= i < nitems (int4_array [1; 2]) /\
             item_is_null (int4_array [1; 2]) i = false) /\
  lrtm_count_distinct_append true PG_ALLOCSET_SEPARATE_THRESHOLD
    (mktypinfo (-1) false Byte.x69) 0 None (Some (Int32GetDatum 7)) mem0 = ElogError /\
  lrtm_count_distinct_elements_append true PG_ALLOCSET_SEPARATE_THRESHOLD
    plain_fetch_att plain_att_addlength_pointer plain_att_align_nominal
    (mktypinfo (-1) false Byte.x69) 0 None (Some (int4_array [1; 2])) mem0 = ElogError.
Proof.
  assert (H : typlen (mktypinfo (-1) false Byte.x69) < 0 \/
              typbyval (mktypinfo (-1) false Byte.x69) = false) by (left; reflexivity).
  assert (Hex : exists i, 0 <= i < nitems (int4_array [1; 2]) /\
                          item_is_null (int4_array [1; 2]) i = false).
  { exists 1. split; [cbn; lia | reflexivity]. }
  split; [exact H |]. split; [exact Hex |].
  destruct (append_rejects_type plain_fetch_att plain_att_addlength_pointer
              plain_att_align_nominal true PG_ALLOCSET_SEPARATE_THRESHOLD
              (mktypinfo (-1) false Byte.x69) 0 (Int32GetDatum 7) (int4_array [1; 2]) mem0 H)
    as [E1 E2].
  split; [exact E1 | exact (E2 Hex)].
Defined.

(** X8.  The count of distinct values.  Starting from the absent state,
    the transition function called on each of a non-empty list of values
    of a by-value type of 1, 2, 4 or 8 bytes, and the final function called
    on the state that results, return the number of distinct items among
    the values, in either build. *)
Theorem count_is_number_of_distinct_values (A : bool) (T : Z) (ty : typinfo) (ctx : Z)
    (values : list (list byte)) (m : mem) :
  In (typlen ty) [1; 2; 4; 8] -> typbyval ty = true -> 40 <= T -> values <> [] ->
  Forall (fun v => length v = 8%nat) values ->
  48 * Z.of_nat (length values) < 2 ^ 31 ->
  exists s m1 s' m2,
    append_all A T ty ctx values None m = Ok (Some s, m1) /\
    lrtm_count_distinct A T (Some s) m1
    = Ok ((Some (Z.of_nat (length (nodup item_eq_dec (map (item_of (typlen ty)) values)))),
           Some s'), m2).
Proof.
  intros Hsize Hbyval HT Hne Hvals Hbound.
  destruct (append_all_from_absent A T ty ctx values m Hsize Hbyval HT Hne Hvals Hbound)
    as [s [m1 [E [[Hwf Hnall Hsorted _ _] [Hi [_ [_ [_ [_ [_ Hin]]]]]]]]]].
  destruct (count_spec A T s m1 Hwf Hnall Hsorted)
    as [s' [m2 [Ec [_ [Hi' [Hs' [Hn' [_ [_ [_ [Hinc [Huni Hin']]]]]]]]]]]].
  exists s, m1, s', m2. split; [exact E |].
  assert (Hcount : nall s'
                   = Z.of_nat (length (nodup item_eq_dec
                                         (map (item_of (typlen ty)) values)))).
  { rewrite <- (all_items_length s') by lia. apply (f_equal Z.of_nat).
    apply length_distinct.
    - exact (strictly_increasing_NoDup (item_size s) _ Huni Hinc).
    - intros z. rewrite Hin'. apply Hin. }
  rewrite Ec, Hcount. reflexivity.
Qed.

Lemma count_is_number_of_distinct_values_witness :
  In (typlen int4) [1; 2; 4; 8] /\ typbyval int4 = true /\
  40 <= PG_ALLOCSET_SEPARATE_THRESHOLD /\ map Int32GetDatum [5; 3; 5] <> [] /\
  Forall (fun v => length v = 8%nat) (map Int32GetDatum [5; 3; 5]) /\
  48 * Z.of_nat (length (map Int32GetDatum [5; 3; 5])) < 2 ^ 31 /\
  exists s m1 s' m2,
    append_all true PG_ALLOCSET_SEPARATE_THRESHOLD int4 0 (map Int32GetDatum [5; 3; 5])
      None mem0 = Ok (Some s, m1) /\
    lrtm_count_distinct true PG_ALLOCSET_SEPARATE_THRESHOLD (Some s) m1
    = Ok ((Some (Z.of_nat (length (nodup item_eq_dec
                                     (map (item_of (typlen int4))
                                        (map Int32GetDatum [5; 3; 5]))))),
           Some s'), m2).
Proof.
  assert (H1 : In (typlen int4) [1; 2; 4; 8]) by (right; right; left; reflexivity).
  assert (H2 : typbyval int4 = true) by reflexivity.
  assert (H3 : 40 <= PG_ALLOCSET_SEPARATE_THRESHOLD) by closed_prop.
  assert (H4 : map Int32GetDatum [5; 3; 5] <> []) by discriminate.
  assert (H5 : Forall (fun v => length v = 8%nat) (map Int32GetDatum [5; 3; 5]))
    by (repeat constructor).
  assert (H6 : 48 * Z.of_nat (length (map Int32GetDatum [5; 3; 5])) < 2 ^ 31)
    by closed_prop.
  split; [exact H1 |]. split; [exact H2 |]. split; [exact H3 |]. split; [exact H4 |].
  split; [exact H5 |]. split; [exact H6 |].
  exact (count_is_number_of_distinct_values true PG_ALLOCSET_SEPARATE_THRESHOLD int4 0
           (map Int32GetDatum [5; 3; 5]) mem0 H1 H2 H3 H4 H5 H6).
Defined.

(** X9.  The array of distinct values.  On the state the transition
    function builds from a non-empty list of values, both array-returning
    final functions return the items of the values, each once, in strictly
    increasing byte order; on an absent state they return the empty
    array. *)
Theorem array_is_sorted_distinct_values (A : bool) (T : Z) (ty : typinfo) (ctx : Z)
    (values : list (list byte)) (m : mem) :
  In (typlen ty) [1; 2; 4; 8] -> typbyval ty = true -> 40 <= T -> values <> [] ->
  Forall (fun v => length v = 8%nat) values ->
  48 * Z.of_nat (length values) < 2 ^ 31 ->
  array_agg_distinct_type_by_element A T None m = Ok (([], None), m) /\
  array_agg_distinct_type_by_array A T None m = Ok (([], None), m) /\
  exists s m1 l s' m2,
    append_all A T ty ctx values None m = Ok (Some s, m1) /\
    array_agg_distinct_type_by_element A T (Some s) m1 = Ok ((l, Some s'), m2) /\
    array_agg_distinct_type_by_array A T (Some s) m1 = Ok ((l, Some s'), m2) /\
    strictly_increasing l /\
    (forall z, In z l <-> In z (map (item_of (typlen ty)) values)).
Proof.
  intros Hsize Hbyval HT Hne Hvals Hbound.
  split; [reflexivity |]. split; [reflexivity |].
  destruct (append_all_from_absent A T ty ctx values m Hsize Hbyval HT Hne Hvals Hbound)
    as [s [m1 [E [[Hwf Hnall Hsorted _ _] [Hi [_ [_ [_ [_ [_ Hin]]]]]]]]]].
  destruct (count_spec A T s m1 Hwf Hnall Hsorted)
    as [s' [m2 [_ [[m3 Eb] [Hi' [Hs' [Hn' [_ [_ [_ [Hinc [Huni Hin']]]]]]]]]]]].
  exists s, m1, (all_items s'), s', m3. split; [exact E |].
  unfold array_agg_distinct_type_by_element, array_agg_distinct_type_by_array.
  rewrite (bind_Ok _ _ _ _ _ Eb). cbn [fst snd].
  split; [reflexivity |]. split; [reflexivity |]. split; [exact Hinc |].
  intros z. rewrite Hin'. apply Hin.
Qed.

Lemma array_is_sorted_distinct_values_witness :
  In (typlen int4) [1; 2; 4; 8] /\ typbyval int4 = true /\
  40 <= PG_ALLOCSET_SEPARATE_THRESHOLD /\ map Int32GetDatum [5; 3; 5] <> [] /\
  Forall (fun v => length v = 8%nat) (map Int32GetDatum [5; 3; 5]) /\
  48 * Z.of_nat (length (map Int32GetDatum [5; 3; 5])) < 2 ^ 31 /\
  array_agg_distinct_type_by_element true PG_ALLOCSET_SEPARATE_THRESHOLD None mem0
  = Ok (([], None), mem0) /\
  array_agg_distinct_type_by_array true PG_ALLOCSET_SEPARATE_THRESHOLD None mem0
  = Ok (([], None), mem0) /\
  exists s m1 l s' m2,
    append_all true PG_ALLOCSET_SEPARATE_THRESHOLD int4 0 (map Int32GetDatum [5; 3; 5])
      None mem0 = Ok (Some s, m1) /\
    array_agg_distinct_type_by_element true PG_ALLOCSET_SEPARATE_THRESHOLD (Some s) m1
    = Ok ((l, Some s'), m2) /\
    array_agg_distinct_type_by_array true PG_ALLOCSET_SEPARATE_THRESHOLD (Some s) m1
    = Ok ((l, Some s'), m2) /\
    strictly_increasing l /\
    (forall z, In z l <-> In z (map (item_of (typlen int4)) (map Int32GetDatum [5; 3; 5]))).
Proof.
  assert (H1 : In (typlen int4) [1; 2; 4; 8]) by (right; right; left; reflexivity).
  assert (H2 : typbyval int4 = true) by reflexivity.
  assert (H3 : 40 <= PG_ALLOCSET_SEPARATE_THRESHOLD) by closed_prop.
  assert (H4 : map Int32GetDatum [5; 3; 5] <> []) by discriminate.
  assert (H5 : Forall (fun v => length v = 8%nat) (map Int32GetDatum [5; 3; 5]))
    by (repeat constructor).
  assert (H6 : 48 * Z.of_nat (length (map Int32GetDatum [5; 3; 5])) < 2 ^ 31)
    by closed_prop.
  split; [exact H1 |]. split; [exact H2 |]. split; [exact H3 |]. split; [exact H4 |].
  split; [exact H5 |]. split; [exact H6 |].
  exact (array_is_sorted_distinct_values true PG_ALLOCSET_SEPARATE_THRESHOLD int4 0
           (map Int32GetDatum [5; 3; 5]) mem0 H1 H2 H3 H4 H5 H6).
Defined.

(** X10.  The array has as many items as the count says: on one state the
    final function and the array-returning final function compact to the
    same state, and the length of the array is the count.  (The memories
    they leave differ: the array function keeps its array of [Datum]s
    allocated.) *)
Theorem array_length_is_count (A : bool) (T : Z) (s : element_set_t) (m : mem) :
  wf s -> 0 < nall s ->
  exists n l s1 m1 m2,
    lrtm_count_distinct A T (Some s) m = Ok ((Some n, Some s1), m1) /\
    array_agg_distinct_type_by_element A T (Some s) m = Ok ((l, Some s1), m2) /\
    Z.of_nat (length l) = n.
Proof.
  intros Hwf Hnall.
  destruct (compact_set_shape A T s false m Hwf Hnall)
    as [s1 [m1 [E [_ [_ [_ [_ [Hs1 [Hn1 _]]]]]]]]].
  exists (nall s1), (all_items s1), s1, m1. eexists.
  split; [unfold lrtm_count_distinct; rewrite (bind_Ok _ _ _ _ _ E); reflexivity |].
  split.
  - unfold array_agg_distinct_type_by_element.
    rewrite (bind_Ok _ _ _ _ _ (build_array_Ok A T s s1 m m1 E)). cbn [fst snd].
    unfold all_items. rewrite Hs1. reflexivity.
  - apply all_items_length. lia.
Qed.

Lemma array_length_is_count_witness :
  wf (state_after [5; 3; 5; 1; 3; 3]) /\ 0 < nall (state_after [5; 3; 5; 1; 3; 3]) /\
  exists n l s1 m1 m2,
    lrtm_count_distinct true PG_ALLOCSET_SEPARATE_THRESHOLD
      (Some (state_after [5; 3; 5; 1; 3; 3])) mem0 = Ok ((Some n, Some s1), m1) /\
    array_agg_distinct_type_by_element true PG_ALLOCSET_SEPARATE_THRESHOLD
      (Some (state_after [5; 3; 5; 1; 3; 3])) mem0 = Ok ((l, Some s1), m2) /\
    Z.of_nat (length l) = n.
Proof.
  assert (Hwf : wf (state_after [5; 3; 5; 1; 3; 3])) by (split; closed_prop).
  assert (Hn : 0 < nall (state_after [5; 3; 5; 1; 3; 3])) by closed_prop.
  split; [exact Hwf |]. split; [exact Hn |].
  exact (array_length_is_count true PG_ALLOCSET_SEPARATE_THRESHOLD
           (state_after [5; 3; 5; 1; 3; 3]) mem0 Hwf Hn).
Defined.

Lemma count_tight (A : bool) (T : Z) (r : element_set_t) (m : mem) :
  tight r ->
  lrtm_count_distinct A T (Some r) m = Ok ((Some (nall r), Some r), m).
Proof.
  intros [His Hn Hs Hb Hbd Hl Hinc]. unfold lrtm_count_distinct.
  rewrite (bind_Ok _ _ _ _ _
             (compact_set_noop A T r m Hn Hs ltac:(rewrite mul32_small by nia; nia))).
  reflexivity.
Qed.

(** X11.  The array-valued transition function is the scalar one called on
    each non-null element in turn, whenever the state is absent or the
    array has a non-null element: the same state, memory and errors.  The
    tuple-access macros are parameters; [fetch_att] is taken to succeed
    without touching the memory. *)
Theorem elements_append_is_repeated_append
    (fetch_att : list byte -> Z -> Z -> M (list byte))
    (fetch : list byte -> Z -> Z -> list byte)
    (att_addlength_pointer : Z -> Z -> Z) (att_align_nominal : Z -> byte -> Z)
    (A : bool) (T : Z) (ty : typinfo) (ctx : Z)
    (arg0 : option element_set_t) (input : ArrayType) (m : mem) :
  (forall region off len m, fetch_att region off len m = Ok (fetch region off len, m)) ->
  arg0 = None \/
  array_datums fetch att_addlength_pointer att_align_nominal
    (array_item_size ty arg0) (array_typalign ty arg0) input (array_indices input) 0
  <> [] ->
  lrtm_count_distinct_elements_append A T fetch_att att_addlength_pointer
    att_align_nominal ty ctx arg0 (Some input) m
  = append_all A T ty ctx
      (array_datums fetch att_addlength_pointer att_align_nominal
         (array_item_size ty arg0) (array_typalign ty arg0) input (array_indices input) 0)
      arg0 m.
Proof.
  intros Hfetch Hne.
  rewrite <- (elements_append_loop_none fetch_att fetch att_addlength_pointer
                att_align_nominal A T ty ctx arg0 input Hfetch (array_indices input) 0 m Hne).
  unfold lrtm_count_distinct_elements_append, array_indices.
  destruct arg0; reflexivity.
Qed.

Lemma elements_append_is_repeated_append_witness :
  (forall region off len m,
     (fun region off len => ret (fit 8 (mem_read region off len))) region off len m
     = Ok ((fun region off len => fit 8 (mem_read region off len)) region off len, m)) /\
  (@None element_set_t = None \/
   array_datums (fun region off len => fit 8 (mem_read region off len))
     plain_att_addlength_pointer plain_att_align_nominal
     (array_item_size int4 None) (array_typalign int4 None) (int4_array [1; 2])
     (array_indices (int4_array [1; 2])) 0 <> []) /\
  lrtm_count_distinct_elements_append true PG_ALLOCSET_SEPARATE_THRESHOLD
    (fun region off len => ret (fit 8 (mem_read region off len)))
    plain_att_addlength_pointer plain_att_align_nominal int4 0 None
    (Some (int4_array [1; 2])) mem0
  = append_all true PG_ALLOCSET_SEPARATE_THRESHOLD int4 0
      (array_datums (fun region off len => fit 8 (mem_read region off len))
         plain_att_addlength_pointer plain_att_align_nominal
         (array_item_size int4 None) (array_typalign int4 None) (int4_array [1; 2])
         (array_indices (int4_array [1; 2])) 0)
      None mem0.
Proof.
  assert (H1 : forall region off len m,
             (fun region off len => ret (fit 8 (mem_read region off len))) region off len m
             = Ok ((fun region off len => fit 8 (mem_read region off len)) region off len,
                   m)) by (intros; reflexivity).
  assert (H2 : @None element_set_t = None \/
               array_datums (fun region off len => fit 8 (mem_read region off len))
                 plain_att_addlength_pointer plain_att_align_nominal
                 (array_item_size int4 None) (array_typalign int4 None) (int4_array [1; 2])
                 (array_indices (int4_array [1; 2])) 0 <> []) by (left; reflexivity).
  split; [exact H1 |]. split; [exact H2 |].
  exact (elements_append_is_repeated_append
           (fun region off len => ret (fit 8 (mem_read region off len)))
           (fun region off len => fit 8 (mem_read region off len))
           plain_att_addlength_pointer plain_att_align_nominal
           true PG_ALLOCSET_SEPARATE_THRESHOLD int4 0 None (int4_array [1; 2]) mem0 H1 H2).
Defined.

(** X12.  Combine with an absent operand.  An absent second operand: the
    pointer of the first operand is returned in a datum that is not marked
    null, and nothing else happens; with a present first operand that is
    the state as it is, with both operands absent it is the null pointer,
    not SQL NULL.  An absent first operand: the result is a new set with
    the counters and the capacity of the second and a copy of its array in
    a new block; its [typalign] is not taken from the second operand but
    is what the allocation held; the second operand is left alone and
    nothing is freed. *)
Theorem combine_with_absent_operand (A : bool) (T : Z) (a : option element_set_t)
    (b : element_set_t) (m : mem) :
  0 <= nbytes b <= Z.of_nat (length (bytes (data b))) ->
  lrtm_count_distinct_combine A T a None m = Ok ((PointerGetDatum a, None), m) /\
  exists c m',
    lrtm_count_distinct_combine A T None (Some b) m
    = Ok ((PointerGetDatum (Some c), Some b), m') /\
    item_size c = item_size b /\ nsorted c = nsorted b /\ nall c = nall b /\
    nbytes c = nbytes b /\
    bytes (data c) = mem_read (bytes (data b)) 0 (nbytes b) /\
    block (data c) = next_block m + 1 /\
    typalign c = junk m (next_block m) 16%nat /\
    live m' = (next_block m + 1) :: next_block m :: live m.
Proof.
  intros Hb. split; [reflexivity |].
  destruct (combine_absent_first A T b m Hb)
    as [c [m' [E [Hi [Hns [Hna [Hnb [Hby [Hbl [Hta [Hlive _]]]]]]]]]]].
  exists c, m'. repeat split; assumption.
Qed.

Lemma combine_with_absent_operand_witness :
  0 <= nbytes one_three_five <= Z.of_nat (length (bytes (data one_three_five))) /\
  lrtm_count_distinct_combine true PG_ALLOCSET_SEPARATE_THRESHOLD (Some eight_ascending)
    None mem0 = Ok ((PointerGetDatum (Some eight_ascending), None), mem0) /\
  exists c m',
    lrtm_count_distinct_combine true PG_ALLOCSET_SEPARATE_THRESHOLD None
      (Some one_three_five) mem0
    = Ok ((PointerGetDatum (Some c), Some one_three_five), m') /\
    item_size c = item_size one_three_five /\ nsorted c = nsorted one_three_five /\
    nall c = nall one_three_five /\ nbytes c = nbytes one_three_five /\
    bytes (data c) = mem_read (bytes (data one_three_five)) 0 (nbytes one_three_five) /\
    block (data c) = next_block mem0 + 1 /\
    typalign c = junk mem0 (next_block mem0) 16%nat /\
    live m' = (next_block mem0 + 1) :: next_block mem0 :: live mem0.
Proof.
  assert (H : 0 <= nbytes one_three_five
              <= Z.of_nat (length (bytes (data one_three_five)))) by closed_prop.
  split; [exact H |].
  exact (combine_with_absent_operand true PG_ALLOCSET_SEPARATE_THRESHOLD
           (Some eight_ascending) one_three_five mem0 H).
Defined.

(** X13.  Combine on two tight operands of one item size (compacted sets
    whose capacity is exactly their items, as deserialization and combine
    itself leave them) returns in either build; the result is tight again,
    holds exactly the items of the two operands, each once and in strictly
    increasing byte order, and keeps the item size, alignment and context
    of the first operand; the second operand is returned unchanged. *)
Theorem combine_tight_is_union (A : bool) (T : Z) (a b : element_set_t) (m : mem) :
  tight a -> tight b -> item_size b = item_size a ->
  nbytes a + nbytes b < 2 ^ 32 ->
  exists r m',
    lrtm_count_distinct_combine A T (Some a) (Some b) m
    = Ok ((PointerGetDatum (Some r), Some b), m') /\
    tight r /\
    item_size r = item_size a /\ typalign r = typalign a /\ aggctx r = aggctx a /\
    nall r <= nall a + nall b /\
    (forall z, In z (all_items r) <-> In z (all_items a) \/ In z (all_items b)).
Proof.
  intros Ha Hb Heq Hsum.
  destruct (combine_tight A T a b m Ha Hb Heq Hsum)
    as [r [m' [E [Ht [Hi [Hta [Hag [Hn [_ [_ Hin]]]]]]]]]].
  exists r, m'. split; [exact E |]. split; [exact Ht |]. split; [exact Hi |].
  split; [exact Hta |]. split; [exact Hag |]. split; [exact Hn | exact Hin].
Qed.

Lemma combine_tight_is_union_witness :
  tight (tight_int4 1 [1; 3]) /\ tight (tight_int4 2 [3; 5; 7]) /\
  item_size (tight_int4 2 [3; 5; 7]) = item_size (tight_int4 1 [1; 3]) /\
  nbytes (tight_int4 1 [1; 3]) + nbytes (tight_int4 2 [3; 5; 7]) < 2 ^ 32 /\
  exists r m',
    lrtm_count_distinct_combine true PG_ALLOCSET_SEPARATE_THRESHOLD
      (Some (tight_int4 1 [1; 3])) (Some (tight_int4 2 [3; 5; 7])) mem0
    = Ok ((PointerGetDatum (Some r), Some (tight_int4 2 [3; 5; 7])), m') /\
    tight r /\
    item_size r = item_size (tight_int4 1 [1; 3]) /\
    typalign r = typalign (tight_int4 1 [1; 3]) /\
    aggctx r = aggctx (tight_int4 1 [1; 3]) /\
    nall r <= nall (tight_int4 1 [1; 3]) + nall (tight_int4 2 [3; 5; 7]) /\
    (forall z, In z (all_items r) <->
               In z (all_items (tight_int4 1 [1; 3])) \/
               In z (all_items (tight_int4 2 [3; 5; 7]))).
Proof.
  assert (H1 : tight (tight_int4 1 [1; 3])) by (split; closed_prop).
  assert (H2 : tight (tight_int4 2 [3; 5; 7])) by (split; closed_prop).
  assert (H3 : item_size (tight_int4 2 [3; 5; 7]) = item_size (tight_int4 1 [1; 3]))
    by reflexivity.
  assert (H4 : nbytes (tight_int4 1 [1; 3]) + nbytes (tight_int4 2 [3; 5; 7]) < 2 ^ 32)
    by closed_prop.
  split; [exact H1 |]. split; [exact H2 |]. split; [exact H3 |]. split; [exact H4 |].
  exact (combine_tight_is_union true PG_ALLOCSET_SEPARATE_THRESHOLD
           (tight_int4 1 [1; 3]) (tight_int4 2 [3; 5; 7]) mem0 H1 H2 H3 H4).
Defined.

(** X14.  On tight operands combine is commutative: either order of the
    operands gives the same sequence of items and the same count. *)
Theorem combine_tight_commutes (A : bool) (T : Z) (a b : element_set_t) (m : mem) :
  tight a -> tight b -> item_size b = item_size a ->
  nbytes a + nbytes b < 2 ^ 32 ->
  exists r1 m1 r2 m2,
    lrtm_count_distinct_combine A T (Some a) (Some b) m
    = Ok ((PointerGetDatum (Some r1), Some b), m1) /\
    lrtm_count_distinct_combine A T (Some b) (Some a) m
    = Ok ((PointerGetDatum (Some r2), Some a), m2) /\
    all_items r1 = all_items r2 /\
    lrtm_count_distinct A T (Some r1) m1 = Ok ((Some (nall r1), Some r1), m1) /\
    lrtm_count_distinct A T (Some r2) m2 = Ok ((Some (nall r1), Some r2), m2).
Proof.
  intros Ha Hb Heq Hsum.
  destruct (combine_tight A T a b m Ha Hb Heq Hsum)
    as [r1 [m1 [E1 [Ht1 [Hi1 [_ [_ [_ [_ [_ Hin1]]]]]]]]]].
  destruct (combine_tight A T b a m Hb Ha ltac:(congruence) ltac:(lia))
    as [r2 [m2 [E2 [Ht2 [Hi2 [_ [_ [_ [_ [_ Hin2]]]]]]]]]].
  assert (Hall : all_items r1 = all_items r2).
  { apply (strictly_increasing_unique (item_size a)).
    - rewrite <- Hi1. apply tight_uniform. exact Ht1.
    - rewrite <- Heq, <- Hi2. apply tight_uniform. exact Ht2.
    - destruct Ht1. assumption.
    - destruct Ht2. assumption.
    - intros z. rewrite Hin1, Hin2. tauto. }
  assert (Hn : nall r1 = nall r2).
  { destruct Ht1 as [_ Hn1 _ _ _ _ _]. destruct Ht2 as [_ Hn2 _ _ _ _ _].
    rewrite <- (all_items_length r1), <- (all_items_length r2) by lia.
    rewrite Hall. reflexivity. }
  exists r1, m1, r2, m2. split; [exact E1 |]. split; [exact E2 |]. split; [exact Hall |].
  split; [apply count_tight; exact Ht1 |].
  rewrite Hn. apply count_tight. exact Ht2.
Qed.

Lemma combine_tight_commutes_witness :
  tight (tight_int4 1 [1; 3]) /\ tight (tight_int4 2 [3; 5; 7]) /\
  item_size (tight_int4 2 [3; 5; 7]) = item_size (tight_int4 1 [1; 3]) /\
  nbytes (tight_int4 1 [1; 3]) + nbytes (tight_int4 2 [3; 5; 7]) < 2 ^ 32 /\
  exists r1 m1 r2 m2,
    lrtm_count_distinct_combine true PG_ALLOCSET_SEPARATE_THRESHOLD
      (Some (tight_int4 1 [1; 3])) (Some (tight_int4 2 [3; 5; 7])) mem0
    = Ok ((PointerGetDatum (Some r1), Some (tight_int4 2 [3; 5; 7])), m1) /\
    lrtm_count_distinct_combine true PG_ALLOCSET_SEPARATE_THRESHOLD
      (Some (tight_int4 2 [3; 5; 7])) (Some (tight_int4 1 [1; 3])) mem0
    = Ok ((PointerGetDatum (Some r2), Some (tight_int4 1 [1; 3])), m2) /\
    all_items r1 = all_items r2 /\
    lrtm_count_distinct true PG_ALLOCSET_SEPARATE_THRESHOLD (Some r1) m1
    = Ok ((Some (nall r1), Some r1), m1) /\
    lrtm_count_distinct true PG_ALLOCSET_SEPARATE_THRESHOLD (Some r2) m2
    = Ok ((Some (nall r1), Some r2), m2).
Proof.
  assert (H1 : tight (tight_int4 1 [1; 3])) by (split; closed_prop).
  assert (H2 : tight (tight_int4 2 [3; 5; 7])) by (split; closed_prop).
  assert (H3 : item_size (tight_int4 2 [3; 5; 7]) = item_size (tight_int4 1 [1; 3]))
    by reflexivity.
  assert (H4 : nbytes (tight_int4 1 [1; 3]) + nbytes (tight_int4 2 [3; 5; 7]) < 2 ^ 32)
    by closed_prop.
  split; [exact H1 |]. split; [exact H2 |]. split; [exact H3 |]. split; [exact H4 |].
  exact (combine_tight_commutes true PG_ALLOCSET_SEPARATE_THRESHOLD
           (tight_int4 1 [1; 3]) (tight_int4 2 [3; 5; 7]) mem0 H1 H2 H3 H4).
Defined.

(** X15.  On tight operands combine is associative: combining three sets
    in either grouping gives the same sequence of items, the items of the
    three sets, each once. *)
Theorem combine_tight_associates (A : bool) (T : Z) (a b c : element_set_t) (m : mem) :
  tight a -> tight b -> tight c ->
  item_size b = item_size a -> item_size c = item_size a ->
  nbytes a + nbytes b + nbytes c < 2 ^ 32 ->
  exists ab m1 abc m2 bc m3 abc' m4,
    lrtm_count_distinct_combine A T (Some a) (Some b) m
    = Ok ((PointerGetDatum (Some ab), Some b), m1) /\
    lrtm_count_distinct_combine A T (Some ab) (Some c) m1
    = Ok ((PointerGetDatum (Some abc), Some c), m2) /\
    lrtm_count_distinct_combine A T (Some b) (Some c) m
    = Ok ((PointerGetDatum (Some bc), Some c), m3) /\
    lrtm_count_distinct_combine A T (Some a) (Some bc) m3
    = Ok ((PointerGetDatum (Some abc'), Some bc), m4) /\
    all_items abc = all_items abc' /\ nall abc = nall abc' /\
    (forall z, In z (all_items abc) <->
               In z (all_items a) \/ In z (all_items b) \/ In z (all_items c)).
Proof.
  intros Ha Hb Hc Hab Hac Hsum.
  pose proof Ha as [_ _ _ _ _ Hla _]. pose proof Hb as [_ _ _ _ _ Hlb _].
  pose proof Hc as [_ _ _ _ _ Hlc _].
  assert (Hpa : 0 <= nbytes a) by (destruct Ha; nia).
  assert (Hpb : 0 <= nbytes b) by (destruct Hb; nia).
  assert (Hpc : 0 <= nbytes c) by (destruct Hc; nia).
  destruct (combine_tight A T a b m Ha Hb Hab ltac:(lia))
    as [ab [m1 [E1 [Ht1 [Hi1 [_ [_ [_ [Hb1 [_ Hin1]]]]]]]]]].
  destruct (combine_tight A T ab c m1 Ht1 Hc ltac:(congruence) ltac:(lia))
    as [abc [m2 [E2 [Ht2 [Hi2 [_ [_ [_ [_ [_ Hin2]]]]]]]]]].
  destruct (combine_tight A T b c m Hb Hc ltac:(congruence) ltac:(lia))
    as [bc [m3 [E3 [Ht3 [Hi3 [_ [_ [_ [Hb3 [_ Hin3]]]]]]]]]].
  destruct (combine_tight A T a bc m3 Ha Ht3 ltac:(congruence) ltac:(lia))
    as [abc' [m4 [E4 [Ht4 [Hi4 [_ [_ [_ [_ [_ Hin4]]]]]]]]]].
  assert (Hall : all_items abc = all_items abc').
  { apply (strictly_increasing_unique (item_size a)).
    - replace (item_size a) with (item_size abc) by congruence.
      apply tight_uniform. exact Ht2.
    - replace (item_size a) with (item_size abc') by congruence.
      apply tight_uniform. exact Ht4.
    - destruct Ht2. assumption.
    - destruct Ht4. assumption.
    - intros z. rewrite Hin2, Hin1, Hin4, Hin3. tauto. }
  exists ab, m1, abc, m2, bc, m3, abc', m4.
  split; [exact E1 |]. split; [exact E2 |]. split; [exact E3 |]. split; [exact E4 |].
  split; [exact Hall |].
  split.
  { destruct Ht2 as [_ Hn2 _ _ _ _ _]. destruct Ht4 as [_ Hn4 _ _ _ _ _].
    rewrite <- (all_items_length abc), <- (all_items_length abc') by lia.
    rewrite Hall. reflexivity. }
  intros z. rewrite Hin2, Hin1. tauto.
Qed.

Lemma combine_tight_associates_witness :
  tight (tight_int4 1 [1; 3]) /\ tight (tight_int4 2 [3; 5; 7]) /\
  tight (tight_int4 3 [2]) /\
  item_size (tight_int4 2 [3; 5; 7]) = item_size (tight_int4 1 [1; 3]) /\
  item_size (tight_int4 3 [2]) = item_size (tight_int4 1 [1; 3]) /\
  nbytes (tight_int4 1 [1; 3]) + nbytes (tight_int4 2 [3; 5; 7])
  + nbytes (tight_int4 3 [2]) < 2 ^ 32 /\
  exists ab m1 abc m2 bc m3 abc' m4,
    lrtm_count_distinct_combine true PG_ALLOCSET_SEPARATE_THRESHOLD
      (Some (tight_int4 1 [1; 3])) (Some (tight_int4 2 [3; 5; 7])) mem0
    = Ok ((PointerGetDatum (Some ab), Some (tight_int4 2 [3; 5; 7])), m1) /\
    lrtm_count_distinct_combine true PG_ALLOCSET_SEPARATE_THRESHOLD
      (Some ab) (Some (tight_int4 3 [2])) m1
    = Ok ((PointerGetDatum (Some abc), Some (tight_int4 3 [2])), m2) /\
    lrtm_count_distinct_combine true PG_ALLOCSET_SEPARATE_THRESHOLD
      (Some (tight_int4 2 [3; 5; 7])) (Some (tight_int4 3 [2])) mem0
    = Ok ((PointerGetDatum (Some bc), Some (tight_int4 3 [2])), m3) /\
    lrtm_count_distinct_combine true PG_ALLOCSET_SEPARATE_THRESHOLD
      (Some (tight_int4 1 [1; 3])) (Some bc) m3
    = Ok ((PointerGetDatum (Some abc'), Some bc), m4) /\
    all_items abc = all_items abc' /\ nall abc = nall abc' /\
    (forall z, In z (all_items abc) <->
               In z (all_items (tight_int4 1 [1; 3])) \/
               In z (all_items (tight_int4 2 [3; 5; 7])) \/
               In z (all_items (tight_int4 3 [2]))).
Proof.
  assert (H1 : tight (tight_int4 1 [1; 3])) by (split; closed_prop).
  assert (H2 : tight (tight_int4 2 [3; 5; 7])) by (split; closed_prop).
  assert (H3 : tight (tight_int4 3 [2])) by (split; closed_prop).
  assert (H4 : item_size (tight_int4 2 [3; 5; 7]) = item_size (tight_int4 1 [1; 3]))
    by reflexivity.
  assert (H5 : item_size (tight_int4 3 [2]) = item_size (tight_int4 1 [1; 3]))
    by reflexivity.
  assert (H6 : nbytes (tight_int4 1 [1; 3]) + nbytes (tight_int4 2 [3; 5; 7])
               + nbytes (tight_int4 3 [2]) < 2 ^ 32) by closed_prop.
  split; [exact H1 |]. split; [exact H2 |]. split; [exact H3 |]. split; [exact H4 |].
  split; [exact H5 |]. split; [exact H6 |].
  exact (combine_tight_associates true PG_ALLOCSET_SEPARATE_THRESHOLD
           (tight_int4 1 [1; 3]) (tight_int4 2 [3; 5; 7]) (tight_int4 3 [2]) mem0
           H1 H2 H3 H4 H5 H6).
Defined.

(** X16.  Serializing any state the transition function builds, compacted
    or not: the state is compacted first, the payload is the header
    followed by the items that remain, and deserializing the payload (in
    whatever memory) gives a compacted set of exactly that capacity which
    holds the items of the state, each once and in strictly increasing
    byte order. *)
Theorem serial_then_deserial (A : bool) (T : Z) (s : element_set_t) (m m0 : mem) :
  wf s -> 0 < nall s -> sorted_prefix s ->
  exists payload s1 m1 d m2,
    lrtm_count_distinct_serial A T s m = Ok ((payload, s1), m1) /\
    Z.of_nat (length payload) = hlen + nall s1 * item_size s /\
    lrtm_count_distinct_deserial A payload m0 = Ok (d, m2) /\
    item_size d = item_size s /\ nsorted d = nall d /\ nall d = nall s1 /\
    nbytes d = nall d * item_size d /\
    strictly_increasing (all_items d) /\
    (forall z, In z (all_items d) <-> In z (all_items s)).
Proof.
  intros Hwf Hnall Hsorted.
  destruct (serial_deserial_spec A T s m m0 Hwf Hnall Hsorted)
    as [payload [s1 [m1 [d [m2 [E1 [Hlen [E2 [Ht [Hi [Hn [_ [Hin _]]]]]]]]]]]]].
  destruct Ht as [_ _ Hs Hb _ _ Hinc].
  exists payload, s1, m1, d, m2.
  split; [exact E1 |]. split; [exact Hlen |]. split; [exact E2 |]. split; [exact Hi |].
  split; [exact Hs |]. split; [exact Hn |]. split; [exact Hb |].
  split; [exact Hinc | exact Hin].
Qed.

Lemma serial_then_deserial_witness :
  wf (state_after [5; 3; 5; 1; 3; 3]) /\ 0 < nall (state_after [5; 3; 5; 1; 3; 3]) /\
  sorted_prefix (state_after [5; 3; 5; 1; 3; 3]) /\
  exists payload s1 m1 d m2,
    lrtm_count_distinct_serial true PG_ALLOCSET_SEPARATE_THRESHOLD
      (state_after [5; 3; 5; 1; 3; 3]) mem0 = Ok ((payload, s1), m1) /\
    Z.of_nat (length payload)
    = hlen + nall s1 * item_size (state_after [5; 3; 5; 1; 3; 3]) /\
    lrtm_count_distinct_deserial true payload mem0 = Ok (d, m2) /\
    item_size d = item_size (state_after [5; 3; 5; 1; 3; 3]) /\
    nsorted d = nall d /\ nall d = nall s1 /\
    nbytes d = nall d * item_size d /\
    strictly_increasing (all_items d) /\
    (forall z, In z (all_items d) <-> In z (all_items (state_after [5; 3; 5; 1; 3; 3]))).
Proof.
  assert (Hwf : wf (state_after [5; 3; 5; 1; 3; 3])) by (split; closed_prop).
  assert (Hn : 0 < nall (state_after [5; 3; 5; 1; 3; 3])) by closed_prop.
  assert (Hs : sorted_prefix (state_after [5; 3; 5; 1; 3; 3])) by closed_prop.
  split; [exact Hwf |]. split; [exact Hn |]. split; [exact Hs |].
  exact (serial_then_deserial true PG_ALLOCSET_SEPARATE_THRESHOLD
           (state_after [5; 3; 5; 1; 3; 3]) mem0 mem0 Hwf Hn Hs).
Defined.

(** X17.  Parallel aggregation.  Two workers run the transition function
    over their values and serialize their states; the leader deserializes
    the first payload and combines it into its absent state, deserializes
    the second and combines it into the result, and calls the final
    function.  Every step returns, in either build, and the count is the
    number of distinct items among the values of both workers. *)
Theorem parallel_count_is_distinct_union (A : bool) (T : Z) (ty : typinfo) (ctx : Z)
    (va vb : list (list byte)) (ma mb m : mem) :
  In (typlen ty) [1; 2; 4; 8] -> typbyval ty = true -> 40 <= T ->
  va <> [] -> vb <> [] ->
  Forall (fun v => length v = 8%nat) va -> Forall (fun v => length v = 8%nat) vb ->
  48 * Z.of_nat (length va) < 2 ^ 31 -> 48 * Z.of_nat (length vb) < 2 ^ 31 ->
  exists sa m1 pa sa' m2 sb m3 pb sb' m4 da m5 c m6 db m7 r m8,
    append_all A T ty ctx va None ma = Ok (Some sa, m1) /\
    lrtm_count_distinct_serial A T sa m1 = Ok ((pa, sa'), m2) /\
    append_all A T ty ctx vb None mb = Ok (Some sb, m3) /\
    lrtm_count_distinct_serial A T sb m3 = Ok ((pb, sb'), m4) /\
    lrtm_count_distinct_deserial A pa m = Ok (da, m5) /\
    lrtm_count_distinct_combine A T None (Some da) m5
    = Ok ((PointerGetDatum (Some c), Some da), m6) /\
    lrtm_count_distinct_deserial A pb m6 = Ok (db, m7) /\
    lrtm_count_distinct_combine A T (Some c) (Some db) m7
    = Ok ((PointerGetDatum (Some r), Some db), m8) /\
    lrtm_count_distinct A T (Some r) m8
    = Ok ((Some (Z.of_nat (length (nodup item_eq_dec
                                     (map (item_of (typlen ty)) (va ++ vb))))),
           Some r), m8).
Proof.
  intros Hsize Hbyval HT Hnea Hneb Hva Hvb Hba Hbb.
  assert (Hs : 0 < typlen ty <= 8) by (cbn in Hsize; intuition lia).
  destruct (append_all_from_absent A T ty ctx va ma Hsize Hbyval HT Hnea Hva Hba)
    as [sa [m1 [Ea [[Hwfa Hnalla Hsorta _ _] [Hia [_ [_ [_ [Hna [_ Hina]]]]]]]]]].
  destruct (append_all_from_absent A T ty ctx vb mb Hsize Hbyval HT Hneb Hvb Hbb)
    as [sb [m3 [Eb [[Hwfb Hnallb Hsortb _ _] [Hib [_ [_ [_ [Hnb [_ Hinb]]]]]]]]]].
  destruct (serial_deserial_spec A T sa m1 m Hwfa Hnalla Hsorta)
    as [pa [sa' [m2 [da [m5 [Esa [_ [Eda [Htda [Hida [_ [Hnda [Hinda _]]]]]]]]]]]]].
  destruct (combine_absent_first_tight A T da m5 Htda)
    as [c [m6 [Ec [Htc [Hic [Hnc [Hbc [Hallc _]]]]]]]].
  destruct (serial_deserial_spec A T sb m3 m6 Hwfb Hnallb Hsortb)
    as [pb [sb' [m4 [db [m7 [Esb [_ [Edb [Htdb [Hidb [_ [Hndb [Hindb _]]]]]]]]]]]]].
  assert (Hbda : nbytes da <= 8 * Z.of_nat (length va)).
  { destruct Htda as [? ? ? Hb ? ? ?]. rewrite Hb. nia. }
  assert (Hbdb : nbytes db <= 8 * Z.of_nat (length vb)).
  { destruct Htdb as [? ? ? Hb ? ? ?]. rewrite Hb. nia. }
  destruct (combine_tight A T c db m7 Htc Htdb ltac:(congruence) ltac:(lia))
    as [r [m8 [Er [Htr [Hir [_ [_ [_ [_ [_ Hinr]]]]]]]]]].
  exists sa, m1, pa, sa', m2, sb, m3, pb, sb', m4, da, m5, c, m6, db, m7, r, m8.
  split; [exact Ea |]. split; [exact Esa |]. split; [exact Eb |]. split; [exact Esb |].
  split; [exact Eda |]. split; [exact Ec |]. split; [exact Edb |]. split; [exact Er |].
  rewrite (count_tight A T r m8 Htr).
  assert (Hcount : nall r
                   = Z.of_nat (length (nodup item_eq_dec
                                         (map (item_of (typlen ty)) (va ++ vb))))).
  { pose proof (tight_uniform r Htr) as Hur.
    destruct Htr as [_ Hnr _ _ _ _ Hincr].
    rewrite <- (all_items_length r) by lia. apply (f_equal Z.of_nat).
    apply length_distinct.
    - exact (strictly_increasing_NoDup (item_size r) _ Hur Hincr).
    - intros z. rewrite Hinr, Hallc, Hinda, Hindb, Hina, Hinb.
      rewrite map_app, in_app_iff. reflexivity. }
  rewrite Hcount. reflexivity.
Qed.

Lemma parallel_count_is_distinct_union_witness :
  In (typlen int4) [1; 2; 4; 8] /\ typbyval int4 = true /\
  40 <= PG_ALLOCSET_SEPARATE_THRESHOLD /\
  map Int32GetDatum [2; 2] <> [] /\ map Int32GetDatum [3] <> [] /\
  Forall (fun v => length v = 8%nat) (map Int32GetDatum [2; 2]) /\
  Forall (fun v => length v = 8%nat) (map Int32GetDatum [3]) /\
  48 * Z.of_nat (length (map Int32GetDatum [2; 2])) < 2 ^ 31 /\
  48 * Z.of_nat (length (map Int32GetDatum [3])) < 2 ^ 31 /\
  exists sa m1 pa sa' m2 sb m3 pb sb' m4 da m5 c m6 db m7 r m8,
    append_all true PG_ALLOCSET_SEPARATE_THRESHOLD int4 0 (map Int32GetDatum [2; 2]) None
      mem0 = Ok (Some sa, m1) /\
    lrtm_count_distinct_serial true PG_ALLOCSET_SEPARATE_THRESHOLD sa m1
    = Ok ((pa, sa'), m2) /\
    append_all true PG_ALLOCSET_SEPARATE_THRESHOLD int4 0 (map Int32GetDatum [3]) None
      mem0 = Ok (Some sb, m3) /\
    lrtm_count_distinct_serial true PG_ALLOCSET_SEPARATE_THRESHOLD sb m3
    = Ok ((pb, sb'), m4) /\
    lrtm_count_distinct_deserial true pa mem0 = Ok (da, m5) /\
    lrtm_count_distinct_combine true PG_ALLOCSET_SEPARATE_THRESHOLD None (Some da) m5
    = Ok ((PointerGetDatum (Some c), Some da), m6) /\
    lrtm_count_distinct_deserial true pb m6 = Ok (db, m7) /\
    lrtm_count_distinct_combine true PG_ALLOCSET_SEPARATE_THRESHOLD (Some c) (Some db) m7
    = Ok ((PointerGetDatum (Some r), Some db), m8) /\
    lrtm_count_distinct true PG_ALLOCSET_SEPARATE_THRESHOLD (Some r) m8
    = Ok ((Some (Z.of_nat (length (nodup item_eq_dec
                                     (map (item_of (typlen int4))
                                        (map Int32GetDatum [2; 2]
                                         ++ map Int32GetDatum [3]))))),
           Some r), m8).
Proof.
  assert (H1 : In (typlen int4) [1; 2; 4; 8]) by (right; right; left; reflexivity).
  assert (H2 : typbyval int4 = true) by reflexivity.
  assert (H3 : 40 <= PG_ALLOCSET_SEPARATE_THRESHOLD) by closed_prop.
  assert (H4 : map Int32GetDatum [2; 2] <> []) by discriminate.
  assert (H5 : map Int32GetDatum [3] <> []) by discriminate.
  assert (H6 : Forall (fun v => length v = 8%nat) (map Int32GetDatum [2; 2]))
    by (repeat constructor).
  assert (H7 : Forall (fun v => length v = 8%nat) (map Int32GetDatum [3]))
    by (repeat constructor).
  assert (H8 : 48 * Z.of_nat (length (map Int32GetDatum [2; 2])) < 2 ^ 31) by closed_prop.
  assert (H9 : 48 * Z.of_nat (length (map Int32GetDatum [3])) < 2 ^ 31) by closed_prop.
  split; [exact H1 |]. split; [exact H2 |]. split; [exact H3 |]. split; [exact H4 |].
  split; [exact H5 |]. split; [exact H6 |]. split; [exact H7 |]. split; [exact H8 |].
  split; [exact H9 |].
  exact (parallel_count_is_distinct_union true PG_ALLOCSET_SEPARATE_THRESHOLD int4 0
           (map Int32GetDatum [2; 2]) (map Int32GetDatum [3]) mem0 mem0 mem0
           H1 H2 H3 H4 H5 H6 H7 H8 H9).
Defined.

Lemma init_set_owns (size : Z) (align : byte) (ctx : Z) (s : element_set_t) (m m' : mem) :
  (forall b, In b (live m) -> b < next_block m) ->
  init_set size align ctx m = Ok (s, m') ->
  owns m' s (next_block m :: live m).
Proof.
  intros Hfresh H. unfold init_set, palloc_element_set_t in H.
  rewrite (bind_Ok _ _ m _ _
             (bind_Ok _ _ m _ _ (palloc_Ok (sizeof_element_set_t SIZEOF_POINTER) m))) in H.
  unfold ret at 1 in H. cbn [nbytes] in H.
  rewrite (bind_Ok _ _ _ _ _ (palloc_Ok _ _)) in H.
  inversion H; subst s m'. clear H.
  split; cbn [set_data data block live next_block].
  - intros b. cbn [In]. split.
    + intros [<- | [<- | Hin]]; [left; reflexivity | right; left; reflexivity |].
      right. right. exact Hin.
    + intros [-> | [<- | Hin]]; [left; reflexivity | right; left; reflexivity |].
      right. right. exact Hin.
  - intros b. cbn [In]. intros [<- | [<- | Hin]]; try lia.
    specialize (Hfresh b Hin). lia.
  - cbn [In]. intros [H | Hin]; [lia |]. specialize (Hfresh _ Hin). lia.
Qed.

Lemma append_owns (A : bool) (T : Z) (ty : typinfo) (ctx : Z) (s s' : element_set_t)
    (v : list byte) (m m' : mem) (others : list Z) :
  lrtm_count_distinct_append A T ty ctx (Some s) (Some v) m = Ok (Some s', m') ->
  owns m s others -> owns m' s' others.
Proof.
  unfold lrtm_count_distinct_append. intros H Hown.
  rewrite (bind_Ok (ret s) _ m m s eq_refl) in H.
  apply bind_Ok_inv in H. destruct H as [s1 [m1 [Ha H]]].
  inversion H; subst s' m'. exact (add_element_owns A T s s1 v m m1 others Ha Hown).
Qed.

Lemma append_all_owns (A : bool) (T : Z) (ty : typinfo) (ctx : Z) (others : list Z) :
  forall (values : list (list byte)) (s s' : element_set_t) (m m' : mem),
    append_all A T ty ctx values (Some s) m = Ok (Some s', m') ->
    owns m s others -> owns m' s' others.
Proof.
  induction values as [|v values IH]; intros s s' m m' H Hown.
  - inversion H; subst. exact Hown.
  - cbn [append_all] in H. apply bind_Ok_inv in H. destruct H as [st1 [m1 [H1 H]]].
    pose proof H1 as H1'.
    unfold lrtm_count_distinct_append in H1'.
    apply bind_Ok_inv in H1'. destruct H1' as [e [m2 [_ H1']]].
    apply bind_Ok_inv in H1'. destruct H1' as [e' [m3 [_ H1']]].
    inversion H1'; subst st1 m3.
    exact (IH e' s' m1 m' H (append_owns A T ty ctx s e' v m m1 others H1 Hown)).
Qed.

(** X18.  No leak and no dangling array.  From an absent state, through
    any non-empty run of the transition function and the final function,
    the blocks allocated at the end are those allocated at the start, the
    block of the set itself and the data array the set points to: every
    array that compaction or growth replaced has been freed, nothing else
    has been allocated or freed, and the array of the state is allocated. *)
Theorem append_and_count_leak_nothing (A : bool) (T : Z) (ty : typinfo) (ctx : Z)
    (values : list (list byte)) (m : mem) :
  In (typlen ty) [1; 2; 4; 8] -> typbyval ty = true -> 40 <= T -> values <> [] ->
  Forall (fun v => length v = 8%nat) values ->
  48 * Z.of_nat (length values) < 2 ^ 31 ->
  (forall b, In b (live m) -> b < next_block m) ->
  exists s m1 n s' m2,
    append_all A T ty ctx values None m = Ok (Some s, m1) /\
    lrtm_count_distinct A T (Some s) m1 = Ok ((Some n, Some s'), m2) /\
    (forall b, In b (live m2) <->
               b = block (data s') \/ b = next_block m \/ In b (live m)) /\
    block (data s') <> next_block m /\ ~ In (block (data s')) (live m).
Proof.
  intros Hsize Hbyval HT Hne Hvals Hbound Hfresh.
  destruct (append_all_from_absent A T ty ctx values m Hsize Hbyval HT Hne Hvals Hbound)
    as [s [m1 [E [[Hwf Hnall Hsorted _ _] _]]]].
  destruct (count_spec A T s m1 Hwf Hnall Hsorted) as [s' [m2 [Ec _]]].
  exists s, m1, (nall s'), s', m2. split; [exact E |]. split; [exact Ec |].
  assert (Hown : owns m2 s' (next_block m :: live m)).
  { destruct values as [|v values]; [congruence |].
    cbn [append_all] in E. apply bind_Ok_inv in E. destruct E as [st1 [m3 [H1 E]]].
    unfold lrtm_count_distinct_append in H1.
    apply bind_Ok_inv in H1. destruct H1 as [e0 [m4 [Hinit H1]]].
    apply bind_Ok_inv in H1. destruct H1 as [e1 [m5 [Hadd H1]]].
    inversion H1; subst st1 m5. clear H1.
    assert (Hinit' : init_set (typlen ty) (typalign_of ty) ctx m = Ok (e0, m4)).
    { destruct ((typlen ty <? 0) || negb (typbyval ty)); [discriminate | exact Hinit]. }
    pose proof (init_set_owns _ _ _ _ _ _ Hfresh Hinit') as Hown0.
    pose proof (add_element_owns A T e0 e1 v m4 m3 _ Hadd Hown0) as Hown1.
    pose proof (append_all_owns A T ty ctx _ values e1 s m3 m1 E Hown1) as Hown2.
    unfold lrtm_count_distinct in Ec.
    apply bind_Ok_inv in Ec. destruct Ec as [s2 [m6 [Hc Ec]]].
    inversion Ec; subst s2 m6.
    exact (compact_set_owns A T s s' false m1 m2 _ Hc Hown2). }
  destruct Hown as [Hl Hf Ho].
  split; [intros b; rewrite Hl; cbn [In]; intuition congruence |].
  cbn [In] in Ho. split; intros H; apply Ho; [left; congruence | right; exact H].
Qed.

Lemma append_and_count_leak_nothing_witness :
  In (typlen int4) [1; 2; 4; 8] /\ typbyval int4 = true /\
  40 <= PG_ALLOCSET_SEPARATE_THRESHOLD /\ map Int32GetDatum [5; 3; 5] <> [] /\
  Forall (fun v => length v = 8%nat) (map Int32GetDatum [5; 3; 5]) /\
  48 * Z.of_nat (length (map Int32GetDatum [5; 3; 5])) < 2 ^ 31 /\
  (forall b, In b (live mem0) -> b < next_block mem0) /\
  exists s m1 n s' m2,
    append_all true PG_ALLOCSET_SEPARATE_THRESHOLD int4 0 (map Int32GetDatum [5; 3; 5])
      None mem0 = Ok (Some s, m1) /\
    lrtm_count_distinct true PG_ALLOCSET_SEPARATE_THRESHOLD (Some s) m1
    = Ok ((Some n, Some s'), m2) /\
    (forall b, In b (live m2) <->
               b = block (data s') \/ b = next_block mem0 \/ In b (live mem0)) /\
    block (data s') <> next_block mem0 /\ ~ In (block (data s')) (live mem0).
Proof.
  assert (H1 : In (typlen int4) [1; 2; 4; 8]) by (right; right; left; reflexivity).
  assert (H2 : typbyval int4 = true) by reflexivity.
  assert (H3 : 40 <= PG_ALLOCSET_SEPARATE_THRESHOLD) by closed_prop.
  assert (H4 : map Int32GetDatum [5; 3; 5] <> []) by discriminate.
  assert (H5 : Forall (fun v => length v = 8%nat) (map Int32GetDatum [5; 3; 5]))
    by (repeat constructor).
  assert (H6 : 48 * Z.of_nat (length (map Int32GetDatum [5; 3; 5])) < 2 ^ 31)
    by closed_prop.
  assert (H7 : forall b, In b (live mem0) -> b < next_block mem0)
    by (intros b Hb; destruct Hb).
  split; [exact H1 |]. split; [exact H2 |]. split; [exact H3 |]. split; [exact H4 |].
  split; [exact H5 |]. split; [exact H6 |]. split; [exact H7 |].
  exact (append_and_count_leak_nothing true PG_ALLOCSET_SEPARATE_THRESHOLD int4 0
           (map Int32GetDatum [5; 3; 5]) mem0 H1 H2 H3 H4 H5 H6 H7).
Defined.

(** X19.  The capacity stays linear in the number of values: after any
    non-empty run of the transition function from the absent state, the
    capacity is at most 32 bytes or three times the bytes of the values
    seen, whichever is larger; the items fit in it and the array is of
    that size. *)
Theorem append_capacity_is_linear (A : bool) (T : Z) (ty : typinfo) (ctx : Z)
    (values : list (list byte)) (m : mem) :
  In (typlen ty) [1; 2; 4; 8] -> typbyval ty = true -> 40 <= T -> values <> [] ->
  Forall (fun v => length v = 8%nat) values ->
  48 * Z.of_nat (length values) < 2 ^ 31 ->
  exists s m1,
    append_all A T ty ctx values None m = Ok (Some s, m1) /\
    nall s * item_size s <= nbytes s /\
    nbytes s <= Z.max ARRAY_INIT_SIZE (3 * typlen ty * Z.of_nat (length values)) /\
    Z.of_nat (length (bytes (data s))) = nbytes s.
Proof.
  intros Hsize Hbyval HT Hne Hvals Hbound.
  destruct (append_all_from_absent A T ty ctx values m Hsize Hbyval HT Hne Hvals Hbound)
    as [s [m1 [E [[Hwf _ _ _ _] [_ [_ [_ [_ [_ [Hcap _]]]]]]]]]].
  destruct Hwf as [_ _ Hfit _ Hlen].
  exists s, m1. split; [exact E |]. split; [exact Hfit |]. split; [exact Hcap | exact Hlen].
Qed.

Lemma append_capacity_is_linear_witness :
  In (typlen int4) [1; 2; 4; 8] /\ typbyval int4 = true /\
  40 <= PG_ALLOCSET_SEPARATE_THRESHOLD /\
  map Int32GetDatum [1; 2; 3; 4; 5; 6; 7; 8; 9] <> [] /\
  Forall (fun v => length v = 8%nat) (map Int32GetDatum [1; 2; 3; 4; 5; 6; 7; 8; 9]) /\
  48 * Z.of_nat (length (map Int32GetDatum [1; 2; 3; 4; 5; 6; 7; 8; 9])) < 2 ^ 31 /\
  exists s m1,
    append_all true PG_ALLOCSET_SEPARATE_THRESHOLD int4 0
      (map Int32GetDatum [1; 2; 3; 4; 5; 6; 7; 8; 9]) None mem0 = Ok (Some s, m1) /\
    nall s * item_size s <= nbytes s /\
    nbytes s <= Z.max ARRAY_INIT_SIZE
                  (3 * typlen int4
                   * Z.of_nat (length (map Int32GetDatum [1; 2; 3; 4; 5; 6; 7; 8; 9]))) /\
    Z.of_nat (length (bytes (data s))) = nbytes s.
Proof.
  assert (H1 : In (typlen int4) [1; 2; 4; 8]) by (right; right; left; reflexivity).
  assert (H2 : typbyval int4 = true) by reflexivity.
  assert (H3 : 40 <= PG_ALLOCSET_SEPARATE_THRESHOLD) by closed_prop.
  assert (H4 : map Int32GetDatum [1; 2; 3; 4; 5; 6; 7; 8; 9] <> []) by discriminate.
  assert (H5 : Forall (fun v => length v = 8%nat)
                 (map Int32GetDatum [1; 2; 3; 4; 5; 6; 7; 8; 9]))
    by (repeat constructor).
  assert (H6 : 48 * Z.of_nat (length (map Int32GetDatum [1; 2; 3; 4; 5; 6; 7; 8; 9]))
               < 2 ^ 31) by closed_prop.
  split; [exact H1 |]. split; [exact H2 |]. split; [exact H3 |]. split; [exact H4 |].
  split; [exact H5 |]. split; [exact H6 |].
  exact (append_capacity_is_linear true PG_ALLOCSET_SEPARATE_THRESHOLD int4 0
           (map Int32GetDatum [1; 2; 3; 4; 5; 6; 7; 8; 9]) mem0 H1 H2 H3 H4 H5 H6).
Defined.

(** X20.  In a build with assertions, combine never returns a wrong set.
    On two states of the same item size, each holding at least one item,
    well formed, with a sorted prefix and a capacity that is a multiple of
    the item size (spare capacity allowed), the call either stops on one
    of its assertions or returns: and a state it returns is compacted,
    exactly full, strictly increasing, and holds the items of the two
    operands and no others, while the second operand keeps its items. *)
Theorem combine_checked_is_sound (T : Z) (a b : element_set_t) (m : mem) :
  wf a -> wf b -> 0 < nall a -> 0 < nall b ->
  sorted_prefix a -> sorted_prefix b ->
  item_size b = item_size a ->
  (item_size a | nbytes a) -> (item_size a | nbytes b) ->
  lrtm_count_distinct_combine true T (Some a) (Some b) m = AssertFailed \/
  exists r b' m',
    lrtm_count_distinct_combine true T (Some a) (Some b) m
    = Ok ((PointerGetDatum (Some r), Some b'), m') /\
    item_size r = item_size a /\ nsorted r = nall r /\
    nbytes r = nall r * item_size r /\
    strictly_increasing (all_items r) /\
    (forall z, In z (all_items r) <-> In z (all_items a) \/ In z (all_items b)) /\
    (forall z, In z (all_items b') <-> In z (all_items b)).
Proof.
  intros Hwfa Hwfb Hna Hnb Hsorta Hsortb Heq Hda Hdb.
  pose proof Hwfa as [Hisa _ _ Hnba _]. pose proof Hwfb as [_ _ _ Hnbb _].
  destruct (compact_set_spec true T a false m Hwfa Hna Hsorta)
    as [a' [m1 [Ea [Ia [_ [_ [_ [Sa [Na [Fa [Ba [La [_ [Inca Mema]]]]]]]]]]]]]].
  destruct (compact_set_spec true T b false m1 Hwfb Hnb Hsortb)
    as [b' [m2 [Eb [Ib [_ [_ [_ [Sb [Nb [Fb [Bb [Lb [_ [Incb Memb]]]]]]]]]]]]]].
  cbn [andb] in Ba, Bb. rewrite Heq in Fb.
  assert (Hadd : add32 (nbytes a') (nbytes b') = nbytes a + nbytes b)
    by (rewrite Ba, Bb; apply add32_small; nia).
  assert (Hcnt : add32 (nall a') (nall b') = nall a' + nall b')
    by (apply add32_small; nia).
  assert (Hmab : mul32 (add32 (nall a') (nall b')) (item_size a') =
                 (nall a' + nall b') * item_size a)
    by (rewrite Hcnt, Ia; apply mul32_small; nia).
  assert (Hma : mul32 (nall a') (item_size a') = nall a' * item_size a)
    by (rewrite Ia; apply mul32_small; nia).
  assert (Hmb : mul32 (nall b') (item_size b') = nall b' * item_size a)
    by (rewrite Ib, Heq; apply mul32_small; nia).
  unfold lrtm_count_distinct_combine.
  assert_ok ltac:(rewrite Heq, Z.eqb_refl, Bool.andb_true_r; apply Z.ltb_lt; lia).
  rewrite (bind_Ok _ _ _ _ _ Ea). rewrite (bind_Ok _ _ _ _ _ Eb).
  rewrite (bind_Ok _ _ _ _ _ (palloc_Ok _ _)).
  cbn [bytes block].
  set (fresh := map _ _). set (m3 := mkmem _ _ _).
  assert (Hfresh : Z.of_nat (length fresh) = nbytes a + nbytes b).
  { subst fresh. rewrite length_map, length_seq, Hadd. nia. }
  set (n := Z.to_nat (add32 (nall a') (nall b'))).
  assert (Hn : Z.of_nat n = nall a' + nall b') by (subst n; rewrite Hcnt; lia).
  assert (Hseen : combine_seen a' b' (length fresh) 0 0 [] (mkcombine 0 0 0 0 fresh)).
  { split; cbn [ptr1 ptr2 tmp prev merged length items rev].
    - lia.
    - lia.
    - lia.
    - lia.
    - lia.
    - lia.
    - reflexivity.
    - intros p r Hpr. discriminate.
    - exact I.
    - constructor.
    - intros z. cbn [In]. tauto.
    - reflexivity. }
  destruct (combine_loop_checked a' b' (length fresh)
              ltac:(lia) ltac:(congruence)
              ltac:(rewrite Ia, Ba; exact Hda) ltac:(rewrite Ia, Bb; exact Hdb)
              La Lb n 0%nat 0%nat [] (mkcombine 0 0 0 0 fresh) m3 Hseen)
    as [Hfail | [st [k1 [k2 [racc [Est [Hseen' Hk]]]]]]].
  { rewrite Ia. cbn [Nat.add]. nia. }
  { rewrite Ia. cbn [Nat.add]. nia. }
  { left. apply bind_AssertFailed. exact Hfail. }
  rewrite (bind_Ok _ _ _ _ _ Est).
  destruct Hseen' as [P1 P2 _ _ Htmp Hcount Hout _ Hdec Huni Hmem Hlen].
  rewrite Ia in P1, P2, Htmp, Hout, Hmem.
  destruct (ptr1 st =? mul32 (nall a') (item_size a')) eqn:B1;
    [| left; reflexivity].
  assert_ok ltac:(reflexivity).
  destruct (ptr2 st =? mul32 (nall b') (item_size b')) eqn:B2;
    [| left; reflexivity].
  assert_ok ltac:(reflexivity).
  apply Z.eqb_eq in B1. apply Z.eqb_eq in B2.
  assert (Hk1 : Z.of_nat k1 = nall a') by nia.
  assert (Hk2 : Z.of_nat k2 = nall b') by nia.
  assert_ok ltac:(apply Z.leb_le; nia).
  rewrite (bind_Ok (pfree (data a')) _ m3 _ tt eq_refl).
  div_ok ltac:(cbn [set_nbytes set_data item_size]; lia).
  assert (Hu : u32 (tmp st) = Z.of_nat (length racc) * item_size a)
    by (rewrite Htmp; apply u32_small; nia).
  assert (Hdiv : Z.of_nat (length racc) * item_size a / item_size a =
                 Z.of_nat (length racc)) by (apply Z.div_mul; lia).
  right. eexists. eexists. eexists. split; [reflexivity |].
  unfold all_items.
  cbn [set_nsorted set_nall set_nbytes set_data item_size nsorted nall nbytes data
       bytes block].
  rewrite Ia, Hu, Hdiv, Nat2Z.id, Hout.
  split; [reflexivity |]. split; [reflexivity |]. split; [reflexivity |].
  split; [apply strictly_decreasing_rev; exact Hdec |].
  split; [| exact Memb].
  intros z. rewrite <- in_rev, Hmem.
  rewrite <- (Mema z), <- (Memb z). unfold all_items.
  rewrite Ia, Ib, Heq, <- Hk1, <- Hk2, !Nat2Z.id. tauto.
Qed.

Lemma combine_checked_is_sound_witness :
  (wf (state_after [1; 5; 5]) /\ wf (tight_int4 7 [3]) /\
   0 < nall (state_after [1; 5; 5]) /\ 0 < nall (tight_int4 7 [3]) /\
   sorted_prefix (state_after [1; 5; 5]) /\ sorted_prefix (tight_int4 7 [3]) /\
   item_size (tight_int4 7 [3]) = item_size (state_after [1; 5; 5]) /\
   nbytes (state_after [1; 5; 5]) = 8 * item_size (state_after [1; 5; 5]) /\
   nbytes (tight_int4 7 [3]) = 1 * item_size (state_after [1; 5; 5])) /\
  (lrtm_count_distinct_combine true PG_ALLOCSET_SEPARATE_THRESHOLD
     (Some (state_after [1; 5; 5])) (Some (tight_int4 7 [3])) mem0 = AssertFailed \/
   exists r b' m',
     lrtm_count_distinct_combine true PG_ALLOCSET_SEPARATE_THRESHOLD
       (Some (state_after [1; 5; 5])) (Some (tight_int4 7 [3])) mem0
     = Ok ((PointerGetDatum (Some r), Some b'), m') /\
     item_size r = item_size (state_after [1; 5; 5]) /\ nsorted r = nall r /\
     nbytes r = nall r * item_size r /\
     strictly_increasing (all_items r) /\
     (forall z, In z (all_items r) <->
                In z (all_items (state_after [1; 5; 5])) \/
                In z (all_items (tight_int4 7 [3]))) /\
     (forall z, In z (all_items b') <-> In z (all_items (tight_int4 7 [3])))).
Proof.
  assert (H : wf (state_after [1; 5; 5]) /\ wf (tight_int4 7 [3]) /\
   0 < nall (state_after [1; 5; 5]) /\ 0 < nall (tight_int4 7 [3]) /\
   sorted_prefix (state_after [1; 5; 5]) /\ sorted_prefix (tight_int4 7 [3]) /\
   item_size (tight_int4 7 [3]) = item_size (state_after [1; 5; 5]) /\
   nbytes (state_after [1; 5; 5]) = 8 * item_size (state_after [1; 5; 5]) /\
   nbytes (tight_int4 7 [3]) = 1 * item_size (state_after [1; 5; 5])).
  { repeat split; vm_compute; try reflexivity; try discriminate; try exact I. }
  split; [exact H |].
  destruct H as [H1 [H2 [H3 [H4 [H5 [H6 [H7 [H8 H9]]]]]]]].
  apply (combine_checked_is_sound PG_ALLOCSET_SEPARATE_THRESHOLD
           (state_after [1; 5; 5]) (tight_int4 7 [3]) mem0 H1 H2 H3 H4 H5 H6 H7).
  - exists 8. exact H8.
  - exists 1. exact H9.
Defined.
